(* ===== verification/_CoqProject ===== *)
-Q . S2P
Prelude.v
GoStd.v
GoUrl.v
GoTime.v
NetIP.v
DnsLib.v
EdnsZone.v
SpiffeZone.v
SpiffeID.v
Registry.v
Poller.v
Decision.v
Identity.v
TestCerts.v
Central.v
PodZone.v
PodWatch.v
ZoneCache.v
Agent.v
AgentConcurrent.v
Directives.v
ReadyGauge.v
DohUpstream.v
EndToEnd.v
Flags.v
Drift.v
Corefile.v
CentralSetup.v
CentralSystem.v
CentralProcess.v
AgentSetup.v
AgentSystem.v
WholeSystem.v
