(* ===== verification/Prelude.v ===== *)
(** * zonedns: a verification library

    zonedns answers DNS queries per network zone. It is two CoreDNS plugins and a
    command:

    - central ([src/plugin/zonedns]) learns from SPIRE which zone every name
      belongs to and, for an address query from another zone, answers with the
      gateway of the name's zone instead of the name's address;
    - the agent ([src/plugin/zonedns_agent]) runs on every node, finds out which
      zone a client is in (from its pod's label, or once for a VM), declares it to
      central in an EDNS0 option over mutually authenticated DoH, and caches
      the answers per zone;
    - [src/cmd/zonedns-drift] compares the names routed in Istio with the names on
      pods.

    The library models all of their code, every package under [src/internal]
    included, and proves what makes them correct: that no answer
    computed for one zone reaches another, that only authenticated agents are
    believed, that failures are closed, and that the state each part keeps is what
    it is said to be.

    ** How the source is modelled

    A pure Go function is a Rocq function of the same name; a method [T.M] is
    [T_M] where the bare name is taken. [(T, error)] is [result E T], with one
    constructor of [E] for each error return (the text of messages is left out).
    Code with side effects is in the monad [GoM] of this file, whose [None] is a
    run-time panic, so that "it returns" also says "it does not panic". What a
    handler does to the outside (metrics, logs, messages written, queries sent) is
    a trace of events. Integers are [Z], with the conversions of the source
    written out ([wrapu16], [wrapu32], [wrap64] in GoStd). Messages the source
    shares by pointer (the cache) live on an explicit heap. Goroutines are steps of
    a transition system, one step for each access to something shared.

    Code that is not in the repository is a class, of operations ([Ops]) and, where
    a theorem needs documented behaviour, of laws ([Laws]), with an instance in the
    modules of references and witnesses that satisfies them:

    - [DnsOps], [DnsLaws] (DnsLib): miekg/dns messages; [RequestOps],
      [RequestLaws]: CoreDNS's [request.Request];
    - [Strings.Unicode] (GoStd): lower-casing and folding outside ASCII;
      [UrlLib] (GoUrl), [UrlLaws] (SpiffeID): the authority part of a URL;
    - [X509Ops], [X509Laws] (TestCerts): crypto/ecdsa and crypto/x509;
    - [LruOps], [LruLaws] (ZoneCache): hashicorp's LRU list;
    - [EntryClient] (Poller): SPIRE's Entry API; [PluginOps] (Central): CoreDNS's
      plugin chain;
    - [EntryLister] (Poller), [Upstream] and [ZoneResolver] (Agent): interfaces of
      the source itself, instantiated by [spireLister], [client_upstream]
      (DohUpstream), [Watcher] and [StaticResolver];
    - [HttpOps], [SpiffeOps] (DohUpstream), [GrpcOps] (CentralSetup),
      [InClusterOps] (AgentSetup): net/http, go-spiffe, grpc, client-go;
    - [Wire] (EndToEnd), [Network] (WholeSystem): what a reply that comes back over
      mutual TLS and HTTP says about who answered what; neither says that any comes;
    - [KubeOps], [MapRange] (Drift): Kubernetes lists and Go's map iteration order;
    - [Controller], [ControllerLaws] (Corefile): caddy's token reader, the laws for
      Corefiles whose blocks are closed.

    ** Files

    - Prelude: results, the monad, automation and general lemmas.
    - GoStd, GoUrl, GoTime, NetIP, DnsLib: what the source uses of the standard
      library ([strings], [strconv], [slices], [net/url], [time.ParseDuration],
      [net/netip], [net]) and of miekg/dns.
    - EdnsZone ([internal/ednszone]): the option that carries a zone. [SetZone] and
      [GetZone] round-trip; reading accepts exactly one well-formed option.
    - SpiffeZone ([internal/spiffezone]): the zone in a SPIFFE ID's path.
    - SpiffeID: what a SPIFFE ID is, as text and as a parsed URL; the two agree, and
      [FromID] reads the zone of exactly the IDs that have one.
    - Registry ([internal/registry/registry.go]): snapshots and the store. A name
      resolves exactly when it is declared into one zone, in any order of entries.
    - Poller ([internal/registry/spire.go] and the gauges of
      [plugin/zonedns/setup.go]): paging and polling. A poll installs all pages or
      nothing; the gauges report the last success and the failures since.
    - Decision ([internal/zonetable], [internal/decision]): the decision table.
    - Identity ([internal/identity]): who may declare a zone.
    - TestCerts ([internal/testcerts]): the certificates of the tests. One issued for
      a SPIFFE ID is believed exactly when that ID is authorized.
    - Central ([plugin/zonedns/zonedns.go]): the handler. Cross-zone queries are
      answered with the gateway or refused, all others are handed on unchanged.
    - PodZone ([internal/podzone]): zones by pod address, as an invariant over any
      sequence of informer events.
    - PodWatch ([Watcher.Run] of the same package): the life of a watcher, with what
      the informer may deliver given its selector. A zone is that of a pod of this
      node, known at that address, and only while [Run] serves; [Run] reports once, after
      the informer has synced, and once its context has ended it can return whether or
      not the informer ever syncs.
    - ZoneCache ([internal/zonecache]): the cache over a heap, a refinement of the
      map of last stored values, with its TTL bounds.
    - Agent ([plugin/zonedns_agent/agent.go], [resolver.go]): the handler over the
      cache, a resolver and an upstream; isolation between zones for any sequence
      of queries, and what each outcome of an exchange leads to.
    - AgentConcurrent (the same handler): queries that run at once. Each is a thread
      that takes the handler's steps; uninterrupted, the steps are the handler, and zones
      stay isolated and the cache's time bounds hold under every interleaving. That an
      exchange returns is the HTTP client's timeout and not shown here.
    - Directives ([build/zonedns_register.go] and both [CheckDirectiveOrder]): the
      plugins' place before [cache].
    - ReadyGauge (the readiness lifecycle of [plugin/zonedns_agent/setup.go]): a
      state machine of overlapping instances; the gauge is right when readiness is
      reported in order, and how it goes wrong when not.
    - DohUpstream ([internal/dohupstream]): the DoH client; it is pinned to central
      and closes every response body it opens.
    - EndToEnd: agent, client and central put together, for any number of concurrent
      queries.
    - Flags: Go's [flag] package, and the syntax it accepts.
    - Drift ([internal/drift], [cmd/zonedns-drift]): the drift check, from the command
      line to the exit code.
    - Corefile, CentralSetup, AgentSetup (both [setup.go]): the Corefile parsers and
      the set-up of both plugins, with what each acquires and releases.
    - CentralSystem: central from set-up on, polls and queries in any order, as a
      refinement of a specification that knows only the configuration and the last
      complete listing; every record it writes is well typed.
    - CentralProcess: central's process across reloads. Every instance refines that
      specification on its own, connections are held by the instances not shut down,
      and the shared registry gauges come right once one poller is left; the file also
      shows how a reload can make registry_ready lie.
    - AgentSystem: the agent's process from set-up on, with reloads, start-up and
      shutdown hooks, watchers, the goroutines that clear the gauge and queries as the
      steps of one transition system. Every zone it declares can be traced to the
      configuration or to a pod of the node, known in the very state in which the client
      was looked up ([process_isolation]), and what happens to
      resolver_ready is a run of ReadyGauge's machine ([process_gauge]); the certificate
      sources that are open are those of the instances not shut down.
    - WholeSystem: both processes over the network between them. A client of one zone is
      never told the address of a name of another ([no_direct_answer]): what it gets was
      decided by central, as it was at an exchange of this run, and is the gateway, a
      reply without an address (a gateway with an IPv6 zone) or a failure.

    ** Fuel and bounds

    [Poller.poll_loop] counts to the source's own [maxPollPages]. The loops of the
    Corefile parsers have the number of unread tokens as fuel; that this is enough
    for a Corefile whose blocks are closed is [AgentSetup.parsers_total]. The loops of [ParseDuration] have the length of
    the text, of which every turn consumes a byte. [Run] is a function of the
    number of ticks. [AgentConcurrent.run_phases] has six steps, the longest way
    through the handler ([phases_ServeDNS]). Everything else is structural.

    ** Not modelled

    The text of log and error messages, the wire formats and the transport (packing
    of DNS messages, HTTP, TLS, gRPC), and time other than as a value the caller
    passes: a deadline is a parameter of the call it bounds. With queries that run at
    once, a [Put], a [Get] and the exchange with central are one step each: the
    cache's lock makes the first two atomic (what [Get] copies after it is never
    written again), and the upstream is shared by no state of the agent's own; a step
    that blocks is one not taken. Of client-go's informer the model keeps what it may
    deliver, pods its field selector matches ([PodWatch.delivers]), in any order and
    number, and whether it has synced. *)

From stdpp Require Export base tactics option list gmap sets strings.
From Stdlib Require Export ZArith Lia Ascii.

#[export] Set Default Goal Selector "!".
Open Scope Z_scope.

(** ** Fallible computations

    A Go function returning [(T, error)] is a function into [result E T]; the
    error type of each function lists its error returns as constructors. *)
Inductive result (E A : Type) : Type :=
  | Ok (a : A)
  | Err (e : E).
Arguments Ok {E A} a.
Arguments Err {E A} e.

#[global] Instance result_ret (E : Type) : MRet (result E) := fun A a => Ok a.

#[global] Instance result_bind (E : Type) : MBind (result E) := fun A B f m =>
  match m with Ok a => f a | Err e => Err e end.

Definition is_Ok {E A} (r : result E A) : bool :=
  match r with Ok _ => true | Err _ => false end.

Definition map_err {E F A} (f : E → F) (r : result E A) : result F A :=
  match r with Ok a => Ok a | Err e => Err (f e) end.

Lemma bind_Ok {E A B} (f : A → result E B) (m : result E A) b :
  (m ≫= f) = Ok b ↔ ∃ a, m = Ok a ∧ f a = Ok b.
Proof. destruct m; cbn; naive_solver. Qed.

Lemma map_err_Ok {E F A} (f : E → F) (r : result E A) a :
  map_err f r = Ok a ↔ r = Ok a.
Proof. destruct r; naive_solver. Qed.

(** ** Stateful code that may panic

    [GoM S A] threads the state [S] through a computation; [None] is a run-time
    panic (a nil dereference or an index out of range), which in Go unwinds the
    goroutine. *)
Definition GoM (S A : Type) : Type := S → option (A * S).

#[global] Instance GoM_ret (S : Type) : MRet (GoM S) := fun A a s => Some (a, s).

#[global] Instance GoM_bind (S : Type) : MBind (GoM S) := fun A B f m s =>
  match m s with Some (a, s') => f a s' | None => None end.

Definition get_state {S} : GoM S S := fun s => Some (s, s).
Definition set_state {S} (s : S) : GoM S unit := fun _ => Some (tt, s).
Definition modify_state {S} (f : S → S) : GoM S unit := fun s => Some (tt, f s).
Definition gets {S A} (f : S → A) : GoM S A := fun s => Some (f s, s).
Definition panic {S A} : GoM S A := fun _ => None.
Definition of_option {S A} (o : option A) : GoM S A :=
  fun s => match o with Some a => Some (a, s) | None => None end.

(** The monad's laws, at a state. *)
Lemma GoM_bind_assoc {S A B C} (m : GoM S A) (f : A → GoM S B) (g : B → GoM S C) s :
  ((m ≫= f) ≫= g) s = (m ≫= (fun a => f a ≫= g)) s.
Proof. unfold mbind, GoM_bind. by destruct (m s) as [[]|]. Qed.

Lemma GoM_bind_ret {S A B} (a : A) (f : A → GoM S B) s : (mret a ≫= f) s = f a s.
Proof. done. Qed.

Lemma GoM_bind_ext {S A B} (m : GoM S A) (f g : A → GoM S B) s :
  (∀ a s', f a s' = g a s') → (m ≫= f) s = (m ≫= g) s.
Proof. intros Hfg. unfold mbind, GoM_bind. destruct (m s) as [[]|]; [apply Hfg|done]. Qed.

Lemma GoM_bind_inv {S A B} (f : A → GoM S B) (m : GoM S A) s b s2 :
  (m ≫= f) s = Some (b, s2) → ∃ a s1, m s = Some (a, s1) ∧ f a s1 = Some (b, s2).
Proof. unfold mbind, GoM_bind. destruct (m s) as [[a s1]|]; [|done]. by exists a, s1. Qed.

(** Take a run apart into the runs of its commands. *)
Ltac go_inv H :=
  repeat (apply GoM_bind_inv in H as (? & ? & ? & H); repeat (case_match; try done)).

Lemma GoM_bind_Some {S A B} (f : A → GoM S B) (m : GoM S A) s a s' :
  m s = Some (a, s') → (m ≫= f) s = f a s'.
Proof. by unfold mbind, GoM_bind; intros ->. Qed.

(** Run the monadic glue of a computation, up to the operations it calls. *)
Ltac go_run :=
  cbv [mbind GoM_bind mret GoM_ret of_option modify_state get_state set_state gets panic].

(** ** Tactics and hints *)
Create HintDb zonedns discriminated.

Ltac destruct_bools :=
  repeat match goal with
  | H : (_ && _)%bool = true |- _ => apply andb_true_iff in H as [? ?]
  | H : (_ || _)%bool = false |- _ => apply orb_false_iff in H as [? ?]
  | H : negb _ = true |- _ => apply negb_true_iff in H
  | H : negb _ = false |- _ => apply negb_false_iff in H
  | H : bool_decide _ = true |- _ => apply bool_decide_eq_true in H
  | H : bool_decide _ = false |- _ => apply bool_decide_eq_false in H
  end.

(** Split every [match] of the goal or of a hypothesis on its scrutinee, and
    close the contradictory branches. *)
Ltac split_matches :=
  repeat (case_match; simplify_eq/=; try done).

(** ** Lists *)
Lemma list_ind_snoc {A} (P : list A → Prop) :
  P [] → (∀ l x, P l → P (l ++ [x])) → ∀ l, P l.
Proof. intros Hn Hs l. by induction l as [|x l IH] using rev_ind; [|apply Hs]. Qed.

Lemma filter_idemp {A} (P : A → Prop) `{!∀ x, Decision (P x)} (l : list A) :
  filter P (filter P l) = filter P l.
Proof.
  induction l as [|x l IH]; [done|].
  rewrite filter_cons. case_decide; [|done].
  rewrite filter_cons. by case_decide; [f_equal|].
Qed.

Lemma filter_nil_iff {A} (P : A → Prop) `{!∀ x, Decision (P x)} (l : list A) :
  filter P l = [] ↔ ∀ x, x ∈ l → ¬ P x.
Proof.
  induction l as [|y l IH]; [set_solver|].
  rewrite filter_cons. case_decide; set_solver.
Qed.

(** The cell allocated last. *)
Lemma lookup_last {A} (h : list A) x : (h ++ [x]) !! length h = Some x.
Proof. by rewrite lookup_app_r, Nat.sub_diag by lia. Qed.

Lemma insert_last {A} (h : list A) x y : <[length h := y]> (h ++ [x]) = h ++ [y].
Proof. by rewrite insert_app_r_alt, Nat.sub_diag by lia. Qed.

Lemma elem_of_filterb {A} (f : A → bool) (l : list A) x :
  x ∈ List.filter f l ↔ x ∈ l ∧ f x = true.
Proof. by rewrite list_elem_of_In, filter_In, <-list_elem_of_In. Qed.
