(* ===== verification/GoStd.v ===== *)
(** * The parts of Go's language and standard library that zonedns uses

    - [Slices]: the in-place filter idiom [kept := s[:0]; ... append(kept, x)]
      as an index loop over one shared backing array;
    - [Strings]: package [strings] on byte strings ([string] is a list of
      8-bit [ascii], which is what a Go string is);
    - [Strconv]: [ParseUint] and [Atoi] in base 10;
    - [Sort]: [sort.Strings].

    Unicode: [strings.ToLower] and [strings.EqualFold] have an ASCII path,
    modelled here, and a path over the Unicode tables of package [unicode],
    which is the parameter [Unicode]. *)

From S2P Require Import Prelude.
From stdpp Require Import sorting.

Open Scope Z_scope.

(** [time.Second], in nanoseconds. *)
Definition Second : Z := 1000000000.

(** ** Bytes *)
Definition byte_val (c : ascii) : Z := Z.of_N (N_of_ascii c).

Definition byte_of (z : Z) : ascii := ascii_of_N (Z.to_N z).

Definition in_range (lo hi c : ascii) : bool :=
  (byte_val lo <=? byte_val c) && (byte_val c <=? byte_val hi).

Lemma byte_val_bounds c : 0 ≤ byte_val c < 256.
Proof. unfold byte_val. pose proof (N_ascii_bounded c). lia. Qed.

Lemma byte_of_val c : byte_of (byte_val c) = c.
Proof. unfold byte_of, byte_val. rewrite N2Z.id. apply ascii_N_embedding. Qed.

Lemma byte_val_of z : 0 ≤ z < 256 → byte_val (byte_of z) = z.
Proof.
  intros. unfold byte_of, byte_val. rewrite N_ascii_embedding by lia. lia.
Qed.

#[global] Instance byte_val_inj : Inj (=) (=) byte_val.
Proof. intros c d H. by rewrite <-(byte_of_val c), <-(byte_of_val d), H. Qed.

(** A statement about every byte holds when it computes to [true] on all 256. *)
Definition all_bytes (P : ascii → bool) : bool :=
  forallb (fun n => P (byte_of (Z.of_nat n))) (seq 0 256).

Lemma all_bytes_spec (P : ascii → bool) :
  all_bytes P = true → ∀ c, P c = true.
Proof.
  unfold all_bytes. rewrite forallb_forall. intros H c.
  pose proof (byte_val_bounds c).
  specialize (H (Z.to_nat (byte_val c))).
  rewrite Z2Nat.id, byte_of_val in H by lia.
  apply H, in_seq. lia.
Qed.

Lemma all_bytes_eq (f g : ascii → ascii) :
  all_bytes (fun c => byte_val (f c) =? byte_val (g c)) = true → ∀ c, f c = g c.
Proof.
  intros H c. apply (inj byte_val), Z.eqb_eq. apply (all_bytes_spec _ H c).
Qed.

(** ** Slices *)
Module Slices.
Section compact.
Context {A : Type} (skip : A → bool).

(** The loop of

    [kept := s[:0]; for _, o := range s { if skip(o) { continue }; kept =
    append(kept, o) }]

    The range reads element [i] of the backing array, which the appends at
    [j] have already overwritten up to [j]; [n] elements are left to visit. *)
Fixpoint compact_loop (n i j : nat) (arr : list A) : nat * list A :=
  match n with
  | O => (j, arr)
  | S n' =>
      match arr !! i with
      | None => (j, arr)
      | Some o =>
          if skip o then compact_loop n' (S i) j arr
          else compact_loop n' (S i) (S j) (<[j:=o]> arr)
      end
  end.

(** The slice [kept] at the end of the loop: the first [j] cells. *)
Definition compact (s : list A) : list A :=
  let '(j, arr) := compact_loop (length s) 0 0 s in take j arr.

(** The cells not yet read are intact, the cells before [j] hold what was kept. *)
Lemma compact_loop_spec n i j arr :
  (j ≤ i)%nat → (i + n = length arr)%nat →
  let '(j', arr') := compact_loop n i j arr in
  take j' arr' = take j arr ++ List.filter (fun o => negb (skip o)) (drop i arr).
Proof.
  revert i j arr. induction n as [|n IH]; intros i j arr Hji Hlen; simpl.
  - rewrite drop_ge by lia. simpl. by rewrite app_nil_r.
  - destruct (lookup_lt_is_Some_2 arr i) as [o Ho]; [lia|]. rewrite Ho.
    rewrite (drop_S arr o i) by done. simpl.
    destruct (skip o); simpl.
    + apply (IH (S i) j arr); lia.
    + specialize (IH (S i) (S j) (<[j:=o]> arr)).
      rewrite length_insert in IH. specialize (IH ltac:(lia) ltac:(lia)).
      destruct (compact_loop _ _ _ _) as [j' arr']. rewrite IH.
      rewrite drop_insert_lt by lia.
      rewrite (take_S_r _ j o) by (apply list_lookup_insert_eq; lia).
      rewrite take_insert_ge by lia. by rewrite <-app_assoc.
Qed.

(** The in-place loop computes the filtered list. *)
Lemma compact_filter s :
  compact s = List.filter (fun o => negb (skip o)) s.
Proof.
  unfold compact. pose proof (compact_loop_spec (length s) 0 0 s) as H.
  destruct (compact_loop _ _ _ _). rewrite H by lia. by rewrite drop_0.
Qed.
End compact.
End Slices.

(** ** Package strings *)
Module Strings.

Fixpoint HasPrefix (s p : string) {struct p} : bool :=
  match p, s with
  | EmptyString, _ => true
  | String c p', String d s' => bool_decide (c = d) && HasPrefix s' p'
  | String _ _, EmptyString => false
  end.

(** [s[n:]], total: it is only used with [n <= len(s)]. *)
Fixpoint slice_from (n : nat) (s : string) : string :=
  match n, s with
  | S n', String _ s' => slice_from n' s'
  | S _, EmptyString => EmptyString
  | O, _ => s
  end.

(** [s[:n]]. *)
Fixpoint slice_to (n : nat) (s : string) : string :=
  match n, s with
  | S n', String c s' => String c (slice_to n' s')
  | _, _ => EmptyString
  end.

Definition HasSuffix (s suffix : string) : bool :=
  (String.length suffix <=? String.length s)%nat &&
  bool_decide (slice_from (String.length s - String.length suffix) s = suffix).

Definition TrimPrefix (s p : string) : string :=
  if HasPrefix s p then slice_from (String.length p) s else s.

Definition TrimSuffix (s suffix : string) : string :=
  if HasSuffix s suffix
  then slice_to (String.length s - String.length suffix) s else s.

Fixpoint Contains (s sub : string) : bool :=
  HasPrefix s sub ||
  match s with
  | EmptyString => false
  | String _ s' => Contains s' sub
  end.

(** [strings.Split(s, sep)] for a one-byte separator. *)
Fixpoint Split (s : string) (sep : ascii) : list string :=
  match s with
  | EmptyString => [EmptyString]
  | String c s' =>
      if bool_decide (c = sep) then EmptyString :: Split s' sep
      else match Split s' sep with
           | h :: t => String c h :: t
           | [] => [String c EmptyString]
           end
  end.

(** [strings.Cut(s, sep)] for a one-byte separator: before, after, found. *)
Fixpoint Cut (s : string) (sep : ascii) : string * string * bool :=
  match s with
  | EmptyString => (EmptyString, EmptyString, false)
  | String c s' =>
      if bool_decide (c = sep) then (EmptyString, s', true)
      else let '(before, after, found) := Cut s' sep in (String c before, after, found)
  end.

(** [strings.Count(s, sep)] for a one-byte separator. *)
Fixpoint Count (s : string) (sep : ascii) : Z :=
  match s with
  | EmptyString => 0
  | String c s' => (if bool_decide (c = sep) then 1 else 0) + Count s' sep
  end.

(** Membership of a byte in a literal set of bytes. *)
Fixpoint mem_byte (c : ascii) (set : string) : bool :=
  match set with
  | EmptyString => false
  | String d set' => bool_decide (c = d) || mem_byte c set'
  end.

(** *** Case *)
Definition is_ascii (c : ascii) : bool := byte_val c <? 128.

Definition is_upper (c : ascii) : bool := in_range "A" "Z" c.

Definition lower_byte (c : ascii) : ascii :=
  if is_upper c then byte_of (byte_val c + 32) else c.

Fixpoint string_forallb (f : ascii → bool) (s : string) : bool :=
  match s with
  | EmptyString => true
  | String c s' => f c && string_forallb f s'
  end.

Fixpoint string_map (f : ascii → ascii) (s : string) : string :=
  match s with
  | EmptyString => EmptyString
  | String c s' => String (f c) (string_map f s')
  end.

(** What the two functions below do outside ASCII: [Map(unicode.ToLower, s)],
    and the rune-by-rune comparison under simple case folding. *)
Class Unicode := {
  unicode_to_lower : string → string;
  unicode_equal_fold : string → string → bool;
}.

Definition ToLower `{Unicode} (s : string) : string :=
  if string_forallb is_ascii s then string_map lower_byte s
  else unicode_to_lower s.

(** One position of the ASCII loop of [EqualFold]: the bytes are equal, or the
    smaller is an upper-case letter and the greater its lower case. *)
Definition fold_byte (sr tr : ascii) : bool :=
  bool_decide (tr = sr) ||
  (let lo := Z.min (byte_val sr) (byte_val tr) in
   let hi := Z.max (byte_val sr) (byte_val tr) in
   (65 <=? lo) && (lo <=? 90) && (hi =? lo + 32)).

Fixpoint EqualFold `{Unicode} (s t : string) : bool :=
  match s, t with
  | String sr s', String tr t' =>
      if is_ascii sr && is_ascii tr
      then if fold_byte sr tr then EqualFold s' t' else false
      else unicode_equal_fold s t
  | EmptyString, EmptyString => true
  | _, _ => false
  end.

(** *** Facts *)
Lemma cons_app c s t : String c s +:+ t = String c (s +:+ t).
Proof. done. Qed.

Lemma nil_app t : "" +:+ t = t.
Proof. done. Qed.

Lemma string_app_nil_r s : s +:+ "" = s.
Proof. induction s as [|c s IH]; [done|]. by rewrite cons_app, IH. Qed.

Lemma string_app_assoc r s t : (r +:+ s) +:+ t = r +:+ (s +:+ t).
Proof. induction r as [|c r IH]; [done|]. by rewrite !cons_app, IH. Qed.

Lemma HasPrefix_app s t : HasPrefix (s +:+ t) s = true.
Proof.
  induction s as [|c s IH]; [by destruct t|].
  rewrite cons_app. cbn.
  by rewrite bool_decide_eq_true_2, IH.
Qed.

Lemma HasPrefix_spec s p : HasPrefix s p = true ↔ ∃ t, s = p +:+ t.
Proof.
  split.
  - revert s; induction p as [|c p IH]; intros s H; [by exists s|].
    destruct s as [|d s]; cbn in H; [done|]. destruct_bools; subst.
    destruct (IH s) as [t ->]; [done|]. by exists t.
  - intros [t ->]. apply HasPrefix_app.
Qed.

Lemma slice_from_app s t : slice_from (String.length s) (s +:+ t) = t.
Proof. induction s as [|c s IH]; [by destruct t|exact IH]. Qed.

Lemma slice_from_all s : slice_from (String.length s) s = EmptyString.
Proof. by induction s. Qed.

Lemma length_app_string s t :
  String.length (s +:+ t) = (String.length s + String.length t)%nat.
Proof.
  induction s as [|c s IH]; [done|]. rewrite cons_app. cbn. by rewrite IH.
Qed.

Lemma slice_to_app s t : slice_to (String.length s) (s +:+ t) = s.
Proof.
  induction s as [|c s IH]; [by destruct t|]. rewrite cons_app. cbn. by rewrite IH.
Qed.

Lemma TrimPrefix_app p s : TrimPrefix (p +:+ s) p = s.
Proof. unfold TrimPrefix. by rewrite HasPrefix_app, slice_from_app. Qed.

Lemma HasSuffix_app s t : HasSuffix (s +:+ t) t = true.
Proof.
  unfold HasSuffix. rewrite length_app_string.
  rewrite (proj2 (Nat.leb_le _ _)) by lia.
  replace (_ + _ - _)%nat with (String.length s) by lia.
  by rewrite slice_from_app, bool_decide_eq_true_2.
Qed.

Lemma slice_split n s : slice_to n s +:+ slice_from n s = s.
Proof.
  revert n; induction s as [|c s IH]; intros [|n]; cbn; try done.
  by rewrite cons_app, IH.
Qed.

Lemma HasSuffix_spec s t : HasSuffix s t = true ↔ ∃ r, s = r +:+ t.
Proof.
  split.
  - unfold HasSuffix. intros H; destruct_bools.
    eexists. etrans; [symmetry; apply slice_split|]. by f_equal.
  - intros [r ->]. apply HasSuffix_app.
Qed.

Lemma Contains_spec s sub : Contains s sub = true ↔ ∃ a b, s = a +:+ sub +:+ b.
Proof.
  induction s as [|c s IH]; cbn [Contains].
  - rewrite orb_false_r, HasPrefix_spec. split.
    + intros [t Ht]. by exists "", t.
    + intros ([|d a] & b & Hs); [by exists b|discriminate Hs].
  - rewrite orb_true_iff, HasPrefix_spec, IH. split.
    + intros [[t ->]|(a & b & ->)]; [by exists "", t|by exists (String c a), b].
    + intros ([|d a] & b & Hs); [left; by exists b|right]. injection Hs as -> ->. by exists a, b.
Qed.

Lemma TrimSuffix_app s t : TrimSuffix (s +:+ t) t = s.
Proof.
  unfold TrimSuffix. rewrite HasSuffix_app, length_app_string.
  replace (_ + _ - _)%nat with (String.length s) by lia. apply slice_to_app.
Qed.

Lemma Split_nonempty s sep : Split s sep ≠ [].
Proof.
  destruct s; cbn; [done|]. case_bool_decide; [done|]. by destruct (Split _ _).
Qed.

(** Splitting at a separator-free prefix isolates it. *)
Lemma Split_prefix s t sep :
  string_forallb (fun c => negb (bool_decide (c = sep))) s = true →
  Split (s +:+ String sep t) sep = s :: Split t sep.
Proof.
  induction s as [|c s IH]; intros H.
  - rewrite nil_app. cbn. by rewrite bool_decide_eq_true_2.
  - rewrite cons_app. cbn in *. destruct_bools. rewrite bool_decide_eq_false_2 by done. by rewrite IH.
Qed.

Lemma Split_no_sep s sep :
  string_forallb (fun c => negb (bool_decide (c = sep))) s = true →
  Split s sep = [s].
Proof.
  induction s as [|c s IH]; cbn; intros H; [done|]. destruct_bools.
  rewrite bool_decide_eq_false_2 by done. by rewrite IH.
Qed.

(** No field of a split contains the separator. *)
Lemma Split_fields s sep :
  Forall (fun f => string_forallb (fun c => negb (bool_decide (c = sep))) f = true)
    (Split s sep).
Proof.
  induction s as [|c s IH]; cbn; [by constructor|].
  case_bool_decide; [by constructor|].
  destruct (Split s sep) as [|h t];
    [constructor; [|constructor] | inversion_clear IH; constructor; [|done]];
    cbn; by rewrite bool_decide_eq_false_2.
Qed.

Lemma fold_byte_lower c d :
  is_ascii c = true → is_ascii d = true →
  fold_byte c d = bool_decide (lower_byte c = lower_byte d).
Proof.
  intros Hc Hd.
  assert (all_bytes (fun c => implb (is_ascii c) (all_bytes (fun d =>
    implb (is_ascii d) (Bool.eqb (fold_byte c d) (bool_decide (lower_byte c = lower_byte d))))))
    = true) as H by by vm_compute.
  pose proof (all_bytes_spec _ H c) as Hcc. cbv beta in Hcc. rewrite Hc in Hcc.
  unfold implb in Hcc at 1.
  pose proof (all_bytes_spec _ Hcc d) as Hdd. cbv beta in Hdd. rewrite Hd in Hdd.
  by apply eqb_prop.
Qed.

(** On ASCII strings [EqualFold] is equality of the [ToLower] images, so a
    name matched by one is the same cache or registry key under the other. *)
Lemma EqualFold_ToLower `{Unicode} s t :
  string_forallb is_ascii s = true → string_forallb is_ascii t = true →
  EqualFold s t = bool_decide (ToLower s = ToLower t).
Proof.
  intros Hs Ht. unfold ToLower. rewrite Hs, Ht.
  revert t Hs Ht; induction s as [|c s IH]; intros [|d t] Hs Ht; try done.
  cbn in Hs, Ht |- *. apply andb_true_iff in Hs as [Hc Hs], Ht as [Hd Ht].
  rewrite Hc, Hd. cbn. rewrite fold_byte_lower by done.
  case_bool_decide as Hcd.
  - rewrite IH by done. apply bool_decide_ext. rewrite Hcd.
    split; [by intros ->|by intros [= ->]].
  - rewrite bool_decide_eq_false_2; [done|]. by intros [= ].
Qed.

Lemma lower_byte_idemp c : lower_byte (lower_byte c) = lower_byte c.
Proof.
  apply (all_bytes_eq (fun c => lower_byte (lower_byte c)) lower_byte). by vm_compute.
Qed.

Lemma is_ascii_lower c : is_ascii c = true → is_ascii (lower_byte c) = true.
Proof.
  intros Hc.
  assert (all_bytes (fun c => implb (is_ascii c) (is_ascii (lower_byte c))) = true)
    as H by by vm_compute.
  pose proof (all_bytes_spec _ H c) as H'. cbv beta in H'. by rewrite Hc in H'.
Qed.

Lemma ToLower_idemp_ascii `{Unicode} s :
  string_forallb is_ascii s = true → ToLower (ToLower s) = ToLower s.
Proof.
  intros Hs.
  assert (ToLower s = string_map lower_byte s) as -> by (unfold ToLower; by rewrite Hs).
  unfold ToLower.
  assert (string_forallb is_ascii (string_map lower_byte s) = true) as ->.
  { induction s as [|c s IH]; cbn in *; [done|]. destruct_bools.
    by rewrite is_ascii_lower, IH. }
  clear Hs. induction s as [|c s IH]; cbn; [done|]. by rewrite lower_byte_idemp, IH.
Qed.
End Strings.

(** ** Package strconv *)
Module Strconv.
Inductive num_error := ErrSyntax | ErrRange.

Definition is_digit (c : ascii) : bool := in_range "0" "9" c.
Definition digit_val (c : ascii) : Z := byte_val c - 48.

Definition max_uint64 : Z := 2 ^ 64 - 1.
Definition cutoff : Z := max_uint64 / 10 + 1.

(** The digit loop of [ParseUint(s, 10, bitSize)], on the 64-bit accumulator
    [n]. A letter is a digit not below the base, an error like any other. *)
Fixpoint parse_uint_loop (maxVal n : Z) (s : string) : result num_error Z :=
  match s with
  | EmptyString => Ok n
  | String c s' =>
      if is_digit c then
        if cutoff <=? n then Err ErrRange
        else
          let n10 := (n * 10) mod 2 ^ 64 in
          let n1 := (n10 + digit_val c) mod 2 ^ 64 in
          if (n1 <? n10) || (maxVal <? n1) then Err ErrRange
          else parse_uint_loop maxVal n1 s'
      else Err ErrSyntax
  end.

Definition ParseUint (s : string) (bitSize : Z) : result num_error Z :=
  if bool_decide (s = "") then Err ErrSyntax
  else parse_uint_loop (2 ^ bitSize - 1) 0 s.

(** [Atoi]: [ParseInt(s, 10, 0)] with a 64-bit [int]. *)
Definition Atoi (s : string) : result num_error Z :=
  let '(neg, digits) :=
    match s with
    | String "+" s' => (false, s')
    | String "-" s' => (true, s')
    | _ => (false, s)
    end in
  match ParseUint digits 64 with
  | Err e => Err e
  | Ok un =>
      if negb neg && (2 ^ 63 <=? un) then Err ErrRange
      else if neg && (2 ^ 63 <? un) then Err ErrRange
      else Ok (if neg then - un else un)
  end.

(** The number a digit string denotes. *)
Definition decimal_from (n : Z) (s : string) : Z :=
  (fix go (n : Z) (s : string) :=
     match s with
     | EmptyString => n
     | String c s' => go (n * 10 + digit_val c) s'
     end) n s.

Lemma digit_val_bounds c : is_digit c = true → 0 ≤ digit_val c ≤ 9.
Proof.
  unfold is_digit, in_range, digit_val. intros. destruct_bools.
  change (byte_val "0") with 48 in *. change (byte_val "9") with 57 in *. lia.
Qed.

Lemma decimal_from_ge n s :
  0 ≤ n → Strings.string_forallb is_digit s = true → n ≤ decimal_from n s.
Proof.
  revert n; induction s as [|c s IH]; cbn; intros n Hn Hs; [lia|].
  destruct_bools. pose proof (digit_val_bounds c ltac:(done)).
  specialize (IH (n * 10 + digit_val c) ltac:(lia) ltac:(done)).
  unfold decimal_from in IH. lia.
Qed.

(** The loop returns [m] exactly on a digit string denoting [m <= maxVal]: the
    two overflow tests are complete and never fire early. *)
Lemma parse_uint_loop_Ok maxVal n s m :
  0 ≤ n ≤ maxVal → maxVal ≤ max_uint64 →
  parse_uint_loop maxVal n s = Ok m ↔
  Strings.string_forallb is_digit s = true ∧ decimal_from n s = m ∧ m ≤ maxVal.
Proof.
  revert n; induction s as [|c s IH]; intros n Hn Hmax; cbn [parse_uint_loop].
  - cbn. split; [intros [= <-]; lia|by intros (_ & -> & _)].
  - cbn [Strings.string_forallb].
    destruct (is_digit c) eqn:Hc; cbn; [|naive_solver].
    pose proof (digit_val_bounds c Hc) as Hd.
    assert (Hcut : 10 * cutoff > max_uint64) by done.
    assert (Hcut2 : 10 * (cutoff - 1) ≤ max_uint64) by done.
    fold (decimal_from (n * 10 + digit_val c) s).
    destruct (Z.leb_spec cutoff n).
    { split; [done|]. intros (Hs & Heq & Hle).
      pose proof (decimal_from_ge (n * 10 + digit_val c) s ltac:(lia) Hs). lia. }
    unfold max_uint64 in *.
    assert (Hm1 : (n * 10) mod 2 ^ 64 = n * 10) by (apply Z.mod_small; lia).
    rewrite Hm1.
    destruct (Z.le_gt_cases (2 ^ 64) (n * 10 + digit_val c)) as [Hov|Hov].
    + assert (Hw : (n * 10 + digit_val c) mod 2 ^ 64 = n * 10 + digit_val c - 2 ^ 64).
      { symmetry. apply (Z.mod_unique _ _ 1); lia. }
      rewrite Hw. rewrite (proj2 (Z.ltb_lt _ _)) by lia. cbn.
      split; [done|]. intros (Hs & Heq & Hle).
      pose proof (decimal_from_ge (n * 10 + digit_val c) s ltac:(lia) Hs). lia.
    + rewrite (Z.mod_small (n * 10 + digit_val c)) by lia.
      rewrite (proj2 (Z.ltb_ge _ _)) by lia. cbn.
      destruct (Z.ltb_spec maxVal (n * 10 + digit_val c)).
      * split; [done|]. intros (Hs & Heq & Hle).
        pose proof (decimal_from_ge (n * 10 + digit_val c) s ltac:(lia) Hs). lia.
      * apply IH; lia.
Qed.

Lemma ParseUint_Ok s bitSize m :
  0 ≤ bitSize ≤ 64 →
  ParseUint s bitSize = Ok m ↔
  s ≠ "" ∧ Strings.string_forallb is_digit s = true ∧
  decimal_from 0 s = m ∧ m ≤ 2 ^ bitSize - 1.
Proof.
  intros Hb. unfold ParseUint.
  pose proof (Z.pow_pos_nonneg 2 bitSize).
  pose proof (Z.pow_le_mono_r 2 bitSize 64).
  case_bool_decide; [naive_solver|].
  rewrite parse_uint_loop_Ok by (unfold max_uint64; lia). naive_solver.
Qed.

Lemma ParseUint_bounds s bitSize m :
  0 ≤ bitSize ≤ 64 → ParseUint s bitSize = Ok m → 0 ≤ m < 2 ^ bitSize.
Proof.
  intros Hb H%ParseUint_Ok; [|done]. destruct H as (_ & Hs & <- & Hle).
  pose proof (decimal_from_ge 0 s ltac:(lia) Hs). lia.
Qed.
End Strconv.

(** ** Package sort *)
Module Sort.
(** [sort.Strings]: increasing byte order. Equal strings are
    indistinguishable, so the sorted list is unique. *)
Definition Strings (l : list string) : list string := merge_sort String.le l.

Lemma Strings_perm l : Strings l ≡ₚ l.
Proof. apply merge_sort_Permutation. Qed.

Lemma Strings_sorted l : StronglySorted String.le (Strings l).
Proof. apply (StronglySorted_merge_sort String.le). Qed.

Lemma Strings_unique l l' :
  l ≡ₚ l' → Strings l = Strings l'.
Proof.
  intros H. apply (StronglySorted_unique String.le); [apply Strings_sorted..|].
  by rewrite !Strings_perm.
Qed.
End Sort.
