(* ===== verification/GoUrl.v ===== *)
(** * Package net/url, as far as zonedns uses it

    [Parse] follows the standard library up to the authority component, whose
    syntax check (user information, bracketed hosts, ports) is the parameter
    [UrlLib]: zonedns looks at the scheme and the path of a URL, and at whether
    it parses. [URL_String] is [( *URL).String]. *)

From S2P Require Import Prelude GoStd.
Import Strings.

Open Scope Z_scope.

Record Userinfo := { username : string; password : option string }.

Record URL := {
  Scheme : string;
  Opaque : string;
  User : option Userinfo;
  Host : string;
  Path : string;
  RawPath : string;
  OmitHost : bool;
  ForceQuery : bool;
  RawQuery : string;
  Fragment : string;
  RawFragment : string;
}.

Inductive url_error :=
  | ErrControlCharacter
  | ErrMissingScheme
  | ErrColonInFirstSegment
  | ErrAuthority
  | ErrEscape (s : string).

(** [parseAuthority]: the user information and the host, or an error. *)
Class UrlLib := { parseAuthority : string → option (option Userinfo * string) }.

(** ** Escaping *)
Inductive encoding := encodePath | encodeHost | encodeUserPassword | encodeFragment.

Definition is_alnum (c : ascii) : bool :=
  in_range "a" "z" c || in_range "A" "Z" c || in_range "0" "9" c.

Definition shouldEscape (c : ascii) (mode : encoding) : bool :=
  if is_alnum c then false
  else if match mode with
          | encodeHost => mem_byte c "!$&'()*+,;=:[]<>" || (byte_val c =? 34)
          | _ => false
          end then false
  else if mem_byte c "-_.~" then false
  else if mem_byte c "$&+,/:;=?@" then
    match mode with
    | encodePath => mem_byte c "?"
    | encodeUserPassword => mem_byte c "@/?:"
    | encodeFragment => false
    | encodeHost => true
    end
  else match mode with
       | encodeFragment => negb (mem_byte c "!()*")
       | _ => true
       end.

Definition hex_digit (n : Z) : ascii :=
  if n <? 10 then byte_of (48 + n) else byte_of (55 + n).

Fixpoint escape (s : string) (mode : encoding) : string :=
  match s with
  | EmptyString => EmptyString
  | String c s' =>
      if shouldEscape c mode
      then String "%" (String (hex_digit (byte_val c / 16))
             (String (hex_digit (byte_val c mod 16)) (escape s' mode)))
      else String c (escape s' mode)
  end.

Definition unhex (c : ascii) : option Z :=
  if in_range "0" "9" c then Some (byte_val c - 48)
  else if in_range "a" "f" c then Some (byte_val c - 97 + 10)
  else if in_range "A" "F" c then Some (byte_val c - 65 + 10)
  else None.

(** [unescape] in the path and fragment modes, where a malformed [%XX] is the
    only error. *)
Fixpoint unescape (s : string) : option string :=
  match s with
  | EmptyString => Some EmptyString
  | String c s' =>
      if bool_decide (c = "%"%char) then
        match s' with
        | String h (String l rest) =>
            match unhex h, unhex l with
            | Some a, Some b => String (byte_of (16 * a + b)) <$> unescape rest
            | _, _ => None
            end
        | _ => None
        end
      else String c <$> unescape s'
  end.

Definition validEncoded (s : string) (mode : encoding) : bool :=
  string_forallb (fun c =>
    mem_byte c "!$&'()*+,;=:@" || mem_byte c "[]" || mem_byte c "%" ||
    negb (shouldEscape c mode)) s.

(** ** Parse *)

(** [getScheme]: the loop at position [i], with the bytes already passed in
    [seen]; [None] is the missing-scheme error. *)
Fixpoint getScheme_loop (raw seen rest : string) : option (string * string) :=
  match rest with
  | EmptyString => Some ("", raw)
  | String c rest' =>
      if in_range "a" "z" c || in_range "A" "Z" c
      then getScheme_loop raw (seen +:+ String c "") rest'
      else if in_range "0" "9" c || mem_byte c "+-." then
        if bool_decide (seen = "") then Some ("", raw)
        else getScheme_loop raw (seen +:+ String c "") rest'
      else if bool_decide (c = ":"%char) then
        if bool_decide (seen = "") then None else Some (seen, rest')
      else Some ("", raw)
  end.

Definition getScheme (raw : string) : option (string * string) :=
  getScheme_loop raw "" raw.

Definition is_ctl (c : ascii) : bool := (byte_val c <? 32) || (byte_val c =? 127).

(** [u.setPath(p)] *)
Definition setPath (u : URL) (p : string) : result url_error URL :=
  match unescape p with
  | None => Err (ErrEscape p)
  | Some path =>
      Ok {| Scheme := Scheme u; Opaque := Opaque u; User := User u; Host := Host u;
            Path := path;
            RawPath := if bool_decide (p = escape path encodePath) then "" else p;
            OmitHost := OmitHost u; ForceQuery := ForceQuery u;
            RawQuery := RawQuery u; Fragment := Fragment u;
            RawFragment := RawFragment u |}
  end.

Definition setFragment (u : URL) (f : string) : result url_error URL :=
  match unescape f with
  | None => Err (ErrEscape f)
  | Some frag =>
      Ok {| Scheme := Scheme u; Opaque := Opaque u; User := User u; Host := Host u;
            Path := Path u; RawPath := RawPath u; OmitHost := OmitHost u;
            ForceQuery := ForceQuery u; RawQuery := RawQuery u; Fragment := frag;
            RawFragment := if bool_decide (f = escape frag encodeFragment) then "" else f |}
  end.

Section parse.
Context `{Unicode, UrlLib}.

Definition mk_url (scheme opaque : string) (user : option Userinfo) (host : string)
    (omit force : bool) (query : string) : URL :=
  {| Scheme := scheme; Opaque := opaque; User := user; Host := host; Path := "";
     RawPath := ""; OmitHost := omit; ForceQuery := force; RawQuery := query;
     Fragment := ""; RawFragment := "" |}.

(** The authority, when there is one, and the path that follows it. *)
Definition parse_hier (scheme rest : string) (force : bool) (query : string)
    : result url_error URL :=
  if (negb (bool_decide (scheme = "")) || negb (HasPrefix rest "///")) &&
     HasPrefix rest "//"
  then
    let authority := slice_from 2 rest in
    let '(host_part, after, found) := Cut authority "/" in
    let path := if found then String "/" after else "" in
    match parseAuthority host_part with
    | None => Err ErrAuthority
    | Some (user, host) => setPath (mk_url scheme "" user host false force query) path
    end
  else
    let omit := negb (bool_decide (scheme = "")) && HasPrefix rest "/" in
    setPath (mk_url scheme "" None "" omit force query) rest.

(** [parse(rawURL, false)] *)
Definition parse (raw : string) : result url_error URL :=
  if negb (string_forallb (fun c => negb (is_ctl c)) raw) then Err ErrControlCharacter
  else if bool_decide (raw = "*") then
    Ok {| Scheme := ""; Opaque := ""; User := None; Host := ""; Path := "*";
          RawPath := ""; OmitHost := false; ForceQuery := false; RawQuery := "";
          Fragment := ""; RawFragment := "" |}
  else
    match getScheme raw with
    | None => Err ErrMissingScheme
    | Some (scheme0, rest0) =>
        let scheme := ToLower scheme0 in
        let '(rest, force, query) :=
          if HasSuffix rest0 "?" && (Count rest0 "?" =? 1)
          then (TrimSuffix rest0 "?", true, "")
          else let '(before, after, _) := Cut rest0 "?" in (before, false, after) in
        if negb (HasPrefix rest "/") then
          if negb (bool_decide (scheme = "")) then
            Ok (mk_url scheme rest None "" false force query)
          else if Contains (Cut rest "/").1.1 ":" then Err ErrColonInFirstSegment
          else parse_hier scheme rest force query
        else parse_hier scheme rest force query
    end.

Definition Parse (rawURL : string) : result url_error URL :=
  let '(u, frag, _) := Cut rawURL "#" in
  url ← parse u;
  if bool_decide (frag = "") then Ok url else setFragment url frag.
End parse.

(** ** String *)
Definition EscapedPath (u : URL) : string :=
  if negb (bool_decide (RawPath u = "")) && validEncoded (RawPath u) encodePath &&
     bool_decide (unescape (RawPath u) = Some (Path u))
  then RawPath u
  else if bool_decide (Path u = "*") then "*" else escape (Path u) encodePath.

Definition EscapedFragment (u : URL) : string :=
  if negb (bool_decide (RawFragment u = "")) && validEncoded (RawFragment u) encodeFragment &&
     bool_decide (unescape (RawFragment u) = Some (Fragment u))
  then RawFragment u else escape (Fragment u) encodeFragment.

Definition Userinfo_String (ui : Userinfo) : string :=
  if bool_decide (username ui = "") && bool_decide (password ui = None) then ""
  else escape (username ui) encodeUserPassword +:+
       match password ui with
       | Some p => ":" +:+ escape p encodeUserPassword
       | None => ""
       end.

Definition URL_String (u : URL) : string :=
  let scheme := if bool_decide (Scheme u = "") then "" else Scheme u +:+ ":" in
  let hier :=
    if negb (bool_decide (Opaque u = "")) then Opaque u
    else
      let has_user := bool_decide (is_Some (User u)) in
      let authority :=
        if negb (bool_decide (Scheme u = "")) || negb (bool_decide (Host u = "")) || has_user
        then
          if OmitHost u && bool_decide (Host u = "") && negb has_user then ""
          else
            (if negb (bool_decide (Host u = "")) || negb (bool_decide (Path u = "")) || has_user
             then "//" else "") +:+
            match User u with Some ui => Userinfo_String ui +:+ "@" | None => "" end +:+
            escape (Host u) encodeHost
        else "" in
      let path := EscapedPath u in
      let slash :=
        if negb (bool_decide (path = "")) && negb (HasPrefix path "/") &&
           negb (bool_decide (Host u = "")) then "/" else "" in
      let dot :=
        if bool_decide (scheme +:+ authority +:+ slash = "") &&
           Contains (Cut path "/").1.1 ":" then "./" else "" in
      authority +:+ slash +:+ dot +:+ path in
  scheme +:+ hier +:+
  (if ForceQuery u || negb (bool_decide (RawQuery u = "")) then "?" +:+ RawQuery u else "") +:+
  (if bool_decide (Fragment u = "") then "" else "#" +:+ EscapedFragment u).

(** An authority check for the witnesses: no user information, any host. *)
Module UrlReference.
#[export] Instance ref_url : UrlLib := {| parseAuthority a := Some (None, a) |}.
End UrlReference.
