(* ===== verification/GoTime.v ===== *)
(** * Package time: ParseDuration

    Used by the Corefile's [poll_interval]. A duration is an int64 number of
    nanoseconds; the fractional part goes through float64, here the Standard
    Library's IEEE 754 specification at 53 bits of precision. *)

From Corelib Require Import SpecFloat.
From S2P Require Import Prelude GoStd.
Import Strings Strconv.

Open Scope Z_scope.

Inductive duration_error := ErrInvalidDuration | ErrMissingUnit | ErrUnknownUnit (u : string).

(** float64 of a uint64, and uint64 of a float64 (truncation). *)
Definition float_of (x : Z) : spec_float := binary_normalize 53 1024 x 0 false.

Definition trunc (f : spec_float) : Z :=
  match f with
  | S754_finite false m e => if 0 <=? e then Z.pos m * 2 ^ e else Z.pos m / 2 ^ (- e)
  | S754_finite true m e => - (if 0 <=? e then Z.pos m * 2 ^ e else Z.pos m / 2 ^ (- e))
  | _ => 0
  end.

Definition fmul : spec_float → spec_float → spec_float := SFmul 53 1024.
Definition fdiv : spec_float → spec_float → spec_float := SFdiv 53 1024.

(** [leadingInt]: [None] on overflow. *)
Fixpoint leadingInt (s : string) (x : Z) : option (Z * string) :=
  match s with
  | String c s' =>
      if is_digit c then
        if 2 ^ 63 / 10 <? x then None
        else
          let x := x * 10 + digit_val c in
          if 2 ^ 63 <? x then None else leadingInt s' x
      else Some (x, s)
  | EmptyString => Some (x, s)
  end.

(** [leadingFraction]: digits past an overflow are dropped. *)
Fixpoint leadingFraction (s : string) (x : Z) (scale : spec_float) (overflow : bool)
    : Z * spec_float * string :=
  match s with
  | String c s' =>
      if is_digit c then
        if overflow then leadingFraction s' x scale true
        else if (2 ^ 63 - 1) / 10 <? x then leadingFraction s' x scale true
        else
          let y := x * 10 + digit_val c in
          if 2 ^ 63 <? y then leadingFraction s' x scale true
          else leadingFraction s' y (fmul scale (float_of 10)) false
      else (x, scale, s)
  | EmptyString => (x, scale, s)
  end.

(** The unit: everything up to the next digit or period. *)
Fixpoint unit_span (s : string) : string * string :=
  match s with
  | String c s' =>
      if bool_decide (c = "."%char) || is_digit c then ("", s)
      else let '(u, rest) := unit_span s' in (String c u, rest)
  | EmptyString => ("", "")
  end.

(** The micro sign and the Greek mu, in UTF-8. *)
Definition micro1 : string := String (byte_of 194) (String (byte_of 181) "s").
Definition micro2 : string := String (byte_of 206) (String (byte_of 188) "s").

Definition unitMap (u : string) : option Z :=
  if bool_decide (u = "ns") then Some 1
  else if bool_decide (u = "us") || bool_decide (u = micro1) || bool_decide (u = micro2)
  then Some 1000
  else if bool_decide (u = "ms") then Some 1000000
  else if bool_decide (u = "s") then Some 1000000000
  else if bool_decide (u = "m") then Some 60000000000
  else if bool_decide (u = "h") then Some 3600000000000
  else None.

(** One number with its unit: its nanoseconds and what is left. *)
Definition duration_item (s : string) : result duration_error (Z * string) :=
  match s with
  | EmptyString => Err ErrInvalidDuration
  | String c0 _ =>
      if negb (bool_decide (c0 = "."%char) || is_digit c0) then Err ErrInvalidDuration
      else
        match leadingInt s 0 with
        | None => Err ErrInvalidDuration
        | Some (v, s1) =>
            let pre := negb (String.length s =? String.length s1)%nat in
            let '(f, scale, s2, post) :=
              match s1 with
              | String "." s1' =>
                  let '(f, scale, s2) := leadingFraction s1' 0 (float_of 1) false in
                  (f, scale, s2, negb (String.length s1' =? String.length s2)%nat)
              | _ => (0, float_of 1, s1, false)
              end in
            if negb pre && negb post then Err ErrInvalidDuration
            else
              let '(u, s3) := unit_span s2 in
              if bool_decide (u = "") then Err ErrMissingUnit
              else
                match unitMap u with
                | None => Err (ErrUnknownUnit u)
                | Some unit =>
                    if 2 ^ 63 / unit <? v then Err ErrInvalidDuration
                    else
                      let v := v * unit in
                      if 0 <? f
                      then
                        let v := (v + trunc (fmul (float_of f) (fdiv (float_of unit) scale))) mod 2 ^ 64 in
                        if 2 ^ 63 <? v then Err ErrInvalidDuration else Ok (v, s3)
                      else Ok (v, s3)
                end
        end
  end.

(** The loop; each turn consumes at least a character, so the length is fuel
    enough. *)
Fixpoint duration_loop (fuel : nat) (s : string) (d : Z) : result duration_error Z :=
  match fuel, s with
  | _, EmptyString => Ok d
  | O, String _ _ => Err ErrInvalidDuration
  | S fuel', String _ _ =>
      match duration_item s with
      | Err e => Err e
      | Ok (v, s') =>
          let d := (d + v) mod 2 ^ 64 in
          if 2 ^ 63 <? d then Err ErrInvalidDuration else duration_loop fuel' s' d
      end
  end.

Definition ParseDuration (s : string) : result duration_error Z :=
  let '(neg, s) :=
    match s with
    | String "-" s' => (true, s')
    | String "+" s' => (false, s')
    | _ => (false, s)
    end in
  if bool_decide (s = "0") then Ok 0
  else if bool_decide (s = "") then Err ErrInvalidDuration
  else
    match duration_loop (String.length s) s 0 with
    | Err e => Err e
    | Ok d =>
        if neg then Ok (- d)
        else if 2 ^ 63 - 1 <? d then Err ErrInvalidDuration
        else Ok d
    end.

(** ** Facts *)
Example ParseDuration_30s : ParseDuration "30s" = Ok 30000000000.
Proof. by vm_compute. Qed.

Example ParseDuration_fraction : ParseDuration "-1h0.5m.25s" = Ok (- 3630250000000).
Proof. by vm_compute. Qed.

Example ParseDuration_bad : ParseDuration "30" = Err ErrMissingUnit.
Proof. by vm_compute. Qed.

Lemma duration_loop_bounds fuel s d r :
  0 ≤ d ≤ 2 ^ 63 → duration_loop fuel s d = Ok r → 0 ≤ r ≤ 2 ^ 63.
Proof.
  revert s d; induction fuel as [|fuel IH]; intros [|c s] d Hd; cbn [duration_loop];
    try (by intros [= <-]).
  destruct (duration_item _) as [[v s']|]; [|done].
  destruct (Z.ltb_spec (2 ^ 63) ((d + v) mod 2 ^ 64)); [done|]. apply IH.
  pose proof (Z.mod_pos_bound (d + v) (2 ^ 64)). lia.
Qed.

(** The result is an int64. *)
Lemma ParseDuration_bounds s d : ParseDuration s = Ok d → - 2 ^ 63 ≤ d < 2 ^ 63.
Proof.
  unfold ParseDuration. destruct (match s with EmptyString => _ | _ => _ end) as [neg s'].
  case_bool_decide; [intros [= <-]; lia|]. case_bool_decide; [done|].
  destruct (duration_loop _ s' 0) as [r|] eqn:Hr; [|done].
  apply duration_loop_bounds in Hr; [|lia].
  destruct neg; [intros [= <-]; lia|]. destruct (Z.ltb_spec (2 ^ 63 - 1) r); [done|].
  intros [= <-]. lia.
Qed.

(** ** The fuel is enough *)
Lemma leadingInt_len s x v s1 :
  leadingInt s x = Some (v, s1) → (String.length s1 ≤ String.length s)%nat.
Proof.
  revert x; induction s as [|c s IH]; intros x; cbn; [by intros [= <- <-]|].
  destruct (is_digit c); [|by intros [= <- <-]].
  destruct (2 ^ 63 / 10 <? x); [done|]. destruct (2 ^ 63 <? _); [done|]. intros ?%IH. lia.
Qed.

Lemma leadingFraction_len s x scale o f scale' s1 :
  leadingFraction s x scale o = (f, scale', s1) → (String.length s1 ≤ String.length s)%nat.
Proof.
  revert x scale o; induction s as [|c s IH]; intros x scale o; cbn; [by intros [= <- <- <-]|].
  destruct (is_digit c); [|by intros [= <- <- <-]].
  destruct o; [intros ?%IH; lia|].
  destruct (_ <? x); [intros ?%IH; lia|]. destruct (2 ^ 63 <? _); intros ?%IH; lia.
Qed.

Lemma unit_span_len s u r :
  unit_span s = (u, r) → (String.length u + String.length r = String.length s)%nat.
Proof.
  revert u r; induction s as [|c s IH]; intros u r; cbn; [by intros [= <- <-]|].
  destruct (_ || _); [by intros [= <- <-]|].
  destruct (unit_span s) as [u' r'] eqn:Hs. intros [= <- <-]. cbn. by rewrite (IH u' r').
Qed.

Lemma duration_item_len s v s' :
  duration_item s = Ok (v, s') → (String.length s' < String.length s)%nat.
Proof.
  destruct s as [|c0 s0]; [done|]. unfold duration_item.
  destruct (negb _); [done|].
  destruct (leadingInt (String c0 s0) 0) as [[v0 s1]|] eqn:Hi; [|done].
  apply leadingInt_len in Hi.
  assert (Hfrac : ∀ f scale s2 post,
    match s1 with
    | String "." s1' => let '(f, scale, s2) := leadingFraction s1' 0 (float_of 1) false in
        (f, scale, s2, negb (String.length s1' =? String.length s2)%nat)
    | _ => (0, float_of 1, s1, false)
    end = (f, scale, s2, post) → (String.length s2 ≤ String.length s1)%nat).
  { intros f scale s2 post. destruct s1 as [|[[] [] [] [] [] [] [] []] s1']; try (intros [= <- <- <- <-]; done).
    destruct (leadingFraction s1' _ _ _) as [[f' sc'] s2'] eqn:Hf. intros [= <- <- <- <-].
    apply leadingFraction_len in Hf. cbn. lia. }
  destruct (match s1 with EmptyString => _ | _ => _ end) as [[[f scale] s2] post].
  specialize (Hfrac f scale s2 post eq_refl).
  destruct (negb _ && negb _); [done|]. destruct (unit_span s2) as [u s3] eqn:Hu.
  apply unit_span_len in Hu. case_bool_decide as Hne; [done|].
  assert (0 < String.length u)%nat by (destruct u; [done|cbn; lia]).
  destruct (unitMap u) as [un|]; [|done]. destruct (2 ^ 63 / un <? v0); [done|].
  destruct (0 <? f); [destruct (2 ^ 63 <? _); [done|]|]; intros [= _ <-]; lia.
Qed.

Lemma duration_loop_fuel n s d :
  (String.length s ≤ n)%nat → duration_loop n s d = duration_loop (String.length s) s d.
Proof.
  assert (Hgen : ∀ n m s d, (String.length s ≤ n)%nat → (String.length s ≤ m)%nat →
    duration_loop n s d = duration_loop m s d).
  { clear. induction n as [|n IH]; intros m s d Hn Hm.
    - destruct s; [|cbn in Hn; lia]. by destruct m.
    - destruct s as [|c s]; [by destruct m|]. destruct m as [|m]; [cbn in Hm; lia|].
      cbn [duration_loop]. destruct (duration_item (String c s)) as [[v s']|] eqn:Hi; [|done].
      apply duration_item_len in Hi. destruct (2 ^ 63 <? _); [done|].
      apply IH; cbn in Hn, Hm, Hi; lia. }
  intros Hn. by apply Hgen.
Qed.
