(* ===== verification/NetIP.v ===== *)
(** * Packages net/netip and net: parsing and printing addresses

    [netip.Addr] with [ParseAddr] and [String], and the [net.IP] functions the
    gateway answer goes through ([ParseIP], [To4], [To16]). The main result is
    that [ParseAddr] inverts [String] on every valid address. *)

From S2P Require Import Prelude GoStd.
Import Strings.

Open Scope Z_scope.

(** The zero [Addr], an IPv4 address (4 bytes), an IPv6 address (16 bytes, also
    the IPv4-mapped ones) with its zone, empty for none. Go's [==] on [Addr] is
    equality here. *)
Inductive Addr :=
  | AddrZero
  | Addr4 (b : list Z)
  | Addr6 (b : list Z) (zone : string).

#[global] Instance Addr_eq_dec : EqDecision Addr.
Proof. solve_decision. Defined.

#[global] Instance Addr_countable : Countable Addr.
Proof.
  refine (inj_countable'
    (fun a => match a with
              | AddrZero => inl tt
              | Addr4 b => inr (inl b)
              | Addr6 b z => inr (inr (b, z)) end)
    (fun x => match x with
              | inl _ => AddrZero
              | inr (inl b) => Addr4 b
              | inr (inr (b, z)) => Addr6 b z end) _).
  by intros [].
Defined.

Definition IsValid (a : Addr) : bool :=
  match a with AddrZero => false | _ => true end.

Definition is_byte (z : Z) : Prop := 0 ≤ z < 256.

(** The addresses [ParseAddr] produces. *)
Definition Addr_wf (a : Addr) : Prop :=
  match a with
  | AddrZero => False
  | Addr4 b => length b = 4%nat ∧ Forall is_byte b
  | Addr6 b _ => length b = 16%nat ∧ Forall is_byte b
  end.

(** ** ParseAddr *)

(** [parseIPv4Fields]: [prev] is [s[i-1]], [fields] the octets completed. *)
Fixpoint parseIPv4_loop (s : string) (prev : option ascii) (val digLen : Z)
    (fields : list Z) : option (list Z) :=
  match s with
  | EmptyString =>
      if (length fields <? 3)%nat then None else Some (fields ++ [val])
  | String c s' =>
      if in_range "0" "9" c then
        if (digLen =? 1) && (val =? 0) then None
        else
          let val' := val * 10 + (byte_val c - 48) in
          if 255 <? val' then None
          else parseIPv4_loop s' (Some c) val' (digLen + 1) fields
      else if bool_decide (c = "."%char) then
        if bool_decide (prev = None) || bool_decide (s' = "") ||
           bool_decide (prev = Some "."%char) then None
        else if (length fields =? 3)%nat then None
        else parseIPv4_loop s' (Some c) 0 0 (fields ++ [val])
      else None
  end.

Definition parseIPv4Fields (s : string) : option (list Z) :=
  parseIPv4_loop s None 0 0 [].

Definition hex_val (c : ascii) : option Z :=
  if in_range "0" "9" c then Some (byte_val c - 48)
  else if in_range "a" "f" c then Some (byte_val c - 97 + 10)
  else if in_range "A" "F" c then Some (byte_val c - 65 + 10)
  else None.

(** The hex group at the front of [s]: its value, its length, what follows. *)
Fixpoint parse_group (s : string) (off : Z) (acc : Z) : option (Z * Z * string) :=
  match s with
  | EmptyString => Some (acc, off, s)
  | String c s' =>
      match hex_val c with
      | None => Some (acc, off, s)
      | Some d =>
          let acc' := acc * 16 + d in
          if 3 <? off then None
          else if 65535 <? acc' then None
          else parse_group s' (off + 1) acc'
      end
  end.

(** The group loop of [parseIPv6]: [n] groups may still be read, [ip] holds the
    bytes so far. It returns the bytes, the position of the ellipsis and the
    unread rest. *)
Fixpoint parseIPv6_loop (n : nat) (ip : list Z) (ellipsis : option nat) (s : string)
    : option (list Z * option nat * string) :=
  match n with
  | O => Some (ip, ellipsis, s)
  | S n' =>
      match parse_group s 0 0 with
      | None => None
      | Some (acc, off, rest) =>
          if off =? 0 then None
          else if HasPrefix rest "." then
            if bool_decide (ellipsis = None) && negb (length ip =? 12)%nat then None
            else if (16 <? length ip + 4)%nat then None
            else
              match parseIPv4Fields s with
              | None => None
              | Some fields => Some (ip ++ fields, ellipsis, "")
              end
          else
            let ip' := ip ++ [acc / 256; acc mod 256] in
            match rest with
            | EmptyString => Some (ip', ellipsis, "")
            | String c rest' =>
                if negb (bool_decide (c = ":"%char)) then None
                else
                  match rest' with
                  | EmptyString => None
                  | String c2 rest2 =>
                      if bool_decide (c2 = ":"%char) then
                        match ellipsis with
                        | Some _ => None
                        | None =>
                            if bool_decide (rest2 = "")
                            then Some (ip', Some (length ip'), "")
                            else parseIPv6_loop n' ip' (Some (length ip')) rest2
                        end
                      else parseIPv6_loop n' ip' ellipsis rest'
                  end
            end
      end
  end.

(** After the loop: everything read, the ellipsis expanded. *)
Definition parseIPv6_finish (zone : string) (r : list Z * option nat * string)
    : option Addr :=
  let '(ip, ellipsis, s) := r in
  if negb (bool_decide (s = "")) then None
  else if (length ip <? 16)%nat then
    match ellipsis with
    | None => None
    | Some e => Some (Addr6 (take e ip ++ replicate (16 - length ip) 0 ++ drop e ip) zone)
    end
  else match ellipsis with
       | Some _ => None
       | None => Some (Addr6 ip zone)
       end.

Definition parseIPv6 (inp : string) : option Addr :=
  let '(s, zone, found) := Cut inp "%" in
  if found && bool_decide (zone = "") then None
  else if HasPrefix s "::" then
    let s' := slice_from 2 s in
    if bool_decide (s' = "") then Some (Addr6 (replicate 16 0) zone)
    else parseIPv6_loop 8 [] (Some 0%nat) s' ≫= parseIPv6_finish zone
  else parseIPv6_loop 8 [] None s ≫= parseIPv6_finish zone.

(** [ParseAddr] looks for the first of [.], [:] and [%]. *)
Fixpoint parse_kind (s : string) : option ascii :=
  match s with
  | EmptyString => None
  | String c s' => if mem_byte c ".:%" then Some c else parse_kind s'
  end.

Definition ParseAddr (s : string) : option Addr :=
  match parse_kind s with
  | Some "." => Addr4 <$> parseIPv4Fields s
  | Some ":" => parseIPv6 s
  | _ => None
  end%char.

(** ** String *)
Definition digit (n : Z) : ascii :=
  if n <? 10 then byte_of (48 + n) else byte_of (87 + n).

Definition appendDecimal (x : Z) (tail : string) : string :=
  (if 100 <=? x then String (digit (x / 100)) else id)
  ((if 10 <=? x then String (digit (x / 10 mod 10)) else id)
  (String (digit (x mod 10)) tail)).

Definition appendHex (x : Z) (tail : string) : string :=
  (if 4096 <=? x then String (digit (x / 4096)) else id)
  ((if 256 <=? x then String (digit (x / 256 mod 16)) else id)
  ((if 16 <=? x then String (digit (x / 16 mod 16)) else id)
  (String (digit (x mod 16)) tail))).

Fixpoint string4 (b : list Z) (tail : string) : string :=
  match b with
  | [] => tail
  | [x] => appendDecimal x tail
  | x :: b' => appendDecimal x (String "." (string4 b' tail))
  end.

(** The sixteen-bit groups of an IPv6 address. *)
Fixpoint groups (b : list Z) : list Z :=
  match b with
  | hi :: lo :: b' => hi * 256 + lo :: groups b'
  | _ => []
  end.

Definition Is4In6 (b : list Z) : bool :=
  bool_decide (take 12 b = [0;0;0;0;0;0;0;0;0;0;255;255]).

(** The number of leading zero groups. *)
Fixpoint zero_run (g : list Z) : nat :=
  match g with
  | x :: g' => if x =? 0 then S (zero_run g') else O
  | [] => O
  end.

(** The scan for the longest run of at least two zero groups, the first of the
    longest: position [i], best run [(start, end)] so far. *)
Fixpoint zero_scan (g : list Z) (i : nat) (best : option (nat * nat)) : option (nat * nat) :=
  match g with
  | [] => best
  | _ :: g' =>
      let l := zero_run g in
      let len := match best with Some (zs, ze) => (ze - zs)%nat | None => O end in
      zero_scan g' (S i)
        (if (2 <=? l)%nat && (len <? l)%nat then Some (i, (i + l)%nat) else best)
  end.

Fixpoint join_groups (g : list Z) (tail : string) : string :=
  match g with
  | [] => tail
  | [x] => appendHex x tail
  | x :: g' => appendHex x (String ":" (join_groups g' tail))
  end.

Definition string6 (g : list Z) (tail : string) : string :=
  match zero_scan g 0 None with
  | None => join_groups g tail
  | Some (zs, ze) =>
      join_groups (take zs g) (String ":" (String ":" (join_groups (drop ze g) tail)))
  end.

Definition zone_suffix (zone : string) : string :=
  if bool_decide (zone = "") then "" else String "%" zone.

Definition Addr_String (a : Addr) : string :=
  match a with
  | AddrZero => "invalid IP"
  | Addr4 b => string4 b ""
  | Addr6 b zone =>
      if Is4In6 b then "::ffff:" +:+ string4 (drop 12 b) (zone_suffix zone)
      else string6 (groups b) (zone_suffix zone)
  end.

(** ** net.IP: a byte slice, [[]] for nil *)
Definition As16 (a : Addr) : list Z :=
  match a with
  | AddrZero => replicate 16 0
  | Addr4 b => replicate 10 0 ++ [255; 255] ++ b
  | Addr6 b _ => b
  end.

Definition Addr_Zone (a : Addr) : string :=
  match a with Addr6 _ z => z | _ => "" end.

(** [net.ParseIP]: nil for an unparsable string or one with a zone. *)
Definition ParseIP (s : string) : list Z :=
  match ParseAddr s with
  | Some a => if bool_decide (Addr_Zone a = "") then As16 a else []
  | None => []
  end.

Definition To4 (ip : list Z) : list Z :=
  if (length ip =? 4)%nat then ip
  else if (length ip =? 16)%nat && Is4In6 ip then drop 12 ip
  else [].

Definition To16 (ip : list Z) : list Z :=
  if (length ip =? 4)%nat then replicate 10 0 ++ [255; 255] ++ ip
  else if (length ip =? 16)%nat then ip
  else [].

(** [lia] with division and modulo by constants. *)
Ltac Zify.zify_post_hook ::= Z.to_euclidean_division_equations.

(** ** Digits *)
Lemma below_spec (n : nat) (P : Z → bool) :
  forallb (fun k => P (Z.of_nat k)) (seq 0 n) = true →
  ∀ z, 0 ≤ z < Z.of_nat n → P z = true.
Proof.
  rewrite forallb_forall. intros Hall z Hz.
  specialize (Hall (Z.to_nat z)). rewrite Z2Nat.id in Hall by lia.
  apply Hall, in_seq. lia.
Qed.

Lemma digit_dec d : 0 ≤ d < 10 →
  in_range "0" "9" (digit d) = true ∧ byte_val (digit d) - 48 = d.
Proof.
  intros Hd.
  pose proof (below_spec 10 (fun d => in_range "0" "9" (digit d) &&
    (byte_val (digit d) - 48 =? d)) eq_refl d Hd) as H. cbv beta in H.
  destruct_bools. split; [done|]. by apply Z.eqb_eq.
Qed.

Lemma digit_hex d : 0 ≤ d < 16 → hex_val (digit d) = Some d.
Proof.
  intros Hd.
  pose proof (below_spec 16 (fun d => bool_decide (hex_val (digit d) = Some d)) eq_refl d Hd)
    as H. by apply bool_decide_eq_true in H.
Qed.

(** A digit is none of the bytes with a meaning of their own. *)
Lemma digit_plain d : 0 ≤ d < 16 → mem_byte (digit d) ".:%" = false.
Proof.
  intros Hd.
  pose proof (below_spec 16 (fun d => negb (mem_byte (digit d) ".:%")) eq_refl d Hd) as H.
  by apply negb_true_iff in H.
Qed.

Lemma digit_ne d c : 0 ≤ d < 16 → mem_byte c ".:%" = true → digit d ≠ c.
Proof. intros Hd Hc <-. by rewrite digit_plain in Hc. Qed.

(** ** IPv4 *)
Lemma parseIPv4_digit d s prev val digLen fields :
  0 ≤ d < 10 → 0 ≤ val → val * 10 + d ≤ 255 → (digLen = 1 → val ≠ 0) →
  parseIPv4_loop (String (digit d) s) prev val digLen fields =
  parseIPv4_loop s (Some (digit d)) (val * 10 + d) (digLen + 1) fields.
Proof.
  intros Hd Hval Hle Hz. cbn.
  destruct (digit_dec d Hd) as [-> ->].
  assert ((digLen =? 1) && (val =? 0) = false) as ->.
  { apply andb_false_iff. destruct (Z.eqb_spec digLen 1); [right|by left].
    apply Z.eqb_neq. auto. }
  by rewrite (proj2 (Z.ltb_ge _ _)) by lia.
Qed.

Lemma parseIPv4_octet x tail prev fields :
  0 ≤ x < 256 →
  ∃ d digLen, 0 ≤ d < 10 ∧
    parseIPv4_loop (appendDecimal x tail) prev 0 0 fields =
    parseIPv4_loop tail (Some (digit d)) x digLen fields.
Proof.
  intros Hx. exists (x mod 10). unfold appendDecimal.
  destruct (Z.leb_spec 100 x), (Z.leb_spec 10 x); try lia; unfold id;
    (eexists; split; [lia|]); repeat rewrite parseIPv4_digit by lia;
    f_equal; lia.
Qed.

Lemma parseIPv4_string4 a b c d :
  Forall is_byte [a; b; c; d] → parseIPv4Fields (string4 [a; b; c; d] "") = Some [a; b; c; d].
Proof.
  rewrite !Forall_cons. unfold is_byte. intros (Ha & Hb & Hc & Hd & _).
  unfold parseIPv4Fields. cbn [string4].
  assert (Hdot : ∀ s d digLen x prev fields, 0 ≤ d < 10 → prev = Some (digit d) →
    s ≠ "" → (length fields < 3)%nat →
    parseIPv4_loop (String "." s) prev x digLen fields =
    parseIPv4_loop s (Some "."%char) 0 0 (fields ++ [x])).
  { intros s e digLen x prev fields He -> Hs Hl. cbn.
    rewrite (bool_decide_eq_false_2 (s = "")) by done.
    rewrite (bool_decide_eq_false_2 (Some (digit e) = Some "."%char)).
    2:{ intros [= Heq]. by apply (digit_ne e "."); [lia|..]. }
    rewrite (proj2 (Nat.eqb_neq _ _)) by lia. done. }
  assert (Hne : ∀ x s, appendDecimal x s ≠ "").
  { intros x s. unfold appendDecimal. by repeat case_match. }
  destruct (parseIPv4_octet a (String "." (appendDecimal b (String "."
    (appendDecimal c (String "." (appendDecimal d "")))))) None [] Ha) as (? & ? & ? & ->).
  erewrite Hdot; [|done..|apply Hne|cbn; lia].
  destruct (parseIPv4_octet b (String "."
    (appendDecimal c (String "." (appendDecimal d "")))) (Some "."%char) ([] ++ [a]) Hb)
    as (? & ? & ? & ->).
  erewrite Hdot; [|done..|apply Hne|cbn; lia].
  destruct (parseIPv4_octet c (String "." (appendDecimal d ""))
    (Some "."%char) (([] ++ [a]) ++ [b]) Hc) as (? & ? & ? & ->).
  erewrite Hdot; [|done..|apply Hne|cbn; lia].
  destruct (parseIPv4_octet d "" (Some "."%char) ((([] ++ [a]) ++ [b]) ++ [c]) Hd)
    as (? & ? & ? & ->).
  done.
Qed.

Lemma length4_inv {A} (l : list A) : length l = 4%nat → ∃ a b c d, l = [a; b; c; d].
Proof. destruct l as [|a [|b [|c [|d []]]]]; try done. by eexists _, _, _, _. Qed.

(** ** Appending to a printed address *)
Lemma appendDecimal_app x t u : appendDecimal x (t +:+ u) = appendDecimal x t +:+ u.
Proof. unfold appendDecimal, id. by repeat case_match. Qed.

Lemma appendHex_app x t u : appendHex x (t +:+ u) = appendHex x t +:+ u.
Proof. unfold appendHex, id. by repeat case_match. Qed.

Lemma string4_app b t u : string4 b (t +:+ u) = string4 b t +:+ u.
Proof.
  induction b as [|x [|y b] IH]; [done|apply appendDecimal_app|].
  cbn in *. by rewrite IH, <-appendDecimal_app.
Qed.

Lemma join_groups_app g t u : join_groups g (t +:+ u) = join_groups g t +:+ u.
Proof.
  induction g as [|x [|y g] IH]; [done|apply appendHex_app|].
  cbn in *. by rewrite IH, <-appendHex_app.
Qed.

Lemma string6_app g u : string6 g u = string6 g "" +:+ u.
Proof.
  unfold string6. destruct (zero_scan g 0 None) as [[zs ze]|].
  - rewrite <-join_groups_app, !cons_app. do 3 f_equal. apply (join_groups_app _ "").
  - apply (join_groups_app g "").
Qed.

(** ** Which parser [ParseAddr] picks *)
Lemma parse_kind_digit d s : 0 ≤ d < 16 → parse_kind (String (digit d) s) = parse_kind s.
Proof. intros. cbn [parse_kind]. by rewrite digit_plain. Qed.

Lemma parse_kind_decimal x tail :
  0 ≤ x < 256 → parse_kind (appendDecimal x tail) = parse_kind tail.
Proof.
  intros Hx. unfold appendDecimal, id.
  destruct (Z.leb_spec 100 x), (Z.leb_spec 10 x); rewrite ?parse_kind_digit; lia || done.
Qed.

Definition is_group (x : Z) : Prop := 0 ≤ x < 65536.

Lemma appendHex_digits x tail :
  is_group x →
  ∃ d rest, 0 ≤ d < 16 ∧ appendHex x tail = String (digit d) rest.
Proof.
  unfold is_group. intros Hx. unfold appendHex, id.
  destruct (Z.leb_spec 4096 x), (Z.leb_spec 256 x), (Z.leb_spec 16 x);
    eexists _, _; (split; [|reflexivity]); lia.
Qed.

Lemma parse_kind_hex x tail : is_group x → parse_kind (appendHex x tail) = parse_kind tail.
Proof.
  unfold is_group. intros Hx. unfold appendHex, id.
  destruct (Z.leb_spec 4096 x), (Z.leb_spec 256 x), (Z.leb_spec 16 x);
    rewrite ?parse_kind_digit; lia || done.
Qed.

Lemma join_groups_head g tail :
  g ≠ [] → Forall is_group g →
  ∃ d rest, 0 ≤ d < 16 ∧ join_groups g tail = String (digit d) rest.
Proof.
  destruct g as [|x [|y g]]; [done|..]; intros _ Hg; inversion Hg;
    by apply appendHex_digits.
Qed.

Lemma parse_kind_join g tail :
  Forall is_group g → (2 ≤ length g)%nat ∨ g = [] ∨ (∃ t, tail = String ":" t) →
  g ≠ [] → parse_kind (join_groups g tail) = Some ":"%char.
Proof.
  intros Hg Hc Hne. destruct g as [|x [|y g]]; [done|..]; inversion Hg as [|? ? Hx ?]; subst.
  - cbn [join_groups]. rewrite parse_kind_hex by done.
    destruct Hc as [?|[?|[t ->]]]; [cbn in *; lia|done|done].
  - cbn [join_groups]. by rewrite parse_kind_hex.
Qed.

(** ** The group loop *)
Lemma parse_group_step d s off acc :
  0 ≤ d < 16 → off ≤ 3 → acc * 16 + d ≤ 65535 →
  parse_group (String (digit d) s) off acc = parse_group s (off + 1) (acc * 16 + d).
Proof.
  intros Hd Ho Ha. cbn [parse_group]. rewrite digit_hex by done.
  rewrite (proj2 (Z.ltb_ge 3 off)) by lia. by rewrite (proj2 (Z.ltb_ge _ _)) by lia.
Qed.

(** A string at which the reading of a hex group stops. *)
Definition group_end (tail : string) : Prop :=
  match tail with EmptyString => True | String c _ => hex_val c = None end.

Lemma parse_group_end tail off acc :
  group_end tail → parse_group tail off acc = Some (acc, off, tail).
Proof. destruct tail as [|c tail]; cbn; [done|]. by intros ->. Qed.

Lemma parse_group_hex x tail :
  is_group x → group_end tail →
  ∃ off, 0 < off ∧ parse_group (appendHex x tail) 0 0 = Some (x, off, tail).
Proof.
  unfold is_group. intros Hx Ht. unfold appendHex, id.
  destruct (Z.leb_spec 4096 x), (Z.leb_spec 256 x), (Z.leb_spec 16 x); try lia;
    (eexists; split; [|repeat rewrite parse_group_step by lia;
      rewrite parse_group_end by done; apply (f_equal Some), (f_equal2 pair);
      [apply (f_equal2 pair); [lia|reflexivity]|reflexivity]]); lia.
Qed.

Lemma parse_group_decimal x tail :
  0 ≤ x < 256 → group_end tail →
  ∃ acc off, 0 < off ∧ parse_group (appendDecimal x tail) 0 0 = Some (acc, off, tail).
Proof.
  intros Hx Ht. unfold appendDecimal, id.
  destruct (Z.leb_spec 100 x), (Z.leb_spec 10 x); try lia;
    (eexists _, _; split; [|repeat rewrite parse_group_step by lia;
      by rewrite parse_group_end]); lia.
Qed.

Definition group_bytes (x : Z) : list Z := [x / 256; x mod 256].

(** Reading one group that a colon and a further group follow. *)
Lemma parseIPv6_group n ip ell x d rest :
  is_group x → 0 ≤ d < 16 →
  parseIPv6_loop (S n) ip ell (appendHex x (String ":" (String (digit d) rest))) =
  parseIPv6_loop n (ip ++ group_bytes x) ell (String (digit d) rest).
Proof.
  intros Hx Hd. cbn [parseIPv6_loop].
  destruct (parse_group_hex x (String ":" (String (digit d) rest)) Hx eq_refl)
    as (off & Hoff & ->).
  rewrite (proj2 (Z.eqb_neq _ _)) by lia. cbn.
  by rewrite (bool_decide_eq_false_2 (digit d = ":"%char)) by by apply digit_ne.
Qed.

Lemma parseIPv6_groups g n ip ell :
  g ≠ [] → Forall is_group g → (length g ≤ n)%nat →
  parseIPv6_loop n ip ell (join_groups g "") = Some (ip ++ (g ≫= group_bytes), ell, "").
Proof.
  revert n ip; induction g as [|x g IH]; intros n ip Hne Hg Hn; [done|].
  inversion Hg as [|? ? Hx Hg']; subst.
  destruct n as [|n]; [cbn in Hn; lia|].
  destruct g as [|y g].
  - cbn [parseIPv6_loop join_groups].
    destruct (parse_group_hex x "" Hx I) as (off & Hoff & ->).
    rewrite (proj2 (Z.eqb_neq _ _)) by lia. done.
  - destruct (join_groups_head (y :: g) "") as (d & rest & Hd & Hj); [done..|].
    change (join_groups (x :: y :: g) "") with
      (appendHex x (String ":" (join_groups (y :: g) ""))).
    rewrite Hj, parseIPv6_group by done. rewrite <-Hj, IH; [|done|done|cbn in *; lia].
    by rewrite <-app_assoc.
Qed.

(** Groups, then the ellipsis. *)
Lemma parseIPv6_ellipsis g n ip s :
  g ≠ [] → Forall is_group g → (length g ≤ n)%nat →
  let ip' := ip ++ (g ≫= group_bytes) in
  parseIPv6_loop n ip None (join_groups g (String ":" (String ":" s))) =
  if bool_decide (s = "") then Some (ip', Some (length ip'), "")
  else parseIPv6_loop (n - length g) ip' (Some (length ip')) s.
Proof.
  revert n ip; induction g as [|x g IH]; intros n ip Hne Hg Hn; [done|].
  inversion Hg as [|? ? Hx Hg']; subst.
  destruct n as [|n]; [cbn in Hn; lia|].
  destruct g as [|y g].
  - cbn [join_groups]. cbn [parseIPv6_loop].
    destruct (parse_group_hex x (String ":" (String ":" s)) Hx eq_refl) as (off & Hoff & ->).
    rewrite (proj2 (Z.eqb_neq _ _)) by lia. cbn. by rewrite Nat.sub_0_r.
  - destruct (join_groups_head (y :: g) (String ":" (String ":" s)))
      as (d & rest & Hd & Hj); [done..|].
    change (join_groups (x :: y :: g) (String ":" (String ":" s))) with
      (appendHex x (String ":" (join_groups (y :: g) (String ":" (String ":" s))))).
    rewrite Hj, parseIPv6_group by done. rewrite <-Hj, IH; [|done|done|cbn in *; lia].
    cbn. by rewrite <-app_assoc.
Qed.

(** ** The run the ellipsis stands for *)
Lemma zero_run_spec g :
  (zero_run g ≤ length g)%nat ∧ take (zero_run g) g = replicate (zero_run g) 0.
Proof.
  induction g as [|x g [IHl IHt]]; cbn; [done|].
  destruct (Z.eqb_spec x 0) as [->|]; cbn; [|split; [lia|done]].
  split; [lia|by f_equal].
Qed.

(** [zs, ze) is a run of at least two zero groups of [g]. *)
Definition zero_range (g : list Z) (r : nat * nat) : Prop :=
  (r.1 + 2 ≤ r.2)%nat ∧ (r.2 ≤ length g)%nat ∧
  g = take r.1 g ++ replicate (r.2 - r.1) 0 ++ drop r.2 g.

Lemma zero_scan_spec pre g best r :
  (∀ r, best = Some r → zero_range (pre ++ g) r) →
  zero_scan g (length pre) best = Some r → zero_range (pre ++ g) r.
Proof.
  revert pre best; induction g as [|x g IH]; intros pre best Hbest; cbn [zero_scan].
  { intros Hr. by apply Hbest. }
  replace (pre ++ x :: g) with ((pre ++ [x]) ++ g) in * by by rewrite <-app_assoc.
  replace (S (length pre)) with (length (pre ++ [x])) by (rewrite length_app; cbn; lia).
  destruct (zero_run_spec (x :: g)) as [Hl Ht]. revert Hl Ht.
  generalize (zero_run (x :: g)) as l. intros l Hl Ht Hr.
  eapply IH; [|exact Hr]. intros r' Hr'. revert Hr'.
  destruct (_ && _) eqn:Hc; [|by apply Hbest]. intros [= <-].
  apply andb_true_iff in Hc as [H2 _]. apply Nat.leb_le in H2.
  split_and!; cbn [fst snd].
  - lia.
  - rewrite !length_app. cbn [length] in *. lia.
  - rewrite <-app_assoc. cbn [app].
    rewrite take_app_length.
    rewrite drop_app_ge by lia. replace (length pre + l - length pre)%nat with l by lia.
    f_equal. rewrite <-(take_drop l (x :: g)) at 1. by rewrite Ht.
Qed.

Lemma groups_bytes b :
  Forall is_byte b → (∃ k, length b = 2 * k)%nat →
  groups b ≫= group_bytes = b ∧ Forall is_group (groups b) ∧
  (2 * length (groups b) = length b)%nat.
Proof.
  intros Hb [k Hk]. revert b Hb Hk; induction k as [|k IH]; intros b Hb Hk.
  { destruct b; [|cbn in Hk; lia]. split_and!; [done|constructor|done]. }
  destruct b as [|hi [|lo b]]; [cbn in Hk; lia..|].
  inversion Hb as [|? ? Hhi Hb']; inversion Hb' as [|? ? Hlo Hb'']; subst.
  destruct (IH b Hb'') as (H1 & H2 & H3); [cbn in Hk; lia|].
  unfold is_byte in *. cbn [groups]. split_and!.
  - cbn. f_equal; [lia|f_equal; [lia|exact H1]].
  - constructor; [unfold is_group; lia|done].
  - cbn in *. lia.
Qed.

Lemma bind_group_bytes_length (g : list Z) :
  length (g ≫= group_bytes) = (2 * length g)%nat.
Proof. induction g as [|x g IH]; [done|]. cbn in *. lia. Qed.

Lemma bind_group_bytes_zero n : replicate n 0 ≫= group_bytes = replicate (2 * n) 0.
Proof.
  induction n as [|n IH]; [done|]. replace (2 * S n)%nat with (S (S (2 * n))) by lia.
  cbn in *. by rewrite IH.
Qed.

(** ** The zone is split off *)
Definition no_percent (s : string) : bool :=
  string_forallb (fun c => negb (bool_decide (c = "%"%char))) s.

Lemma no_percent_digit d s : 0 ≤ d < 16 → no_percent (String (digit d) s) = no_percent s.
Proof. intros. cbn. rewrite bool_decide_eq_false_2; [done|]. by apply digit_ne. Qed.

Lemma no_percent_hex x s : is_group x → no_percent (appendHex x s) = no_percent s.
Proof.
  unfold is_group. intros. unfold appendHex, id.
  destruct (Z.leb_spec 4096 x), (Z.leb_spec 256 x), (Z.leb_spec 16 x);
    rewrite ?no_percent_digit; lia || done.
Qed.

Lemma no_percent_decimal x s : is_byte x → no_percent (appendDecimal x s) = no_percent s.
Proof.
  unfold is_byte. intros. unfold appendDecimal, id.
  destruct (Z.leb_spec 100 x), (Z.leb_spec 10 x); rewrite ?no_percent_digit; lia || done.
Qed.

Lemma no_percent_join g s :
  Forall is_group g → no_percent (join_groups g s) = no_percent s.
Proof.
  induction g as [|x [|y g] IH]; intros Hg; inversion Hg; subst; [done|by apply no_percent_hex|].
  cbn [join_groups] in *. rewrite no_percent_hex by done.
  cbn -[join_groups no_percent]. change (no_percent (String ":" ?t)) with (no_percent t).
  by apply IH.
Qed.

Lemma no_percent_string6 g : Forall is_group g → no_percent (string6 g "") = true.
Proof.
  intros Hg. unfold string6. destruct (zero_scan g 0 None) as [[zs ze]|].
  - rewrite no_percent_join by by apply Forall_take.
    change (no_percent (String ":" (String ":" ?t))) with (no_percent t).
    by rewrite no_percent_join by by apply Forall_drop.
  - by rewrite no_percent_join.
Qed.

Lemma Cut_suffix s zone :
  no_percent s = true →
  Cut (s +:+ zone_suffix zone) "%" = (s, zone, negb (bool_decide (zone = ""))).
Proof.
  unfold zone_suffix. induction s as [|c s IH]; intros Hs.
  - case_bool_decide; subst; [done|]. rewrite nil_app. cbn. done.
  - cbn in Hs. apply andb_true_iff in Hs as [Hc Hs]. rewrite cons_app. cbn [Cut].
    apply negb_true_iff in Hc. rewrite Hc, IH by done. done.
Qed.

(** ** Round trips *)
Lemma HasPrefix_digit d s p : 0 ≤ d < 16 → HasPrefix (String (digit d) s) (String ":" p) = false.
Proof.
  intros Hd. cbn. rewrite bool_decide_eq_false_2; [done|].
  intros Heq. by apply (digit_ne d ":").
Qed.

(** The text without the zone, and the address it is read back as. *)
Lemma parseIPv6_text b zone s :
  no_percent s = true →
  (if HasPrefix s "::" then
     if bool_decide (slice_from 2 s = "") then Some (Addr6 (replicate 16 0) zone)
     else parseIPv6_loop 8 [] (Some 0%nat) (slice_from 2 s) ≫= parseIPv6_finish zone
   else parseIPv6_loop 8 [] None s ≫= parseIPv6_finish zone) = Some (Addr6 b zone) →
  parseIPv6 (s +:+ zone_suffix zone) = Some (Addr6 b zone).
Proof.
  intros Hs Hp. unfold parseIPv6. rewrite Cut_suffix by done.
  by rewrite (andb_comm (negb _)), andb_negb_r.
Qed.

Lemma parseIPv6_finish_ellipsis zone ip e :
  (length ip < 16)%nat →
  parseIPv6_finish zone (ip, Some e, "") =
  Some (Addr6 (take e ip ++ replicate (16 - length ip) 0 ++ drop e ip) zone).
Proof. intros Hl. unfold parseIPv6_finish. by rewrite (proj2 (Nat.ltb_lt _ _)). Qed.

Lemma join_groups_empty g : Forall is_group g → join_groups g "" = "" → g = [].
Proof.
  destruct g as [|x g]; [done|]. intros Hg Hj.
  destruct (join_groups_head (x :: g) "") as (d & rest & _ & Hh); [done..|]. congruence.
Qed.

(** What follows the [::], the bytes [B] having been read before it. *)
Lemma parseIPv6_after n B post zone :
  Forall is_group post → (length post ≤ n)%nat → (length B + 2 * length post < 16)%nat →
  (if bool_decide (join_groups post "" = "") then Some (B, Some (length B), "")
   else parseIPv6_loop n B (Some (length B)) (join_groups post "")) ≫= parseIPv6_finish zone =
  Some (Addr6 (B ++ replicate (16 - length B - 2 * length post) 0 ++ (post ≫= group_bytes)) zone).
Proof.
  intros Hpost Hn Hlen. pose proof (bind_group_bytes_length post) as Hl.
  case_bool_decide as Hj.
  - apply join_groups_empty in Hj as ->; [|done]. cbn [mbind option_bind length list_bind] in *.
    rewrite parseIPv6_finish_ellipsis by lia. rewrite take_ge, drop_ge by lia.
    by rewrite Nat.sub_0_r.
  - rewrite parseIPv6_groups; [|by intros ->|done|lia]. cbn [mbind option_bind].
    rewrite parseIPv6_finish_ellipsis by (rewrite length_app; lia).
    rewrite take_app_length, drop_app_length, length_app, Hl.
    by replace (16 - (length B + 2 * length post))%nat
      with (16 - length B - 2 * length post)%nat by lia.
Qed.

Lemma parseIPv6_compressed g zs ze zone :
  length g = 8%nat → Forall is_group g → zero_range g (zs, ze) →
  let s := join_groups (take zs g) (String ":" (String ":" (join_groups (drop ze g) ""))) in
  (if HasPrefix s "::" then
     if bool_decide (slice_from 2 s = "") then Some (Addr6 (replicate 16 0) zone)
     else parseIPv6_loop 8 [] (Some 0%nat) (slice_from 2 s) ≫= parseIPv6_finish zone
   else parseIPv6_loop 8 [] None s ≫= parseIPv6_finish zone) =
  Some (Addr6 (g ≫= group_bytes) zone).
Proof.
  intros Hg8 Hg (H2 & Hze & Heq). cbn [fst snd] in *.
  assert (Hbytes : g ≫= group_bytes = (take zs g ≫= group_bytes) ++
    replicate (2 * (ze - zs)) 0 ++ (drop ze g ≫= group_bytes)).
  { rewrite Heq at 1. by rewrite !bind_app, bind_group_bytes_zero. }
  rewrite Hbytes.
  assert (Hpre : Forall is_group (take zs g)) by by apply Forall_take.
  assert (Hpost : Forall is_group (drop ze g)) by by apply Forall_drop.
  assert (Hlpre : length (take zs g) = zs) by (rewrite length_take; lia).
  assert (Hlpost : length (drop ze g) = (8 - ze)%nat) by (rewrite length_drop; lia).
  revert Hpre Hpost Hlpre Hlpost.
  generalize (take zs g) as pre, (drop ze g) as post.
  intros pre post Hpre Hpost Hlpre Hlpost. cbv zeta.
  replace (2 * (ze - zs))%nat with (16 - 2 * zs - 2 * length post)%nat by lia.
  destruct pre as [|x pre].
  - cbn in Hlpre. subst zs. cbn [join_groups HasPrefix slice_from].
    rewrite !bool_decide_eq_true_2 by done. cbn [andb]. case_bool_decide as Hj.
    + rewrite (join_groups_empty post) by done. done.
    + pose proof (parseIPv6_after 8 [] post zone) as Ha. rewrite bool_decide_eq_false_2 in Ha by done.
      apply Ha; cbn; [done|lia..].
  - destruct (join_groups_head (x :: pre) (String ":" (String ":" (join_groups post ""))))
      as (d & rest & Hd & Hj); [done..|].
    rewrite Hj at 1. rewrite HasPrefix_digit by done.
    rewrite parseIPv6_ellipsis; [|done|done|lia]. rewrite app_nil_l.
    pose proof (bind_group_bytes_length (x :: pre)) as Hl.
    rewrite parseIPv6_after; [by rewrite Hl, Hlpre|done|lia..].
Qed.

Lemma parseIPv6_string6 b zone :
  length b = 16%nat → Forall is_byte b →
  parseIPv6 (string6 (groups b) (zone_suffix zone)) = Some (Addr6 b zone).
Proof.
  intros Hlen Hb.
  destruct (groups_bytes b Hb) as (Hgb & Hg & Hgl); [by exists 8%nat|].
  assert (Hg8 : length (groups b) = 8%nat) by lia.
  rewrite string6_app. apply parseIPv6_text; [by apply no_percent_string6|].
  unfold string6. destruct (zero_scan (groups b) 0 None) as [[zs ze]|] eqn:Hz.
  - apply (zero_scan_spec [] (groups b) None) in Hz; [|done].
    rewrite (parseIPv6_compressed (groups b) zs ze zone) by done. by rewrite Hgb.
  - destruct (join_groups_head (groups b) "") as (d & rest & Hd & Hj);
      [by destruct (groups b)|done|].
    rewrite Hj at 1. rewrite HasPrefix_digit by done.
    rewrite parseIPv6_groups; [|by destruct (groups b)|done|lia].
    rewrite Hgb. unfold parseIPv6_finish. cbn [mbind option_bind app].
    by rewrite Hlen.
Qed.

Lemma parse_kind_string6 b tail :
  length b = 16%nat → Forall is_byte b →
  parse_kind (string6 (groups b) tail) = Some ":"%char.
Proof.
  intros Hlen Hb.
  destruct (groups_bytes b Hb) as (_ & Hg & Hgl); [by exists 8%nat|].
  unfold string6. destruct (zero_scan (groups b) 0 None) as [[zs ze]|].
  - destruct (take zs (groups b)) eqn:Ht; [done|]. rewrite <-Ht.
    apply parse_kind_join; [by apply Forall_take| |by rewrite Ht].
    right; right. by eexists.
  - apply parse_kind_join; [done|left; lia|].
    intros Hnil. rewrite Hnil in Hgl. cbn in Hgl. lia.
Qed.

Lemma appendDecimal_digits x tail :
  is_byte x → ∃ d rest, 0 ≤ d < 10 ∧ appendDecimal x tail = String (digit d) rest.
Proof.
  unfold is_byte. intros Hx. unfold appendDecimal, id.
  destruct (Z.leb_spec 100 x), (Z.leb_spec 10 x);
    eexists _, _; (split; [|reflexivity]); lia.
Qed.

Lemma parseIPv6_mapped a b c d zone :
  Forall is_byte [a; b; c; d] →
  parseIPv6 (("::ffff:" +:+ string4 [a; b; c; d] "") +:+ zone_suffix zone) =
  Some (Addr6 [0;0;0;0;0;0;0;0;0;0;255;255;a;b;c;d] zone).
Proof.
  intros Hb. pose proof (parseIPv4_string4 a b c d Hb) as H4.
  rewrite !Forall_cons in Hb. destruct Hb as (Ha & Hb & Hc & Hd & _).
  assert (Hpct : no_percent (string4 [a; b; c; d] "") = true).
  { cbn [string4]. repeat (rewrite no_percent_decimal by done;
      try change (no_percent (String "." ?t)) with (no_percent t)). done. }
  set (rest := String "." (string4 [b; c; d] "")).
  destruct (parse_group_decimal a rest Ha eq_refl) as (acc & off & Hoff & Hgrp).
  destruct (appendDecimal_digits a rest Ha) as (e & t & He & Hh).
  change (appendDecimal a rest) with (string4 [a; b; c; d] "") in *.
  apply parseIPv6_text; [exact Hpct|].
  revert H4 Hgrp Hh Hpct. generalize (string4 [a; b; c; d] "") as T. intros T H4 Hgrp Hh _.
  change (HasPrefix ("::ffff:" +:+ T) "::") with true. cbv iota.
  change (slice_from 2 ("::ffff:" +:+ T)) with ("ffff:" +:+ T).
  rewrite bool_decide_eq_false_2 by done.
  assert (parseIPv6_loop 8 [] (Some 0%nat) ("ffff:" +:+ T) =
          parseIPv6_loop 7 [255; 255] (Some 0%nat) T) as ->.
  { rewrite Hh. cbn [parseIPv6_loop].
    change (parse_group ("ffff:" +:+ String (digit e) t) 0 0) with
      (Some (65535, 4, String ":" (String (digit e) t))). cbn -[parseIPv6_loop].
    by rewrite (bool_decide_eq_false_2 (digit e = ":"%char)) by (apply digit_ne; [lia|done]). }
  cbn [parseIPv6_loop]. rewrite Hgrp.
  rewrite (proj2 (Z.eqb_neq _ _)) by lia. subst rest. cbn [HasPrefix].
  rewrite bool_decide_eq_true_2 by done. cbn [andb length Nat.add Nat.ltb Nat.leb].
  rewrite (bool_decide_eq_false_2 (Some 0%nat = None)) by done. cbn [andb].
  by rewrite H4.
Qed.

Lemma length16_mapped b :
  length b = 16%nat → Is4In6 b = true →
  ∃ x y z w, b = [0;0;0;0;0;0;0;0;0;0;255;255;x;y;z;w].
Proof.
  unfold Is4In6. intros Hlen H%bool_decide_eq_true.
  destruct (length4_inv (drop 12 b)) as (x & y & z & w & Hd); [rewrite length_drop; lia|].
  exists x, y, z, w. by rewrite <-(take_drop 12 b), H, Hd.
Qed.

(** Printing then parsing gives the address back: every valid [netip.Addr],
    IPv4, IPv6 and IPv4-mapped, with or without a zone. *)
Lemma ParseAddr_String a : Addr_wf a → ParseAddr (Addr_String a) = Some a.
Proof.
  destruct a as [|b|b zone]; [done|..]; intros [Hlen Hb]; unfold ParseAddr; cbn [Addr_String].
  - destruct (length4_inv b Hlen) as (x & y & z & w & ->).
    rewrite parseIPv4_string4 by done. cbn [string4].
    rewrite !Forall_cons in Hb. destruct Hb as (Hx & _).
    by rewrite parse_kind_decimal by done.
  - destruct (Is4In6 b) eqn:H46.
    + destruct (length16_mapped b Hlen H46) as (x & y & z & w & ->).
      change (drop 12 _) with [x; y; z; w].
      change (zone_suffix zone) with ("" +:+ zone_suffix zone).
      rewrite string4_app, <-string_app_assoc, parseIPv6_mapped; [done|].
      exact (Forall_drop _ 12 _ Hb).
    + by rewrite parse_kind_string6, parseIPv6_string6.
Qed.

(** ** Gateway addresses, as [answerGateway] reads them back *)

(** [net.ParseIP(addr.String())] is the 16-byte form of the address, or nil when
    the address has a zone. *)
Lemma ParseIP_String a :
  Addr_wf a →
  ParseIP (Addr_String a) = if bool_decide (Addr_Zone a = "") then As16 a else [].
Proof. intros Ha. unfold ParseIP. by rewrite ParseAddr_String. Qed.

Lemma parse_group_bounds s off acc r :
  0 ≤ acc ≤ 65535 → parse_group s off acc = Some r → 0 ≤ r.1.1 ≤ 65535.
Proof.
  revert off acc; induction s as [|c s IH]; intros off acc Hacc; cbn.
  { by intros [= <-]. }
  destruct (hex_val c) as [d|] eqn:Hd; [|by intros [= <-]].
  destruct (3 <? off); [done|]. destruct (Z.ltb_spec 65535 (acc * 16 + d)); [done|].
  apply IH. assert (0 ≤ d); [|lia]. revert Hd. unfold hex_val, in_range.
  change (byte_val "0") with 48. change (byte_val "9") with 57.
  change (byte_val "a") with 97. change (byte_val "f") with 102.
  change (byte_val "A") with 65. change (byte_val "F") with 70.
  repeat case_match; intros; destruct_bools; simplify_eq; lia.
Qed.

Lemma parseIPv4_loop_wf s prev val digLen fields r :
  Forall is_byte fields → (length fields ≤ 3)%nat → 0 ≤ val ≤ 255 →
  parseIPv4_loop s prev val digLen fields = Some r →
  length r = 4%nat ∧ Forall is_byte r.
Proof.
  revert prev val digLen fields; induction s as [|c s IH]; intros prev val digLen fields Hf Hl Hv.
  - cbn [parseIPv4_loop]. destruct (Nat.ltb_spec (length fields) 3); [done|]. intros [= <-].
    rewrite length_app, Forall_app, Forall_singleton. unfold is_byte. cbn. split_and!; [lia|done|lia..].
  - cbn [parseIPv4_loop]. destruct (in_range "0" "9" c) eqn:Hr.
    + destruct (_ && _); [done|]. destruct (Z.ltb_spec 255 (val * 10 + (byte_val c - 48))); [done|].
      apply IH; [done..|]. unfold in_range in Hr. destruct_bools.
      change (byte_val "0") with 48 in *. lia.
    + destruct (bool_decide (c = _)); [|done]. destruct (_ || _); [done|].
      destruct (Nat.eqb_spec (length fields) 3); [done|].
      apply IH; [|rewrite length_app; cbn; lia|lia].
      rewrite Forall_app, Forall_singleton. unfold is_byte. split; [done|lia].
Qed.

(** Everything [ParseAddr] returns is well formed. *)
Lemma parseIPv6_loop_wf n ip ell s r :
  Forall is_byte ip → length ip = (16 - 2 * n)%nat → (n ≤ 8)%nat →
  (∀ e, ell = Some e → (e ≤ length ip)%nat) →
  parseIPv6_loop n ip ell s = Some r →
  Forall is_byte r.1.1 ∧ (length r.1.1 ≤ 16)%nat ∧
  (∀ e, r.1.2 = Some e → (e ≤ length r.1.1)%nat).
Proof.
  revert ip ell s; induction n as [|n IH]; intros ip ell s Hip Hlen Hn Hell; cbn [parseIPv6_loop].
  { intros [= <-]. cbn. split_and!; [done|lia|done]. }
  destruct (parse_group s 0 0) as [[[acc off] rest]|] eqn:Hg; [|done].
  apply parse_group_bounds in Hg; [|lia]. cbn in Hg.
  destruct (off =? 0); [done|].
  destruct (HasPrefix rest ".").
  { destruct (_ && _); [done|]. destruct (Nat.ltb_spec 16 (length ip + 4)); [done|].
    destruct (parseIPv4Fields s) as [f|] eqn:Hf; [|done]. intros [= <-].
    apply parseIPv4_loop_wf in Hf as [Hfl Hfb]; [|constructor|cbn; lia|lia].
    cbn. rewrite Forall_app, length_app. split_and!; [done|done|lia|].
    intros e He. apply Hell in He. lia. }
  assert (Hip' : Forall is_byte (ip ++ [acc / 256; acc mod 256])).
  { rewrite Forall_app, !Forall_cons. unfold is_byte. split_and!; [done|lia..|constructor]. }
  assert (Hl' : length (ip ++ [acc / 256; acc mod 256]) = (16 - 2 * n)%nat).
  { rewrite length_app. cbn. lia. }
  assert (Hell' : ∀ e, ell = Some e → (e ≤ length (ip ++ [(acc / 256)%Z; (acc mod 256)%Z]))%nat).
  { intros e He. apply Hell in He. rewrite length_app. lia. }
  revert Hip' Hl' Hell'. generalize (ip ++ [acc / 256; acc mod 256]) as ip'.
  intros ip' Hip' Hl' Hell'.
  destruct rest as [|c rest]; [intros [= <-]; cbn; split_and!; [done|lia|done]|].
  destruct (negb _); [done|]. destruct rest as [|c2 rest2]; [done|].
  destruct (bool_decide (c2 = _)); [|apply IH; done || lia].
  destruct ell; [done|]. case_bool_decide.
  - intros [= <-]. cbn. split_and!; [done|lia|]. by intros e [= <-].
  - apply IH; [done|lia|lia|]. by intros e [= <-].
Qed.

Lemma ParseAddr_wf s a : ParseAddr s = Some a → Addr_wf a.
Proof.
  unfold ParseAddr. destruct (parse_kind s) as [c|]; [|done].
  assert (Hloop : ∀ ell t zone a, (∀ e, ell = Some e → e = 0%nat) →
    parseIPv6_loop 8 [] ell t ≫= parseIPv6_finish zone = Some a → Addr_wf a).
  { clear. intros ell t zone a Hell (r & Hr & Hf)%bind_Some.
    apply parseIPv6_loop_wf in Hr as (Hb & Hl & He); [|constructor|done|lia|].
    2:{ intros e Hee. by rewrite (Hell e Hee). }
    destruct r as [[ip e] rest]. cbn [fst snd] in *. unfold parseIPv6_finish in Hf.
    destruct (bool_decide (rest = "")); [|done]. cbv iota beta delta [negb] in Hf.
    destruct (Nat.ltb_spec (length ip) 16); destruct e as [e|]; simplify_eq.
    - specialize (He e eq_refl). cbn.
      rewrite !length_app, length_take, length_drop, length_replicate. split; [lia|].
      rewrite !Forall_app. split_and!; [by apply Forall_take| |by apply Forall_drop].
      apply Forall_replicate. unfold is_byte. lia.
    - cbn. split; [lia|done]. }
  repeat case_match; try done; subst.
  all: try (intros (f & Hf & ->)%fmap_Some;
    by apply parseIPv4_loop_wf in Hf; [|constructor|cbn; lia|lia]).
  unfold parseIPv6. destruct (Cut s "%") as [[t zone] found].
  destruct (found && _); [done|]. destruct (HasPrefix t "::").
  - case_bool_decide.
    + intros [= <-]. cbn. split; [done|]. by repeat constructor.
    + apply Hloop. by intros e [= <-].
  - by apply Hloop.
Qed.
