(* ===== verification/DnsLib.v ===== *)
(** * The DNS libraries zonedns is built on, as interfaces

    Package [github.com/miekg/dns] and CoreDNS's [request] are not part of the
    repository. Their message structs are written out (the source reads and
    writes the fields directly); the methods the source calls are the operation
    classes [DnsOps] and [RequestOps], and what the source relies on of their
    documented behaviour is the law classes [DnsLaws] and [RequestLaws]. Every
    theorem about code that calls them is stated for an arbitrary instance; the
    instance at the end of the file shows that the laws can be met and is used
    by the witnesses. *)

From S2P Require Import Prelude GoStd.

Open Scope Z_scope.

Definition TypeA : Z := 1.
Definition TypeAAAA : Z := 28.
Definition TypeOPT : Z := 41.
Definition ClassINET : Z := 1.
Definition RcodeSuccess : Z := 0.
Definition RcodeServerFailure : Z := 2.
Definition DefaultMsgSize : Z := 4096.

(** An EDNS0 option: [*dns.EDNS0_LOCAL] is the one type the source looks at. *)
Inductive EDNS0 :=
  | EDNS0_LOCAL (Code : Z) (Data : string)
  | EDNS0_other (Code : Z) (Data : string).

Record RR_Header := {
  hdr_Name : string;
  hdr_Rrtype : Z;
  hdr_Class : Z;
  hdr_Ttl : Z;
}.

(** The dynamic type of a [dns.RR] and its payload; an IP is a byte slice,
    [[]] when it is nil. *)
Inductive RData :=
  | RD_A (ip : list Z)
  | RD_AAAA (ip : list Z)
  | RD_OPT (Option : list EDNS0)
  | RD_other (payload : string).

Record RR := { Hdr : RR_Header; Body : RData }.

Record Question := { q_Name : string; q_Qtype : Z; q_Qclass : Z }.

Record Msg := {
  Id : Z;
  Response : bool;
  Opcode : Z;
  Authoritative : bool;
  Truncated : bool;
  RecursionDesired : bool;
  RecursionAvailable : bool;
  AuthenticatedData : bool;
  CheckingDisabled : bool;
  Rcode : Z;
  Questions : list Question;
  Answer : list RR;
  Ns : list RR;
  Extra : list RR;
}.

#[global] Instance EDNS0_eq_dec : EqDecision EDNS0.
Proof. solve_decision. Defined.
#[global] Instance RR_Header_eq_dec : EqDecision RR_Header.
Proof. solve_decision. Defined.
#[global] Instance RData_eq_dec : EqDecision RData.
Proof. solve_decision. Defined.
#[global] Instance RR_eq_dec : EqDecision RR.
Proof. solve_decision. Defined.
#[global] Instance Question_eq_dec : EqDecision Question.
Proof. solve_decision. Defined.
#[global] Instance Msg_eq_dec : EqDecision Msg.
Proof. solve_decision. Defined.

(** [new(dns.Msg)] *)
Definition zero_Msg : Msg := {|
  Id := 0; Response := false; Opcode := 0; Authoritative := false;
  Truncated := false; RecursionDesired := false; RecursionAvailable := false;
  AuthenticatedData := false; CheckingDisabled := false; Rcode := 0;
  Questions := []; Answer := []; Ns := []; Extra := [] |}.

(** ** Field updates *)
Definition with_Id (m : Msg) (x : Z) : Msg := {|
  Id := x; Response := Response m; Opcode := Opcode m;
  Authoritative := Authoritative m; Truncated := Truncated m;
  RecursionDesired := RecursionDesired m; RecursionAvailable := RecursionAvailable m;
  AuthenticatedData := AuthenticatedData m; CheckingDisabled := CheckingDisabled m;
  Rcode := Rcode m; Questions := Questions m; Answer := Answer m; Ns := Ns m;
  Extra := Extra m |}.

Definition with_Rcode (m : Msg) (x : Z) : Msg := {|
  Id := Id m; Response := Response m; Opcode := Opcode m;
  Authoritative := Authoritative m; Truncated := Truncated m;
  RecursionDesired := RecursionDesired m; RecursionAvailable := RecursionAvailable m;
  AuthenticatedData := AuthenticatedData m; CheckingDisabled := CheckingDisabled m;
  Rcode := x; Questions := Questions m; Answer := Answer m; Ns := Ns m;
  Extra := Extra m |}.

Definition with_Authoritative (m : Msg) (x : bool) : Msg := {|
  Id := Id m; Response := Response m; Opcode := Opcode m;
  Authoritative := x; Truncated := Truncated m;
  RecursionDesired := RecursionDesired m; RecursionAvailable := RecursionAvailable m;
  AuthenticatedData := AuthenticatedData m; CheckingDisabled := CheckingDisabled m;
  Rcode := Rcode m; Questions := Questions m; Answer := Answer m; Ns := Ns m;
  Extra := Extra m |}.

Definition with_sections (m : Msg) (an ns ex : list RR) : Msg := {|
  Id := Id m; Response := Response m; Opcode := Opcode m;
  Authoritative := Authoritative m; Truncated := Truncated m;
  RecursionDesired := RecursionDesired m; RecursionAvailable := RecursionAvailable m;
  AuthenticatedData := AuthenticatedData m; CheckingDisabled := CheckingDisabled m;
  Rcode := Rcode m; Questions := Questions m; Answer := an; Ns := ns;
  Extra := ex |}.

Definition with_Answer (m : Msg) (an : list RR) : Msg :=
  with_sections m an (Ns m) (Extra m).

Definition with_Extra (m : Msg) (ex : list RR) : Msg :=
  with_sections m (Answer m) (Ns m) ex.

Definition with_Ttl (rr : RR) (ttl : Z) : RR := {|
  Hdr := {| hdr_Name := hdr_Name (Hdr rr); hdr_Rrtype := hdr_Rrtype (Hdr rr);
            hdr_Class := hdr_Class (Hdr rr); hdr_Ttl := ttl |};
  Body := Body rr |}.

(** ** OPT records

    A pointer to an OPT record of a message is its index in [Extra]. *)
Definition is_opt (rr : RR) : bool :=
  match Body rr with RD_OPT _ => true | _ => false end.

Definition rr_options (rr : RR) : list EDNS0 :=
  match Body rr with RD_OPT os => os | _ => [] end.

(** [opt.Option] read through the pointer, and assigned through it. *)
Definition opt_Option (m : Msg) (i : nat) : list EDNS0 :=
  default [] (rr_options <$> Extra m !! i).

Definition set_opt_Option (m : Msg) (i : nat) (os : list EDNS0) : Msg :=
  with_Extra m (alter (fun rr => {| Hdr := Hdr rr; Body := RD_OPT os |}) i (Extra m)).

(** The record [SetEdns0] appends: the class carries the UDP size, bit 15 of the
    TTL is the DO flag. *)
Definition fresh_opt (udpsize : Z) (dobit : bool) : RR := {|
  Hdr := {| hdr_Name := "."; hdr_Rrtype := TypeOPT; hdr_Class := udpsize;
            hdr_Ttl := if dobit then 2 ^ 15 else 0 |};
  Body := RD_OPT [] |}.

(** ** The message methods *)
Class DnsOps := {
  (** "checks if the message has a EDNS0 (OPT) record, any EDNS0 record in the
      additional section will do. It returns the OPT record found or nil." *)
  IsEdns0 : Msg → option nat;
  (** "appends a EDNS0 OPT RR to the message" *)
  SetEdns0 : Msg → Z → bool → Msg;
  (** "creates a reply message from a request message": receiver, request *)
  SetReply : Msg → Msg → Msg;
  (** "returns a new *Msg which is a deep-copy of dns": the value of the copy *)
  Copy : Msg → Msg;
}.

Class DnsLaws `{DnsOps} : Prop := {
  IsEdns0_Some m i :
    IsEdns0 m = Some i → ∃ rr, Extra m !! i = Some rr ∧ is_opt rr = true;
  IsEdns0_None m :
    IsEdns0 m = None ↔ Forall (fun rr => is_opt rr = false) (Extra m);
  (** the record is found by its type alone *)
  IsEdns0_types m m' :
    map is_opt (Extra m) = map is_opt (Extra m') → IsEdns0 m = IsEdns0 m';
  SetEdns0_spec m size dobit :
    SetEdns0 m size dobit = with_Extra m (Extra m ++ [fresh_opt size dobit]);
  SetReply_Id m r : Id (SetReply m r) = Id r;
  SetReply_Response m r : Response (SetReply m r) = true;
  SetReply_Rcode m r : Rcode (SetReply m r) = RcodeSuccess;
  SetReply_Questions m r q qs :
    Questions r = q :: qs → Questions (SetReply m r) = [q];
  SetReply_Answer m r : Answer (SetReply m r) = Answer m;
  SetReply_Ns m r : Ns (SetReply m r) = Ns m;
  SetReply_Extra m r : Extra (SetReply m r) = Extra m;
  Copy_deep m : Copy m = m;
}.

(** ** CoreDNS's request.Request, over the message it wraps *)
Class RequestOps := {
  (** "returns the type of the question as an uint16. If the request is
      malformed 0 is returned." *)
  QType : Msg → Z;
  (** "returns the name of the question in the request. If the request is
      malformed the root zone is returned." *)
  QName : Msg → string;
  (** as [QName], "this name will always have a closing dot and will be lower
      cased" *)
  req_Name : Msg → string;
  (** "adds an OPT record that the reflects the intent from request": request,
      reply *)
  SizeAndDo : Msg → Msg → Msg;
}.

Class RequestLaws `{Strings.Unicode, RequestOps} : Prop := {
  QType_one r q : Questions r = [q] → QType r = q_Qtype q;
  QName_one r q : Questions r = [q] → QName r = q_Name q;
  req_Name_one r q :
    Questions r = [q] → Strings.HasSuffix (q_Name q) "." = true →
    req_Name r = Strings.ToLower (q_Name q);
  (** they read the question section only, and the name is lower-cased already *)
  request_question r r' :
    Questions r = Questions r' → QType r = QType r' ∧ QName r = QName r' ∧ req_Name r = req_Name r';
  req_Name_lower r : Strings.ToLower (req_Name r) = req_Name r;
  SizeAndDo_Extra r m : ∃ ex, SizeAndDo r m = with_Extra m ex;
}.

(** ** Consequences of the laws *)
Section facts.
Context `{DnsLaws}.

Lemma map_is_opt_alter i os (ex : list RR) rr :
  ex !! i = Some rr → is_opt rr = true →
  map is_opt (alter (fun rr => {| Hdr := Hdr rr; Body := RD_OPT os |}) i ex) =
  map is_opt ex.
Proof.
  revert i; induction ex as [|x ex IH]; intros [|i] Hi Hopt; simplify_eq/=.
  - by rewrite Hopt.
  - f_equal. by apply IH.
Qed.

(** Writing the options of the record found leaves it the one found. *)
Lemma IsEdns0_set_opt m i os :
  IsEdns0 m = Some i → IsEdns0 (set_opt_Option m i os) = Some i.
Proof.
  intros Hm. destruct (IsEdns0_Some m i Hm) as (rr & Hi & Hopt).
  rewrite <-Hm. apply IsEdns0_types. cbn. by apply map_is_opt_alter with rr.
Qed.

Lemma opt_Option_set_opt m i os :
  IsEdns0 m = Some i → opt_Option (set_opt_Option m i os) i = os.
Proof.
  intros Hm. destruct (IsEdns0_Some m i Hm) as (rr & Hi & Hopt).
  unfold opt_Option, set_opt_Option; cbn. by rewrite list_lookup_alter_eq, Hi.
Qed.

Lemma set_opt_set_opt m i os os' :
  set_opt_Option (set_opt_Option m i os) i os' = set_opt_Option m i os'.
Proof.
  unfold set_opt_Option, with_Extra, with_sections; cbn. f_equal.
  apply list_eq. intros j. destruct (decide (i = j)) as [->|Hij].
  - rewrite !list_lookup_alter_eq. by destruct (Extra m !! j).
  - by rewrite !list_lookup_alter_ne.
Qed.

Lemma set_opt_same m i :
  IsEdns0 m = Some i → set_opt_Option m i (opt_Option m i) = m.
Proof.
  intros Hm. destruct (IsEdns0_Some m i Hm) as (rr & Hi & Hopt).
  unfold opt_Option, set_opt_Option. rewrite Hi; cbn.
  assert (alter (fun rr0 => {| Hdr := Hdr rr0; Body := RD_OPT (rr_options rr) |}) i
    (Extra m) = Extra m) as ->; [|by destruct m].
  apply list_eq. intros j. destruct (decide (i = j)) as [->|Hij].
  - rewrite list_lookup_alter_eq, Hi; cbn. destruct rr as [h []]; done.
  - by rewrite list_lookup_alter_ne.
Qed.

(** A message without an OPT record gets one from [SetEdns0], at the end. *)
Lemma IsEdns0_SetEdns0 m size dobit :
  IsEdns0 m = None → IsEdns0 (SetEdns0 m size dobit) = Some (length (Extra m)).
Proof.
  intros Hm. rewrite SetEdns0_spec. apply IsEdns0_None in Hm.
  destruct (IsEdns0 _) as [i|] eqn:Hi.
  - apply IsEdns0_Some in Hi as (rr & Hi & Hopt); cbn in Hi.
    apply lookup_app_Some in Hi as [Hi|[Hge Hi]].
    + rewrite Forall_lookup in Hm. specialize (Hm i rr Hi). congruence.
    + apply list_lookup_singleton_Some in Hi as [? _]. f_equal. lia.
  - apply IsEdns0_None in Hi; cbn in Hi.
    rewrite Forall_app, Forall_singleton in Hi. by destruct Hi.
Qed.

Lemma opt_Option_SetEdns0 m size dobit :
  opt_Option (SetEdns0 m size dobit) (length (Extra m)) = [].
Proof.
  rewrite SetEdns0_spec. unfold opt_Option; cbn.
  by rewrite lookup_app_r, Nat.sub_diag by lia.
Qed.
End facts.

(** ** An instance of the interfaces

    The last OPT record wins, the reply fields are those of the request, the
    reply carries an OPT record when the request does. *)
Module Reference.
Fixpoint last_opt (i : nat) (ex : list RR) (found : option nat) : option nat :=
  match ex with
  | [] => found
  | rr :: ex' => last_opt (S i) ex' (if is_opt rr then Some i else found)
  end.

#[export] Instance ref_dns_ops : DnsOps := {|
  IsEdns0 m := last_opt 0 (Extra m) None;
  SetEdns0 m size dobit := with_Extra m (Extra m ++ [fresh_opt size dobit]);
  SetReply m r := {|
    Id := Id r; Response := true; Opcode := Opcode r;
    Authoritative := Authoritative m; Truncated := Truncated m;
    RecursionDesired := RecursionDesired r;
    RecursionAvailable := RecursionAvailable m;
    AuthenticatedData := AuthenticatedData m;
    CheckingDisabled := CheckingDisabled r; Rcode := RcodeSuccess;
    Questions := match Questions r with q :: _ => [q] | [] => Questions m end;
    Answer := Answer m; Ns := Ns m; Extra := Extra m |};
  Copy m := m;
|}.

Definition ref_question (r : Msg) : Question :=
  match Questions r with
  | [q] => q
  | _ => {| q_Name := "."; q_Qtype := 0; q_Qclass := 0 |}
  end.

#[export] Instance ref_unicode : Strings.Unicode := {|
  Strings.unicode_to_lower s := s;
  Strings.unicode_equal_fold s t := bool_decide (s = t);
|}.

#[export] Instance ref_request_ops : RequestOps := {|
  QType r := q_Qtype (ref_question r);
  QName r := q_Name (ref_question r);
  req_Name r := Strings.ToLower (q_Name (ref_question r));
  SizeAndDo r m :=
    if existsb is_opt (Extra r)
    then with_Extra m (Extra m ++ [fresh_opt DefaultMsgSize false]) else m;
|}.

Lemma last_opt_spec i ex found :
  (∃ j rr, last_opt i ex found = Some (i + j)%nat ∧ ex !! j = Some rr ∧
           is_opt rr = true) ∨
  (last_opt i ex found = found ∧ Forall (fun rr => is_opt rr = false) ex).
Proof.
  revert i found; induction ex as [|x ex IH]; intros i found; cbn; [by right|].
  destruct (IH (S i) (if is_opt x then Some i else found))
    as [(j & rr & Hl & Hj & Ho)|[Hl Hall]].
  - left. exists (S j), rr. split_and!; [|done..]. rewrite Hl. f_equal. lia.
  - rewrite Hl. destruct (is_opt x) eqn:Hx.
    + left. exists 0%nat, x. split_and!; [f_equal; lia|done..].
    + right. by split; [|constructor].
Qed.

Lemma last_opt_types i ex ex' found :
  map is_opt ex = map is_opt ex' → last_opt i ex found = last_opt i ex' found.
Proof.
  revert i ex' found; induction ex as [|x ex IH]; intros i [|x' ex'] found; cbn;
    [done..|].
  intros [= Hx Hex]. rewrite Hx. by apply IH.
Qed.

#[export] Instance ref_dns_laws : DnsLaws.
Proof.
  split; cbn; try done.
  - intros m i Hi. destruct (last_opt_spec 0 (Extra m) None)
      as [(j & rr & Hl & Hj & Ho)|[Hl _]]; rewrite Hl in Hi; simplify_eq/=.
    by exists rr.
  - intros m. destruct (last_opt_spec 0 (Extra m) None)
      as [(j & rr & Hl & Hj & Ho)|[Hl Hall]]; rewrite Hl; [|done].
    split; [done|]. rewrite Forall_lookup. intros Hall.
    specialize (Hall j rr Hj). congruence.
  - intros m m'. apply last_opt_types.
  - intros m r q qs. by destruct (Questions r); intros [= -> ->].
Qed.

#[export] Instance ref_request_laws : RequestLaws.
Proof.
  split; cbn.
  1-3: by intros r q; unfold ref_question; intros ->.
  - by intros r r'; unfold ref_question; intros ->.
  - intros r. generalize (q_Name (ref_question r)). intros s.
    destruct (Strings.string_forallb Strings.is_ascii s) eqn:Hs.
    { by apply Strings.ToLower_idemp_ascii. }
    unfold Strings.ToLower at 2 3. rewrite Hs. cbn. unfold Strings.ToLower. by rewrite Hs.
  -  intros r m. case_match; [by eexists|]. exists (Extra m). by destruct m.
Qed.
End Reference.
