(* ===== verification/EdnsZone.v ===== *)
(** * internal/ednszone: the source zone on the wire

    The zone declaration an agent sends to central is one EDNS0 local option.
    [SetZone] writes it (Go: [Set]), [GetZone] reads it (Go: [Get]), [Valid] is
    the character rule both ends apply. *)

From S2P Require Import Prelude GoStd DnsLib.

Open Scope Z_scope.

Definition DefaultCode : Z := 65001.
Definition MaxLen : Z := 63.

(** The switch in the loop of [Valid]. *)
Definition zone_char (c : ascii) : bool :=
  in_range "a" "z" c || in_range "A" "Z" c || in_range "0" "9" c ||
  (bool_decide (c = "-"%char) || bool_decide (c = "_"%char)).

Fixpoint valid_loop (zone : string) : bool :=
  match zone with
  | EmptyString => true
  | String c zone' => if zone_char c then valid_loop zone' else false
  end.

Definition Valid (zone : string) : bool :=
  if bool_decide (zone = "") || (MaxLen <? Z.of_nat (String.length zone))
  then false else valid_loop zone.

(** [l, isLocal := o.( *dns.EDNS0_LOCAL); isLocal && l.Code == code] *)
Definition is_zone_option (code : Z) (o : EDNS0) : bool :=
  match o with
  | EDNS0_LOCAL c _ => c =? code
  | EDNS0_other _ _ => false
  end.

(** The loop of [Get]: [None] is the early return on a second match. *)
Fixpoint get_loop (code : Z) (os : list EDNS0) (matches : Z) (zone : string)
    : option (Z * string) :=
  match os with
  | [] => Some (matches, zone)
  | o :: os' =>
      match o with
      | EDNS0_LOCAL c data =>
          if negb (c =? code) then get_loop code os' matches zone
          else if 1 <? matches + 1 then None
          else get_loop code os' (matches + 1) data
      | EDNS0_other _ _ => get_loop code os' matches zone
      end
  end.

Section ops.
Context `{DnsOps}.

(** [None] is a nil dereference of [opt]. *)
Definition SetZone (m : Msg) (code : Z) (zone : string) : option Msg :=
  let m := match IsEdns0 m with
           | None => SetEdns0 m DefaultMsgSize false
           | Some _ => m
           end in
  opt ← IsEdns0 m;
  let kept := Slices.compact (is_zone_option code) (opt_Option m opt) in
  Some (set_opt_Option m opt (kept ++ [EDNS0_LOCAL code zone])).

Definition GetZone (m : Msg) (code : Z) : option string :=
  match IsEdns0 m with
  | None => None
  | Some opt =>
      match get_loop code (opt_Option m opt) 0 "" with
      | None => None
      | Some (matches, zone) =>
          if negb (matches =? 1) || negb (Valid zone) then None else Some zone
      end
  end.
End ops.

(** ** The character rule *)
Lemma valid_loop_forallb zone :
  valid_loop zone = Strings.string_forallb zone_char zone.
Proof. induction zone as [|c z IH]; [done|]. cbn. by destruct (zone_char c). Qed.

Lemma Valid_nonempty zone : Valid zone = true → zone ≠ "".
Proof. unfold Valid. intros H ->. by rewrite bool_decide_eq_true_2 in H. Qed.

Lemma Valid_iff zone :
  Valid zone = true ↔
  1 ≤ Z.of_nat (String.length zone) ≤ MaxLen ∧
  Strings.string_forallb zone_char zone = true.
Proof.
  unfold Valid. rewrite valid_loop_forallb.
  destruct zone as [|c z]; [cbn; naive_solver lia|].
  rewrite bool_decide_eq_false_2 by done. rewrite orb_false_l.
  destruct (Z.ltb_spec MaxLen (Z.of_nat (String.length (String c z)))).
  - split; [done|]. lia.
  - cbn [String.length] in *. naive_solver lia.
Qed.
#[export] Hint Resolve Valid_nonempty : zonedns.

(** ** Options under the code *)
Definition zone_options (code : Z) (os : list EDNS0) : list EDNS0 :=
  List.filter (is_zone_option code) os.

Definition other_options (code : Z) (os : list EDNS0) : list EDNS0 :=
  List.filter (fun o => negb (is_zone_option code o)) os.

Lemma zone_options_data code os o :
  o ∈ zone_options code os → ∃ d, o = EDNS0_LOCAL code d.
Proof.
  intros [Ho Hc]%list_elem_of_In%filter_In.
  destruct o as [c d|]; [|done]. apply Z.eqb_eq in Hc as ->. by exists d.
Qed.

Lemma zone_options_app code os os' :
  zone_options code (os ++ os') = zone_options code os ++ zone_options code os'.
Proof. apply List.filter_app. Qed.

Lemma zone_options_other code os : zone_options code (other_options code os) = [].
Proof.
  unfold zone_options, other_options. induction os as [|o os IH]; [done|]. cbn.
  destruct (is_zone_option code o) eqn:Ho; cbn; [done|]. by rewrite Ho.
Qed.

Lemma zone_options_other_ne code code' os :
  code ≠ code' → zone_options code' (other_options code os) = zone_options code' os.
Proof.
  intros Hne. unfold zone_options, other_options.
  induction os as [|o os IH]; [done|]. cbn.
  destruct o as [c d|c d]; cbn; [|done].
  destruct (Z.eqb_spec c code) as [->|]; cbn.
  - by rewrite (proj2 (Z.eqb_neq _ _)) by done.
  - by rewrite IH.
Qed.

Lemma other_options_idemp code os :
  other_options code (other_options code os) = other_options code os.
Proof.
  unfold other_options. induction os as [|o os IH]; [done|]. cbn.
  destruct (is_zone_option code o) eqn:Ho; cbn; [done|]. rewrite Ho. cbn. by f_equal.
Qed.

Lemma other_options_app code os os' :
  other_options code (os ++ os') = other_options code os ++ other_options code os'.
Proof. apply List.filter_app. Qed.

(** The loop depends on the matching options only: none leaves the
    accumulator, one overwrites it, two abort. *)
Lemma get_loop_spec code os zone :
  get_loop code os 0 zone =
  match zone_options code os with
  | [] => Some (0, zone)
  | [EDNS0_LOCAL _ d] => Some (1, d)
  | _ => None
  end.
Proof.
  unfold zone_options.
  assert (Hone : ∀ os z, get_loop code os 1 z =
    match List.filter (is_zone_option code) os with [] => Some (1, z) | _ => None end).
  { clear. induction os as [|[c d|c d] os IH]; intros z; cbn; [done| |apply IH].
    destruct (c =? code); cbn; [done|]. apply IH. }
  induction os as [|[c d|c d] os IH]; cbn; [done| |done].
  destruct (Z.eqb_spec c code) as [->|]; cbn; [|done].
  rewrite Hone. by destruct (List.filter _ os).
Qed.

Section facts.
Context `{DnsLaws}.

(** The message [SetZone] writes its option to: the query itself when it has an
    OPT record, the query with a fresh one otherwise. *)
Definition ensure_opt (m : Msg) : Msg :=
  match IsEdns0 m with
  | None => SetEdns0 m DefaultMsgSize false
  | Some _ => m
  end.

Lemma ensure_opt_Some m : ∃ i, IsEdns0 (ensure_opt m) = Some i.
Proof.
  unfold ensure_opt. destruct (IsEdns0 m) as [i|] eqn:Hi; [by exists i|].
  rewrite IsEdns0_SetEdns0 by done. by eexists.
Qed.

Lemma SetZone_eq m code zone i :
  IsEdns0 (ensure_opt m) = Some i →
  SetZone m code zone = Some (set_opt_Option (ensure_opt m) i
    (other_options code (opt_Option (ensure_opt m) i) ++ [EDNS0_LOCAL code zone])).
Proof.
  intros Hi. unfold SetZone. fold (ensure_opt m). rewrite Hi; cbn.
  by rewrite Slices.compact_filter.
Qed.

Lemma GetZone_options m code i :
  IsEdns0 m = Some i →
  GetZone m code =
  match zone_options code (opt_Option m i) with
  | [EDNS0_LOCAL _ d] => if Valid d then Some d else None
  | _ => None
  end.
Proof.
  intros Hi. unfold GetZone. rewrite Hi, get_loop_spec.
  destruct (zone_options code (opt_Option m i)) as [|[c d|c d] [|]] eqn:Hz; cbn; try done.
  by destruct (Valid d).
Qed.

Lemma ensure_opt_options m i code :
  IsEdns0 (ensure_opt m) = Some i →
  GetZone m code =
  match zone_options code (opt_Option (ensure_opt m) i) with
  | [EDNS0_LOCAL _ d] => if Valid d then Some d else None
  | _ => None
  end.
Proof.
  unfold ensure_opt. destruct (IsEdns0 m) as [j|] eqn:Hj.
  - apply GetZone_options.
  - rewrite IsEdns0_SetEdns0 by done. intros [= <-].
    rewrite opt_Option_SetEdns0. unfold GetZone. by rewrite Hj.
Qed.

Lemma GetZone_Valid m code zone : GetZone m code = Some zone → Valid zone = true.
Proof.
  unfold GetZone. destruct (IsEdns0 m); [|done]. destruct (get_loop _ _ _ _) as [[k z]|]; [|done].
  destruct (Valid z) eqn:Hv; rewrite ?orb_true_r; [|done].
  destruct (negb (k =? 1)); cbn; [done|]. by intros [= <-].
Qed.

(** The declaration depends on the additional section alone. *)
Lemma GetZone_Extra m m' code : Extra m = Extra m' → GetZone m code = GetZone m' code.
Proof.
  intros He. unfold GetZone, opt_Option. rewrite (IsEdns0_types m m') by by rewrite He.
  by rewrite He.
Qed.

(** [SetZone] succeeds and leaves one option under the code. *)
Lemma SetZone_result m code zone :
  ∃ m' i, SetZone m code zone = Some m' ∧ IsEdns0 m' = Some i ∧
    zone_options code (opt_Option m' i) = [EDNS0_LOCAL code zone] ∧
    Questions m' = Questions m ∧ Id m' = Id m.
Proof.
  destruct (ensure_opt_Some m) as [i Hi]. eexists _, i. split; [by apply SetZone_eq|].
  split; [by apply IsEdns0_set_opt|]. rewrite opt_Option_set_opt by done.
  rewrite zone_options_app, zone_options_other. split; [cbn; by rewrite Z.eqb_refl|].
  unfold ensure_opt. destruct (IsEdns0 m); [done|]. by rewrite SetEdns0_spec.
Qed.

(** [SetZone] leaves every other code's reading alone. *)
Lemma SetZone_other_code m code zone m' code' :
  SetZone m code zone = Some m' → code' ≠ code → GetZone m' code' = GetZone m code'.
Proof.
  destruct (ensure_opt_Some m) as [i Hi].
  rewrite (SetZone_eq m code zone i Hi). intros [= <-] Hne.
  rewrite (GetZone_options _ _ i) by by apply IsEdns0_set_opt.
  rewrite opt_Option_set_opt by done.
  rewrite zone_options_app, zone_options_other_ne by done. cbn.
  rewrite (proj2 (Z.eqb_neq _ _)) by done. rewrite app_nil_r.
  symmetry. by apply ensure_opt_options.
Qed.

(** C10: reading is fail-closed and exact: [Get] returns a zone exactly when the
    OPT record of the message holds one option under the code, that option is
    the zone, and the zone is well formed. Two options under the code, whatever
    they hold, yield nothing. *)
Theorem GetZone_exactly_one m code zone :
  GetZone m code = Some zone ↔
  ∃ i, IsEdns0 m = Some i ∧
       zone_options code (opt_Option m i) = [EDNS0_LOCAL code zone] ∧
       Valid zone = true.
Proof.
  split.
  - destruct (IsEdns0 m) as [i|] eqn:Hi; [|unfold GetZone; by rewrite Hi].
    rewrite (GetZone_options m code i Hi). intros Hget. exists i. split; [done|].
    destruct (zone_options code (opt_Option m i)) as [|o [|]] eqn:Hz; try done.
    + destruct (zone_options_data code (opt_Option m i) o) as [d ->].
      { rewrite Hz. set_solver. }
      destruct (Valid d) eqn:Hv; naive_solver.
    + by destruct o.
  - intros (i & Hi & Hz & Hv). rewrite (GetZone_options m code i Hi), Hz. by rewrite Hv.
Qed.

(** C9: writing then reading: [Set] always succeeds (the OPT record it needs
    exists or is created, so its pointer is never nil), and a reader with the
    same code then sees exactly the zone written, or nothing when the zone is
    not one the wire format carries. Whatever options the message held before,
    older declarations included, do not show. *)
Theorem SetZone_GetZone m code zone :
  ∃ m', SetZone m code zone = Some m' ∧
        GetZone m' code = if Valid zone then Some zone else None.
Proof.
  destruct (SetZone_result m code zone) as (m' & i & Hs & Hi & Hopt & _).
  exists m'. split; [done|]. by rewrite (GetZone_options _ _ i Hi), Hopt.
Qed.


(** a second [Set] under the same code replaces the first, so a retry or a
    forwarding path cannot accumulate declarations. *)
Theorem SetZone_SetZone m code zone zone' m1 :
  SetZone m code zone = Some m1 →
  SetZone m1 code zone' = SetZone m code zone'.
Proof.
  destruct (ensure_opt_Some m) as [i Hi].
  rewrite !(SetZone_eq m _ _ i Hi). intros [= <-].
  assert (Hens : ensure_opt (set_opt_Option (ensure_opt m) i
    (other_options code (opt_Option (ensure_opt m) i) ++ [EDNS0_LOCAL code zone])) =
    set_opt_Option (ensure_opt m) i
    (other_options code (opt_Option (ensure_opt m) i) ++ [EDNS0_LOCAL code zone])).
  { unfold ensure_opt at 1. by rewrite IsEdns0_set_opt. }
  rewrite (SetZone_eq _ _ _ i) by (by rewrite Hens, IsEdns0_set_opt).
  rewrite Hens, opt_Option_set_opt by done. rewrite set_opt_set_opt.
  rewrite other_options_app, other_options_idemp. cbn. rewrite Z.eqb_refl. cbn.
  by rewrite app_nil_r.
Qed.
End facts.

(** ** Witnesses *)
Module EdnsZoneWitnesses.
Import DnsLib.Reference.

(** A query that already carries a forged declaration and a second one. *)
Definition forged : Msg := with_Extra zero_Msg
  [{| Hdr := Hdr (fresh_opt 1232 true);
      Body := RD_OPT [EDNS0_LOCAL 65001 "fab"; EDNS0_other 10 "cookie";
                      EDNS0_LOCAL 65001 "dmz"; EDNS0_LOCAL 65002 "keep"] |}].

Lemma GetZone_exactly_one_witness : GetZone forged 65002 = Some "keep".
Proof. apply GetZone_exactly_one. exists 0%nat. by vm_compute. Defined.

Lemma SetZone_GetZone_witness :
  ∃ m', SetZone forged 65001 "office" = Some m' ∧ GetZone m' 65001 = Some "office".
Proof. apply (SetZone_GetZone forged 65001 "office"). Defined.


Lemma SetZone_SetZone_witness :
  ∃ m1, SetZone forged 65001 "office" = Some m1 ∧
        SetZone m1 65001 "lab" = SetZone forged 65001 "lab".
Proof.
  eexists. split; [by vm_compute|].
  apply (SetZone_SetZone forged 65001 "office" "lab"). by vm_compute.
Defined.
End EdnsZoneWitnesses.
