(* ===== verification/SpiffeZone.v ===== *)
(** * internal/spiffezone: the zone segment of a SPIFFE ID

    The zone is the value of the first key/value pair of the path:
    [/zone/<zone>/...]. *)

From S2P Require Import Prelude GoStd GoUrl.
Import Strings.

Open Scope Z_scope.

Inductive spiffe_error :=
  | ErrNoZone
  | ErrParse (id : string) (e : url_error)
  | ErrNotSpiffe (id : string).

Definition FromPath (path : string) : result spiffe_error string :=
  let segs := Split (TrimPrefix path "/") "/" in
  match segs with
  | seg0 :: seg1 :: _ =>
      if negb (bool_decide (seg0 = "zone")) || bool_decide (seg1 = "") then Err ErrNoZone
      else Ok seg1
  | _ => Err ErrNoZone
  end.

Definition FromID `{Unicode, UrlLib} (id : string) : result spiffe_error string :=
  match Parse id with
  | Err e => Err (ErrParse id e)
  | Ok u =>
      if negb (bool_decide (Scheme u = "spiffe")) then Err (ErrNotSpiffe id)
      else FromPath (Path u)
  end.

Definition no_slash (s : string) : bool :=
  string_forallb (fun c => negb (bool_decide (c = "/"%char))) s.

(** What follows the zone segment: nothing, or further segments. *)
Definition path_tail (rest : string) : Prop :=
  rest = "" ∨ ∃ t, rest = String "/" t.

(** ** Facts about splitting *)
Lemma Split_cons_inv s h t :
  Split s "/" = h :: t →
  no_slash h = true ∧ ∃ rest, s = h +:+ rest ∧ path_tail rest ∧
  match rest with
  | EmptyString => t = []
  | String _ rest' => t = Split rest' "/"
  end.
Proof.
  intros Hs. split.
  { pose proof (Split_fields s "/") as Hf. rewrite Hs in Hf. by inversion Hf. }
  revert h t Hs; induction s as [|c s IH]; intros h t; cbn.
  { intros [= <- <-]. exists "". split_and!; [done|by left|done]. }
  case_bool_decide as Hc.
  - intros [= <- <-]. exists (String c s). subst c. split_and!; [done| |done].
    right. by eexists.
  - destruct (Split s "/") as [|h' t'] eqn:Hs'; [by apply Split_nonempty in Hs'|].
    intros [= <- <-]. destruct (IH h' t' eq_refl) as (rest & -> & Hp & Hm).
    exists rest. by split_and!.
Qed.

Lemma no_slash_app_tail z rest :
  no_slash z = true → path_tail rest →
  Split (z +:+ rest) "/" =
  match rest with EmptyString => [z] | String _ rest' => z :: Split rest' "/" end.
Proof.
  intros Hz [->|[t ->]].
  - rewrite Split_no_sep; [by rewrite string_app_nil_r|]. by rewrite string_app_nil_r.
  - by apply Split_prefix.
Qed.

Lemma Split_zone z rest :
  no_slash z = true → path_tail rest →
  ∃ t, Split ("zone/" +:+ z +:+ rest) "/" = "zone" :: z :: t.
Proof.
  intros Hz Hr.
  pose proof (Split_prefix "zone" (z +:+ rest) "/" eq_refl) as H.
  change ("zone" +:+ String "/" (z +:+ rest)) with ("zone/" +:+ z +:+ rest) in H.
  rewrite H, no_slash_app_tail by done. destruct rest; by eexists.
Qed.

(** the zone of a path: [FromPath] yields [z] exactly on the paths
    [zone/z] and [/zone/z], bare or followed by further segments, with [z] one
    non-empty segment. Every other path is an error. *)
Theorem FromPath_spec path z :
  FromPath path = Ok z ↔
  z ≠ "" ∧ no_slash z = true ∧
  ∃ rest, path_tail rest ∧
    (path = "/zone/" +:+ z +:+ rest ∨ path = "zone/" +:+ z +:+ rest).
Proof.
  unfold FromPath. split.
  - destruct (Split _ _) as [|h [|z' t]] eqn:Hs; try done.
    case_bool_decide as Hh; [|done]. case_bool_decide as Hz; [done|]. intros [= ->]. subst h.
    destruct (Split_cons_inv _ _ _ Hs) as (_ & rest & Hp & Hr & Hm).
    destruct Hr as [->|[t' ->]]; [done|].
    destruct (Split_cons_inv _ _ _ (eq_sym Hm)) as (Hns & rest & -> & Hr & _).
    split_and!; [done..|]. exists rest. split; [done|].
    unfold TrimPrefix in Hp. destruct (HasPrefix path "/") eqn:Hpre; [left|by right].
    apply HasPrefix_spec in Hpre as [p' ->].
    rewrite slice_from_app in Hp. by subst p'.
  - intros (Hz & Hns & rest & Hr & Hpath).
    assert (TrimPrefix path "/" = "zone/" +:+ z +:+ rest) as ->.
    { destruct Hpath as [->| ->].
      - change ("/zone/" +:+ z +:+ rest) with ("/" +:+ ("zone/" +:+ z +:+ rest)).
        apply TrimPrefix_app.
      - done. }
    destruct (Split_zone z rest Hns Hr) as [t ->].
    rewrite bool_decide_eq_true_2 by done. cbn. by rewrite bool_decide_eq_false_2.
Qed.
