(* ===== verification/SpiffeID.v ===== *)
(** * SPIFFE IDs as URLs

    The source compares SPIFFE IDs as strings, after a certificate's URI SAN went
    through [url.Parse] and [URL.String]. Here is why that is the comparison it
    looks like: an ID in the character set of the SPIFFE standard survives the round
    trip unchanged. *)

From S2P Require Import Prelude GoStd GoUrl SpiffeZone.
Import Strings.

Open Scope Z_scope.

(** The characters of a trust domain and of a path segment. *)
Definition id_char (c : ascii) : bool := is_alnum c || mem_byte c "-_.".
Definition path_char (c : ascii) : bool := id_char c || bool_decide (c = "/"%char).

(** A host without user information, port or escapes is its own text. *)
Class UrlLaws `{UrlLib} : Prop := {
  parseAuthority_host h : string_forallb id_char h = true → parseAuthority h = Some (None, h);
}.

Definition trust_domain (td : string) : Prop := td ≠ "" ∧ string_forallb id_char td = true.
Definition id_path (path : string) : Prop :=
  string_forallb path_char path = true ∧ path_tail path.

Definition spiffe_id (td path : string) : string := "spiffe://" +:+ td +:+ path.

(** ** Characters *)
Lemma char_impl (P Q : ascii → bool) :
  all_bytes (fun c => implb (P c) (Q c)) = true → ∀ c, P c = true → Q c = true.
Proof. intros Hall c HP. pose proof (all_bytes_spec _ Hall c) as Hc. cbn in Hc. by rewrite HP in Hc. Qed.

Lemma string_forallb_impl (P Q : ascii → bool) s :
  (∀ c, P c = true → Q c = true) → string_forallb P s = true → string_forallb Q s = true.
Proof.
  intros HPQ. induction s as [|c s IH]; [done|]. cbn. intros [Hc Hs]%andb_true_iff.
  by rewrite (HPQ c Hc), IH.
Qed.

Lemma string_forallb_app P s t :
  string_forallb P (s +:+ t) = string_forallb P s && string_forallb P t.
Proof. induction s as [|c s IH]; [done|]. rewrite cons_app. cbn. by rewrite IH, andb_assoc. Qed.

Definition no_char (sep : ascii) (s : string) : bool :=
  string_forallb (fun c => negb (bool_decide (c = sep))) s.

Lemma Cut_absent s sep : no_char sep s = true → Cut s sep = (s, "", false).
Proof.
  induction s as [|c s IH]; [done|]. cbn. case_bool_decide; cbn; [done|].
  intros Hs. by rewrite IH.
Qed.

Lemma Cut_present s sep t : no_char sep s = true → Cut (s +:+ String sep t) sep = (s, t, true).
Proof.
  induction s as [|c s IH].
  - intros _. rewrite nil_app. cbn. by rewrite bool_decide_eq_true_2.
  - rewrite cons_app. cbn. case_bool_decide; cbn; [done|]. intros Hs. by rewrite IH.
Qed.

Lemma Count_absent s sep : no_char sep s = true → Count s sep = 0.
Proof. induction s as [|c s IH]; [done|]. cbn. case_bool_decide; cbn; [done|]. exact IH. Qed.

Lemma unescape_plain s : string_forallb path_char s = true → unescape s = Some s.
Proof.
  induction s as [|c s IH]; [done|]. cbn [string_forallb]. intros [Hc Hs]%andb_true_iff.
  cbn [unescape]. rewrite bool_decide_eq_false_2 by by intros ->. by rewrite IH.
Qed.

Lemma escape_plain P mode s :
  (∀ c, P c = true → shouldEscape c mode = false) → string_forallb P s = true → escape s mode = s.
Proof.
  intros HP. induction s as [|c s IH]; [done|]. cbn. intros [Hc Hs]%andb_true_iff.
  by rewrite (HP c Hc), IH.
Qed.

Lemma path_char_unescaped c : path_char c = true → shouldEscape c encodePath = false.
Proof.
  intros Hc. apply negb_true_iff. revert c Hc. apply char_impl. by vm_compute.
Qed.

Lemma id_char_unescaped c : id_char c = true → shouldEscape c encodeHost = false.
Proof.
  intros Hc. apply negb_true_iff. revert c Hc. apply char_impl. by vm_compute.
Qed.

Lemma id_char_path_char s : string_forallb id_char s = true → string_forallb path_char s = true.
Proof. apply string_forallb_impl, char_impl. by vm_compute. Qed.

Lemma id_char_no_slash s : string_forallb id_char s = true → no_char "/" s = true.
Proof. apply string_forallb_impl, char_impl. by vm_compute. Qed.

(** ** The round trip *)
Section round_trip.
Context `{Unicode, UrlLib, !UrlLaws}.
Context (td path : string) (Htd : trust_domain td) (Hpath : id_path path).

Definition spiffe_url : URL := {|
  Scheme := "spiffe"; Opaque := ""; User := None; Host := td; Path := path; RawPath := "";
  OmitHost := false; ForceQuery := false; RawQuery := ""; Fragment := ""; RawFragment := "" |}.

(** No character of the ID is one of the delimiters. *)
Lemma spiffe_id_no_char (P : ascii → bool) :
  all_bytes (fun c => implb (path_char c) (P c)) = true → P ":"%char = true →
  string_forallb P (spiffe_id td path) = true.
Proof using Htd Hpath.
  intros HP Hcolon. unfold spiffe_id. rewrite !string_forallb_app.
  destruct Htd as [_ Ht], Hpath as [Hp _]. apply id_char_path_char in Ht.
  pose proof (char_impl path_char P HP) as Hc.
  rewrite (string_forallb_impl path_char P td Hc Ht), (string_forallb_impl path_char P path Hc Hp).
  cbn. by rewrite Hcolon, !Hc.
Qed.

Lemma parse_hier_spiffe :
  parse_hier "spiffe" ("//" +:+ td +:+ path) false "" = Ok spiffe_url.
Proof using All.
  destruct Htd as [Hne Ht], Hpath as [Hp Htail]. unfold parse_hier.
  assert (HasPrefix ("//" +:+ td +:+ path) "//" = true) as -> by apply HasPrefix_app.
  assert (slice_from 2 ("//" +:+ td +:+ path) = td +:+ path) as -> by apply (slice_from_app "//").
  cbn [negb orb andb].
  rewrite bool_decide_eq_false_2 by done. cbn [negb orb andb].
  assert (Hcut : (let '(host_part, after, found) := Cut (td +:+ path) "/" in
    (host_part, if found then String "/" after else "")) = (td, path)).
  { destruct Htail as [->|[t ->]].
    - rewrite string_app_nil_r, Cut_absent by by apply id_char_no_slash. done.
    - rewrite Cut_present by by apply id_char_no_slash. done. }
  destruct (Cut (td +:+ path) "/") as [[host after] found]. injection Hcut as -> Hp'.
  rewrite Hp', (parseAuthority_host td Ht). unfold setPath. rewrite unescape_plain by done.
  rewrite bool_decide_eq_true_2; [done|].
  symmetry. by apply (escape_plain path_char), Hp; apply path_char_unescaped.
Qed.

Lemma Parse_spiffe_id : Parse (spiffe_id td path) = Ok spiffe_url.
Proof using All.
  unfold Parse. rewrite Cut_absent by (by apply spiffe_id_no_char).
  cbn [mbind result_bind]. rewrite (bool_decide_eq_true_2 (("" : string) = "")) by done.
  unfold parse. rewrite (spiffe_id_no_char (fun c => negb (is_ctl c))) by done. cbn [negb].
  rewrite bool_decide_eq_false_2 by done.
  assert (getScheme (spiffe_id td path) = Some ("spiffe", "//" +:+ td +:+ path)) as -> by reflexivity.
  assert (ToLower "spiffe" = "spiffe") as -> by reflexivity.
  assert (Hq : no_char "?" ("//" +:+ td +:+ path) = true).
  { pose proof (spiffe_id_no_char (fun c => negb (bool_decide (c = "?"%char))) eq_refl eq_refl) as Hn.
    unfold spiffe_id in Hn. unfold no_char. rewrite !string_forallb_app in Hn |- *.
    apply andb_true_iff in Hn as [_ Hn]. by rewrite Hn. }
  rewrite Count_absent, andb_false_r, Cut_absent by done.
  assert (HasPrefix ("//" +:+ td +:+ path) "/" = true) as -> by reflexivity.
  cbn [negb]. by rewrite parse_hier_spiffe.
Qed.

Lemma EscapedPath_spiffe : EscapedPath spiffe_url = path.
Proof using Hpath.
  destruct Hpath as [Hp _]. unfold EscapedPath; cbn [RawPath Path spiffe_url].
  rewrite (bool_decide_eq_true_2 (("" : string) = "")) by done. cbn [negb andb].
  rewrite (escape_plain path_char encodePath path path_char_unescaped Hp). by case_bool_decide.
Qed.

Lemma URL_String_spiffe : URL_String spiffe_url = spiffe_id td path.
Proof using Htd Hpath.
  unfold URL_String. rewrite EscapedPath_spiffe. destruct Htd as [Hne Ht], Hpath as [Hp Htail].
  cbn [Scheme Opaque User Host Path RawPath OmitHost ForceQuery RawQuery Fragment spiffe_url].
  rewrite (escape_plain id_char encodeHost td id_char_unescaped Ht).
  rewrite !(bool_decide_eq_true_2 (("" : string) = "")), (bool_decide_eq_false_2 (td = "")),
    (bool_decide_eq_false_2 ("spiffe" = "")), (bool_decide_eq_false_2 (is_Some None)) by (done || by intros [? ?]).
  cbn [negb orb andb].
  assert (Hslash : (if negb (bool_decide (path = "")) && negb (HasPrefix path "/") && true
    then "/" else "") = ("" : string)).
  { destruct Htail as [->|[t ->]]; [done|]. cbn. by rewrite andb_false_r. }
  rewrite Hslash. rewrite bool_decide_eq_false_2 by done. cbn [andb].
  unfold spiffe_id. by rewrite !nil_app, !string_app_nil_r.
Qed.
End round_trip.

(** a SPIFFE ID survives the way through a certificate's URI SAN: [url.Parse]
    reads it, with its path as written, and [URL.String] writes it back byte for
    byte, so comparing the result with a configured ID compares the IDs. *)
Theorem spiffe_id_roundtrip `{Unicode, UrlLib, !UrlLaws} td path :
  trust_domain td → id_path path →
  ∃ u, Parse (spiffe_id td path) = Ok u ∧ Scheme u = "spiffe" ∧ Path u = path ∧
       URL_String u = spiffe_id td path.
Proof.
  intros Htd Hpath. exists (spiffe_url td path).
  split_and!; [by apply Parse_spiffe_id|done|done|by apply URL_String_spiffe].
Qed.

(** C36: the zone of a registered workload: [FromID] finds zone [z] in a SPIFFE ID
    exactly when the ID's path is [/zone/z], bare or followed by further segments,
    with [z] one non-empty segment. *)
Theorem FromID_spec `{Unicode, UrlLib, !UrlLaws} td path z :
  trust_domain td → id_path path →
  FromID (spiffe_id td path) = Ok z ↔
  z ≠ "" ∧ no_slash z = true ∧ ∃ rest, path_tail rest ∧ path = "/zone/" +:+ z +:+ rest.
Proof.
  intros Htd Hpath. unfold FromID. rewrite (Parse_spiffe_id td path Htd Hpath). cbn [Scheme spiffe_url].
  rewrite bool_decide_eq_true_2 by done. cbn [negb Path]. rewrite FromPath_spec.
  split; [|naive_solver]. intros (Hz & Hn & rest & Hrest & Hp). split_and!; [done..|].
  exists rest. split; [done|]. destruct Hp as [Hp|Hp]; [done|exfalso].
  destruct Hpath as [_ [->|[t ->]]]; done.
Qed.

(** ** Witnesses *)
Module SpiffeIDWitnesses.
Import UrlReference.

#[export] Instance ref_url_laws : UrlLaws.
Proof. by split. Qed.

#[export] Instance ref_unicode : Unicode := {|
  unicode_to_lower s := s;
  unicode_equal_fold s t := bool_decide (s = t);
|}.

Lemma example_td : trust_domain "example.org".
Proof. by split. Qed.

Lemma example_path : id_path "/zone/fab/sa/api".
Proof. split; [done|]. right. by eexists. Qed.

Lemma spiffe_id_roundtrip_witness :
  ∃ u, Parse "spiffe://example.org/zone/fab/sa/api" = Ok u ∧
    URL_String u = "spiffe://example.org/zone/fab/sa/api".
Proof.
  destruct (spiffe_id_roundtrip "example.org" "/zone/fab/sa/api" example_td example_path)
    as (u & Hu & _ & _ & Hs). exists u. split; [exact Hu|exact Hs].
Defined.

Lemma FromID_spec_witness : FromID "spiffe://example.org/zone/fab/sa/api" = Ok "fab".
Proof.
  apply (FromID_spec "example.org" "/zone/fab/sa/api" "fab" example_td example_path).
  split; [done|]. split; [done|]. exists "/sa/api". split; [right; by eexists|done].
Defined.
End SpiffeIDWitnesses.
