(* ===== verification/Registry.v ===== *)
(** * internal/registry: names to destination zones

    [BuildSnapshot] turns SPIRE registration entries into the lookup table,
    [Store] holds the table currently in effect (an atomic pointer: each
    operation below is one atomic step). The abstract specification is
    [declared]: which zones the entries claim for a name. *)

From S2P Require Import Prelude GoStd GoUrl DnsLib EdnsZone SpiffeZone.
Import Strings.

Open Scope Z_scope.

Record Entry := { SPIFFEIDPath : string; DNSNames : list string }.

Record Stats := { Names : Z; Conflicts : Z; Skipped : Z }.

Record Snapshot := { zoneOf : gmap string string }.

Section registry.
Context `{Unicode}.

Definition normalize (name : string) : string := ToLower (TrimSuffix name ".").

(** ** BuildSnapshot *)

(** The variables of [BuildSnapshot]: [zoneOf], [conflicting], [stats.Skipped]. *)
Record build_state := {
  bs_zoneOf : gmap string string;
  bs_conflicting : gset string;
  bs_skipped : Z;
}.

(** The inner loop body, for one raw name of an entry of [zone]. *)
Definition add_name (zone : string) (st : build_state) (raw : string) : build_state :=
  let name := normalize raw in
  if bool_decide (name = "") then st
  else
    match bs_zoneOf st !! name with
    | Some prev =>
        if negb (bool_decide (prev = zone))
        then {| bs_zoneOf := bs_zoneOf st;
                bs_conflicting := {[name]} ∪ bs_conflicting st;
                bs_skipped := bs_skipped st |}
        else {| bs_zoneOf := <[name := zone]> (bs_zoneOf st);
                bs_conflicting := bs_conflicting st; bs_skipped := bs_skipped st |}
    | None => {| bs_zoneOf := <[name := zone]> (bs_zoneOf st);
                 bs_conflicting := bs_conflicting st; bs_skipped := bs_skipped st |}
    end.

Definition skip_entry (st : build_state) : build_state :=
  {| bs_zoneOf := bs_zoneOf st; bs_conflicting := bs_conflicting st;
     bs_skipped := bs_skipped st + 1 |}.

(** The outer loop body. *)
Definition add_entry (st : build_state) (e : Entry) : build_state :=
  match FromPath (SPIFFEIDPath e) with
  | Err _ => skip_entry st
  | Ok zone =>
      if negb (Valid zone) then skip_entry st
      else fold_left (add_name zone) (DNSNames e) st
  end.

Definition build_init : build_state :=
  {| bs_zoneOf := ∅; bs_conflicting := ∅; bs_skipped := 0 |}.

Definition BuildSnapshot (entries : list Entry) : Snapshot * Stats :=
  let st := fold_left add_entry entries build_init in
  let zo := fold_left (fun m name => delete name m)
              (elements (bs_conflicting st)) (bs_zoneOf st) in
  ({| zoneOf := zo |},
   {| Names := Z.of_nat (size zo); Conflicts := Z.of_nat (size (bs_conflicting st));
      Skipped := bs_skipped st |}).

Definition Snapshot_Lookup (s : Snapshot) (fqdn : string) : option string :=
  zoneOf s !! normalize fqdn.

(** ** Store *)
Record Store := { cur : option Snapshot }.

Definition NewStore : Store := {| cur := None |}.
Definition Replace (st : Store) (s : Snapshot) : Store := {| cur := Some s |}.
Definition Ready (st : Store) : bool := bool_decide (is_Some (cur st)).
Definition Store_Lookup (st : Store) (fqdn : string) : option string :=
  match cur st with
  | None => None
  | Some s => Snapshot_Lookup s fqdn
  end.

(** ** The specification *)

(** The zone an entry puts its names in, if it names one both ends accept. *)
Definition entry_zone (e : Entry) : option string :=
  match FromPath (SPIFFEIDPath e) with
  | Ok z => if Valid z then Some z else None
  | Err _ => None
  end.

(** The declarations the entries make: (name, zone), in order. *)
Definition entry_decls (e : Entry) : list (string * string) :=
  match entry_zone e with
  | None => []
  | Some z =>
      (fun name => (name, z)) <$>
        List.filter (fun name => negb (bool_decide (name = ""))) (normalize <$> DNSNames e)
  end.

Definition decls (entries : list Entry) : list (string * string) := entries ≫= entry_decls.

Definition declared (entries : list Entry) (name zone : string) : Prop :=
  (name, zone) ∈ decls entries.

Definition conflicted (entries : list Entry) (name : string) : Prop :=
  ∃ z z', declared entries name z ∧ declared entries name z' ∧ z ≠ z'.

(** ** The loops against the declarations *)
Definition add_decl (st : build_state) (d : string * string) : build_state :=
  match bs_zoneOf st !! d.1 with
  | Some prev =>
      if bool_decide (prev = d.2) then st
      else {| bs_zoneOf := bs_zoneOf st;
              bs_conflicting := {[d.1]} ∪ bs_conflicting st;
              bs_skipped := bs_skipped st |}
  | None => {| bs_zoneOf := <[d.1 := d.2]> (bs_zoneOf st);
               bs_conflicting := bs_conflicting st; bs_skipped := bs_skipped st |}
  end.

Lemma add_name_decl zone st raw :
  normalize raw ≠ "" → add_name zone st raw = add_decl st (normalize raw, zone).
Proof.
  intros Hn. unfold add_name, add_decl; cbn. rewrite bool_decide_eq_false_2 by done.
  destruct (bs_zoneOf st !! normalize raw) as [prev|] eqn:Hl; [|done].
  case_bool_decide as Hp; cbn; [|done]. subst. rewrite insert_id by done. by destruct st.
Qed.

Lemma fold_add_name zone raws st :
  fold_left (add_name zone) raws st =
  fold_left add_decl ((fun name => (name, zone)) <$>
    List.filter (fun name => negb (bool_decide (name = ""))) (normalize <$> raws)) st.
Proof.
  revert st; induction raws as [|raw raws IH]; intros st; cbn; [done|].
  case_bool_decide as Hn; cbn.
  - rewrite IH. f_equal. unfold add_name. by rewrite bool_decide_eq_true_2.
  - by rewrite IH, add_name_decl.
Qed.

Definition same_tables (st st' : build_state) : Prop :=
  bs_zoneOf st = bs_zoneOf st' ∧ bs_conflicting st = bs_conflicting st'.

Lemma add_decl_same st st' d :
  same_tables st st' → same_tables (add_decl st d) (add_decl st' d).
Proof.
  intros [Hz Hc]. unfold add_decl. rewrite Hz.
  destruct (bs_zoneOf st' !! d.1); [case_bool_decide|]; split; cbn; congruence.
Qed.

Lemma fold_add_decl_same ds st st' :
  same_tables st st' → same_tables (fold_left add_decl ds st) (fold_left add_decl ds st').
Proof.
  revert st st'; induction ds as [|d ds IH]; intros st st' Hs; [done|].
  by apply IH, add_decl_same.
Qed.

Lemma fold_add_decl_skipped ds st :
  bs_skipped (fold_left add_decl ds st) = bs_skipped st.
Proof.
  revert st; induction ds as [|d ds IH]; intros st; [done|]. cbn. rewrite IH.
  unfold add_decl. by destruct (bs_zoneOf st !! d.1); [case_bool_decide|].
Qed.

Lemma add_entry_zone st e :
  add_entry st e =
  match entry_zone e with
  | None => skip_entry st
  | Some z => fold_left (add_name z) (DNSNames e) st
  end.
Proof.
  unfold add_entry, entry_zone. destruct (FromPath _) as [z|]; [|done].
  by destruct (Valid z).
Qed.

Definition skipped_entry (e : Entry) : bool :=
  match entry_zone e with None => true | Some _ => false end.

Lemma decls_cons e entries : decls (e :: entries) = entry_decls e ++ decls entries.
Proof. done. Qed.

Lemma fold_add_entry entries st :
  same_tables (fold_left add_entry entries st) (fold_left add_decl (decls entries) st) ∧
  bs_skipped (fold_left add_entry entries st) =
  bs_skipped st + Z.of_nat (length (List.filter skipped_entry entries)).
Proof.
  revert st; induction entries as [|e entries IH]; intros st; [cbn; split; [done|lia]|].
  rewrite decls_cons, fold_left_app. cbn [fold_left List.filter].
  rewrite add_entry_zone. unfold entry_decls, skipped_entry at 1.
  destruct (entry_zone e) as [z|].
  - rewrite <-fold_add_name.
    destruct (IH (fold_left (add_name z) (DNSNames e) st)) as [? Hs]. split; [done|].
    rewrite Hs, fold_add_name, fold_add_decl_skipped. lia.
  - destruct (IH (skip_entry st)) as [Ht Hs]. rewrite Hs. cbn [bs_skipped skip_entry length fold_left]. split; [|lia].
    destruct Ht as [Hz Hc]. unfold same_tables. rewrite Hz, Hc.
    by apply (fold_add_decl_same _ (skip_entry st) st).
Qed.

(** The loop invariant: the table holds the first zone declared for each name,
    the conflict set the names declared into two zones. *)
Definition decl_inv (ds : list (string * string)) (st : build_state) : Prop :=
  (∀ n z, bs_zoneOf st !! n = Some z → (n, z) ∈ ds) ∧
  (∀ n z, (n, z) ∈ ds → is_Some (bs_zoneOf st !! n)) ∧
  (∀ n, n ∈ bs_conflicting st ↔
        ∃ z z', (n, z) ∈ ds ∧ (n, z') ∈ ds ∧ z ≠ z').

Lemma elem_of_snoc {A} (x d : A) ds : x ∈ ds ++ [d] ↔ x ∈ ds ∨ x = d.
Proof. by rewrite elem_of_app, list_elem_of_singleton. Qed.

(** For a name other than the added one, two zones were declared before. *)
Lemma snoc_conflict_other (ds : list (string * string)) n z n' :
  n' ≠ n →
  (∃ z1 z2, (n', z1) ∈ ds ++ [(n, z)] ∧ (n', z2) ∈ ds ++ [(n, z)] ∧ z1 ≠ z2) ↔
  (∃ z1 z2, (n', z1) ∈ ds ∧ (n', z2) ∈ ds ∧ z1 ≠ z2).
Proof.
  intros Hn. split; intros (z1 & z2 & H1 & H2 & Hne); exists z1, z2;
    rewrite !elem_of_snoc in *; naive_solver.
Qed.

Lemma add_decl_inv ds st d : decl_inv ds st → decl_inv (ds ++ [d]) (add_decl st d).
Proof.
  destruct d as [n z]. intros (Hsound & Hdom & Hconf). unfold add_decl; cbn.
  destruct (bs_zoneOf st !! n) as [prev|] eqn:Hl; [case_bool_decide as Hp|].
  - subst prev. apply Hsound in Hl as Hin.
    assert (Heq : ∀ x, x ∈ ds ++ [(n, z)] ↔ x ∈ ds).
    { intros x. rewrite elem_of_snoc. naive_solver. }
    unfold decl_inv. setoid_rewrite Heq. done.
  - apply Hsound in Hl as Hin. split_and!; cbn.
    + intros n' z' Hl'. apply elem_of_snoc. eauto.
    + intros n' z' [?|[= -> ->]]%elem_of_snoc; eauto.
    + intros n'. rewrite elem_of_union, elem_of_singleton, Hconf.
      destruct (decide (n' = n)) as [->|Hn].
      * split; [|by left]. intros _. exists prev, z. rewrite !elem_of_snoc. auto.
      * rewrite snoc_conflict_other by done. naive_solver.
  - assert (Hnone : ∀ z', (n, z') ∉ ds).
    { intros z' Hin. apply Hdom in Hin. rewrite Hl in Hin. by destruct Hin. }
    split_and!; cbn.
    + intros n' z'. rewrite lookup_insert, elem_of_snoc.
      case_decide as Hn; [|eauto]. intros [= ->]. subst n'. by right.
    + intros n' z' Hin%elem_of_snoc. rewrite lookup_insert.
      case_decide; [done|]. destruct Hin as [?|[= -> ->]]; [eauto|done].
    + intros n'. rewrite Hconf. destruct (decide (n' = n)) as [->|Hn].
      * split; intros (z1 & z2 & H1 & H2 & Hne); exfalso; rewrite ?elem_of_snoc in *;
          naive_solver.
      * by rewrite snoc_conflict_other.
Qed.

Lemma fold_add_decl_inv ds ds0 st :
  decl_inv ds0 st → decl_inv (ds0 ++ ds) (fold_left add_decl ds st).
Proof.
  revert ds0 st; induction ds as [|d ds IH]; intros ds0 st Hinv; cbn.
  - by rewrite app_nil_r.
  - replace (ds0 ++ d :: ds) with ((ds0 ++ [d]) ++ ds) by by rewrite <-app_assoc.
    by apply IH, add_decl_inv.
Qed.

Lemma fold_delete_lookup (ns : list string) (m : gmap string string) n :
  fold_left (fun m name => delete name m) ns m !! n =
  if decide (n ∈ ns) then None else m !! n.
Proof.
  revert m; induction ns as [|n' ns IH]; intros m; cbn.
  { by destruct (decide (n ∈ [])) as [Hn|]; [apply elem_of_nil in Hn|]. }
  rewrite IH. destruct (decide (n = n')) as [->|Hne].
  - rewrite lookup_delete_eq. repeat case_decide; set_solver.
  - rewrite lookup_delete_ne by done. repeat case_decide; set_solver.
Qed.

(** What the two loops leave, in terms of the declarations. *)
Lemma BuildSnapshot_tables entries :
  let st := fold_left add_entry entries build_init in
  (∀ n, n ∈ bs_conflicting st ↔ conflicted entries n) ∧
  (∀ n z, zoneOf (BuildSnapshot entries).1 !! n = Some z ↔
     declared entries n z ∧ ∀ z', declared entries n z' → z' = z).
Proof.
  cbn. destruct (fold_add_entry entries build_init) as [[Hz Hc] _].
  assert (Hinit : decl_inv [] build_init).
  { split_and!; cbn; [by intros ??; rewrite lookup_empty|set_solver|set_solver]. }
  pose proof (fold_add_decl_inv (decls entries) [] build_init Hinit) as Hinv.
  rewrite app_nil_l in Hinv. destruct Hinv as (Hsound & Hdom & Hconf).
  rewrite Hc. split; [done|]. intros n z.
  rewrite fold_delete_lookup, Hz. unfold declared.
  destruct (decide _) as [Hin|Hin]; rewrite elem_of_elements, Hconf in Hin.
  - split; [done|]. intros [Hd Hall]. destruct Hin as (z1 & z2 & H1 & H2 & Hne).
    apply Hall in H1, H2. congruence.
  - split.
    + intros Hl. apply Hsound in Hl as Hd. split; [done|]. intros z' Hd'.
      destruct (decide (z' = z)); [done|]. exfalso. apply Hin. by exists z', z.
    + intros [Hd Hall]. destruct (Hdom n z Hd) as [z0 Hz0].
      rewrite Hz0. f_equal. by apply Hall, Hsound.
Qed.

Lemma conflicted_iff entries n :
  conflicted entries n ↔ n ∈ bs_conflicting (fold_left add_entry entries build_init).
Proof. symmetry. apply BuildSnapshot_tables. Qed.

(** C19: a name resolves to [zone] exactly when the usable entries declare it
    into [zone] and into no other zone; the query's spelling is normalised the
    way the declarations were. A name declared into two zones resolves to
    neither. *)
Theorem BuildSnapshot_Lookup entries fqdn zone :
  Snapshot_Lookup (BuildSnapshot entries).1 fqdn = Some zone ↔
  declared entries (normalize fqdn) zone ∧
  ∀ zone', declared entries (normalize fqdn) zone' → zone' = zone.
Proof. apply BuildSnapshot_tables. Qed.

(** every zone a snapshot answers is one the agents can declare: it passes
    the check [ednszone.Get] applies to a declaration. *)
Theorem BuildSnapshot_zones_valid entries fqdn zone :
  Snapshot_Lookup (BuildSnapshot entries).1 fqdn = Some zone → Valid zone = true.
Proof.
  intros [Hd _]%BuildSnapshot_tables. unfold declared, decls in Hd.
  apply list_elem_of_bind in Hd as (e & Hin & _). unfold entry_decls, entry_zone in Hin.
  destruct (FromPath _) as [z|]; [|by apply elem_of_nil in Hin].
  destruct (Valid z) eqn:Hv; [|by apply elem_of_nil in Hin].
  by apply list_elem_of_fmap in Hin as (n & [= _ ->] & _).
Qed.

(** the statistics count what they say: [Names] the names that resolve,
    [Conflicts] the names declared into more than one zone, [Skipped] the entries
    with no zone segment or with a zone the wire format refuses. *)
Theorem BuildSnapshot_stats entries :
  let '(snap, stats) := BuildSnapshot entries in
  (∃ names : gset string,
     (∀ n, n ∈ names ↔ is_Some (zoneOf snap !! n)) ∧ Names stats = Z.of_nat (size names)) ∧
  (∃ clashes : gset string,
     (∀ n, n ∈ clashes ↔ conflicted entries n) ∧
     Conflicts stats = Z.of_nat (size clashes)) ∧
  Skipped stats = Z.of_nat (length (List.filter skipped_entry entries)).
Proof.
  unfold BuildSnapshot; cbn [zoneOf Names Conflicts Skipped]. split_and!.
  - eexists (dom _). split; [intros n; apply elem_of_dom|]. by rewrite size_dom.
  - eexists. split; [intros n; symmetry; apply conflicted_iff|done].
  - by rewrite (proj2 (fold_add_entry entries build_init)).
Qed.

Lemma declared_perm entries entries' n z :
  entries ≡ₚ entries' → declared entries n z ↔ declared entries' n z.
Proof. intros Hp. unfold declared, decls. by rewrite Hp. Qed.

Lemma filter_perm_length {A} (f : A → bool) (l l' : list A) :
  l ≡ₚ l' → length (List.filter f l) = length (List.filter f l').
Proof.
  induction 1 as [|x l l' _ IH|x y l|]; cbn; [done| | |congruence].
  - destruct (f x); cbn; congruence.
  - by destruct (f x), (f y).
Qed.

(** C20: the snapshot and its statistics do not depend on the order in which
    SPIRE lists the entries, nor on how they fall into pages. *)
Theorem BuildSnapshot_perm entries entries' :
  entries ≡ₚ entries' → BuildSnapshot entries = BuildSnapshot entries'.
Proof.
  intros Hp.
  assert (Hconf : bs_conflicting (fold_left add_entry entries build_init) =
                  bs_conflicting (fold_left add_entry entries' build_init)).
  { apply set_eq. intros n. rewrite <-!conflicted_iff. unfold conflicted.
    by setoid_rewrite (declared_perm _ _ _ _ Hp). }
  assert (Hzone : zoneOf (BuildSnapshot entries).1 = zoneOf (BuildSnapshot entries').1).
  { apply map_eq. intros n. apply option_eq. intros z.
    destruct (BuildSnapshot_tables entries) as [_ ->],
      (BuildSnapshot_tables entries') as [_ ->].
    by setoid_rewrite (declared_perm _ _ _ _ Hp). }
  destruct (fold_add_entry entries build_init) as [_ Hs],
    (fold_add_entry entries' build_init) as [_ Hs'].
  rewrite (filter_perm_length _ _ _ Hp), <-Hs' in Hs.
  unfold BuildSnapshot in *; cbn [fst zoneOf] in Hzone.
  by rewrite Hzone, Hconf, Hs.
Qed.

(** a lookup ignores the root dot and, in ASCII, the case of the name: the
    spelling of a query and of a declaration need not agree. *)
Theorem Store_Lookup_spelling (st : Store) (name name' : string) :
  string_forallb is_ascii name = true → string_forallb is_ascii name' = true →
  HasSuffix name "." = false → HasSuffix name' "." = false →
  EqualFold name name' = true →
  Store_Lookup st name = Store_Lookup st name' ∧
  Store_Lookup st (name +:+ ".") = Store_Lookup st name'.
Proof.
  intros Ha Ha' Hd Hd' Hf.
  rewrite EqualFold_ToLower in Hf by done. apply bool_decide_eq_true in Hf.
  assert (normalize name = ToLower name') as Hn.
  { unfold normalize, TrimSuffix. rewrite Hd. exact Hf. }
  assert (normalize name' = ToLower name') as Hn'.
  { unfold normalize, TrimSuffix. by rewrite Hd'. }
  assert (normalize (name +:+ ".") = ToLower name') as Hdot.
  { unfold normalize. by rewrite TrimSuffix_app. }
  unfold Store_Lookup, Snapshot_Lookup. by rewrite Hn, Hn', Hdot.
Qed.

(** ** The store *)
Lemma Store_Lookup_Some st fqdn zone :
  Store_Lookup st fqdn = Some zone →
  ∃ s, cur st = Some s ∧ Snapshot_Lookup s fqdn = Some zone.
Proof. unfold Store_Lookup. destruct (cur st); naive_solver. Qed.
End registry.

(** ** Witnesses *)
Module RegistryWitnesses.
Import DnsLib.Reference.

Definition entries0 : list Entry := [
  {| SPIFFEIDPath := "/zone/zone-a/ns/prod/sa/pay"; DNSNames := ["Payments.example.com"; ""] |};
  {| SPIFFEIDPath := "/zone/zone-b/vm/billing"; DNSNames := ["billing.example.com."] |};
  {| SPIFFEIDPath := "/zone/zone-c/vm/x"; DNSNames := ["clash.example.com"] |};
  {| SPIFFEIDPath := "/zone/zone-b/vm/y"; DNSNames := ["clash.example.com"] |};
  {| SPIFFEIDPath := "/zone/zone.d/vm/z"; DNSNames := ["dotted.example.com"] |};
  {| SPIFFEIDPath := "/ns/prod/sa/none"; DNSNames := ["none.example.com"] |}].

Example entries0_stats :
  (BuildSnapshot entries0).2 = {| Names := 2; Conflicts := 1; Skipped := 2 |}.
Proof. by vm_compute. Qed.

Lemma BuildSnapshot_zones_valid_witness :
  Snapshot_Lookup (BuildSnapshot entries0).1 "payments.example.com." = Some "zone-a" ∧
  Valid "zone-a" = true.
Proof.
  split; [by vm_compute|].
  apply (BuildSnapshot_zones_valid entries0 "payments.example.com."). by vm_compute.
Defined.

Lemma BuildSnapshot_perm_witness :
  BuildSnapshot entries0 = BuildSnapshot (rev entries0).
Proof. apply (BuildSnapshot_perm entries0 (rev entries0)). apply Permutation_rev. Defined.

Lemma Store_Lookup_spelling_witness :
  let st := Replace NewStore (BuildSnapshot entries0).1 in
  Store_Lookup st "PAYMENTS.example.com" = Store_Lookup st "payments.example.com" ∧
  Store_Lookup st "PAYMENTS.example.com." = Some "zone-a".
Proof.
  cbv zeta.
  destruct (Store_Lookup_spelling (Replace NewStore (BuildSnapshot entries0).1)
    "PAYMENTS.example.com" "payments.example.com") as [H1 H2];
    [by vm_compute..|].
  split; [exact H1|]. etransitivity; [exact H2|]. by vm_compute.
Defined.
End RegistryWitnesses.
