(* ===== verification/Poller.v ===== *)
(** * internal/registry/spire.go: polling SPIRE for registration entries

    The lister is an interface ([EntryLister]) over a server whose state [W]
    each call may change; [spireLister] implements it over the SPIRE Entry API
    client, which is not part of the repository. [PollOnce] pages through the
    entries and replaces the snapshot; [Run] repeats it, counting consecutive
    failures and reporting through two callbacks. *)

From S2P Require Import Prelude GoStd GoUrl DnsLib EdnsZone SpiffeZone Registry.
Import Strings.

Open Scope Z_scope.

Definition pageSize : Z := 500.
Definition maxPollPages : Z := 10000.

(** [EntryLister]: one page of entries and the next page's token. *)
Class EntryLister (E W : Type) := {
  ListEntries : string → W → result E (list Entry * string) * W;
}.

(** ** spireLister *)
Record ListEntriesRequest := {
  req_PageSize : Z;
  req_PageToken : string;
  mask_SpiffeId : bool;
  mask_DnsNames : bool;
}.

(** A [types.Entry], with the two fields the mask asks for; [SpiffeId] is a
    pointer, of which the path is read. *)
Record SpireEntry := { SpiffeId : option string; se_DnsNames : list string }.

Record ListEntriesResponse := { Entries : list SpireEntry; NextPageToken : string }.

(** [entryv1.EntryClient]. *)
Class EntryClient (E W : Type) := {
  client_ListEntries : ListEntriesRequest → W → result E ListEntriesResponse * W;
}.

(** The conversion loop: entries without a SPIFFE ID are left out. *)
Fixpoint convert_entries (es : list SpireEntry) : list Entry :=
  match es with
  | [] => []
  | e :: es' =>
      match SpiffeId e with
      | None => convert_entries es'
      | Some path =>
          {| SPIFFEIDPath := path; DNSNames := se_DnsNames e |} :: convert_entries es'
      end
  end.

#[export] Instance spireLister {E W : Type} `{EntryClient E W} : EntryLister E W := {|
  ListEntries pageToken w :=
    let '(resp, w') := client_ListEntries
      {| req_PageSize := pageSize; req_PageToken := pageToken;
         mask_SpiffeId := true; mask_DnsNames := true |} w in
    (match resp with
     | Err err => Err err
     | Ok resp => Ok (convert_entries (Entries resp), NextPageToken resp)
     end, w');
|}.

(** ** PollOnce *)
Inductive poll_error (E : Type) :=
  | TooManyPages
  | RepeatedToken (token : string)
  | ListFailed (e : E).
Arguments TooManyPages {E}.
Arguments RepeatedToken {E} token.
Arguments ListFailed {E} e.

Section poller.
Context `{Unicode} {E W : Type} `{!EntryLister E W}.

(** The pagination loop, with [n] pages of the budget left. *)
Fixpoint poll_loop (n : nat) (token : string) (seenTokens : gset string)
    (all : list Entry) (w : W) : result (poll_error E) (list Entry) * W :=
  match n with
  | O => (Err TooManyPages, w)
  | S n' =>
      if negb (bool_decide (token = "")) && bool_decide (token ∈ seenTokens)
      then (Err (RepeatedToken token), w)
      else
        let seenTokens' :=
          if negb (bool_decide (token = "")) then {[token]} ∪ seenTokens else seenTokens in
        match ListEntries token w with
        | (Err err, w') => (Err (ListFailed err), w')
        | (Ok (page, next), w') =>
            let all' := all ++ page in
            if bool_decide (next = "") then (Ok all', w')
            else poll_loop n' next seenTokens' all' w'
        end
  end.

Definition PollOnce (store : Store) (w : W)
    : result (poll_error E) Stats * Store * W :=
  match poll_loop (Z.to_nat maxPollPages) "" ∅ [] w with
  | (Err err, w') => (Err err, store, w')
  | (Ok all, w') =>
      let '(snap, stats) := BuildSnapshot all in
      (Ok stats, Replace store snap, w')
  end.

(** ** Run *)

(** The poller's state: the store, [pollErrors], and what the callbacks have
    written ([G]). *)
Record poller_state {G : Type} := {
  p_store : Store;
  p_pollErrors : Z;
  p_out : G;
  p_world : W;
}.
Arguments poller_state : clear implicits.

(** The lister is the instance of [EntryLister]; the interval is the time between the
    turns of [Run]. *)
Definition NewPoller {G : Type} (store : Store) (out : G) (w : W) : poller_state G :=
  {| p_store := store; p_pollErrors := 0; p_out := out; p_world := w |}.

Definition ConsecutivePollErrors {G : Type} (st : poller_state G) : Z := p_pollErrors st.

(** [atomic.Int64.Add(1)] *)
Definition int64_succ (x : Z) : Z := (x + 1 + 2 ^ 63) mod 2 ^ 64 - 2 ^ 63.

(** One turn of the loop of [Run]; a callback may be nil. *)
Definition run_iteration {G : Type} (OnSnapshot : option (Stats → G → G))
    (OnPollErrors : option (Z → G → G)) (st : poller_state G) : poller_state G :=
  let '(res, store', w') := PollOnce (p_store st) (p_world st) in
  let '(errors', out1) :=
    match res with
    | Err _ => (int64_succ (p_pollErrors st), p_out st)
    | Ok stats =>
        (0, match OnSnapshot with Some f => f stats (p_out st) | None => p_out st end)
    end in
  let out2 := match OnPollErrors with Some f => f errors' out1 | None => out1 end in
  {| p_store := store'; p_pollErrors := errors'; p_out := out2; p_world := w' |}.

(** [Run] until its context ends: a first turn at once, then one per tick. *)
Definition Run {G : Type} (OnSnapshot : option (Stats → G → G))
    (OnPollErrors : option (Z → G → G)) (ticks : nat) (st : poller_state G)
    : poller_state G :=
  Nat.iter (S ticks) (run_iteration OnSnapshot OnPollErrors) st.

(** ** The specification of a poll *)

(** [fetched w tok ps toks w']: starting from token [tok] and server state [w],
    the successive calls succeed, return the pages [ps] for the tokens [toks],
    and the last one returns an empty token. *)
Inductive fetched : W → string → list (list Entry) → list string → W → Prop :=
  | fetched_last w tok page w' :
      ListEntries tok w = (Ok (page, ""), w') →
      fetched w tok [page] [tok] w'
  | fetched_more w tok page next w1 ps toks w' :
      ListEntries tok w = (Ok (page, next), w1) → next ≠ "" →
      fetched w1 next ps toks w' →
      fetched w tok (page :: ps) (tok :: toks) w'.

Lemma fetched_head w tok ps toks w' :
  fetched w tok ps toks w' → ∃ toks', toks = tok :: toks' ∧ length ps = length toks.
Proof.
  induction 1 as [|w tok page next w1 ps toks w' _ _ _ (t & -> & Hl)];
    eexists; (split; [done|]); cbn in *; congruence.
Qed.

Lemma fetched_tail_nonempty w tok ps toks w' :
  fetched w tok ps toks w' → "" ∉ tail toks.
Proof.
  induction 1 as [|w tok page next w1 ps toks w' _ Hne Hf IH]; [set_solver|].
  destruct (fetched_head _ _ _ _ _ Hf) as (toks' & -> & _). set_solver.
Qed.

(** Tokens new to the extended set are new to the old one, and not the token just
    used: it was added, unless it is the first, empty one, which is not handed out. *)
Lemma fetched_new token w1 next ps toks w' (seen : gset string) :
  fetched w1 next ps toks w' → next ≠ "" →
  (∀ t, t ∈ toks → t ∉ (if negb (bool_decide (token = "")) then {[token]} ∪ seen else seen)) →
  (token ∉ toks) ∧ ∀ t, t ∈ toks → t ∉ seen.
Proof.
  intros Hf Hne Hnew. pose proof (fetched_tail_nonempty _ _ _ _ _ Hf).
  destruct (fetched_head _ _ _ _ _ Hf) as (toks' & -> & _).
  case_bool_decide; cbn in *; set_solver.
Qed.

(** The loop succeeds exactly on a complete sequence of pages within the
    budget, whose tokens are new. *)
Lemma poll_loop_Ok n token seen all w res w' :
  "" ∉ seen →
  poll_loop n token seen all w = (Ok res, w') ↔
  ∃ ps toks, fetched w token ps toks w' ∧ (length ps ≤ n)%nat ∧
    NoDup toks ∧ (∀ t, t ∈ toks → t ∉ seen) ∧ res = all ++ concat ps.
Proof.
  revert token seen all w; induction n as [|n IH]; intros token seen all w Hseen; cbn.
  { split; [done|]. intros (ps & toks & Hf & Hlen & _).
    destruct (fetched_head _ _ _ _ _ Hf) as (? & -> & Hl). cbn in Hl. lia. }
  destruct (decide (token ∈ seen)) as [Hin|Hnin].
  { assert (token ≠ "") by (intros ->; done).
    rewrite bool_decide_eq_false_2, bool_decide_eq_true_2 by done; cbn.
    split; [done|]. intros (ps & toks & Hf & _ & _ & Hnew & _).
    destruct (fetched_head _ _ _ _ _ Hf) as (? & -> & _).
    destruct (Hnew token); set_solver. }
  rewrite (bool_decide_eq_false_2 (token ∈ seen)) by done. rewrite andb_false_r.
  destruct (ListEntries token w) as [[[page next]|err] w1] eqn:HL.
  2:{ split; [done|]. intros (ps & toks & Hf & _). inversion Hf; congruence. }
  case_bool_decide as Hnext.
  - subst next. split.
    + intros [= <- <-]. exists [page], [token].
      split_and!; cbn; [by constructor|lia|apply NoDup_singleton|set_solver|by rewrite app_nil_r].
    + intros (ps & toks & Hf & _ & _ & _ & ->).
      inversion Hf as [? ? ? ? HL'|? ? ? ? ? ? ? ? HL' Hne _]; subst;
        rewrite HL in HL'; simplify_eq.
      cbn. by rewrite app_nil_r.
  - rewrite IH.
    2:{ case_bool_decide; cbn; set_solver. }
    split.
    + intros (ps & toks & Hf & Hlen & Hnd & Hnew & ->).
      destruct (fetched_new _ _ _ _ _ _ _ Hf Hnext Hnew) as [Htok Hold].
      exists (page :: ps), (token :: toks).
      split_and!; cbn; [by econstructor|lia|by constructor|set_solver|by rewrite <-app_assoc].
    + intros (ps & toks & Hf & Hlen & Hnd & Hnew & ->).
      inversion Hf as [? ? ? ? HL'|? ? ? ? ? ? ? ? HL' Hne Hf']; subst;
        rewrite HL in HL'; simplify_eq.
      apply NoDup_cons in Hnd as [Hnt Hnd].
      eexists _, _. split_and!; [done|cbn in *; lia|done| |by rewrite <-app_assoc].
      intros t Ht. specialize (Hnew t ltac:(set_solver)).
      case_bool_decide; cbn; [done|]. set_solver.
Qed.

(** The page budget as a number the proofs never unfold. *)
Lemma page_budget : ∃ n, Z.to_nat maxPollPages = n ∧ Z.of_nat n = maxPollPages.
Proof. exists (Z.to_nat maxPollPages). split; [done|]. by apply Z2Nat.id. Qed.

(** C21: a poll succeeds exactly when SPIRE hands over a complete sequence of
    pages, at most [maxPollPages] of them and without repeating a token; the
    store then holds the snapshot of all entries of all pages, in order, and the
    statistics are that snapshot's. In particular a poll cut short anywhere
    never installs the pages it did get. *)
Theorem PollOnce_success store w stats store' w' :
  PollOnce store w = (Ok stats, store', w') ↔
  ∃ ps toks, fetched w "" ps toks w' ∧
    Z.of_nat (length ps) ≤ maxPollPages ∧ NoDup toks ∧
    stats = (BuildSnapshot (concat ps)).2 ∧
    store' = Replace store (BuildSnapshot (concat ps)).1.
Proof.
  unfold PollOnce. destruct page_budget as (n & -> & <-).
  destruct (poll_loop _ _ _ _ _) as [[all|err] w1] eqn:Hl.
  - destruct (proj1 (poll_loop_Ok n "" ∅ [] w all w1 ltac:(set_solver)) Hl)
      as (ps & toks & Hf & Hlen & Hnd & _ & ->).
    rewrite (surjective_pairing (BuildSnapshot ([] ++ concat ps))). split.
    + intros [= <- <- <-]. exists ps, toks. split_and!; [done|lia|done..].
    + intros (ps' & toks' & Hf' & Hlen' & Hnd' & -> & ->).
      assert (Hl' : poll_loop n "" ∅ [] w = (Ok (concat ps'), w')).
      { apply poll_loop_Ok; [set_solver|]. exists ps', toks'. split_and!; [done|lia|done|set_solver|done]. }
      rewrite Hl in Hl'. injection Hl' as Hc ->. cbn in Hc. cbn. by rewrite Hc.
  - split; [done|]. intros (ps & toks & Hf & Hlen & Hnd & _).
    assert (Hl' : poll_loop n "" ∅ [] w = (Ok (concat ps), w')).
    { apply poll_loop_Ok; [set_solver|]. exists ps, toks. split_and!; [done|lia|done|set_solver|done]. }
    by rewrite Hl in Hl'.
Qed.

Lemma PollOnce_cases store w :
  (∃ err w', PollOnce store w = (Err err, store, w')) ∨
  (∃ all w', PollOnce store w =
     (Ok (BuildSnapshot all).2, {| cur := Some (BuildSnapshot all).1 |}, w')).
Proof.
  unfold PollOnce. destruct (poll_loop _ _ _ _ _) as [[all|err] w'].
  - right. exists all, w'. by destruct (BuildSnapshot all).
  - left. by exists err, w'.
Qed.

(** a failed poll, whatever the reason, leaves the snapshot in effect
    untouched: a store that was never filled stays not ready, one that was keeps
    answering as before. *)
Theorem PollOnce_failure_keeps_store store w err store' w' :
  PollOnce store w = (Err err, store', w') → store' = store.
Proof.
  intros Hp. destruct (PollOnce_cases store w) as [(e & w1 & He)|(all & w1 & He)];
    rewrite Hp in He; congruence.
Qed.

End poller.

(** ** The number of calls *)
Section calls.
Context `{Unicode} {E W : Type} `{!EntryLister E W}.

(** The same lister, counting the calls it serves. *)
Definition counted : EntryLister E (W * Z) := {|
  ListEntries tok '(w, calls) :=
    let '(r, w') := ListEntries tok w in (r, (w', calls + 1));
|}.

Definition uncount {A} (x : A * (W * Z)) : A * W := (x.1, x.2.1).

Lemma poll_loop_counted n token seen all w c :
  let run := poll_loop (EntryLister0 := counted) n token seen all (w, c) in
  uncount run = poll_loop n token seen all w ∧ c ≤ run.2.2 ≤ c + Z.of_nat n.
Proof.
  revert token seen all w c; induction n as [|n IH]; intros token seen all w c; cbn.
  { split; [done|lia]. }
  destruct (negb _ && _); cbn; [split; [done|lia]|].
  destruct (ListEntries token w) as [[[page next]|err] w1]; cbn; [|split; [done|lia]].
  case_bool_decide; cbn; [split; [done|lia]|].
  match goal with |- context [poll_loop n next ?s ?a (w1, ?c')] =>
    destruct (IH next s a w1 c') as [-> Hb] end.
  split; [done|]. cbn in Hb. lia.
Qed.

(** a poll returns after at most [maxPollPages] calls, whatever the server
    answers, with the result the uncounted poll gives: a server that never ends
    its pages cannot keep the poller in the loop. *)
Theorem PollOnce_calls_bounded store w :
  let '(res, store', (w', calls)) := PollOnce (EntryLister0 := counted) store (w, 0) in
  PollOnce store w = (res, store', w') ∧ 0 ≤ calls ≤ maxPollPages.
Proof.
  unfold PollOnce. destruct page_budget as (n & -> & <-).
  destruct (poll_loop_counted n "" ∅ [] w 0) as [Hr Hc].
  rewrite <-Hr. unfold uncount.
  destruct (poll_loop (EntryLister0 := counted) _ _ _ _ _) as [[all|err] [w' c]];
    cbn in *; [destruct (BuildSnapshot all)|]; (split; [done|lia]).
Qed.

(** a server stuck on one page token is detected at the first repetition:
    two calls, then the repeated-token error. *)
Theorem PollOnce_stuck_server store w token :
  token ≠ "" →
  (∀ tok v, ∃ page v', ListEntries tok v = (Ok (page, token), v')) →
  ∃ w', PollOnce (EntryLister0 := counted) store (w, 0) =
        (Err (RepeatedToken token), store, (w', 2)).
Proof.
  intros Htok Hstuck. unfold PollOnce.
  assert (∃ n, Z.to_nat maxPollPages = S (S (S n))) as [n ->].
  { destruct page_budget as (m & -> & Hm). exists (m - 3)%nat. unfold maxPollPages in Hm. lia. }
  destruct (Hstuck "" w) as (page1 & w1 & H1), (Hstuck token w1) as (page2 & w2 & H2).
  exists w2. cbn. rewrite (bool_decide_eq_true_2 (EmptyString = EmptyString)) by done. cbn.
  rewrite H1, (bool_decide_eq_false_2 (token = "")) by done. cbn.
  rewrite (bool_decide_eq_false_2 (token ∈ (∅ : gset string))) by set_solver. cbn.
  rewrite H2. cbn. rewrite (bool_decide_eq_false_2 (token = "")) by done. cbn.
  by rewrite bool_decide_eq_true_2 by set_solver.
Qed.
End calls.

(** ** Run, with the callbacks plugin/zonedns/setup.go installs *)

(** The registry gauges ([float64] values of small integers). *)
Record Gauges := {
  registryNames : Z;
  registryConflicts : Z;
  registryReady : Z;
  registryPollErrors : Z;
}.

(** What [setup] does before building the poller. *)
Definition reset_gauges (g : Gauges) : Gauges :=
  {| registryNames := registryNames g; registryConflicts := registryConflicts g;
     registryReady := 0; registryPollErrors := 0 |}.

Definition onSnapshot (s : Stats) (g : Gauges) : Gauges :=
  {| registryNames := Names s; registryConflicts := Conflicts s;
     registryReady := 1; registryPollErrors := registryPollErrors g |}.

Definition onPollErrors (count : Z) (g : Gauges) : Gauges :=
  {| registryNames := registryNames g; registryConflicts := registryConflicts g;
     registryReady := registryReady g; registryPollErrors := count |}.

Section run.
Context `{Unicode} {E W : Type} `{!EntryLister E W}.

Definition run_gauges : nat → @poller_state W Gauges → @poller_state W Gauges :=
  Run (Some onSnapshot) (Some onPollErrors).

Definition start_state (g : Gauges) (w : W) : @poller_state W Gauges :=
  NewPoller NewStore (reset_gauges g) w.

(** The entries each turn of the loop obtained, [None] for a failed poll, and the
    state after them. *)
Fixpoint history (n : nat) (st : @poller_state W Gauges)
    : list (option (list Entry)) * @poller_state W Gauges :=
  match n with
  | O => ([], st)
  | S n' =>
      let '(h, st') := history n' st in
      (h ++ [match poll_loop (Z.to_nat maxPollPages) "" ∅ [] (p_world st') with
             | (Ok all, _) => Some all
             | (Err _, _) => None
             end],
       run_iteration (Some onSnapshot) (Some onPollErrors) st')
  end.

(** The last successful poll of a history, and the failures since. *)
Definition last_success (h : list (option (list Entry))) : option (list Entry) :=
  fold_left (fun acc o => match o with Some a => Some a | None => acc end) h None.

Definition failures_since (h : list (option (list Entry))) : nat :=
  fold_left (fun n o => match o with Some _ => O | None => S n end) h O.

Lemma history_Run n st : (history n st).2 = Nat.iter n (run_iteration (Some onSnapshot) (Some onPollErrors)) st.
Proof.
  induction n as [|n IH]; cbn; [done|]. destruct (history n st) as [h st'].
  cbn in *. by rewrite IH.
Qed.

Lemma history_length n st : length (history n st).1 = n.
Proof.
  induction n as [|n IH]; cbn; [done|]. destruct (history n st) as [h st'].
  cbn in *. rewrite length_app, IH. cbn. lia.
Qed.

Lemma failures_since_le h : (failures_since h ≤ length h)%nat.
Proof.
  unfold failures_since. assert (∀ n, fold_left (fun n (o : option (list Entry)) =>
    match o with Some _ => O | None => S n end) h n ≤ n + length h)%nat as Hall.
  { induction h as [|[a|] h IH]; intros n; cbn; [lia|etrans; [apply IH|lia]..]. }
  apply (Hall O).
Qed.

Lemma int64_succ_small x : 0 ≤ x < 2 ^ 63 - 1 → int64_succ x = x + 1.
Proof. intros. unfold int64_succ. rewrite Z.mod_small by lia. lia. Qed.

(** What the store, the counter and the gauges say after a history. *)
Definition run_inv (h : list (option (list Entry))) (st : @poller_state W Gauges) : Prop :=
  cur (p_store st) = fst ∘ BuildSnapshot <$> last_success h ∧
  ConsecutivePollErrors st = Z.of_nat (failures_since h) ∧
  registryPollErrors (p_out st) = ConsecutivePollErrors st ∧
  registryReady (p_out st) = (if Ready (p_store st) then 1 else 0) ∧
  (∀ all, last_success h = Some all →
     registryNames (p_out st) = Names (BuildSnapshot all).2 ∧
     registryConflicts (p_out st) = Conflicts (BuildSnapshot all).2).

Lemma run_inv_step h st :
  Z.of_nat (length h) < 2 ^ 63 - 1 → run_inv h st →
  run_inv (h ++ [match poll_loop (Z.to_nat maxPollPages) "" ∅ [] (p_world st) with
                 | (Ok all, _) => Some all
                 | (Err _, _) => None
                 end])
    (run_iteration (Some onSnapshot) (Some onPollErrors) st).
Proof.
  intros Hlen (Hcur & Herr & Hgerr & Hready & Hnames).
  unfold run_iteration, PollOnce. destruct page_budget as (n & -> & _).
  unfold ConsecutivePollErrors in *. unfold run_inv, ConsecutivePollErrors, last_success, failures_since.
  rewrite !fold_left_app. cbn [fold_left].
  destruct (poll_loop _ _ _ _ _) as [[all|err] w'].
  - rewrite (surjective_pairing (BuildSnapshot all)).
    split_and!; try done. intros all' [= <-]. done.
  - pose proof (failures_since_le h).
    split_and!; cbn [p_store p_pollErrors p_out registryPollErrors onPollErrors
      registryReady registryNames registryConflicts]; try done.
    rewrite Herr, int64_succ_small by lia. unfold failures_since. lia.
Qed.

(** C22: after any run of the poller (fewer than 2^63 turns) the store holds the
    snapshot of the last successful poll and nothing newer or older, the failure
    counter is the number of failed polls since, and the four gauges report
    exactly that: a stale registry always shows as a non-zero
    [registry_poll_errors], an empty one as [registry_ready] zero. *)
Theorem Run_gauges_truthful g w ticks :
  Z.of_nat (S ticks) < 2 ^ 63 →
  let h := (history (S ticks) (start_state g w)).1 in
  length h = S ticks ∧ run_inv h (run_gauges ticks (start_state g w)).
Proof.
  intros Hn. cbv zeta. split; [apply history_length|].
  unfold run_gauges, Run. rewrite <-history_Run. revert Hn.
  generalize (S ticks) as n. induction n as [|n IH]; intros Hn.
  - split_and!; done.
  - cbn. pose proof (history_length n (start_state g w)) as Hl.
    destruct (history n (start_state g w)) as [h st'] eqn:Hh. cbn in *.
    apply run_inv_step; [lia|]. apply IH. lia.
Qed.
End run.

(** ** Witnesses *)
Module PollerWitnesses.
Import DnsLib.Reference RegistryWitnesses.

(** A server with two pages, that fails every other time it is polled from the
    start; its state counts the calls for the first page. *)
Definition two_pages : EntryLister string Z := {|
  ListEntries tok n :=
    if bool_decide (tok = "") then
      if Z.even n then (Ok (take 3 entries0, "p2"), n + 1)
      else (Err "unavailable", n + 1)
    else (Ok (drop 3 entries0, ""), n);
|}.

Definition stuck : EntryLister string unit := {|
  ListEntries tok n := (Ok ([], "again"), n);
|}.

Lemma PollOnce_failure_keeps_store_witness :
  let store := Replace NewStore (BuildSnapshot entries0).1 in
  ∃ store', (PollOnce (EntryLister0 := two_pages) store 1).1.2 = store' ∧ store' = store.
Proof.
  eexists. split; [reflexivity|].
  apply (PollOnce_failure_keeps_store (EntryLister0 := two_pages) _ 1
    (ListFailed "unavailable") _ 2).
  reflexivity.
Defined.

Lemma PollOnce_stuck_server_witness :
  ∃ w', PollOnce (EntryLister0 := counted (EntryLister0 := stuck)) NewStore (tt, 0) =
        (Err (RepeatedToken "again"), NewStore, (w', 2)).
Proof.
  apply (PollOnce_stuck_server (EntryLister0 := stuck)); [done|].
  intros tok v. by eexists _, _.
Defined.

Lemma Run_gauges_truthful_witness :
  let g := {| registryNames := 7; registryConflicts := 7; registryReady := 1;
              registryPollErrors := 7 |} in
  run_inv
    (history (EntryLister0 := two_pages) 2 (start_state g 0)).1
    (run_gauges (EntryLister0 := two_pages) 1 (start_state g 0)).
Proof. apply (Run_gauges_truthful (EntryLister0 := two_pages)). lia. Defined.

Example two_polls :
  let g := {| registryNames := 7; registryConflicts := 7; registryReady := 1;
              registryPollErrors := 7 |} in
  p_out (run_gauges (EntryLister0 := two_pages) 1 (start_state g 0)) =
  {| registryNames := 2; registryConflicts := 1; registryReady := 1;
     registryPollErrors := 1 |}.
Proof. by vm_compute. Qed.
End PollerWitnesses.
