(* ===== verification/Decision.v ===== *)
(** * internal/zonetable and internal/decision

    The zone to gateway table, and the decision table of the design: a pure
    function from what is known of the two zones to an action. *)

From S2P Require Import Prelude GoStd NetIP.

Open Scope Z_scope.

(** ** zonetable.Table *)
Record Table := { gw : gmap string Addr }.

(** [New] copies the entries of the map it is given one by one. *)
Definition New (entries : gmap string Addr) : Table :=
  {| gw := fold_left (fun gw '(z, a) => <[z := a]> gw) (map_to_list entries) ∅ |}.

Definition Gateway (t : Table) (zone : string) : option Addr := gw t !! zone.

Definition Table_Len (t : Table) : Z := Z.of_nat (size (gw t)).

(** ** decision *)
Inductive Action := ActionPassThrough | ActionAnswerGateway | ActionServFail.

#[global] Instance Action_eq_dec : EqDecision Action.
Proof. solve_decision. Defined.

Definition Action_String (a : Action) : string :=
  match a with
  | ActionPassThrough => "passthrough"
  | ActionAnswerGateway => "gateway"
  | ActionServFail => "servfail"
  end.

Record Input := {
  SourceZone : string;
  SourceOK : bool;
  DestZone : string;
  DestOK : bool;
}.

Record Decision := { d_Action : Action; d_Gateway : Addr }.

Definition Decide (inp : Input) (gateway : string → option Addr) : Decision :=
  if negb (SourceOK inp) then {| d_Action := ActionPassThrough; d_Gateway := AddrZero |}
  else if negb (DestOK inp) then {| d_Action := ActionPassThrough; d_Gateway := AddrZero |}
  else if bool_decide (DestZone inp = SourceZone inp)
  then {| d_Action := ActionPassThrough; d_Gateway := AddrZero |}
  else
    match gateway (DestZone inp) with
    | None => {| d_Action := ActionServFail; d_Gateway := AddrZero |}
    | Some gw => {| d_Action := ActionAnswerGateway; d_Gateway := gw |}
    end.

(** A trusted source zone that differs from a known destination zone. *)
Definition cross_zone (inp : Input) : Prop :=
  SourceOK inp = true ∧ DestOK inp = true ∧ DestZone inp ≠ SourceZone inp.

#[global] Instance cross_zone_dec inp : base.Decision (cross_zone inp).
Proof. unfold cross_zone. apply _. Defined.

(** ** Facts *)
Lemma New_gw entries : gw (New entries) = entries.
Proof.
  cbn. apply map_eq. intros z.
  assert (Hgen : ∀ l (m : gmap string Addr), NoDup l.*1 → (∀ z, z ∈ l.*1 → m !! z = None) →
    fold_left (fun gw '(z, a) => <[z := a]> gw) l m !! z =
    match (list_to_map l : gmap string Addr) !! z with Some a => Some a | None => m !! z end).
  { clear. induction l as [|[k a] l IH]; intros m Hnd Hm; cbn.
    { by rewrite lookup_empty. }
    apply NoDup_cons in Hnd as [Hk Hnd]. cbn in Hk.
    rewrite IH; [|done|].
    2:{ intros z' Hz'. rewrite lookup_insert_ne by (intros ->; done). apply Hm. by right. }
    destruct (decide (k = z)) as [->|Hne].
    - rewrite !lookup_insert_eq. by rewrite (not_elem_of_list_to_map_1 l z Hk).
    - rewrite !lookup_insert_ne by done. done. }
  rewrite Hgen; [|apply NoDup_fst_map_to_list|set_solver].
  rewrite list_to_map_to_list, lookup_empty. by destruct (entries !! z).
Qed.

(** the decision table: a gateway is answered exactly for a cross-zone query
    whose destination zone has a gateway configured, with that gateway; SERVFAIL
    exactly for a cross-zone query whose destination zone has none; everything
    else, a same-zone query without looking at the gateways included, passes
    through. *)
Theorem Decide_table inp gateway :
  (∀ gw, Decide inp gateway = {| d_Action := ActionAnswerGateway; d_Gateway := gw |} ↔
         cross_zone inp ∧ gateway (DestZone inp) = Some gw) ∧
  (d_Action (Decide inp gateway) = ActionServFail ↔
         cross_zone inp ∧ gateway (DestZone inp) = None) ∧
  (d_Action (Decide inp gateway) = ActionPassThrough ↔ ¬ cross_zone inp).
Proof.
  unfold Decide, cross_zone.
  destruct (SourceOK inp), (DestOK inp); cbn; [|naive_solver..].
  case_bool_decide; [naive_solver|].
  destruct (gateway (DestZone inp)); naive_solver.
Qed.
