(* ===== verification/Identity.v ===== *)
(** * internal/identity: the trust boundary of central

    Whether a query's zone declaration is believed. The TLS layer has verified
    the certificate chain; this package decides whose certificate it is and
    reads the declaration only then. *)

From S2P Require Import Prelude GoStd GoUrl DnsLib EdnsZone.

Open Scope Z_scope.

(** [x509.Certificate]: its URI SANs, each a [*url.URL]. *)
Record Certificate := { URIs : list (option URL) }.

Record ConnectionState := { PeerCertificates : list Certificate }.

Record HttpRequest := { TLS : option ConnectionState }.

(** What [ctx.Value(dnsserver.HTTPRequestKey{})] holds: no [*http.Request], or
    one, possibly nil. *)
Record Context := { ctx_HTTPRequest : option (option HttpRequest) }.

(** A [dns.ResponseWriter]: whether it implements [dns.ConnectionStater] and what
    that returns, the error of [WriteMsg], if any, and the client's address as
    [request.Request.IP] reads it off the connection. *)
Record ResponseWriter := {
  rw_ConnectionState : option (option ConnectionState);
  rw_WriteErr : Msg → option string;
  rw_RemoteIP : string;
}.

Definition certsFromState (st : option ConnectionState) : option (list Certificate) :=
  match st with
  | None => None
  | Some st =>
      if (length (PeerCertificates st) =? 0)%nat then None else Some (PeerCertificates st)
  end.

Definition PeerCerts (ctx : Context) (w : ResponseWriter) : option (list Certificate) :=
  match ctx_HTTPRequest ctx with
  | Some (Some req) => certsFromState (TLS req)
  | _ =>
      match rw_ConnectionState w with
      | Some cs => certsFromState cs
      | None => None
      end
  end.

Definition SPIFFEIDFromCert (cert : Certificate) : option string :=
  match URIs cert with
  | [Some u] => if negb (bool_decide (Scheme u = "spiffe")) then None else Some (URL_String u)
  | _ => None
  end.

Inductive Reason := ReasonOK | ReasonNoTLS | ReasonUnauthorizedAgent | ReasonNoDeclaration.

#[global] Instance Reason_eq_dec : EqDecision Reason.
Proof. solve_decision. Defined.

Definition Reason_String (r : Reason) : string :=
  match r with
  | ReasonOK => "ok"
  | ReasonNoTLS => "no_tls"
  | ReasonUnauthorizedAgent => "unauthorized_agent"
  | ReasonNoDeclaration => "no_declaration"
  end.

Record Config := { authorized : gset string; code : Z }.

Definition NewConfig (agents : list string) (code : Z) : Config :=
  {| authorized := fold_left (fun set a => {[a]} ∪ set) agents ∅; code := code |}.

Section source_zone.
Context `{DnsOps}.

(** [None] is an index out of range on [certs[0]]. *)
Definition Config_SourceZone (c : Config) (ctx : Context) (w : ResponseWriter) (r : Msg)
    : option (string * Reason) :=
  match PeerCerts ctx w with
  | None => Some ("", ReasonNoTLS)
  | Some certs =>
      leaf ← certs !! 0%nat;
      match SPIFFEIDFromCert leaf with
      | None => Some ("", ReasonUnauthorizedAgent)
      | Some id =>
          if negb (bool_decide (id ∈ authorized c))
          then Some ("", ReasonUnauthorizedAgent)
          else
            match GetZone r (code c) with
            | None => Some ("", ReasonNoDeclaration)
            | Some zone => Some (zone, ReasonOK)
            end
      end
  end.

(** ** Facts *)
Lemma NewConfig_authorized agents cd id :
  id ∈ authorized (NewConfig agents cd) ↔ id ∈ agents.
Proof.
  cbn. assert (Hgen : ∀ s : gset string,
    id ∈ fold_left (fun set a => {[a]} ∪ set) agents s ↔ id ∈ agents ∨ id ∈ s).
  { induction agents as [|a agents IH]; intros s; cbn; [set_solver|]. rewrite IH. set_solver. }
  rewrite Hgen. set_solver.
Qed.

Lemma PeerCerts_nonempty ctx w certs : PeerCerts ctx w = Some certs → ∃ leaf rest, certs = leaf :: rest.
Proof.
  assert (Hst : ∀ st, certsFromState st = Some certs → ∃ leaf rest, certs = leaf :: rest).
  { intros [[[|leaf rest]]|]; cbn; [done| |done]. intros [= <-]. by eexists _, _. }
  unfold PeerCerts. repeat case_match; try done; apply Hst.
Qed.

(** Who the connection authenticates as: the leaf certificate's one SPIFFE ID. *)
Definition peer_id (ctx : Context) (w : ResponseWriter) : option string :=
  certs ← PeerCerts ctx w; leaf ← certs !! 0%nat; SPIFFEIDFromCert leaf.

Lemma peer_id_spec ctx w id :
  peer_id ctx w = Some id ↔
  ∃ leaf rest u, PeerCerts ctx w = Some (leaf :: rest) ∧ URIs leaf = [Some u] ∧
    Scheme u = "spiffe" ∧ URL_String u = id.
Proof.
  unfold peer_id. destruct (PeerCerts ctx w) as [certs|] eqn:Hc; [|naive_solver].
  destruct (PeerCerts_nonempty _ _ _ Hc) as (leaf & rest & ->). cbn. unfold SPIFFEIDFromCert. split.
  - destruct (URIs leaf) as [|[u|] [|]] eqn:Hu; try done. case_bool_decide; [|done]. cbn.
    intros [= <-]. by exists leaf, rest, u.
  - intros (? & ? & u & [= <- <-] & -> & Hs & <-). by rewrite bool_decide_eq_true_2.
Qed.

Lemma peer_id_agent (agents : list string) ctx w :
  (∃ id, peer_id ctx w = Some id ∧ id ∈ agents) ↔
  ∃ leaf rest u, PeerCerts ctx w = Some (leaf :: rest) ∧ URIs leaf = [Some u] ∧
    Scheme u = "spiffe" ∧ URL_String u ∈ agents.
Proof. setoid_rewrite peer_id_spec. naive_solver. Qed.

Lemma SourceZone_cases c ctx w r :
  Config_SourceZone c ctx w r =
  Some (match PeerCerts ctx w with
        | None => ("", ReasonNoTLS)
        | Some _ =>
            match peer_id ctx w with
            | None => ("", ReasonUnauthorizedAgent)
            | Some id =>
                if bool_decide (id ∈ authorized c)
                then match GetZone r (code c) with
                     | None => ("", ReasonNoDeclaration)
                     | Some zone => (zone, ReasonOK)
                     end
                else ("", ReasonUnauthorizedAgent)
            end
        end).
Proof.
  unfold Config_SourceZone, peer_id.
  destruct (PeerCerts ctx w) as [certs|] eqn:Hc; [|done].
  destruct (PeerCerts_nonempty _ _ _ Hc) as (leaf & rest & ->). cbn.
  destruct (SPIFFEIDFromCert leaf) as [id|]; [|done].
  case_bool_decide; [|done]. cbn. by destruct (GetZone r (code c)).
Qed.

Lemma SourceZone_authorized agents cd ctx w r id :
  peer_id ctx w = Some id → id ∈ agents →
  Config_SourceZone (NewConfig agents cd) ctx w r =
  Some (match GetZone r cd with
        | Some zone => (zone, ReasonOK)
        | None => ("", ReasonNoDeclaration)
        end).
Proof.
  intros Hp Hin%(NewConfig_authorized agents cd id). rewrite SourceZone_cases.
  destruct (PeerCerts ctx w) as [certs|] eqn:Hc; [|unfold peer_id in Hp; by rewrite Hc in Hp].
  rewrite Hp, bool_decide_eq_true_2 by done. cbn. by destruct (GetZone r cd).
Qed.

Lemma SourceZone_ReasonOK agents cd ctx w r zone :
  Config_SourceZone (NewConfig agents cd) ctx w r = Some (zone, ReasonOK) ↔
  (∃ leaf rest u, PeerCerts ctx w = Some (leaf :: rest) ∧ URIs leaf = [Some u] ∧
     Scheme u = "spiffe" ∧ URL_String u ∈ agents) ∧ GetZone r cd = Some zone.
Proof.
  rewrite <-peer_id_agent. split.
  - rewrite SourceZone_cases. destruct (PeerCerts ctx w); [|done].
    destruct (peer_id ctx w) as [id|]; [|done]. case_bool_decide as Ha; [|done].
    cbn. destruct (GetZone r cd); [|done]. intros [= <-]. split; [|done].
    exists id. by rewrite <-(NewConfig_authorized agents cd).
  - intros [(id & Hid & Hin) Hz]. by rewrite (SourceZone_authorized _ _ _ _ _ id Hid Hin), Hz.
Qed.

(** C6: the trust boundary: [SourceZone] always returns (it never indexes an empty
    chain), and it reports a zone with [ReasonOK] exactly when the connection's
    leaf certificate carries one URI SAN, that SAN is a SPIFFE ID on the
    authorized list, and the message declares that zone, well formed and
    unambiguous, under the configured code. Every other query gets no zone. *)
Theorem SourceZone_OK agents cd ctx w r :
  ∃ zone reason,
    Config_SourceZone (NewConfig agents cd) ctx w r = Some (zone, reason) ∧
    (reason = ReasonOK ↔
       (∃ leaf rest u, PeerCerts ctx w = Some (leaf :: rest) ∧ URIs leaf = [Some u] ∧
          Scheme u = "spiffe" ∧ URL_String u ∈ agents) ∧
       GetZone r cd = Some zone) ∧
    (reason ≠ ReasonOK → zone = "").
Proof.
  rewrite SourceZone_cases. eexists _, _. split; [by rewrite <-surjective_pairing|].
  rewrite <-peer_id_agent.
  destruct (PeerCerts ctx w) as [certs|] eqn:Hc; cbn.
  2:{ split; [|done]. split; [done|]. intros [(id & Hid & _) _].
      unfold peer_id in Hid. by rewrite Hc in Hid. }
  destruct (peer_id ctx w) as [id|]; cbn; [|naive_solver].
  pose proof (NewConfig_authorized agents cd id) as Hag. cbn in Hag.
  case_bool_decide as Ha; rewrite Hag in Ha.
  - destruct (GetZone r cd) as [z|]; cbn; split; try done; naive_solver.
  - cbn. split; [|done]. split; [done|]. intros [(id' & [= <-] & Hin) _]. done.
Qed.

(** an unauthorized party's message is never read: when the verdict is "no
    TLS" or "unauthorized agent", it is the same verdict for every message the
    party could have sent instead. *)
Theorem SourceZone_unauthorized_inert c ctx w r zone reason :
  Config_SourceZone c ctx w r = Some (zone, reason) →
  reason = ReasonNoTLS ∨ reason = ReasonUnauthorizedAgent →
  ∀ r', Config_SourceZone c ctx w r' = Some (zone, reason).
Proof.
  rewrite SourceZone_cases. intros Hs Hr r'. rewrite SourceZone_cases, <-Hs. f_equal.
  destruct (PeerCerts ctx w); [|done]. destruct (peer_id ctx w); [|done].
  case_bool_decide; [|done].
  destruct (GetZone r (code c)); naive_solver.
Qed.

(** ambiguity and absence are refusals: a leaf certificate with any number of
    URI SANs other than one never authenticates, and with no configured agent
    nothing does. *)
Theorem SourceZone_fail_closed c ctx w r leaf rest :
  PeerCerts ctx w = Some (leaf :: rest) →
  length (URIs leaf) ≠ 1%nat ∨ authorized c = ∅ →
  Config_SourceZone c ctx w r = Some ("", ReasonUnauthorizedAgent).
Proof.
  intros Hc Hbad. rewrite SourceZone_cases, Hc.
  unfold peer_id. rewrite Hc. cbn [mbind option_bind lookup list_lookup].
  destruct (SPIFFEIDFromCert leaf) as [id|] eqn:Hid; [|done].
  destruct Hbad as [Hlen|Hempty].
  - unfold SPIFFEIDFromCert in Hid.
    by destruct (URIs leaf) as [|[u|] [|? ?]].
  - rewrite Hempty, bool_decide_eq_false_2 by set_solver. done.
Qed.
End source_zone.

(** ** Witnesses *)
Module IdentityWitnesses.
Import DnsLib.Reference.

Definition spiffe_url (path : string) : URL := {|
  Scheme := "spiffe"; Opaque := ""; User := None; Host := "example.org"; Path := path; RawPath := "";
  OmitHost := false; ForceQuery := false; RawQuery := ""; Fragment := ""; RawFragment := "" |}.

Definition tls_ctx (uris : list (option URL)) : Context := {|
  ctx_HTTPRequest := Some (Some {| TLS := Some {| PeerCertificates := [{| URIs := uris |}] |} |}) |}.

Definition plain_writer : ResponseWriter := {|
  rw_ConnectionState := None; rw_WriteErr := fun _ => None;
  rw_RemoteIP := "10.0.0.7" |}.
Definition agents : Config := NewConfig ["spiffe://example.org/ns/dns/sa/agent"] DefaultCode.

Lemma SourceZone_unauthorized_inert_witness :
  Config_SourceZone agents (tls_ctx [Some (spiffe_url "/ns/dns/sa/intruder")]) plain_writer
    EdnsZoneWitnesses.forged = Some ("", ReasonUnauthorizedAgent).
Proof.
  apply (SourceZone_unauthorized_inert agents _ plain_writer zero_Msg);
    [by vm_compute|by right].
Defined.

Lemma SourceZone_fail_closed_witness :
  Config_SourceZone agents
    (tls_ctx [Some (spiffe_url "/ns/dns/sa/agent"); Some (spiffe_url "/ns/dns/sa/other")])
    plain_writer zero_Msg = Some ("", ReasonUnauthorizedAgent).
Proof. eapply SourceZone_fail_closed; [reflexivity|by left]. Defined.
End IdentityWitnesses.
