(* ===== verification/TestCerts.v ===== *)
(** * internal/testcerts: the certificates of the tests

    testcerts.go and ca.go: a self-signed certificate with given URI SANs, a throwaway
    CA, and leaf certificates it issues. [crypto/ecdsa], [crypto/rand] and
    [crypto/x509] are the interface [X509Ops]; a [t.Fatalf] ends the test, here with
    an error. The clock, which the source reads for each time of a template, is read
    once. *)

From S2P Require Import Prelude GoStd GoUrl NetIP DnsLib EdnsZone SpiffeZone SpiffeID Identity.
Import Strings.

Open Scope Z_scope.

(** An [x509.Certificate]: a template or what was parsed, the fields the source sets. *)
Record x509_Certificate := {
  SerialNumber : Z;
  CommonName : string;
  NotBefore : Z;
  NotAfter : Z;
  IsCA : bool;
  KeyUsage : Z;
  ExtKeyUsage : list Z;
  BasicConstraintsValid : bool;
  x_URIs : list URL;
  DNSNames : list string;
  IPAddresses : list (list Z);
}.

Definition KeyUsageDigitalSignature : Z := Z.shiftl 1 0.
Definition KeyUsageCertSign : Z := Z.shiftl 1 5.
Definition ExtKeyUsageServerAuth : Z := 1.
Definition ExtKeyUsageClientAuth : Z := 2.
Definition Hour : Z := 3600 * Second.

Class X509Ops (Key Pub Der Pool W : Type) := {
  (** ecdsa.GenerateKey(elliptic.P256(), rand.Reader) *)
  GenerateKey : W → result string Key * W;
  PublicKey : Key → Pub;
  (** "creates a new X.509 v3 certificate based on a template", signed by the parent:
      template, parent, the subject's public key, the signer's key *)
  CreateCertificate : x509_Certificate → x509_Certificate → Pub → Key → W → result string Der * W;
  ParseCertificate : Der → result string x509_Certificate;
  NewCertPool : Pool;
  AddCert : Pool → x509_Certificate → Pool;
}.

(** A URI SAN is stored as the URL's text, and read back with [url.Parse]. *)
Class X509Laws (Key Pub Der Pool W : Type) `{X509Ops Key Pub Der Pool W, Unicode, UrlLib} : Prop := {
  created_URIs tmpl parent pub key w der w' cert :
    CreateCertificate tmpl parent pub key w = (Ok der, w') → ParseCertificate der = Ok cert →
    Forall2 (fun u u' => Parse (URL_String u) = Ok u') (x_URIs tmpl) (x_URIs cert);
}.

(** The [t.Fatalf] calls. *)
Inductive fatal :=
  | FatalKey (e : string)
  | FatalURI (uri : string) (e : url_error)
  | FatalCreate (e : string)
  | FatalParse (e : string).

Section testcerts.
Context {Key Pub Der Pool W : Type} `{X509Ops Key Pub Der Pool W, Unicode, UrlLib}.

(** The loop over the URIs of [New]. *)
Fixpoint uri_sans (uris : list string) (sans : list URL) : result fatal (list URL) :=
  match uris with
  | [] => Ok sans
  | uri :: uris' =>
      if bool_decide (uri = "") then uri_sans uris' sans
      else
        match Parse uri with
        | Err e => Err (FatalURI uri e)
        | Ok u => uri_sans uris' (sans ++ [u])
        end
  end.

(** [x509.CreateCertificate] and [x509.ParseCertificate]: the DER and the certificate. *)
Definition sign (tmpl parent : x509_Certificate) (pub : Pub) (key : Key) (w : W)
    : result fatal (Der * x509_Certificate) * W :=
  match CreateCertificate tmpl parent pub key w with
  | (Err e, w) => (Err (FatalCreate e), w)
  | (Ok der, w) =>
      match ParseCertificate der with
      | Err e => (Err (FatalParse e), w)
      | Ok cert => (Ok (der, cert), w)
      end
  end.

Definition New (uris : list string) (now : Z) (w : W) : result fatal x509_Certificate * W :=
  match GenerateKey w with
  | (Err e, w) => (Err (FatalKey e), w)
  | (Ok key, w) =>
      match uri_sans uris [] with
      | Err e => (Err e, w)
      | Ok sans =>
          let tmpl := {| SerialNumber := 1; CommonName := "test"; NotBefore := now - Hour;
            NotAfter := now + Hour; IsCA := false; KeyUsage := 0; ExtKeyUsage := [];
            BasicConstraintsValid := false; x_URIs := sans; DNSNames := []; IPAddresses := [] |} in
          match sign tmpl tmpl (PublicKey key) key w with
          | (Err e, w) => (Err e, w)
          | (Ok (_, cert), w) => (Ok cert, w)
          end
      end
  end.

(** ** ca.go *)
Record CA := { ca_cert : x509_Certificate; ca_key : Key; ca_pool : Pool }.

Definition NewCA (now : Z) (w : W) : result fatal CA * W :=
  match GenerateKey w with
  | (Err e, w) => (Err (FatalKey e), w)
  | (Ok key, w) =>
      let tmpl := {| SerialNumber := 1; CommonName := "testcerts-ca"; NotBefore := now - Hour;
        NotAfter := now + Hour; IsCA := true;
        KeyUsage := Z.lor KeyUsageCertSign KeyUsageDigitalSignature; ExtKeyUsage := [];
        BasicConstraintsValid := true; x_URIs := []; DNSNames := []; IPAddresses := [] |} in
      match sign tmpl tmpl (PublicKey key) key w with
      | (Err e, w) => (Err e, w)
      | (Ok (_, cert), w) =>
          let pool := AddCert NewCertPool cert in
          (Ok {| ca_cert := cert; ca_key := key; ca_pool := pool |}, w)
      end
  end.

Definition CA_Pool (ca : CA) : Pool := ca_pool ca.

(** A [tls.Certificate]. *)
Record tls_Certificate := {
  Certificates : list Der;
  PrivateKey : Key;
  Leaf : x509_Certificate;
}.

Definition CA_Issue (ca : CA) (spiffeID : string) (now : Z) (w : W) : result fatal tls_Certificate * W :=
  match GenerateKey w with
  | (Err e, w) => (Err (FatalKey e), w)
  | (Ok key, w) =>
      match Parse spiffeID with
      | Err e => (Err (FatalURI spiffeID e), w)
      | Ok u =>
          let tmpl := {| SerialNumber := now; CommonName := spiffeID; NotBefore := now - Hour;
            NotAfter := now + Hour; IsCA := false; KeyUsage := KeyUsageDigitalSignature;
            ExtKeyUsage := [ExtKeyUsageServerAuth; ExtKeyUsageClientAuth];
            BasicConstraintsValid := false; x_URIs := [u]; DNSNames := ["localhost"];
            IPAddresses := [ParseIP "127.0.0.1"; ParseIP "::1"] |} in
          match sign tmpl (ca_cert ca) (PublicKey key) (ca_key ca) w with
          | (Err e, w) => (Err e, w)
          | (Ok (der, leaf), w) =>
              (Ok {| Certificates := [der]; PrivateKey := key; Leaf := leaf |}, w)
          end
      end
  end.

(** A certificate as the identity check sees it. *)
Definition presented (c : x509_Certificate) : Certificate := {| URIs := Some <$> x_URIs c |}.

Section facts.
Context `{!UrlLaws, !X509Laws Key Pub Der Pool W}.

(** An ID in the standard's characters. *)
Definition well_formed (id : string) : Prop :=
  ∃ td path, trust_domain td ∧ id_path path ∧ id = spiffe_id td path.

Lemma sign_URIs tmpl parent pub key w der cert w' :
  sign tmpl parent pub key w = (Ok (der, cert), w') →
  Forall2 (fun u u' => Parse (URL_String u) = Ok u') (x_URIs tmpl) (x_URIs cert).
Proof.
  unfold sign. destruct (CreateCertificate _ _ _ _ _) as [[d|] w1] eqn:Hc; [|done].
  destruct (ParseCertificate d) as [c|] eqn:Hp; [|done]. intros [= <- <- <-]. by eapply created_URIs.
Qed.

(** The URLs of well-formed IDs, and of the certificate made with them. *)
Definition url_of (id : string) (u : URL) : Prop :=
  Parse id = Ok u ∧ Scheme u = "spiffe" ∧ URL_String u = id.

Lemma well_formed_url id : well_formed id → ∃ u, url_of id u.
Proof.
  intros (td & path & Htd & Hp & ->). exists (spiffe_url td path).
  split_and!; [by apply Parse_spiffe_id|done|by apply URL_String_spiffe].
Qed.

Lemma url_of_stored id u u' : url_of id u → Parse (URL_String u) = Ok u' → url_of id u'.
Proof. intros (Hp & Hs & Hstr). rewrite Hstr, Hp. by intros [= <-]. Qed.

Lemma stored_urls ids us us' :
  Forall2 url_of ids us → Forall2 (fun u u' => Parse (URL_String u) = Ok u') us us' →
  Forall2 url_of ids us'.
Proof.
  intros Hids. revert us'. induction Hids as [|id u ids us Hu _ IH]; intros us' Hst; inversion Hst; subst;
    constructor; [by eapply url_of_stored|by apply IH].
Qed.

Lemma uri_sans_spec uris sans ids :
  Forall2 url_of ids sans → Forall well_formed (filter (fun uri => uri ≠ "") uris) →
  ∃ us, uri_sans uris sans = Ok us ∧ Forall2 url_of (ids ++ filter (fun uri => uri ≠ "") uris) us.
Proof.
  revert sans ids. induction uris as [|uri uris IH]; intros sans ids Hids; cbn [uri_sans].
  { exists sans. by rewrite app_nil_r. }
  rewrite filter_cons. case_bool_decide as He.
  - rewrite decide_False by tauto. apply IH, Hids.
  - rewrite decide_True by done. intros [Hwf Hrest]%Forall_cons.
    destruct (well_formed_url uri Hwf) as (u & Hu). rewrite (proj1 Hu).
    destruct (IH (sans ++ [u]) (ids ++ [uri])) as (us & Hus & Hall); [|done|].
    { apply Forall2_app; [done|]. apply Forall2_cons. by split; [|apply Forall2_nil]. }
    exists us. split; [done|]. by rewrite <-app_assoc in Hall.
Qed.

(** The one SPIFFE ID of a certificate, if it has one URI SAN. *)
Lemma presented_identity ids c :
  Forall2 url_of ids (x_URIs c) →
  SPIFFEIDFromCert (presented c) = match ids with [id] => Some id | _ => None end.
Proof.
  unfold SPIFFEIDFromCert, presented; cbn. intros Hu.
  destruct Hu as [|id u ids us (_ & Hs & Hstr) [|id' u' ids' us' _ _]]; cbn; try done.
  by rewrite bool_decide_eq_true_2, Hstr.
Qed.

(** the identity of a generated certificate: with well-formed SPIFFE IDs, [New]
    gets past its URIs, and the certificate it returns authenticates as the one
    non-empty ID it was given, as nothing when it was given none or several. *)
Theorem New_identity uris now w cert w' :
  Forall well_formed (filter (fun uri => uri ≠ "") uris) →
  New uris now w = (Ok cert, w') →
  SPIFFEIDFromCert (presented cert) =
    match filter (fun uri => uri ≠ "") uris with [id] => Some id | _ => None end.
Proof.
  intros Hwf. unfold New. destruct (GenerateKey w) as [[key|] w1]; [|done].
  destruct (uri_sans_spec uris [] [] (proj2 (Forall2_nil _) I) Hwf) as (us & -> & Hus).
  destruct (sign _ _ _ _ _) as [[[der c]|] w2] eqn:Hs; [|done]. intros [= <- <-].
  apply sign_URIs in Hs. by apply presented_identity, stored_urls with us.
Qed.

(** a certificate of the test CA makes an agent: the leaf [Issue] signs for a
    SPIFFE ID, presented on an https connection, is authorized exactly when that ID
    is configured, and what its messages declare is then believed. *)
Theorem Issue_authorizes `{DnsOps} ca id now w cert w' agents code st wr m :
  well_formed id → CA_Issue ca id now w = (Ok cert, w') →
  PeerCertificates st = [presented (Leaf cert)] →
  Config_SourceZone (NewConfig agents code)
    {| ctx_HTTPRequest := Some (Some {| TLS := Some st |}) |} wr m =
  Some (if bool_decide (id ∈ agents)
        then match GetZone m code with Some zone => (zone, ReasonOK) | None => ("", ReasonNoDeclaration) end
        else ("", ReasonUnauthorizedAgent)).
Proof.
  intros Hwf. destruct (well_formed_url id Hwf) as (u & Hu). unfold CA_Issue.
  destruct (GenerateKey w) as [[key|] w1]; [|done]. rewrite (proj1 Hu).
  destruct (sign _ _ _ _ _) as [[[der c]|] w2] eqn:Hs; [|done]. intros [= <- <-] Hst.
  apply sign_URIs in Hs. cbn in Hs.
  assert (Hid : SPIFFEIDFromCert (presented c) = Some id).
  { apply (presented_identity [id]), stored_urls with [u]; [|done].
    apply Forall2_cons. by split; [|apply Forall2_nil]. }
  rewrite SourceZone_cases. unfold peer_id, PeerCerts, certsFromState; cbn in *.
  rewrite Hst; cbn. rewrite Hid. pose proof (NewConfig_authorized agents code id) as Ha.
  cbn in Ha. rewrite (bool_decide_ext _ _ Ha). done.
Qed.
End facts.
End testcerts.

(** ** Witnesses *)
Module TestCertsWitnesses.
Import UrlReference SpiffeIDWitnesses DnsLib.Reference.

(** A library that signs by keeping the template, its URIs as text. *)
#[export] Instance paper : X509Ops unit unit x509_Certificate (list x509_Certificate) unit := {|
  GenerateKey w := (Ok tt, w);
  PublicKey k := k;
  CreateCertificate tmpl _ _ _ w := (Ok tmpl, w);
  ParseCertificate der :=
    let read u := match Parse (URL_String u) with Ok u' => Some u' | Err _ => None end in
    match mapM read (x_URIs der) with
    | None => Err "x509: cannot parse URI"
    | Some us =>
        Ok {| SerialNumber := SerialNumber der; CommonName := CommonName der;
              NotBefore := NotBefore der; NotAfter := NotAfter der; IsCA := IsCA der;
              KeyUsage := KeyUsage der; ExtKeyUsage := ExtKeyUsage der;
              BasicConstraintsValid := BasicConstraintsValid der; x_URIs := us;
              DNSNames := DNSNames der; IPAddresses := IPAddresses der |}
    end;
  NewCertPool := [];
  AddCert pool c := c :: pool;
|}.

#[export] Instance paper_laws : X509Laws unit unit x509_Certificate (list x509_Certificate) unit.
Proof.
  split. intros tmpl parent pub key w der w' cert [= <- <-]. cbn.
  destruct (mapM _ (x_URIs tmpl)) as [us|] eqn:Hm; [|done]. intros [= <-]. cbn.
  apply mapM_Some in Hm. eapply Forall2_impl; [done|]. intros u u' Hu. cbn in Hu.
  by destruct (Parse (URL_String u)); simplify_eq.
Qed.

Definition agent_id : string := "spiffe://example.org/zone/fab/sa/api".

Lemma agent_id_ok : well_formed agent_id.
Proof. exists "example.org", "/zone/fab/sa/api". split_and!; [apply example_td|apply example_path|done]. Qed.

Lemma New_identity_witness :
  ∃ cert w', New [""; agent_id] 7 tt = (Ok cert, w') ∧ SPIFFEIDFromCert (presented cert) = Some agent_id.
Proof.
  eexists _, _. split; [by vm_compute|].
  refine (New_identity [""; agent_id] 7 tt _ _ _ _); [|by vm_compute].
  cbn. repeat constructor. apply agent_id_ok.
Defined.

Definition ca0 : CA (Key := unit) (Pool := list x509_Certificate) :=
  match NewCA 7 tt with
  | (Ok ca, _) => ca
  | _ => {| ca_cert := Build_x509_Certificate 0 "" 0 0 false 0 [] false [] [] []; ca_key := tt; ca_pool := [] |}
  end.

Lemma Issue_authorizes_witness :
  ∃ cert w', CA_Issue ca0 agent_id 7 tt = (Ok cert, w') ∧
    Config_SourceZone (NewConfig [agent_id] DefaultCode)
      {| ctx_HTTPRequest := Some (Some {| TLS :=
           Some {| PeerCertificates := [presented (Leaf cert)] |} |}) |}
      IdentityWitnesses.plain_writer EdnsZoneWitnesses.forged =
    Some (if bool_decide (agent_id ∈ [agent_id])
          then match GetZone EdnsZoneWitnesses.forged DefaultCode with
               | Some zone => (zone, ReasonOK) | None => ("", ReasonNoDeclaration) end
          else ("", ReasonUnauthorizedAgent)).
Proof.
  eexists _, _. split; [by vm_compute|].
  eapply (Issue_authorizes ca0 agent_id 7 tt); [apply agent_id_ok|by vm_compute|done].
Defined.
End TestCertsWitnesses.
