(* ===== verification/Central.v ===== *)
(** * plugin/zonedns/zonedns.go: the central handler

    [ServeDNS] composes the trust boundary, the registry, the decision table and
    the gateway answer. A run is a computation over the trace of its effects:
    metrics, log lines, messages written to the client, and the call of the next
    plugin. *)

From S2P Require Import Prelude GoStd GoUrl NetIP DnsLib EdnsZone Registry Decision Identity.

Open Scope Z_scope.

(** What a query makes the handler do, in order. *)
Inductive event :=
  | SourceZoneInc (reason : string)   (** sourceZoneTotal *)
  | DecisionInc (action : string)     (** decisionTotal *)
  | LogNoGateway (destZone name : string)
  | LogWriteFailed (qname err : string)
  | WriteMsg (m : Msg)
  | CallNext (r : Msg).

#[global] Instance event_eq_dec : EqDecision event.
Proof. solve_decision. Defined.

(** CoreDNS's [plugin.NextOrFailure]: the rest of the chain, with the response
    code and the error it returns. *)
Class PluginOps (Handler : Type) := {
  NextOrFailure : string → option Handler → Context → ResponseWriter → Msg → Z * option string;
}.

Definition emit (e : event) : GoM (list event) unit := modify_state (fun t => t ++ [e]).

Section central.
Context {Handler : Type} `{Strings.Unicode, DnsOps, RequestOps, PluginOps Handler}.

Record ZoneDNS := {
  Next : option Handler;
  z_Identity : Config;
  z_Registry : Store;
  z_Zones : Table;
  z_TTL : Z;
}.

Definition ZoneDNS_Name : string := "zonedns".

Definition callNext (z : ZoneDNS) (ctx : Context) (w : ResponseWriter) (r : Msg)
    : GoM (list event) (Z * option string) :=
  emit (CallNext r);; mret (NextOrFailure ZoneDNS_Name (Next z) ctx w r).

Definition answerGateway (z : ZoneDNS) (w : ResponseWriter) (r : Msg) (gw : string)
    : GoM (list event) (Z * option string) :=
  let ip := ParseIP gw in
  let isV4 := negb (bool_decide (To4 ip = [])) in
  let m := with_Authoritative (SetReply zero_Msg r) true in
  let m := SizeAndDo r m in
  let hdr rrtype := {| hdr_Name := QName r; hdr_Rrtype := rrtype;
                       hdr_Class := ClassINET; hdr_Ttl := z_TTL z |} in
  let m :=
    if (QType r =? TypeA) && isV4
    then with_Answer m [{| Hdr := hdr TypeA; Body := RD_A (To4 ip) |}]
    else if (QType r =? TypeAAAA) && negb isV4
    then with_Answer m [{| Hdr := hdr TypeAAAA; Body := RD_AAAA (To16 ip) |}]
    else m in
  emit (WriteMsg m);;
  match rw_WriteErr w m with
  | Some err => emit (LogWriteFailed (QName r) err)
  | None => mret tt
  end;;
  mret (RcodeSuccess, None).

(** The source's switch has a default as well, which logs and calls the next plugin; the
    three actions are all the values [Decide] returns. *)
Definition ServeDNS (z : ZoneDNS) (ctx : Context) (w : ResponseWriter) (r : Msg)
    : GoM (list event) (Z * option string) :=
  if negb (QType r =? TypeA) && negb (QType r =? TypeAAAA) then callNext z ctx w r
  else
    sz ← of_option (Config_SourceZone (z_Identity z) ctx w r);
    let '(zone, reason) := sz in
    emit (SourceZoneInc (Reason_String reason));;
    let dest := Store_Lookup (z_Registry z) (req_Name r) in
    let destZone := default "" dest in
    let d := Decide {| SourceZone := zone;
                       SourceOK := bool_decide (reason = ReasonOK);
                       DestZone := destZone;
                       DestOK := bool_decide (is_Some dest) |}
                    (Gateway (z_Zones z)) in
    emit (DecisionInc (Action_String (d_Action d)));;
    match d_Action d with
    | ActionAnswerGateway => answerGateway z w r (Addr_String (d_Gateway d))
    | ActionServFail =>
        emit (LogNoGateway destZone (req_Name r));; mret (RcodeServerFailure, None)
    | ActionPassThrough => callNext z ctx w r
    end.

(** ** The specification

    What the design promises of a query: it is answered locally exactly when it
    is an address query from a trusted zone for a name of another zone. *)
Definition address_query (r : Msg) : Prop := QType r = TypeA ∨ QType r = TypeAAAA.

Definition crosses (z : ZoneDNS) (ctx : Context) (w : ResponseWriter) (r : Msg)
    (src dest : string) : Prop :=
  address_query r ∧
  Config_SourceZone (z_Identity z) ctx w r = Some (src, ReasonOK) ∧
  Store_Lookup (z_Registry z) (req_Name r) = Some dest ∧ dest ≠ src.

Definition delegated (t : list event) : list Msg :=
  omap (fun e => match e with CallNext r => Some r | _ => None end) t.

Definition written (t : list event) : list Msg :=
  omap (fun e => match e with WriteMsg m => Some m | _ => None end) t.

Definition counters (t : list event) : list string * list string :=
  (omap (fun e => match e with SourceZoneInc s => Some s | _ => None end) t,
   omap (fun e => match e with DecisionInc s => Some s | _ => None end) t).

(** The record a gateway answers an address query with, if its family fits. *)
Definition gateway_record (z : ZoneDNS) (r : Msg) (gw : Addr) : list RR :=
  let rr t body := {| Hdr := {| hdr_Name := QName r; hdr_Rrtype := t;
                                hdr_Class := ClassINET; hdr_Ttl := z_TTL z |}; Body := body |} in
  match gw with
  | Addr4 b => if QType r =? TypeA then [rr TypeA (RD_A b)] else []
  | Addr6 b _ =>
      if Is4In6 b then if QType r =? TypeA then [rr TypeA (RD_A (drop 12 b))] else []
      else if QType r =? TypeAAAA then [rr TypeAAAA (RD_AAAA b)] else []
  | AddrZero => []
  end.

(** ** The handler, branch by branch *)
Lemma not_address_query r :
  ¬ address_query r ↔ negb (QType r =? TypeA) && negb (QType r =? TypeAAAA) = true.
Proof.
  unfold address_query. rewrite andb_true_iff, !negb_true_iff, !Z.eqb_neq. tauto.
Qed.

Lemma address_query_test r :
  address_query r → negb (QType r =? TypeA) && negb (QType r =? TypeAAAA) = false.
Proof. by intros [-> | ->]. Qed.

Lemma ServeDNS_other z ctx w r :
  ¬ address_query r →
  ServeDNS z ctx w r [] = Some (NextOrFailure ZoneDNS_Name (Next z) ctx w r, [CallNext r]).
Proof. intros Hq%not_address_query. unfold ServeDNS. by rewrite Hq. Qed.

(** The counters an address query increments, before the action. *)
Definition counted (reason : Reason) (a : Action) : list event :=
  [SourceZoneInc (Reason_String reason); DecisionInc (Action_String a)].

Lemma ServeDNS_address z ctx w r zone reason :
  address_query r →
  Config_SourceZone (z_Identity z) ctx w r = Some (zone, reason) →
  ServeDNS z ctx w r [] =
  match Store_Lookup (z_Registry z) (req_Name r) with
  | Some dest =>
      if bool_decide (reason = ReasonOK ∧ dest ≠ zone)
      then match Gateway (z_Zones z) dest with
           | Some gw => answerGateway z w r (Addr_String gw) (counted reason ActionAnswerGateway)
           | None => Some ((RcodeServerFailure, None),
                           counted reason ActionServFail ++ [LogNoGateway dest (req_Name r)])
           end
      else callNext z ctx w r (counted reason ActionPassThrough)
  | None => callNext z ctx w r (counted reason ActionPassThrough)
  end.
Proof.
  intros Hq%address_query_test Hs. unfold ServeDNS. rewrite Hq, Hs. unfold emit. go_run.
  destruct (Store_Lookup _ _) as [dest|]; cbn.
  - unfold Decide; cbn. destruct (decide (reason = ReasonOK)) as [->|Hr].
    + rewrite (bool_decide_eq_true_2 (ReasonOK = ReasonOK)) by done; cbn.
      destruct (decide (dest = zone)) as [->|Hne].
      * rewrite (bool_decide_eq_true_2 (zone = zone)) by done.
        rewrite (bool_decide_eq_false_2 (_ ∧ _)) by naive_solver. done.
      * rewrite (bool_decide_eq_false_2 (dest = zone)) by done.
        rewrite (bool_decide_eq_true_2 (_ ∧ _)) by done.
        unfold Gateway. by destruct (gw (z_Zones z) !! dest).
    + rewrite (bool_decide_eq_false_2 (reason = ReasonOK)) by done.
      rewrite (bool_decide_eq_false_2 (_ ∧ _)) by naive_solver. done.
  - unfold Decide; cbn. by destruct (bool_decide _).
Qed.

Lemma ServeDNS_crosses z ctx w r src dest :
  crosses z ctx w r src dest →
  ServeDNS z ctx w r [] =
  match Gateway (z_Zones z) dest with
  | Some gw => answerGateway z w r (Addr_String gw) (counted ReasonOK ActionAnswerGateway)
  | None => Some ((RcodeServerFailure, None),
                  counted ReasonOK ActionServFail ++ [LogNoGateway dest (req_Name r)])
  end.
Proof.
  intros (Hq & Hs & Hl & Hne). rewrite (ServeDNS_address _ _ _ _ _ _ Hq Hs), Hl.
  by rewrite bool_decide_eq_true_2.
Qed.

Lemma SourceZone_total c ctx w r : is_Some (Config_SourceZone c ctx w r).
Proof. rewrite SourceZone_cases. by eexists. Qed.

(** The answer section for the bytes of a gateway. *)
Definition ip_answer (z : ZoneDNS) (r : Msg) (ip : list Z) : list RR :=
  let rr t body := {| Hdr := {| hdr_Name := QName r; hdr_Rrtype := t;
                                hdr_Class := ClassINET; hdr_Ttl := z_TTL z |}; Body := body |} in
  if bool_decide (To4 ip = [])
  then if QType r =? TypeAAAA then [rr TypeAAAA (RD_AAAA (To16 ip))] else []
  else if QType r =? TypeA then [rr TypeA (RD_A (To4 ip))] else [].

Lemma crosses_dec z ctx w r :
  (∃ src dest, crosses z ctx w r src dest) ∨ ¬ ∃ src dest, crosses z ctx w r src dest.
Proof.
  destruct (decide (QType r = TypeA ∨ QType r = TypeAAAA)) as [Hq|Hq].
  2:{ right. by intros (? & ? & ? & _). }
  destruct (SourceZone_total (z_Identity z) ctx w r) as [[zone reason] Hs].
  destruct (decide (reason = ReasonOK)) as [->|Hr]; [|right; unfold crosses; naive_solver].
  destruct (Store_Lookup (z_Registry z) (req_Name r)) as [dest|] eqn:Hl;
    [|right; unfold crosses; naive_solver].
  destruct (decide (dest = zone)) as [->|Hne]; [right; unfold crosses; naive_solver|].
  left. by exists zone, dest.
Qed.

(** Outside the cross-zone case the query is handed on. *)
Lemma ServeDNS_not_crosses z ctx w r :
  (¬ ∃ src dest, crosses z ctx w r src dest) →
  ∃ t, ServeDNS z ctx w r [] = Some (NextOrFailure ZoneDNS_Name (Next z) ctx w r, t) ∧
       delegated t = [r] ∧ written t = [].
Proof.
  intros Hn. destruct (decide (QType r = TypeA ∨ QType r = TypeAAAA)) as [Hq|Hq].
  2:{ rewrite (ServeDNS_other _ _ _ _ Hq). by eexists. }
  destruct (SourceZone_total (z_Identity z) ctx w r) as [[zone reason] Hs].
  rewrite (ServeDNS_address _ _ _ _ _ _ Hq Hs).
  destruct (Store_Lookup _ _) as [dest|] eqn:Hl; [|by eexists].
  rewrite bool_decide_eq_false_2; [by eexists|].
  intros [-> Hne]. apply Hn. by exists zone, dest.
Qed.

(** An answer goes out in one [WriteMsg]; at most a log line follows. *)
Lemma answerGateway_run z w r gw t :
  ∃ m tail, answerGateway z w r gw t = Some ((RcodeSuccess, None), t ++ WriteMsg m :: tail) ∧
    delegated tail = [] ∧ written tail = [] ∧ counters tail = ([], []) ∧
    let m0 := SizeAndDo r (with_Authoritative (SetReply zero_Msg r) true) in
    m = match ip_answer z r (ParseIP gw) with [] => m0 | ans => with_Answer m0 ans end.
Proof.
  unfold answerGateway. cbv zeta. set (m := if _ && _ then _ else _).
  exists m. unfold emit. go_run.
  assert (Hm : m = match ip_answer z r (ParseIP gw) with
    | [] => SizeAndDo r (with_Authoritative (SetReply zero_Msg r) true)
    | ans => with_Answer (SizeAndDo r (with_Authoritative (SetReply zero_Msg r) true)) ans end).
  { subst m. unfold ip_answer. destruct (bool_decide _); cbn;
      [rewrite andb_false_r, andb_true_r|rewrite andb_true_r, andb_false_r]; by case_match. }
  destruct (rw_WriteErr w m) as [err|]; cbn.
  - exists [LogWriteFailed (QName r) err]. by rewrite <-app_assoc.
  - by exists [].
Qed.

(** ** Theorems *)
Section laws.
Context `{!DnsLaws, !RequestLaws}.

Lemma SizeAndDo_fields r m :
  Id (SizeAndDo r m) = Id m ∧ Response (SizeAndDo r m) = Response m ∧
  Authoritative (SizeAndDo r m) = Authoritative m ∧ Rcode (SizeAndDo r m) = Rcode m ∧
  Questions (SizeAndDo r m) = Questions m ∧ Answer (SizeAndDo r m) = Answer m ∧
  Ns (SizeAndDo r m) = Ns m.
Proof. destruct (SizeAndDo_Extra r m) as [ex ->]. done. Qed.

(** A reply to [r], by this server, without error. *)
Definition authoritative_reply (r m : Msg) : Prop :=
  Id m = Id r ∧ Response m = true ∧ Authoritative m = true ∧ Rcode m = RcodeSuccess ∧
  (∀ q, Questions r = [q] → Questions m = [q]) ∧ Ns m = [].

Lemma reply_base r ans :
  authoritative_reply r
    (with_Answer (SizeAndDo r (with_Authoritative (SetReply zero_Msg r) true)) ans).
Proof.
  destruct (SizeAndDo_fields r (with_Authoritative (SetReply zero_Msg r) true))
    as (Hid & Hre & Hau & Hrc & Hqs & Han & Hns).
  unfold authoritative_reply; cbn in *. rewrite Hid, Hre, Hau, Hrc, Hns.
  rewrite SetReply_Id, SetReply_Response, SetReply_Rcode, SetReply_Ns.
  split_and!; try done. intros q Hq. rewrite Hqs. by apply (SetReply_Questions _ _ _ [] Hq).
Qed.

Lemma reply_base_empty r :
  SizeAndDo r (with_Authoritative (SetReply zero_Msg r) true) =
  with_Answer (SizeAndDo r (with_Authoritative (SetReply zero_Msg r) true)) [].
Proof.
  destruct (SizeAndDo_fields r (with_Authoritative (SetReply zero_Msg r) true))
    as (_ & _ & _ & _ & _ & Han & _).
  cbn in Han. rewrite SetReply_Answer in Han. cbn in Han.
  destruct (SizeAndDo r _); cbn in *; by subst.
Qed.

(** The message [answerGateway] writes is a reply with the records [ans]. *)
Lemma answerGateway_reply z w r gw t :
  address_query r →
  ∃ m tail, answerGateway z w r gw t = Some ((RcodeSuccess, None), t ++ WriteMsg m :: tail) ∧
    delegated tail = [] ∧ written tail = [] ∧ counters tail = ([], []) ∧
    authoritative_reply r m ∧
    Answer m = ip_answer z r (ParseIP gw).
Proof.
  intros Hq. destruct (answerGateway_run z w r gw t) as (m & tail & Hrun & Hd & Hw & Hc & Hm).
  exists m, tail. split_and!; try done; rewrite Hm; cbv zeta; rewrite reply_base_empty;
    destruct (ip_answer z r (ParseIP gw)); try done; apply reply_base.
Qed.

(** Of a gateway a configuration can hold, the parsed text is the address. *)
Lemma gateway_record_eq z r gw :
  Addr_wf gw → Addr_Zone gw = "" →
  ip_answer z r (ParseIP (Addr_String gw)) = gateway_record z r gw.
Proof.
  intros Hwf Hz. unfold ip_answer. rewrite ParseIP_String, Hz by done.
  rewrite (bool_decide_eq_true_2 (EmptyString = EmptyString)) by done.
  destruct gw as [|b|b zone]; cbn in Hwf; [done| |]; destruct Hwf as [Hlen Hb].
  - destruct (length4_inv b Hlen) as (b1 & b2 & b3 & b4 & ->). done.
  - unfold To4, To16; cbn [As16 gateway_record]. rewrite Hlen; cbn.
    destruct (Is4In6 b) eqn:Hm; [|done].
    rewrite bool_decide_eq_false_2; [done|].
    intros Hn%(f_equal length). rewrite length_drop, Hlen in Hn. done.
Qed.

(** A record without an address. *)
Definition no_address (b : RData) : Prop := b = RD_AAAA [].

(** Of a gateway with an IPv6 zone no byte is sent. *)
Lemma zoned_record_empty z r gw :
  Addr_wf gw → Addr_Zone gw ≠ "" → Forall no_address (map Body (ip_answer z r (ParseIP (Addr_String gw)))).
Proof.
  intros Hwf Hz. unfold ip_answer. rewrite ParseIP_String by done.
  rewrite (bool_decide_eq_false_2 (Addr_Zone gw = _)) by done.
  repeat case_match; by repeat constructor.
Qed.

(** The answer for a gateway without an IPv6 zone. *)
Lemma ServeDNS_gateway_reply z ctx w r src dest gw :
  crosses z ctx w r src dest → Gateway (z_Zones z) dest = Some gw →
  Addr_wf gw → Addr_Zone gw = "" →
  ∃ t m, ServeDNS z ctx w r [] = Some ((RcodeSuccess, None), t) ∧ written t = [m] ∧
    authoritative_reply r m ∧ Answer m = gateway_record z r gw.
Proof.
  intros Hx Hg Hwf Hz. rewrite (ServeDNS_crosses _ _ _ _ _ _ Hx), Hg.
  destruct (answerGateway_reply z w r (Addr_String gw) (counted ReasonOK ActionAnswerGateway))
    as (m & tail & -> & Hd & Hw & Hc & Hr & Ha); [by destruct Hx|].
  eexists _, m. split; [done|]. unfold written in *; cbn. rewrite Hw. split; [done|].
  split; [done|]. by rewrite Ha, gateway_record_eq.
Qed.

(** C5: zone isolation at central: an address query from a trusted zone for a name
    of another zone is never handed to the next plugin. It is answered once, with
    a reply of this server, when the destination zone has a gateway, and refused
    with SERVFAIL and no answer when it has none; the run never panics and leaves
    one increment of each counter. *)
Theorem ServeDNS_cross_zone z ctx w r src dest :
  crosses z ctx w r src dest →
  ∃ rcode t, ServeDNS z ctx w r [] = Some ((rcode, None), t) ∧ delegated t = [] ∧
    match Gateway (z_Zones z) dest with
    | Some gw =>
        rcode = RcodeSuccess ∧ counters t = (["ok"], ["gateway"]) ∧
        ∃ m, written t = [m] ∧ authoritative_reply r m
    | None => rcode = RcodeServerFailure ∧ counters t = (["ok"], ["servfail"]) ∧ written t = []
    end.
Proof.
  intros Hx. rewrite (ServeDNS_crosses _ _ _ _ _ _ Hx).
  destruct (Gateway (z_Zones z) dest) as [gw|]; [|by eexists _, _].
  destruct (answerGateway_reply z w r (Addr_String gw) (counted ReasonOK ActionAnswerGateway))
    as (m & tail & -> & Hd & Hw & Hc & Hr & _); [by destruct Hx|].
  eexists _, _. split; [done|]. unfold counters in *. simplify_eq.
  unfold delegated, written in *; cbn. rewrite Hd, Hw. split_and!; [done..| |by exists m].
  by f_equal; f_equal.
Qed.

(** the gateway answer: for a gateway without an IPv6 zone, the reply's answer
    section is one record of the queried name, with the configured TTL and the
    gateway's bytes, when the gateway is of the queried family (an IPv4-mapped
    IPv6 gateway counting as IPv4), and empty, a NODATA reply rather than
    NXDOMAIN, when it is of the other one. *)
Theorem ServeDNS_gateway_answer z ctx w r src dest gw :
  crosses z ctx w r src dest → Gateway (z_Zones z) dest = Some gw →
  Addr_wf gw → Addr_Zone gw = "" →
  ∃ t m, ServeDNS z ctx w r [] = Some ((RcodeSuccess, None), t) ∧ written t = [m] ∧
    Rcode m = RcodeSuccess ∧ Answer m = gateway_record z r gw.
Proof.
  intros Hx Hg Hwf Hz.
  destruct (ServeDNS_gateway_reply _ _ _ _ _ _ _ Hx Hg Hwf Hz) as (t & m & Hs & Hw & Hr & Ha).
  exists t, m. split_and!; try done. apply Hr.
Qed.

(** C30: a gateway with an IPv6 zone (fe80::1%eth0), which [netip.ParseAddr]
    accepts, is answered with an address record that carries no address: its text
    is not one [net.ParseIP] reads, and the nil address is taken for IPv6. *)
Theorem ServeDNS_zoned_gateway z ctx w r src dest gw :
  crosses z ctx w r src dest → Gateway (z_Zones z) dest = Some gw →
  Addr_wf gw → Addr_Zone gw ≠ "" → QType r = TypeAAAA →
  ∃ t m rr, ServeDNS z ctx w r [] = Some ((RcodeSuccess, None), t) ∧ written t = [m] ∧
    Answer m = [rr] ∧ Body rr = RD_AAAA [].
Proof.
  intros Hx Hg Hwf Hz Hq. rewrite (ServeDNS_crosses _ _ _ _ _ _ Hx), Hg.
  destruct (answerGateway_reply z w r (Addr_String gw) (counted ReasonOK ActionAnswerGateway))
    as (m & tail & -> & Hd & Hw & Hc & Hr & Ha); [by destruct Hx|].
  eexists _, m, _. split; [done|]. unfold written in *; cbn. rewrite Hw. split; [done|].
  rewrite Ha. unfold ip_answer. rewrite ParseIP_String by done.
  rewrite (bool_decide_eq_false_2 (Addr_Zone gw = _)), Hq by done. done.
Qed.

(** a query is kept from the next plugin exactly when it crosses zones: the
    handler always returns, and either the query crosses and the next plugin is
    not called, or it does not and the next plugin is called once, with the query
    unchanged, nothing is written to the client before, and the result is the
    next plugin's. *)
Theorem ServeDNS_delegation z ctx w r :
  ∃ res t, ServeDNS z ctx w r [] = Some (res, t) ∧
    ((∃ src dest, crosses z ctx w r src dest) ∧ delegated t = [] ∨
     (¬ ∃ src dest, crosses z ctx w r src dest) ∧
     delegated t = [r] ∧ written t = [] ∧
     res = NextOrFailure ZoneDNS_Name (Next z) ctx w r).
Proof.
  destruct (crosses_dec z ctx w r) as [(src & dest & Hx)|Hn].
  - rewrite (ServeDNS_crosses _ _ _ _ _ _ Hx).
    destruct (Gateway (z_Zones z) dest) as [gw|].
    + destruct (answerGateway_run z w r (Addr_String gw) (counted ReasonOK ActionAnswerGateway))
        as (m & tail & -> & Hd & _).
      eexists _, _. split; [done|]. left. split; [by exists src, dest|].
      unfold delegated in *; cbn. by rewrite Hd.
    + eexists _, _. split; [done|]. left. split; [by exists src, dest|done].
  - destruct (ServeDNS_not_crosses _ _ _ _ Hn) as (t & -> & Hd & Hw). eexists _, t. split; [done|]. by right.
Qed.

(** C7: a caller that is not an authorized agent learns and changes nothing:
    whatever it declares, whatever the registry and the gateways hold, its query
    is handed on unchanged and answered by the next plugin alone. *)
Theorem ServeDNS_unauthorized z agents cd ctx w r :
  z_Identity z = NewConfig agents cd →
  (∀ id, peer_id ctx w = Some id → id ∉ agents) →
  ∃ t, ServeDNS z ctx w r [] = Some (NextOrFailure ZoneDNS_Name (Next z) ctx w r, t) ∧
       delegated t = [r] ∧ written t = [].
Proof.
  intros Hz Hun.
  apply ServeDNS_not_crosses. intros (src & dest & _ & Hs & _). rewrite Hz, SourceZone_cases in Hs.
  destruct (PeerCerts ctx w); [|done]. destruct (peer_id ctx w) as [id|]; [|done].
  case_bool_decide as Ha; [|done]. apply NewConfig_authorized in Ha. by apply (Hun id).
Qed.
End laws.
End central.

(** ** Witnesses *)
Module CentralWitnesses.
Import DnsLib.Reference IdentityWitnesses.

(** A chain whose end answers NXDOMAIN. *)
#[export] Instance nxdomain_plugin : PluginOps unit := {|
  NextOrFailure _ _ _ _ _ := (3, None);
|}.

Definition entries1 : list Entry :=
  [{| SPIFFEIDPath := "/zone/fab/ns/mes/sa/api"; DNSNames := ["api.example.org"] |};
   {| SPIFFEIDPath := "/zone/lab/ns/x/sa/y"; DNSNames := ["y.example.org"] |}].

Definition central0 (fab : Addr) : ZoneDNS (Handler := unit) := {|
  Next := None;
  z_Identity := agents;
  z_Registry := Replace NewStore (BuildSnapshot entries1).1;
  z_Zones := New {[ "fab" := fab ]};
  z_TTL := 30;
|}.

Definition query (name : string) (qtype : Z) (zone : string) : Msg := {|
  Id := 7; Response := false; Opcode := 0; Authoritative := false;
  Truncated := false; RecursionDesired := true; RecursionAvailable := false;
  AuthenticatedData := false; CheckingDisabled := false; Rcode := 0;
  Questions := [{| q_Name := name; q_Qtype := qtype; q_Qclass := ClassINET |}];
  Answer := []; Ns := [];
  Extra := [{| Hdr := Hdr (fresh_opt 1232 false); Body := RD_OPT [EDNS0_LOCAL 65001 zone] |}] |}.

Definition agent_ctx : Context := tls_ctx [Some (spiffe_url "/ns/dns/sa/agent")].

Lemma crosses0 gw qtype :
  qtype = TypeA ∨ qtype = TypeAAAA →
  crosses (central0 gw) agent_ctx plain_writer (query "API.example.org." qtype "office")
    "office" "fab".
Proof. intros Hq. split_and!; [exact Hq|by vm_compute|by vm_compute|done]. Qed.

Lemma ServeDNS_cross_zone_witness :
  ∃ rcode t, ServeDNS (central0 (Addr4 [10; 0; 0; 1])) agent_ctx plain_writer
    (query "y.example.org." TypeA "office") [] = Some ((rcode, None), t) ∧ delegated t = [] ∧
    rcode = RcodeServerFailure.
Proof.
  destruct (ServeDNS_cross_zone (central0 (Addr4 [10; 0; 0; 1])) agent_ctx plain_writer
    (query "y.example.org." TypeA "office") "office" "lab") as (rcode & t & Hs & Hd & Hg).
  - split_and!; [by left|by vm_compute|by vm_compute|done].
  - assert (Hn : Gateway (z_Zones (central0 (Addr4 [10; 0; 0; 1]))) "lab" = None)
      by by vm_compute.
    rewrite Hn in Hg. exists rcode, t. split_and!; [exact Hs|exact Hd|exact (proj1 Hg)].
Defined.

Lemma ServeDNS_gateway_answer_witness :
  ∃ t m, ServeDNS (central0 (Addr4 [10; 0; 0; 1])) agent_ctx plain_writer
    (query "API.example.org." TypeA "office") [] = Some ((RcodeSuccess, None), t) ∧
    written t = [m] ∧ map Body (Answer m) = [RD_A [10; 0; 0; 1]].
Proof.
  destruct (ServeDNS_gateway_answer (central0 (Addr4 [10; 0; 0; 1])) agent_ctx plain_writer
    (query "API.example.org." TypeA "office") "office" "fab" (Addr4 [10; 0; 0; 1]))
    as (t & m & Hs & Hw & _ & Ha).
  - apply crosses0. by left.
  - by vm_compute.
  - split; [done|]. repeat constructor; done.
  - done.
  - exists t, m. split_and!; [exact Hs|exact Hw|]. rewrite Ha. by vm_compute.
Defined.

Lemma ServeDNS_zoned_gateway_witness :
  ∃ t m rr, ServeDNS (central0 (Addr6 (254 :: 128 :: replicate 13 0 ++ [1]) "eth0")) agent_ctx
    plain_writer (query "API.example.org." TypeAAAA "office") [] = Some ((RcodeSuccess, None), t) ∧
    written t = [m] ∧ Answer m = [rr] ∧ Body rr = RD_AAAA [].
Proof.
  apply (ServeDNS_zoned_gateway _ _ _ _ "office" "fab"
           (Addr6 (254 :: 128 :: replicate 13 0 ++ [1]) "eth0")).
  - apply crosses0. by right.
  - by vm_compute.
  - split; [done|]. repeat constructor; done.
  - done.
  - done.
Defined.

Lemma ServeDNS_unauthorized_witness :
  ∃ t, ServeDNS (central0 (Addr4 [10; 0; 0; 1])) (tls_ctx [Some (spiffe_url "/ns/x/sa/intruder")])
    plain_writer (query "API.example.org." TypeA "office") [] = Some ((3, None), t) ∧
    delegated t = [query "API.example.org." TypeA "office"] ∧ written t = [].
Proof.
  refine (ServeDNS_unauthorized (central0 (Addr4 [10; 0; 0; 1]))
    ["spiffe://example.org/ns/dns/sa/agent"] DefaultCode _ plain_writer _ eq_refl _).
  intros id Hid. vm_compute in Hid. injection Hid as <-. by rewrite list_elem_of_singleton.
Defined.
End CentralWitnesses.
