(* ===== verification/PodZone.v ===== *)
(** * internal/podzone: the zones of the local pods

    The watcher's table, fed by the informer's events. Every method holds the
    mutex for its whole body, so an event is one atomic step; [apply_events] is a
    sequence of them in delivery order. The specification is [known]: the pods as
    the informer last delivered them. *)

From S2P Require Import Prelude GoStd NetIP DnsLib EdnsZone.

Open Scope Z_scope.

(** [corev1.Pod], the fields read here; [Spec.NodeName] is read by the selector the
    watch is opened with. *)
Record Pod := {
  pod_Namespace : string;
  pod_Name : string;
  pod_Labels : gmap string string;
  pod_HostNetwork : bool;
  pod_PodIP : string;
  pod_NodeName : string;
}.

(** What an informer hands over, by dynamic type. *)
Inductive obj :=
  | ObjPod (pod : Pod)
  | ObjTombstone (o : obj)   (** cache.DeletedFinalStateUnknown *)
  | ObjOther.

#[global] Instance Pod_eq_dec : EqDecision Pod.
Proof. solve_decision. Defined.
#[global] Instance obj_eq_dec : EqDecision obj.
Proof. solve_decision. Defined.

Definition podKey : Type := string * string.

(** The client is what delivers the events; [OnReady] is called by [Run] (PodWatch). *)
Record Watcher := {
  nodeName : string;
  zoneLabel : string;
  byPod : gmap podKey Addr;
  byIP : gmap Addr string;
  w_ready : bool;
}.

Definition NewWatcher (nodeName zoneLabel : string) : Watcher :=
  {| nodeName := nodeName; zoneLabel := zoneLabel; byPod := ∅; byIP := ∅; w_ready := false |}.

Definition with_tables (w : Watcher) (bp : gmap podKey Addr) (bi : gmap Addr string) : Watcher :=
  {| nodeName := nodeName w; zoneLabel := zoneLabel w; byPod := bp; byIP := bi; w_ready := w_ready w |}.

Definition with_ready (w : Watcher) (b : bool) : Watcher :=
  {| nodeName := nodeName w; zoneLabel := zoneLabel w; byPod := byPod w; byIP := byIP w; w_ready := b |}.

(** The switch of [upsert]: [Some (newIP, zone)] when the pod qualifies. *)
Definition qualify (label : string) (pod : Pod) : option (Addr * string) :=
  if pod_HostNetwork pod || bool_decide (pod_PodIP pod = "") then None
  else
    match pod_Labels pod !! label with
    | None => None
    | Some z =>
        if bool_decide (z = "") || negb (Valid z) then None
        else
          match ParseAddr (pod_PodIP pod) with
          | None => None
          | Some ip => Some (ip, z)
          end
    end.

Definition key_of (pod : Pod) : podKey := (pod_Namespace pod, pod_Name pod).

Definition upsert (w : Watcher) (o : obj) : Watcher :=
  match o with
  | ObjPod pod =>
      let key := key_of pod in
      let old := byPod w !! key in
      match qualify (zoneLabel w) pod with
      | None =>
          match old with
          | Some oldIP => with_tables w (delete key (byPod w)) (delete oldIP (byIP w))
          | None => w
          end
      | Some (newIP, zone) =>
          let bi := match old with
                    | Some oldIP =>
                        if negb (bool_decide (oldIP = newIP)) then delete oldIP (byIP w)
                        else byIP w
                    | None => byIP w
                    end in
          with_tables w (<[key := newIP]> (byPod w)) (<[newIP := zone]> bi)
      end
  | _ => w
  end.

(** The pod a deletion is about, a tombstone unwrapped once. *)
Definition deleted_pod (o : obj) : option Pod :=
  match o with
  | ObjPod pod => Some pod
  | ObjTombstone (ObjPod pod) => Some pod
  | _ => None
  end.

Definition remove (w : Watcher) (o : obj) : Watcher :=
  match deleted_pod o with
  | None => w
  | Some pod =>
      let key := key_of pod in
      match byPod w !! key with
      | Some ip => with_tables w (delete key (byPod w)) (delete ip (byIP w))
      | None => w
      end
  end.

Definition Watcher_Zone (w : Watcher) (ip : Addr) : option string :=
  if negb (w_ready w) then None else byIP w !! ip.

Definition Watcher_Ready (w : Watcher) : bool := w_ready w.

Definition Watcher_Len (w : Watcher) : Z := Z.of_nat (size (byIP w)).

(** ** Run: the handlers it installs and the two writes of [ready] *)
Inductive watch_event :=
  | AddFunc (o : obj)
  | UpdateFunc (o : obj)
  | DeleteFunc (o : obj)
  | CacheSynced   (** WaitForCacheSync returned true *)
  | CtxDone.      (** <-ctx.Done() after that *)

#[global] Instance watch_event_eq_dec : EqDecision watch_event.
Proof. solve_decision. Defined.

Definition apply_event (w : Watcher) (e : watch_event) : Watcher :=
  match e with
  | AddFunc o => upsert w o
  | UpdateFunc o => upsert w o
  | DeleteFunc o => remove w o
  | CacheSynced => with_ready w true
  | CtxDone => with_ready w false
  end.

Definition apply_events (w : Watcher) (es : list watch_event) : Watcher :=
  fold_left apply_event es w.

(** ** The specification *)

(** The pods as last delivered. *)
Definition note_event (k : gmap podKey Pod) (e : watch_event) : gmap podKey Pod :=
  match e with
  | AddFunc (ObjPod pod) | UpdateFunc (ObjPod pod) => <[key_of pod := pod]> k
  | DeleteFunc o =>
      match deleted_pod o with Some pod => delete (key_of pod) k | None => k end
  | _ => k
  end.

Definition known (es : list watch_event) : gmap podKey Pod := fold_left note_event es ∅.

(** [ip] is indexed under [zone] by the pod at [key]. *)
Definition tenant (label : string) (k : gmap podKey Pod) (key : podKey) (ip : Addr)
    (zone : string) : Prop :=
  ∃ pod, k !! key = Some pod ∧ qualify label pod = Some (ip, zone).

(** No two pods that qualify share an address. *)
Definition unique_ips (label : string) (k : gmap podKey Pod) : Prop :=
  ∀ key key' ip z z', tenant label k key ip z → tenant label k key' ip z' → key = key'.

(** [byPod] tracks [known] exactly; a mapping has a tenant with that zone. *)
Record table_ok (k : gmap podKey Pod) (w : Watcher) : Prop := {
  ok_byPod key ip : byPod w !! key = Some ip ↔ ∃ z, tenant (zoneLabel w) k key ip z;
  ok_byIP ip z : byIP w !! ip = Some z → ∃ key, tenant (zoneLabel w) k key ip z;
}.

(** Every tenant's address is mapped. *)
Definition table_full (k : gmap podKey Pod) (w : Watcher) : Prop :=
  ∀ key ip z, tenant (zoneLabel w) k key ip z → is_Some (byIP w !! ip).

(** ** Tenants under a change of the known pods *)
Lemma tenant_insert label k key pod key' ip z :
  tenant label (<[key := pod]> k) key' ip z ↔
  if decide (key' = key) then qualify label pod = Some (ip, z) else tenant label k key' ip z.
Proof.
  unfold tenant. case_decide as Hk.
  - subst. rewrite lookup_insert_eq. naive_solver.
  - by rewrite lookup_insert_ne.
Qed.

Lemma tenant_delete label k key key' ip z :
  tenant label (delete key k) key' ip z ↔ key' ≠ key ∧ tenant label k key' ip z.
Proof.
  unfold tenant. destruct (decide (key' = key)) as [->|Hk].
  - rewrite lookup_delete_eq. naive_solver.
  - rewrite lookup_delete_ne by done. naive_solver.
Qed.

Lemma qualify_Valid label pod ip z : qualify label pod = Some (ip, z) → Valid z = true ∧ Addr_wf ip.
Proof.
  unfold qualify. intros Hq. repeat (case_match; simplify_eq/=; [|]); simplify_eq; try done.
  all: repeat (case_match; simplify_eq/=; try done).
  destruct_bools. split; [done|]. by eapply ParseAddr_wf.
Qed.

Lemma tenant_fun label k key ip z ip' z' :
  tenant label k key ip z → tenant label k key ip' z' → ip = ip' ∧ z = z'.
Proof. unfold tenant. naive_solver. Qed.

Lemma zoneLabel_apply w e : zoneLabel (apply_event w e) = zoneLabel w.
Proof. destruct e as [[]|[]|o| |]; cbn; unfold remove; repeat case_match; done. Qed.

(** ** The invariant, event by event *)
Lemma table_ok_upsert k w pod :
  table_ok k w → table_ok (<[key_of pod := pod]> k) (upsert w (ObjPod pod)).
Proof.
  intros [Hpod Hip]. cbn. destruct (qualify (zoneLabel w) pod) as [[newIP zone]|] eqn:Hq.
  - split; cbn.
    + intros key ip. setoid_rewrite tenant_insert. case_decide as Hk.
      * subst. rewrite lookup_insert_eq. naive_solver.
      * rewrite lookup_insert_ne by done. apply Hpod.
    + intros ip z. destruct (decide (ip = newIP)) as [->|Hne].
      { rewrite lookup_insert_eq. intros [= <-]. exists (key_of pod).
        apply tenant_insert. by rewrite decide_True. }
      rewrite lookup_insert_ne by done. intros Hl.
      assert (Hl' : byIP w !! ip = Some z ∧ byPod w !! key_of pod ≠ Some ip).
      { destruct (byPod w !! key_of pod) as [oldIP|] eqn:Ho; [|done].
        case_bool_decide; cbn in Hl; [naive_solver|].
        apply lookup_delete_Some in Hl as [? ?]. naive_solver. }
      destruct Hl' as [Hl' Hno]. destruct (Hip ip z Hl') as [key Ht]. exists key.
      apply tenant_insert. case_decide as Hk; [|done].
      subst. exfalso. apply Hno, Hpod. by exists z.
  - assert (Hrm : ∀ w', zoneLabel w' = zoneLabel w →
      (∀ key ip, byPod w' !! key = Some ip ↔ key ≠ key_of pod ∧ byPod w !! key = Some ip) →
      (∀ ip z, byIP w' !! ip = Some z → byIP w !! ip = Some z ∧ byPod w !! key_of pod ≠ Some ip) →
      table_ok (<[key_of pod := pod]> k) w').
    { intros w' Hz Hp Hi. split; rewrite Hz.
      - intros key ip. rewrite Hp, Hpod. setoid_rewrite tenant_insert.
        case_decide; naive_solver.
      - intros ip z [Hl Hno]%Hi. destruct (Hip ip z Hl) as [key Ht]. exists key.
        apply tenant_insert. case_decide as Hk; [|done].
        subst. exfalso. apply Hno, Hpod. by exists z. }
    destruct (byPod w !! key_of pod) as [oldIP|] eqn:Ho; apply Hrm; cbn; try done.
    + intros key ip. rewrite lookup_delete_Some. naive_solver.
    + intros ip z [? ?]%lookup_delete_Some. naive_solver.
    + naive_solver.
Qed.

Lemma table_ok_remove k w o :
  table_ok k w → table_ok (note_event k (DeleteFunc o)) (remove w o).
Proof.
  intros [Hpod Hip]. cbn. unfold remove. destruct (deleted_pod o) as [pod|]; [|done].
  destruct (byPod w !! key_of pod) as [oldIP|] eqn:Ho; split; cbn.
  - intros key ip. rewrite lookup_delete_Some. setoid_rewrite tenant_delete.
    rewrite Hpod. naive_solver.
  - intros ip z [Hne Hl]%lookup_delete_Some. destruct (Hip ip z Hl) as [key Ht].
    exists key. apply tenant_delete. split; [|done]. intros ->.
    assert (byPod w !! key_of pod = Some ip) by (apply Hpod; by exists z). naive_solver.
  - intros key ip. setoid_rewrite tenant_delete. rewrite Hpod. split; [|naive_solver].
    intros (z & Ht). exists z. split; [|done]. intros ->.
    assert (byPod w !! key_of pod = Some ip) by (apply Hpod; by exists z). naive_solver.
  - intros ip z Hl. destruct (Hip ip z Hl) as [key Ht]. exists key.
    apply tenant_delete. split; [|done]. intros ->.
    assert (byPod w !! key_of pod = Some ip) by (apply Hpod; by exists z). naive_solver.
Qed.

Lemma table_ok_event k w e : table_ok k w → table_ok (note_event k e) (apply_event w e).
Proof.
  intros Hok. destruct e as [[]|[]|o| |]; cbn [note_event apply_event]; try done.
  - by apply table_ok_upsert.
  - by apply table_ok_upsert.
  - by apply table_ok_remove.
  - by destruct Hok.
  - by destruct Hok.
Qed.

Lemma table_ok_reachable node label es :
  table_ok (known es) (apply_events (NewWatcher node label) es) ∧
  zoneLabel (apply_events (NewWatcher node label) es) = label.
Proof.
  induction es as [|es e [IH IHl]] using list_ind_snoc.
  - split; [|done]. split; cbn; [|done]. intros key ip. rewrite lookup_empty.
    split; [done|]. intros (z & pod & Hp & _). by rewrite lookup_empty in Hp.
  - unfold known, apply_events in *. rewrite !fold_left_app; cbn. split.
    + by apply table_ok_event.
    + by rewrite zoneLabel_apply.
Qed.

(** ** Completeness *)
Lemma table_full_upsert k w pod :
  table_ok k w → unique_ips (zoneLabel w) k → table_full k w →
  table_full (<[key_of pod := pod]> k) (upsert w (ObjPod pod)).
Proof.
  intros [Hpod Hip] Huniq Hfull key ip z. cbn.
  (* another tenant's mapping survives the reclaim of the pod's old address *)
  assert (Hkeep : ∀ oldIP, byPod w !! key_of pod = Some oldIP → key ≠ key_of pod →
    tenant (zoneLabel w) k key ip z → is_Some (delete oldIP (byIP w) !! ip)).
  { intros oldIP [z' Ho]%Hpod Hne Ht. rewrite lookup_delete_ne; [by eapply Hfull|].
    intros ->. apply Hne. by eapply Huniq. }
  destruct (qualify (zoneLabel w) pod) as [[newIP zone]|] eqn:Hq.
  - cbn. rewrite tenant_insert. case_decide as Hk.
    { rewrite Hq. intros [= <- <-]. by rewrite lookup_insert_eq. }
    intros Ht. destruct (decide (ip = newIP)) as [->|Hne]; [by rewrite lookup_insert_eq|].
    rewrite lookup_insert_ne by done.
    destruct (byPod w !! key_of pod) as [oldIP|] eqn:Ho; [|by eapply Hfull].
    case_bool_decide; cbn; [by eapply Hfull|]. by apply Hkeep.
  - destruct (byPod w !! key_of pod) as [oldIP|] eqn:Ho; cbn;
      rewrite tenant_insert; case_decide; try congruence; [by apply Hkeep|by eapply Hfull].
Qed.

Lemma table_full_remove k w o :
  table_ok k w → unique_ips (zoneLabel w) k → table_full k w →
  table_full (note_event k (DeleteFunc o)) (remove w o).
Proof.
  intros [Hpod Hip] Huniq Hfull. cbn. unfold remove.
  destruct (deleted_pod o) as [pod|]; [|done].
  destruct (byPod w !! key_of pod) as [oldIP|] eqn:Ho; cbn; intros key ip z;
    rewrite tenant_delete; intros [Hne Ht]; [|by eapply Hfull].
  cbn. apply Hpod in Ho as [z' Ho]. rewrite lookup_delete_ne; [by eapply Hfull|].
  intros ->. apply Hne. by eapply Huniq.
Qed.

Lemma table_full_event k w e :
  table_ok k w → unique_ips (zoneLabel w) k → table_full k w →
  table_full (note_event k e) (apply_event w e).
Proof.
  intros Hok Hu Hf. destruct e as [[]|[]|o| |]; cbn [note_event apply_event]; try done.
  - by apply table_full_upsert.
  - by apply table_full_upsert.
  - by apply table_full_remove.
Qed.

(** A table that is sound and full maps exactly the tenants. *)
Lemma table_exact k w ip z :
  table_ok k w → table_full k w → unique_ips (zoneLabel w) k →
  byIP w !! ip = Some z ↔ ∃ key, tenant (zoneLabel w) k key ip z.
Proof.
  intros [Hpod Hip] Hfull Hu. split; [apply Hip|]. intros [key Ht].
  destruct (Hfull key ip z Ht) as [z' Hz']. rewrite Hz'. f_equal.
  destruct (Hip ip z' Hz') as [key' Ht']. rewrite (Hu _ _ _ _ _ Ht Ht') in Ht.
  by destruct (tenant_fun _ _ _ _ _ _ _ Ht Ht').
Qed.

(** ** Resync *)
Lemma known_key es key pod : known es !! key = Some pod → key_of pod = key.
Proof.
  revert key pod. induction es as [|es e IH] using list_ind_snoc; intros key pod.
  { unfold known; cbn. by rewrite lookup_empty. }
  unfold known in *. rewrite fold_left_app; cbn.
  destruct e as [[p| |]|[p| |]|o| |]; cbn; try apply IH.
  - intros [[<- <-]|[_ ?]]%lookup_insert_Some; [done|by apply IH].
  - intros [[<- <-]|[_ ?]]%lookup_insert_Some; [done|by apply IH].
  - destruct (deleted_pod o); [|apply IH]. intros [_ ?]%lookup_delete_Some. by apply IH.
Qed.

(** Delivering a pod again as it is known only ever adds its mapping. *)
Lemma upsert_known k w pod :
  table_ok k w → k !! key_of pod = Some pod →
  upsert w (ObjPod pod) =
  match qualify (zoneLabel w) pod with
  | None => w
  | Some (ip, z) => with_tables w (byPod w) (<[ip := z]> (byIP w))
  end.
Proof.
  intros [Hpod _] Hk. cbn. destruct (qualify (zoneLabel w) pod) as [[ip z]|] eqn:Hq.
  - assert (Ho : byPod w !! key_of pod = Some ip) by (apply Hpod; by exists z, pod).
    rewrite Ho, bool_decide_eq_true_2, insert_id by done. done.
  - destruct (byPod w !! key_of pod) as [oldIP|] eqn:Ho; [|done].
    apply Hpod in Ho as (z & pod' & Hk' & Hq'). naive_solver.
Qed.

Definition resync (pods : list (podKey * Pod)) : list watch_event :=
  (fun kp => UpdateFunc (ObjPod kp.2)) <$> pods.

Lemma resync_spec k w pods :
  table_ok k w → (∀ key pod, (key, pod) ∈ pods → key = key_of pod ∧ k !! key = Some pod) →
  let w' := apply_events w (resync pods) in
  table_ok k w' ∧ zoneLabel w' = zoneLabel w ∧ w_ready w' = w_ready w ∧
  (∀ ip, is_Some (byIP w !! ip) → is_Some (byIP w' !! ip)) ∧
  (∀ key pod ip z, (key, pod) ∈ pods → qualify (zoneLabel w) pod = Some (ip, z) →
     is_Some (byIP w' !! ip)).
Proof.
  revert w; induction pods as [|[key pod] pods IH]; intros w Hok Hpods.
  { cbn. split_and!; try done. by intros ? ? ? ? ?%elem_of_nil. }
  destruct (Hpods key pod) as [-> Hk]; [by left|].
  change (apply_events w (resync ((key_of pod, pod) :: pods)))
    with (apply_events (upsert w (ObjPod pod)) (resync pods)). cbv zeta.
  pose proof (table_ok_upsert k w pod Hok) as Hok'. rewrite insert_id in Hok' by done.
  pose proof (upsert_known k w pod Hok Hk) as Hup.
  destruct (IH (upsert w (ObjPod pod)) Hok') as (Hok2 & Hz2 & Hr2 & Hmono & Hall).
  { intros. apply Hpods. by right. }
  assert (Hz : zoneLabel (upsert w (ObjPod pod)) = zoneLabel w).
  { apply (zoneLabel_apply w (UpdateFunc (ObjPod pod))). }
  split_and!; [done|by rewrite Hz2| | |].
  - rewrite Hr2, Hup. by destruct (qualify _ pod) as [[]|].
  - intros ip Hip. apply Hmono. rewrite Hup. destruct (qualify _ pod) as [[ip' z']|]; [|done].
    cbn. destruct (decide (ip = ip')) as [->|]; [by rewrite lookup_insert_eq|].
    by rewrite lookup_insert_ne.
  - intros key' pod' ip z [[= -> ->]|Hin]%elem_of_cons Hq.
    + apply Hmono. rewrite Hup, Hq. cbn. by rewrite lookup_insert_eq.
    + rewrite <-Hz in Hq. by eapply Hall.
Qed.

(** The cache has synced, and the context has not ended since. *)
Definition synced (es : list watch_event) : Prop :=
  ∃ es1 es2, es = es1 ++ CacheSynced :: es2 ∧ CtxDone ∉ es2.

Lemma ready_synced node label es : w_ready (apply_events (NewWatcher node label) es) = true ↔ synced es.
Proof.
  unfold synced. induction es as [|es e IH] using list_ind_snoc.
  { cbn. split; [done|]. intros ([|] & ? & ? & _); done. }
  assert (Hother : e ≠ CacheSynced → e ≠ CtxDone →
    (∃ es1 es2, es ++ [e] = es1 ++ CacheSynced :: es2 ∧ CtxDone ∉ es2) ↔
    (∃ es1 es2, es = es1 ++ CacheSynced :: es2 ∧ CtxDone ∉ es2)).
  { intros Hs Hd. split.
    - intros (es1 & es2 & Heq & Hn). destruct es2 as [|x es2 _] using rev_ind.
      { apply app_inj_tail in Heq as [_ ?]. done. }
      rewrite app_comm_cons, app_assoc in Heq. apply app_inj_tail in Heq as [-> ->].
      exists es1, es2. set_solver.
    - intros (es1 & es2 & -> & Hn). exists es1, (es2 ++ [e]).
      split; [by rewrite <-app_assoc|]. set_solver. }
  unfold apply_events in *. rewrite fold_left_app; cbn.
  assert (Hkeep : ∀ w, e ≠ CacheSynced → e ≠ CtxDone → w_ready (apply_event w e) = w_ready w).
  { intros w ? ?. destruct e as [[]|[]|o| |]; cbn; unfold remove; repeat case_match; done. }
  destruct (decide (e = CacheSynced)) as [->|Hs].
  { cbn. split; [|done]. intros _. exists es, []. set_solver. }
  destruct (decide (e = CtxDone)) as [->|Hd].
  { cbn. split; [done|]. intros (es1 & es2 & Heq & Hn).
    destruct es2 as [|x es2 _] using rev_ind; [by apply app_inj_tail in Heq as [_ ?]|].
    rewrite app_comm_cons, app_assoc in Heq. apply app_inj_tail in Heq as [_ <-]. set_solver. }
  rewrite Hkeep, Hother by done. exact IH.
Qed.

Lemma Zone_iff node label es ip z :
  Watcher_Zone (apply_events (NewWatcher node label) es) ip = Some z ↔
  synced es ∧ byIP (apply_events (NewWatcher node label) es) !! ip = Some z.
Proof.
  rewrite <-(ready_synced node label). unfold Watcher_Zone. 
  destruct (w_ready _); cbn; [naive_solver|]. by split; [|intros [? ?]].
Qed.

(** The pod behind a zone. *)
Lemma Zone_tenant node label es ip z :
  Watcher_Zone (apply_events (NewWatcher node label) es) ip = Some z →
  synced es ∧ Valid z = true ∧
  ∃ key pod, known es !! key = Some pod ∧ pod_HostNetwork pod = false ∧
    pod_Labels pod !! label = Some z ∧ ParseAddr (pod_PodIP pod) = Some ip.
Proof.
  intros [Hs Hl]%Zone_iff. destruct (table_ok_reachable node label es) as [[_ Hip] Hlab].
  destruct (Hip ip z Hl) as (key & pod & Hk & Hq). rewrite Hlab in Hq.
  split; [done|]. split; [by eapply qualify_Valid|]. exists key, pod. split; [done|].
  unfold qualify in Hq. split_matches; destruct_bools. naive_solver.
Qed.

(** ** Theorems *)

(** no address is given a zone that no pod there carries: whatever events
    arrive in whatever order, an address has a zone only while the cache is
    synced, and then it is the zone label, well formed, of a pod the informer
    currently knows, not on the host network, whose own IP is that address. A
    deleted, relabelled or moved pod leaves nothing behind. *)
Theorem Zone_sound node label es ip z :
  Watcher_Zone (apply_events (NewWatcher node label) es) ip = Some z →
  synced es ∧ Valid z = true ∧
  ∃ key pod, known es !! key = Some pod ∧ pod_HostNetwork pod = false ∧
    pod_Labels pod !! label = Some z ∧ ParseAddr (pod_PodIP pod) = Some ip.
Proof. apply Zone_tenant. Qed.

(** C17: the table is exact: as long as at no moment two eligible pods share an
    address, the zone of an address is that of the one eligible pod there, for
    every such pod and no other address. *)
Theorem Zone_exact node label es :
  (∀ es', es' `prefix_of` es → unique_ips label (known es')) →
  ∀ ip z, Watcher_Zone (apply_events (NewWatcher node label) es) ip = Some z ↔
          synced es ∧ ∃ key, tenant label (known es) key ip z.
Proof.
  intros Hu ip z. rewrite Zone_iff. destruct (table_ok_reachable node label es) as [Hok Hlab].
  assert (Hfull : table_full (known es) (apply_events (NewWatcher node label) es)).
  { clear Hok Hlab ip z. induction es as [|es e IH] using list_ind_snoc.
    - intros key ip z (pod & Hp & _). unfold known in Hp; cbn in Hp. by rewrite lookup_empty in Hp.
    - destruct (table_ok_reachable node label es) as [Hok Hlab].
      unfold known, apply_events in *. rewrite !fold_left_app; cbn.
      apply table_full_event; [done| |apply IH].
      + rewrite Hlab. apply (Hu es). by apply prefix_app_r.
      + intros es' Hes'. apply Hu. by apply prefix_app_r. }
  rewrite (table_exact (known es)) by (done || (rewrite Hlab; by apply Hu)).
  by rewrite Hlab.
Qed.

(** C18: a resync heals the table: after any events at all, a delivery race on a
    reused address included, one round of updates for the pods the informer
    knows, in any order, makes the table exact, provided those pods do not share
    addresses now. *)
Theorem resync_heals node label es pods :
  unique_ips label (known es) → pods ≡ₚ map_to_list (known es) →
  ∀ ip z, Watcher_Zone (apply_events (NewWatcher node label) (es ++ resync pods)) ip = Some z ↔
          synced es ∧ ∃ key, tenant label (known es) key ip z.
Proof.
  intros Hu Hperm ip z. destruct (table_ok_reachable node label es) as [Hok Hlab].
  destruct (resync_spec (known es) _ pods Hok) as (Hok' & Hz' & Hr' & _ & Hall).
  { intros key pod Hin. rewrite Hperm, elem_of_map_to_list in Hin.
    split; [|done]. symmetry. by eapply known_key. }
  rewrite Hlab in Hz', Hall. unfold apply_events at 1. rewrite fold_left_app.
  fold (apply_events (NewWatcher node label) es).
  fold (apply_events (apply_events (NewWatcher node label) es) (resync pods)).
  unfold Watcher_Zone. rewrite Hr', <-(ready_synced node label).
  assert (Hx : byIP (apply_events (apply_events (NewWatcher node label) es) (resync pods)) !! ip = Some z ↔
    ∃ key, tenant label (known es) key ip z).
  { rewrite (table_exact (known es)); [by rewrite Hz'|done| |by rewrite Hz'].
    intros key ip' z' (pod & Hk & Hq). rewrite Hz' in Hq. eapply Hall; [|done].
    rewrite Hperm. by apply elem_of_map_to_list. }
  rewrite <-Hx. clear Hr'. destruct (w_ready (apply_events (NewWatcher node label) es)); cbn.
  - by split; [|intros [_ ?]].
  - by split; [|intros [? ?]].
Qed.

(** C29: an address is not reclaimed from its previous tenant by a pod that does
    not qualify: when a pod without a zone label, never indexed before, is
    delivered at an address whose mapping is still there (the previous pod is
    still known, a completed one that keeps its Status.PodIP for instance), the
    new pod's queries are given the previous tenant's zone. *)
Theorem unlabelled_pod_inherits node label es pod ip z :
  Watcher_Zone (apply_events (NewWatcher node label) es) ip = Some z →
  known es !! key_of pod = None → pod_Labels pod !! label = None →
  ParseAddr (pod_PodIP pod) = Some ip →
  Watcher_Zone (apply_events (NewWatcher node label) (es ++ [AddFunc (ObjPod pod)])) ip = Some z.
Proof.
  intros Hz Hk Hl Hip. unfold apply_events in *. rewrite fold_left_app; cbn.
  fold (apply_events (NewWatcher node label) es) in *.
  destruct (table_ok_reachable node label es) as [[Hpod _] Hlab]. rewrite Hlab.
  assert (Hq : qualify label pod = None).
  { unfold qualify. rewrite Hl. by destruct (_ || _). }
  rewrite Hq. destruct (byPod _ !! key_of pod) as [oldIP|] eqn:Ho; [|done].
  apply Hpod in Ho as (? & ? & ? & _). naive_solver.
Qed.

(** ** Witnesses *)
Module PodZoneWitnesses.
Definition pod (name zone ip : string) : Pod := {|
  pod_Namespace := "default"; pod_Name := name;
  pod_Labels := if bool_decide (zone = "") then ∅ else {[ "zone" := zone ]};
  pod_HostNetwork := false; pod_PodIP := ip; pod_NodeName := "n1" |}.

Definition ip0 : Addr := Addr4 [10; 0; 0; 7].

(** The new pod's Add overtakes the old pod's Delete. *)
Definition race : list watch_event :=
  [CacheSynced; AddFunc (ObjPod (pod "old" "fab" "10.0.0.7"));
   AddFunc (ObjPod (pod "new" "lab" "10.0.0.7"));
   DeleteFunc (ObjTombstone (ObjPod (pod "old" "fab" "10.0.0.7")))].

(** The race leaves the new pod without a zone, not with the old one's. *)
Example race_unmapped : Watcher_Zone (apply_events (NewWatcher "n1" "zone") race) ip0 = None.
Proof. by vm_compute. Qed.

Lemma single_unique label k key p0 : k = {[ key := p0 ]} → unique_ips label k.
Proof.
  intros -> k1 k2 ip z z' (p1 & H1 & _) (p2 & H2 & _).
  apply lookup_singleton_Some in H1 as [<- _], H2 as [<- _]. done.
Qed.

Lemma Zone_sound_witness :
  ∃ key p0, known [CacheSynced; AddFunc (ObjPod (pod "a" "fab" "10.0.0.7"))] !! key = Some p0 ∧
    pod_Labels p0 !! "zone" = Some "fab".
Proof.
  destruct (Zone_sound "n1" "zone" [CacheSynced; AddFunc (ObjPod (pod "a" "fab" "10.0.0.7"))]
    ip0 "fab") as (_ & _ & key & p0 & Hk & _ & Hl & _); [by vm_compute|].
  by exists key, p0.
Defined.

Lemma Zone_exact_witness :
  Watcher_Zone (apply_events (NewWatcher "n1" "zone")
    [AddFunc (ObjPod (pod "a" "fab" "10.0.0.7")); CacheSynced]) ip0 = Some "fab".
Proof.
  apply Zone_exact.
  - intros es' [k Hk]. destruct es' as [|e1 [|e2 [|]]]; simplify_eq/=.
    + intros ? ? ? ? ? (? & Hp & _). unfold known in Hp; cbn in Hp. by rewrite lookup_empty in Hp.
    + by eapply single_unique.
    + by eapply single_unique.
  - split; [by exists [AddFunc (ObjPod (pod "a" "fab" "10.0.0.7"))], []; split; [|apply not_elem_of_nil]|].
    exists ("default", "a"), (pod "a" "fab" "10.0.0.7"). by split; vm_compute.
Defined.

Lemma resync_heals_witness :
  Watcher_Zone (apply_events (NewWatcher "n1" "zone")
    (race ++ resync (map_to_list (known race)))) ip0 = Some "lab".
Proof.
  apply resync_heals.
  - apply (single_unique _ _ ("default", "new") (pod "new" "lab" "10.0.0.7")). vm_compute. reflexivity.
  - done.
  - split.
    + exists [], (tail race). split; [done|]. cbn. set_solver.
    + exists ("default", "new"), (pod "new" "lab" "10.0.0.7"). by split; vm_compute.
Defined.

Lemma unlabelled_pod_inherits_witness :
  Watcher_Zone (apply_events (NewWatcher "n1" "zone")
    ([CacheSynced; AddFunc (ObjPod (pod "done" "fab" "10.0.0.7"))] ++
     [AddFunc (ObjPod (pod "fresh" "" "10.0.0.7"))])) ip0 = Some "fab".
Proof. apply unlabelled_pod_inherits; by vm_compute. Defined.
End PodZoneWitnesses.
