(* ===== verification/PodWatch.v ===== *)
(** * internal/podzone: Run, the watcher's goroutine

    [Run] opens an informer on the pods of the node, installs the handlers, waits for
    the first sync, reports it through [OnReady] and blocks until its context ends.
    It is a state machine here: its own steps, the informer's deliveries, which run
    on another goroutine, and the cancellation of the context, in any order. What
    client-go decides (whether the handlers are accepted, what is delivered and when
    the cache counts as synced) is in the labels; that an informer delivers what its
    selector selects is [delivers]. WaitForCacheSync returns true only once the
    informer has synced, and false only once the context has ended. *)

From S2P Require Import Prelude GoStd NetIP DnsLib EdnsZone PodZone.

Open Scope Z_scope.

Definition resyncPeriod : Z := 10 * 60 * Second.

(** ** What the informer is asked for *)
Record Selector := { sel_field : string; sel_value : string }.

Definition OneTermEqualSelector (field value : string) : Selector :=
  {| sel_field := field; sel_value := value |}.

Record informer_options := { io_resync : Z; io_selector : Selector }.

Definition informer_of (w : Watcher) : informer_options :=
  {| io_resync := resyncPeriod; io_selector := OneTermEqualSelector "spec.nodeName" (nodeName w) |}.

(** The fields of a pod that can be selected by, of those the source uses. *)
Definition pod_field (field : string) (pod : Pod) : option string :=
  if bool_decide (field = "spec.nodeName") then Some (pod_NodeName pod) else None.

Definition selects (sel : Selector) (pod : Pod) : bool :=
  bool_decide (pod_field (sel_field sel) pod = Some (sel_value sel)).

(** The pod in what a handler is given. *)
Definition pod_of (o : obj) : option Pod := deleted_pod o.

(** What an informer with these options may deliver. *)
Definition delivers (io : informer_options) (e : watch_event) : bool :=
  match e with
  | AddFunc o | UpdateFunc o | DeleteFunc o =>
      match pod_of o with Some pod => selects (io_selector io) pod | None => true end
  | CacheSynced | CtxDone => false
  end.

(** ** Run *)
Inductive run_error := ErrHandler (e : string) | ErrCtx.

Inductive pc :=
  | Created                            (** before [Run] is called *)
  | Waiting                            (** in WaitForCacheSync *)
  | Notifying                          (** ready is set, OnReady not called yet *)
  | Serving                            (** at <-ctx.Done() *)
  | Returned (err : option run_error).

#[global] Instance run_error_eq_dec : EqDecision run_error.
Proof. solve_decision. Defined.
#[global] Instance pc_eq_dec : EqDecision pc.
Proof. solve_decision. Defined.

(** [r_started]: factory.Start was reached; [r_synced]: the informer's HasSynced. *)
Record runner := {
  r_watcher : Watcher;
  r_pc : pc;
  r_started : bool;
  r_synced : bool;
  r_cancelled : bool;
}.

Definition NewRunner (w : Watcher) : runner :=
  {| r_watcher := w; r_pc := Created; r_started := false; r_synced := false; r_cancelled := false |}.

Inductive run_label :=
  | Begin (refused : option string)  (** [Run] is called; what AddEventHandler returns *)
  | Deliver (e : watch_event)        (** the informer calls a handler *)
  | StoreSynced                      (** the informer has delivered its first list *)
  | SyncResult (ok : bool)           (** WaitForCacheSync returns *)
  | CallOnReady
  | EndCtx
  | SeeDone.                         (** <-ctx.Done() *)

#[global] Instance run_label_eq_dec : EqDecision run_label.
Proof. solve_decision. Defined.

Section run.
Context {G : Type} (OnReady : option (G → G)).

Definition at_pc (st : runner) (w : Watcher) (p : pc) : runner :=
  {| r_watcher := w; r_pc := p; r_started := r_started st; r_synced := r_synced st;
     r_cancelled := r_cancelled st |}.

(** One step, on the runner and what the callback writes to. *)
Definition run_step (st : runner) (g : G) (l : run_label) : option (runner * G) :=
  match l, r_pc st with
  | Begin (Some e), Created => Some (at_pc st (r_watcher st) (Returned (Some (ErrHandler e))), g)
  | Begin None, Created =>
      Some ({| r_watcher := r_watcher st; r_pc := Waiting; r_started := true;
               r_synced := r_synced st; r_cancelled := r_cancelled st |}, g)
  | Deliver e, p =>
      if r_started st && delivers (informer_of (r_watcher st)) e
      then Some (at_pc st (apply_event (r_watcher st) e) p, g) else None
  | StoreSynced, p =>
      if r_started st
      then Some ({| r_watcher := r_watcher st; r_pc := p; r_started := true; r_synced := true;
                    r_cancelled := r_cancelled st |}, g) else None
  | SyncResult true, Waiting =>
      (* WaitForCacheSync succeeds only when the informer has synced *)
      if r_synced st
      then Some (at_pc st (apply_event (r_watcher st) CacheSynced) Notifying, g) else None
  | SyncResult false, Waiting =>
      (* WaitForCacheSync gives up only when the context has ended *)
      if r_cancelled st then Some (at_pc st (r_watcher st) (Returned (Some ErrCtx)), g) else None
  | CallOnReady, Notifying =>
      Some (at_pc st (r_watcher st) Serving, match OnReady with Some f => f g | None => g end)
  | EndCtx, p =>
      Some ({| r_watcher := r_watcher st; r_pc := p; r_started := r_started st;
               r_synced := r_synced st; r_cancelled := true |}, g)
  | SeeDone, Serving =>
      if r_cancelled st then Some (at_pc st (apply_event (r_watcher st) CtxDone) (Returned None), g)
      else None
  | _, _ => None
  end.

Fixpoint run_labels (st : runner) (g : G) (ls : list run_label) : option (runner * G) :=
  match ls with
  | [] => Some (st, g)
  | l :: ls' => '(st', g') ← run_step st g l; run_labels st' g' ls'
  end.
End run.

(** ** What a run amounts to *)

(** The events of PodZone in a run. *)
Definition events_of (l : run_label) : list watch_event :=
  match l with
  | Deliver e => [e]
  | SyncResult true => [CacheSynced]
  | SeeDone => [CtxDone]
  | _ => []
  end.

Definition resolving (p : pc) : Prop := p = Notifying ∨ p = Serving.

Definition reported (p : pc) : Prop := p = Serving ∨ p = Returned None.

#[global] Instance resolving_dec p : Decision (resolving p).
Proof. unfold resolving. apply _. Defined.
#[global] Instance reported_dec p : Decision (reported p).
Proof. unfold reported. apply _. Defined.

(** The steps [Run] has left. *)
Definition run_rank (p : pc) : nat :=
  match p with Created => 4 | Waiting => 3 | Notifying => 2 | Serving => 1 | Returned _ => 0 end.

(** A step of [Run] itself, not of the informer or of whoever holds the context. *)
Definition own (l : run_label) : Prop :=
  match l with Deliver _ | StoreSynced | EndCtx => False | _ => True end.

(** A step of [Run] that needs nothing of the informer. *)
Definition unaided (l : run_label) : Prop :=
  match l with SyncResult false | CallOnReady | SeeDone => True | _ => False end.

Section facts.
Context {G : Type} (OnReady : option (G → G)) (node label : string).

#[local] Abbreviation step := (run_step OnReady).

Definition start : runner := NewRunner (NewWatcher node label).

(** Everything known is of the node. *)
Definition local_pods (k : gmap podKey Pod) : Prop := map_Forall (fun _ pod => pod_NodeName pod = node) k.

(** What holds in every state, [g0] being what the callback found. *)
Record runner_ok (g0 : G) (es : list watch_event) (st : runner) (g : G) : Prop := {
  ro_watcher : r_watcher st = apply_events (NewWatcher node label) es;
  ro_ready : w_ready (r_watcher st) = bool_decide (resolving (r_pc st));
  ro_node : nodeName (r_watcher st) = node;
  ro_local : local_pods (known es);
  ro_called : g = if bool_decide (reported (r_pc st)) then default id OnReady g0 else g0;
  ro_started : r_started st = false → r_pc st = Created ∨ ∃ e, r_pc st = Returned (Some (ErrHandler e));
  ro_synced : resolving (r_pc st) ∨ reported (r_pc st) → r_synced st = true;
  ro_done : r_pc st = Returned None ∨ r_pc st = Returned (Some ErrCtx) → r_cancelled st = true;
}.

Lemma apply_delivery_fields w e :
  delivers (informer_of w) e = true →
  w_ready (apply_event w e) = w_ready w ∧ nodeName (apply_event w e) = nodeName w.
Proof.
  destruct e as [[]|[]|o| |]; cbn; unfold remove; repeat case_match; done.
Qed.

Lemma note_local k w e :
  nodeName w = node → delivers (informer_of w) e = true → local_pods k → local_pods (note_event k e).
Proof.
  intros Hn Hd Hk. assert (Hsel : ∀ pod, selects (io_selector (informer_of w)) pod = true →
    pod_NodeName pod = node).
  { intros pod. unfold selects; cbn. rewrite Hn. intros [= Hp]%bool_decide_eq_true. done. }
  destruct e as [[pod| |]|[pod| |]|o| |]; cbn in *; try done.
  1,2: by apply map_Forall_insert_2; [apply Hsel|].
  unfold pod_of in Hd. destruct (deleted_pod o); [|done]. by apply map_Forall_delete.
Qed.

Lemma run_step_ok g0 es st g l st' g' :
  runner_ok g0 es st g → step st g l = Some (st', g') → runner_ok g0 (es ++ events_of l) st' g'.
Proof.
  intros [Hw Hr Hn Hl Hg Hs Hy Hd] Hst. unfold run_step in Hst.
  assert (Happ : ∀ e, apply_event (r_watcher st) e = apply_events (NewWatcher node label) (es ++ [e])).
  { intros e. unfold apply_events in *. by rewrite fold_left_app, Hw. }
  assert (Hkn : ∀ e, known (es ++ [e]) = note_event (known es) e).
  { intros e. unfold known. by rewrite fold_left_app. }
  destruct l as [[e|]|e| |[]| | |].
  3:{ destruct (r_started st) eqn:Hst'; [|done]. destruct (delivers _ e) eqn:Hdel; [|done].
      injection Hst as <- <-. destruct (apply_delivery_fields _ _ Hdel) as [Hr' Hn'].
      split; cbn; rewrite ?Hr', ?Hn', ?Hkn, ?Hst'; try done. by eapply note_local. }
  3:{ destruct (r_started st) eqn:Hst'; [|done]. injection Hst as <- <-. cbn [events_of].
      rewrite app_nil_r. by split. }
  6:{ injection Hst as <- <-. cbn [events_of]. rewrite app_nil_r. by split. }
  all: destruct (r_pc st) eqn:Hpc; try done; try (destruct (r_synced st) eqn:Hys; [|done]);
    try (destruct (r_cancelled st) eqn:Hc; [|done]);
    injection Hst as <- <-; cbn [events_of]; rewrite ?app_nil_r;
    (split; cbn; rewrite ?Hkn; try done).
  all: try (intros Hf; destruct (Hs Hf) as [?|[? ?]]; try done; right; by eexists).
  all: try (intros [Hx|Hx]; by try discriminate Hx).
  all: try (by intros [[Hx|Hx]|[Hx|Hx]]).
  all: try (intros _; apply Hy; left; (by left) || by right).
  - apply (Happ CacheSynced).
  - cbn in Hg. subst g. by destruct OnReady.
  - apply (Happ CtxDone).
Qed.

Lemma start_ok g0 : runner_ok g0 [] start g0.
Proof.
  split; cbn; try done; [by left| |].
  - by intros [[?|?]|[?|?]].
  - by intros [?|?].
Qed.

Lemma run_labels_ok g0 ls st g :
  run_labels OnReady start g0 ls = Some (st, g) → runner_ok g0 (ls ≫= events_of) st g.
Proof.
  assert (Hgen : ∀ es st0 g1, runner_ok g0 es st0 g1 → run_labels OnReady st0 g1 ls = Some (st, g) →
    runner_ok g0 (es ++ (ls ≫= events_of)) st g).
  { induction ls as [|l ls IH]; intros es st0 g1 Hok; cbn.
    - intros [= <- <-]. by rewrite app_nil_r.
    - destruct (step st0 g1 l) as [[st1 g2]|] eqn:Hst; [|done]. cbn. intros Hrun.
      rewrite app_assoc. eapply IH; [by eapply run_step_ok|done]. }
  intros Hrun. apply (Hgen [] start g0); [apply start_ok|done].
Qed.

(** The pod behind a zone, in a state of [Run]. *)
Lemma runner_ok_zone g0 es st g ip z :
  runner_ok g0 es st g → Watcher_Zone (r_watcher st) ip = Some z →
  resolving (r_pc st) ∧ Valid z = true ∧
  ∃ key pod, known es !! key = Some pod ∧ pod_NodeName pod = node ∧
    pod_HostNetwork pod = false ∧ pod_Labels pod !! label = Some z ∧
    ParseAddr (pod_PodIP pod) = Some ip.
Proof.
  intros [Hw Hr _ Hl _ _ _ _] Hz. split.
  - unfold Watcher_Zone in Hz. rewrite Hr in Hz. by case_bool_decide.
  - rewrite Hw in Hz. apply Zone_tenant in Hz as (_ & Hv & key & pod & Hk & Hpod). split; [done|].
    exists key, pod. split; [done|]. split; [by apply (Hl key)|done].
Qed.

(** ** Theorems *)

(** C15: a zone is only ever that of a pod of this node, and only while [Run] serves:
    whatever the informer delivers, before or after [Run] returns, and however the
    context ends, an address has a zone only between the first sync and the return
    of [Run], and it is then the well-formed zone label of a pod scheduled to this
    node, not on the host network, last delivered with that address as its own. *)
Theorem Run_zone_sound g0 ls st g ip z :
  run_labels OnReady start g0 ls = Some (st, g) → Watcher_Zone (r_watcher st) ip = Some z →
  resolving (r_pc st) ∧ Valid z = true ∧
  ∃ key pod, known (ls ≫= events_of) !! key = Some pod ∧ pod_NodeName pod = node ∧
    pod_HostNetwork pod = false ∧ pod_Labels pod !! label = Some z ∧
    ParseAddr (pod_PodIP pod) = Some ip.
Proof. intros Hrun%run_labels_ok. by eapply runner_ok_zone. Qed.

(** C16: [Run] reports once and always ends: [OnReady] is called at most once, after
    the informer has synced and not before [ready] is set; [Run] returns without error
    only after it reported and its context ended; and once the context has ended it
    is never stuck before it returns: it has a step that needs nothing of the informer,
    synced or not, and each of its own steps, of which it has at most three left then,
    brings it closer, whatever the informer does meanwhile. *)
Theorem Run_lifecycle g0 ls st g :
  run_labels OnReady start g0 ls = Some (st, g) →
  g = (if bool_decide (reported (r_pc st)) then default id OnReady g0 else g0) ∧
  w_ready (r_watcher st) = bool_decide (resolving (r_pc st)) ∧
  (resolving (r_pc st) ∨ reported (r_pc st) → r_synced st = true) ∧
  (r_pc st = Returned None → r_cancelled st = true) ∧
  (r_cancelled st = true → r_pc st ≠ Created → (∀ err, r_pc st ≠ Returned err) →
     (∃ l st' g', unaided l ∧ step st g l = Some (st', g'))) ∧
  (∀ l st' g', step st g l = Some (st', g') →
     (run_rank (r_pc st') ≤ run_rank (r_pc st))%nat ∧
     (own l → (run_rank (r_pc st') < run_rank (r_pc st))%nat)).
Proof.
  intros [_ Hr _ _ Hg _ Hy Hd]%run_labels_ok. split_and!; [done..|by auto| |].
  - intros Hc Hcr Hret. unfold run_step. destruct (r_pc st) as [| | | |err] eqn:Hpc; [done|..].
    + exists (SyncResult false). eexists _, _. split; [done|]. by rewrite Hc.
    + exists CallOnReady. by eexists _, _.
    + exists SeeDone. eexists _, _. split; [done|]. by rewrite Hc.
    + by destruct (Hret err).
  - intros l st' g' Hst. unfold run_step in Hst. destruct l as [[e|]|e| |[]| | |].
    3:{ destruct (_ && _); [|done]. injection Hst as <- <-. by split; [cbn; lia|intros []]. }
    3:{ destruct (r_started st); [|done]. injection Hst as <- <-. by split; [cbn; lia|intros []]. }
    6:{ injection Hst as <- <-. by split; [cbn; lia|intros []]. }
    all: destruct (r_pc st) eqn:Hpc; try done; try (destruct (r_synced st); [|done]);
      try (destruct (r_cancelled st); [|done]); injection Hst as <- <-; cbn; (split; [lia|intros _; lia]).
Qed.
End facts.

(** The watcher does not depend on what the callback writes to. *)
Lemma run_step_forget {G : Type} (f : option (G → G)) st g l st' g' :
  run_step f st g l = Some (st', g') → run_step (G := unit) None st tt l = Some (st', tt).
Proof.
  unfold run_step. destruct l as [[e|]|e| |[]| | |]; try (destruct (r_pc st); try done);
    repeat (case_match; try done); by intros [= <- <-].
Qed.

Lemma run_labels_snoc {G : Type} (f : option (G → G)) st g ls l st1 g1 :
  run_labels f st g ls = Some (st1, g1) → run_labels f st g (ls ++ [l]) = run_step f st1 g1 l.
Proof.
  revert st g. induction ls as [|x ls IH]; intros st g; cbn.
  - intros [= <- <-]. by destruct (run_step f st g l) as [[]|].
  - destruct (run_step f st g x) as [[st2 g2]|]; [|done]. apply IH.
Qed.

(** ** Witnesses *)
Module PodWatchWitnesses.
Import PodZoneWitnesses.

(** A sync, the context's end, and a delivery after [Run] has returned. *)
Definition labels0 : list run_label :=
  [Begin None; Deliver (AddFunc (ObjPod (pod "a" "fab" "10.0.0.7"))); StoreSynced; SyncResult true].
Definition labels1 : list run_label :=
  labels0 ++ [CallOnReady; EndCtx; SeeDone; Deliver (UpdateFunc (ObjPod (pod "a" "fab" "10.0.0.7")))].

Definition after (ls : list run_label) : runner * nat :=
  default (start "n1" "zone", 0%nat) (run_labels (Some S) (start "n1" "zone") 0%nat ls).

Example returned_unresolved : Watcher_Zone (r_watcher (after labels1).1) ip0 = None.
Proof. by vm_compute. Qed.

Lemma Run_zone_sound_witness :
  ∃ key p0, known (labels0 ≫= events_of) !! key = Some p0 ∧ pod_NodeName p0 = "n1" ∧
    pod_Labels p0 !! "zone" = Some "fab".
Proof.
  destruct (Run_zone_sound (Some S) "n1" "zone" 0%nat labels0 (after labels0).1 (after labels0).2 ip0 "fab")
    as (_ & _ & key & p0 & Hk & Hn & _ & Hl & _); [by vm_compute|by vm_compute|].
  by exists key, p0.
Defined.

Lemma Run_lifecycle_witness :
  (after labels1).2 = 1%nat ∧ (r_pc (after labels1).1 = Returned None → r_cancelled (after labels1).1 = true).
Proof.
  split; [by vm_compute|].
  apply (Run_lifecycle (Some S) "n1" "zone" 0%nat labels1 (after labels1).1 (after labels1).2). by vm_compute.
Defined.
End PodWatchWitnesses.
