(* ===== verification/ZoneCache.v ===== *)
(** * internal/zonecache: the zone-aware answer cache

    The cache stores pointers to messages, so messages live in a [heap]: a
    location is an index, [msg.Copy()] allocates a new cell (the copy is deep, so
    no part of a message is shared), and an assignment through a pointer updates
    the cell. The LRU list is hashicorp's; what the cache relies on of it is the
    class [LruLaws]. The specification is [last_put]: the answer last stored under
    a key, as a value. *)

From S2P Require Import Prelude GoStd DnsLib.
Import Strings.

Open Scope Z_scope.

(** ** github.com/hashicorp/golang-lru *)
Class LruOps (K V : Type) := {
  lru : Type;
  (** "creates an LRU of the given size" *)
  lru_New : Z → result string lru;
  (** "adds a value to the cache" *)
  lru_Add : lru → K → V → lru;
  (** "looks up a key's value from the cache" *)
  lru_Get : lru → K → option V * lru;
  (** "returns the number of items in the cache" *)
  lru_Len : lru → Z;
  (** "returns key's value without updating recentness" *)
  lru_Peek : lru → K → option V;
  (** the size it was created with *)
  lru_cap : lru → Z;
}.

Class LruLaws (K V : Type) `{LruOps K V} : Prop := {
  New_positive n : 0 < n → ∃ l, lru_New n = Ok l;
  New_empty n l : lru_New n = Ok l → lru_cap l = n ∧ ∀ k, lru_Peek l k = None;
  Get_Peek l k : (lru_Get l k).1 = lru_Peek l k;
  Get_keeps l k k' : lru_Peek (lru_Get l k).2 k' = lru_Peek l k';
  Get_cap l k : lru_cap (lru_Get l k).2 = lru_cap l;
  Add_same l k v : 0 < lru_cap l → lru_Peek (lru_Add l k v) k = Some v;
  (** other keys are kept or evicted, never changed *)
  Add_other l k v k' v' :
    k' ≠ k → lru_Peek (lru_Add l k v) k' = Some v' → lru_Peek l k' = Some v';
  Add_cap l k v : lru_cap (lru_Add l k v) = lru_cap l;
  Len_cap l : 0 < lru_cap l → 0 ≤ lru_Len l ≤ lru_cap l;
}.

(** ** Time

    A [time.Time] is its monotonic reading in nanoseconds, a [time.Duration] an
    int64 count of them. *)

Definition wrap64 (x : Z) : Z := (x + 2 ^ 63) mod 2 ^ 64 - 2 ^ 63.
Definition wrapu32 (x : Z) : Z := x mod 2 ^ 32.
Definition wrapu16 (x : Z) : Z := x mod 2 ^ 16.

(** [t.Sub(u)], which saturates. *)
Definition Time_Sub (t u : Z) : Z := Z.max (- 2 ^ 63) (Z.min (2 ^ 63 - 1) (t - u)).

Definition maxTTL : Z := 30 * Second.

Record key := { k_qname : string; k_qtype : Z; k_zone : string }.

#[global] Instance key_eq_dec : EqDecision key.
Proof. solve_decision. Defined.

(** [msg] is a pointer. *)
Record entry := { e_msg : nat; e_expiry : Z }.

Abbreviation heap := (list Msg) (only parsing).

Section cache.
Context `{Unicode, DnsOps, LruOps key entry}.

Record Cache := { l : lru }.

Record mem := { m_heap : heap; m_cache : Cache }.

Definition with_heap (s : mem) (h : heap) : mem := {| m_heap := h; m_cache := m_cache s |}.
Definition with_lru (s : mem) (c : lru) : mem := {| m_heap := m_heap s; m_cache := {| l := c |} |}.

(** A new cell. *)
Definition alloc (m : Msg) : GoM mem nat :=
  fun s => Some (length (m_heap s), with_heap s (m_heap s ++ [m])).

(** Reading and writing through a pointer; a location outside the heap is a nil
    or dangling pointer. *)
Definition deref (p : nat) : GoM mem Msg :=
  fun s => match m_heap s !! p with Some m => Some (m, s) | None => None end.

Definition assign (p : nat) (m : Msg) : GoM mem unit :=
  fun s => match m_heap s !! p with
           | Some _ => Some (tt, with_heap s (<[p := m]> (m_heap s)))
           | None => None
           end.

Definition copy_msg (p : nat) : GoM mem nat := m ← deref p; alloc (Copy m).

(** ** New *)
Inductive new_error := ErrNotPositive | ErrLru (e : string).

Definition NewCache (maxEntries : Z) : result new_error Cache :=
  if maxEntries <=? 0 then Err ErrNotPositive
  else
    match lru_New maxEntries with
    | Err err => Err (ErrLru err)
    | Ok c => Ok {| l := c |}
    end.

Definition makeKey (qname : string) (qtype : Z) (zone : string) : key :=
  {| k_qname := ToLower qname; k_qtype := qtype; k_zone := zone |}.

(** ** Put *)
Definition ttl_step (minTTL : Z) (rr : RR) : Z :=
  let t := hdr_Ttl (Hdr rr) in if t <? minTTL then t else minTTL.

Definition min_ttl (rr0 : RR) (rest : list RR) : Z :=
  fold_left ttl_step rest (hdr_Ttl (Hdr rr0)).

(** The lifetime [Put] gives a message: [None] when it is not cached. *)
Definition put_ttl (m : Msg) : option Z :=
  match Answer m with
  | [] => None
  | rr0 :: rest =>
      let minTTL := min_ttl rr0 rest in
      if minTTL =? 0 then None
      else
        let ttl := wrap64 (minTTL * Second) in
        Some (if maxTTL <? ttl then maxTTL else ttl)
  end.

Definition Put (qname : string) (qtype : Z) (zone : string) (m : option nat) (now : Z)
    : GoM mem unit :=
  match m with
  | None => mret tt
  | Some p =>
      v ← deref p;
      match put_ttl v with
      | None => mret tt
      | Some ttl =>
          p' ← copy_msg p;
          modify_state (fun s => with_lru s
            (lru_Add (l (m_cache s)) (makeKey qname qtype zone)
               {| e_msg := p'; e_expiry := now + ttl |}))
      end
  end.

(** ** Get *)

(** The three loops over the records of the copy. *)
Definition set_ttls (m : Msg) (ttl : Z) : Msg :=
  with_sections m
    ((fun rr => with_Ttl rr ttl) <$> Answer m)
    ((fun rr => with_Ttl rr ttl) <$> Ns m)
    ((fun rr => if negb (hdr_Rrtype (Hdr rr) =? TypeOPT) then with_Ttl rr ttl else rr) <$> Extra m).

Definition Get (qname : string) (qtype : Z) (zone : string) (now : Z) : GoM mem (option nat) :=
  s ← get_state;
  let '(e, c') := lru_Get (l (m_cache s)) (makeKey qname qtype zone) in
  set_state (with_lru s c');;
  match e with
  | None => mret None
  | Some e =>
      let remaining := Time_Sub (e_expiry e) now in
      if remaining <=? 0 then mret None
      else
        out ← copy_msg (e_msg e);
        v ← deref out;
        let ttl := wrapu32 (Z.quot remaining Second) in
        assign out (set_ttls v ttl);;
        mret (Some out)
  end.

Definition Cache_Len (s : mem) : Z := lru_Len (l (m_cache s)).

(** ** The specification

    What callers do with a cache over time: they allocate messages, change the
    ones they hold (those they allocated and those [Get] returned), store them and
    look answers up. Each passes a time it read from the clock some while before, so
    the times of successive calls need not increase. [cw_put] remembers the value and
    the time of the last [Put] that stored something, per question: the lower-cased
    name, the type and the zone that were asked for; [cw_latest] is at least the time
    of every [Put]. *)
Definition question : Type := string * Z * string.

Definition asked (qname : string) (qtype : Z) (zone : string) : question :=
  (ToLower qname, qtype, zone).

Definition of_key (k : key) : question := (k_qname k, k_qtype k, k_zone k).

Lemma of_key_inj k k' : of_key k = of_key k' → k = k'.
Proof. destruct k, k'. unfold of_key; cbn. congruence. Qed.

Lemma of_key_makeKey qname qtype zone : of_key (makeKey qname qtype zone) = asked qname qtype zone.
Proof. done. Qed.

Record cworld := {
  cw_mem : mem;
  cw_held : list nat;
  cw_put : question → option (Msg * Z);
  cw_latest : Z;
}.

Definition note_put (last_put : question → option (Msg * Z)) (k : question) (v : Msg) (now : Z)
    : question → option (Msg * Z) :=
  match put_ttl v with
  | None => last_put
  | Some _ => fun k' => if decide (k' = k) then Some (v, now) else last_put k'
  end.

Inductive cstep : cworld → cworld → Prop :=
  | cs_alloc w m p s' :
      alloc m (cw_mem w) = Some (p, s') →
      cstep w {| cw_mem := s'; cw_held := p :: cw_held w; cw_put := cw_put w; cw_latest := cw_latest w |}
  | cs_write w p m s' :
      p ∈ cw_held w → assign p m (cw_mem w) = Some (tt, s') →
      cstep w {| cw_mem := s'; cw_held := cw_held w; cw_put := cw_put w; cw_latest := cw_latest w |}
  | cs_put w qname qtype zone p v now s' :
      p ∈ cw_held w → m_heap (cw_mem w) !! p = Some v →
      Put qname qtype zone (Some p) now (cw_mem w) = Some (tt, s') →
      cstep w {| cw_mem := s'; cw_held := cw_held w;
                 cw_put := note_put (cw_put w) (asked qname qtype zone) v now;
                 cw_latest := Z.max (cw_latest w) now |}
  | cs_get w qname qtype zone now r s' :
      Get qname qtype zone now (cw_mem w) = Some (r, s') →
      cstep w {| cw_mem := s'; cw_held := from_option (fun p => p :: cw_held w) (cw_held w) r;
                 cw_put := cw_put w; cw_latest := cw_latest w |}.

(** A cache as [New] returns it, before anything is stored. *)
Definition cstart (c : Cache) (h : heap) (held : list nat) (now : Z) : cworld :=
  {| cw_mem := {| m_heap := h; m_cache := c |}; cw_held := held;
     cw_put := fun _ => None; cw_latest := now |}.

Inductive creach (n : Z) : cworld → Prop :=
  | cr_start c h held now :
      NewCache n = Ok c → (∀ p, p ∈ held → (p < length h)%nat) → creach n (cstart c h held now)
  | cr_step w w' : creach n w → cstep w w' → creach n w'.

(** The cache's own cells are out of its callers' reach and hold what was put. *)
Record cache_inv (n : Z) (w : cworld) : Prop := {
  ci_cap : 0 < n ∧ lru_cap (l (m_cache (cw_mem w))) = n;
  ci_held p : p ∈ cw_held w → (p < length (m_heap (cw_mem w)))%nat;
  ci_entry k e : lru_Peek (l (m_cache (cw_mem w))) k = Some e →
    (e_msg e ∉ cw_held w) ∧
    ∃ v t0 ttl, m_heap (cw_mem w) !! e_msg e = Some v ∧ cw_put w (of_key k) = Some (v, t0) ∧
      put_ttl v = Some ttl ∧ e_expiry e = t0 + ttl;
  ci_past k v t0 : cw_put w k = Some (v, t0) → t0 ≤ cw_latest w;
}.

Section facts.
Context `{!DnsLaws, !LruLaws key entry}.

Lemma put_ttl_max v ttl : put_ttl v = Some ttl → ttl ≤ maxTTL.
Proof.
  unfold put_ttl. intros Hp. repeat case_match; simplify_eq; try done.
  all: destruct (Z.ltb_spec maxTTL (wrap64 (min_ttl r l0 * Second))); congruence || lia.
Qed.

(** [Put] and [Get] as state changes. *)
Lemma Put_run qname qtype zone p v now s :
  m_heap s !! p = Some v →
  Put qname qtype zone (Some p) now s =
  Some (tt, match put_ttl v with
            | None => s
            | Some ttl =>
                {| m_heap := m_heap s ++ [v];
                   m_cache := {| l := lru_Add (l (m_cache s)) (makeKey qname qtype zone)
                      {| e_msg := length (m_heap s); e_expiry := now + ttl |} |} |}
            end).
Proof.
  intros Hp. unfold Put, copy_msg, deref, alloc. go_run. rewrite Hp.
  destruct (put_ttl v); [|done]. rewrite Hp. by rewrite Copy_deep.
Qed.

Lemma Get_run qname qtype zone now s :
  let k := makeKey qname qtype zone in
  (∀ e, lru_Peek (l (m_cache s)) k = Some e → is_Some (m_heap s !! e_msg e)) →
  Get qname qtype zone now s =
  Some (match lru_Peek (l (m_cache s)) k with
        | Some e =>
            match m_heap s !! e_msg e with
            | Some v =>
                if Time_Sub (e_expiry e) now <=? 0
                then (None, with_lru s (lru_Get (l (m_cache s)) k).2)
                else (Some (length (m_heap s)),
                      {| m_heap := m_heap s ++
                           [set_ttls v (wrapu32 (Z.quot (Time_Sub (e_expiry e) now) Second))];
                         m_cache := {| l := (lru_Get (l (m_cache s)) k).2 |} |})
            | None => (None, s)
            end
        | None => (None, with_lru s (lru_Get (l (m_cache s)) k).2)
        end).
Proof.
  intros k Hin. unfold Get, copy_msg, deref, alloc, assign. go_run. fold k.
  destruct (lru_Get (l (m_cache s)) k) as [e c'] eqn:Hget.
  pose proof (Get_Peek (l (m_cache s)) k) as Hpk. rewrite Hget in Hpk. cbn in Hpk. subst e. cbn.
  destruct (lru_Peek (l (m_cache s)) k) as [e|]; [|done].
  destruct (Hin e eq_refl) as [v Hv]. rewrite Hv.
  destruct (Time_Sub (e_expiry e) now <=? 0); [done|].
  cbn [m_heap with_lru]. rewrite Hv. cbn [m_heap with_heap].
  rewrite lookup_app_r, Nat.sub_diag by lia. cbn [lookup list_lookup].
  cbn [m_heap with_heap].
  rewrite ?lookup_app_r, ?Nat.sub_diag by lia. cbn [lookup list_lookup]. rewrite Copy_deep.
  rewrite insert_app_r_alt, Nat.sub_diag by lia. done.
Qed.

(** ** The invariant *)
Lemma cache_inv_start n c h held now :
  NewCache n = Ok c → (∀ p, p ∈ held → (p < length h)%nat) →
  cache_inv n (cstart c h held now).
Proof.
  unfold NewCache. intros Hnew Hheld.
  destruct (Z.leb_spec n 0); [done|]. destruct (lru_New n) as [c0|] eqn:Hn; [|done].
  injection Hnew as <-. destruct (New_empty n c0 Hn) as [Hcap Hempty].
  split; cbn; try done. intros k e. by rewrite Hempty.
Qed.

(** Growing the heap and the callers' cells keeps the entries. *)
Lemma entry_mono n w k e ext (held' : list nat) :
  cache_inv n w → lru_Peek (l (m_cache (cw_mem w))) k = Some e →
  (∀ p, p ∈ held' → p ∈ cw_held w ∨ (length (m_heap (cw_mem w)) ≤ p)%nat) →
  (e_msg e ∉ held') ∧
    ∃ v t0 ttl, (m_heap (cw_mem w) ++ ext) !! e_msg e = Some v ∧ cw_put w (of_key k) = Some (v, t0) ∧
      put_ttl v = Some ttl ∧ e_expiry e = t0 + ttl.
Proof.
  intros Hinv Hk Hheld.
  destruct (ci_entry _ _ Hinv k e Hk) as (Hne & v & t0 & ttl & Hv & Hp & Ht & He).
  pose proof (lookup_lt_Some _ _ _ Hv).
  split; [intros [?|?]%Hheld; [done|lia]|].
  exists v, t0, ttl. split_and!; try done. by apply lookup_app_l_Some.
Qed.

Lemma cache_inv_put n w qname qtype zone v now :
  cache_inv n w →
  cache_inv n {| cw_mem := match put_ttl v with
      | None => cw_mem w
      | Some ttl =>
          {| m_heap := m_heap (cw_mem w) ++ [v];
             m_cache := {| l := lru_Add (l (m_cache (cw_mem w))) (makeKey qname qtype zone)
               {| e_msg := length (m_heap (cw_mem w)); e_expiry := now + ttl |} |} |}
      end;
    cw_held := cw_held w; cw_put := note_put (cw_put w) (asked qname qtype zone) v now;
    cw_latest := Z.max (cw_latest w) now |}.
Proof.
  intros Hinv. pose proof (ci_cap _ _ Hinv) as [Hn Hcap].
  unfold note_put. destruct (put_ttl v) as [ttl|] eqn:Httl.
  2:{ split; cbn; [done|apply Hinv|apply Hinv|]. intros k v' t0 ?%(ci_past _ _ Hinv). lia. }
  split; cbn; [by rewrite Add_cap| | |].
  - intros q Hq. rewrite length_app. apply (ci_held _ _ Hinv) in Hq. lia.
  - intros k e Hk. case_decide as Hd.
    { rewrite <-of_key_makeKey in Hd. apply of_key_inj in Hd as ->. rewrite Add_same in Hk by lia.
      simplify_eq. cbn. split; [intros Hq%(ci_held _ _ Hinv); lia|].
      exists v, now, ttl. rewrite lookup_app_r, Nat.sub_diag by lia. done. }
    apply Add_other in Hk; [|by intros ->].
    eapply entry_mono; [done..|]. by left.
  - intros k v' t0. case_decide; [intros [= <- <-]; lia|]. intros ?%(ci_past _ _ Hinv). lia.
Qed.

Lemma cache_inv_get n w qname qtype zone now r s' :
  cache_inv n w → Get qname qtype zone now (cw_mem w) = Some (r, s') →
  cache_inv n {| cw_mem := s'; cw_held := from_option (fun p => p :: cw_held w) (cw_held w) r;
                 cw_put := cw_put w; cw_latest := cw_latest w |}.
Proof.
  intros Hinv Ha. pose proof (ci_cap _ _ Hinv) as [Hn Hcap]. rewrite Get_run in Ha.
  2:{ intros e Hk. destruct (ci_entry _ _ Hinv _ e Hk) as (_ & v & _ & _ & Hv & _). by exists v. }
  pose proof (ci_past _ _ Hinv) as Hpast.
  assert (Hmiss : ∀ k, cache_inv n {| cw_mem := with_lru (cw_mem w) (lru_Get (l (m_cache (cw_mem w))) k).2;
    cw_held := cw_held w; cw_put := cw_put w; cw_latest := cw_latest w |}).
  { intros k. split; cbn; [by rewrite Get_cap|apply Hinv| |done].
    intros k' e. rewrite Get_keeps. apply Hinv. }
  destruct (lru_Peek _ _) as [e|] eqn:Hk; [|injection Ha as <- <-; apply Hmiss].
  destruct (ci_entry _ _ Hinv _ e Hk) as (_ & v & _ & _ & Hv & _). rewrite Hv in Ha.
  destruct (_ <=? 0); injection Ha as <- <-; [apply Hmiss|]. cbn.
  split; cbn; [by rewrite Get_cap| | |done].
  - intros p [->|Hp]%elem_of_cons; rewrite length_app; cbn; [lia|].
    apply (ci_held _ _ Hinv) in Hp. lia.
  - intros k' e' Hk'. rewrite Get_keeps in Hk'.
    eapply entry_mono; [done..|]. intros p [->|]%elem_of_cons; [right; lia|by left].
Qed.

Lemma cache_inv_step n w w' : cache_inv n w → cstep w w' → cache_inv n w'.
Proof.
  intros Hinv Hst. pose proof (ci_cap _ _ Hinv) as [Hn Hcap].
  destruct Hst as [w m p s' Ha|w p m s' Hp Ha|w qname qtype zone p v now s' Hp Hv Ha
    |w qname qtype zone now r s' Ha].
  - unfold alloc in Ha. simplify_eq. split; cbn; [done| | |apply Hinv].
    + intros p [->|Hp]%elem_of_cons; rewrite length_app; cbn; [lia|].
      apply (ci_held _ _ Hinv) in Hp. lia.
    + intros k e Hk. eapply entry_mono; [done..|]. intros p [->|]%elem_of_cons; [right; lia|by left].
  - unfold assign in Ha. case_match; simplify_eq. split; cbn; [done| | |apply Hinv].
    + intros q Hq. rewrite length_insert. by apply (ci_held _ _ Hinv).
    + intros k e Hk. destruct (ci_entry _ _ Hinv k e Hk) as (Hne & v & t0 & ttl & Hv & ? & ?).
      split; [done|]. exists v, t0, ttl. split; [|done].
      rewrite list_lookup_insert_ne by (intros ->; done). done.
  - rewrite (Put_run _ _ _ _ v) in Ha by done. injection Ha as <-. by apply cache_inv_put.
  - by eapply cache_inv_get.
Qed.

Lemma creach_inv n w : creach n w → cache_inv n w.
Proof. induction 1; [by apply cache_inv_start|by eapply cache_inv_step]. Qed.

(** ** TTL arithmetic *)
Lemma min_ttl_le rr0 rest rr : rr ∈ rr0 :: rest → min_ttl rr0 rest ≤ hdr_Ttl (Hdr rr).
Proof.
  unfold min_ttl. assert (Hgen : ∀ rest acc, fold_left ttl_step rest acc ≤ acc ∧
    ∀ rr, rr ∈ rest → fold_left ttl_step rest acc ≤ hdr_Ttl (Hdr rr)).
  { clear. induction rest as [|x rest IH]; intros acc; cbn.
    { split; [lia|]. by intros ? ?%elem_of_nil. }
    destruct (IH (ttl_step acc x)) as [IH1 IH2].
    assert (ttl_step acc x ≤ acc ∧ ttl_step acc x ≤ hdr_Ttl (Hdr x)).
    { unfold ttl_step; cbn. destruct (Z.ltb_spec (hdr_Ttl (Hdr x)) acc); lia. }
    split; [lia|]. intros rr [->|?]%elem_of_cons; [lia|by apply IH2]. }
  destruct (Hgen rest (hdr_Ttl (Hdr rr0))) as [Hacc Hall].
  intros [->|?]%elem_of_cons; [done|by apply Hall].
Qed.

Lemma min_ttl_in rr0 rest : ∃ rr, rr ∈ rr0 :: rest ∧ min_ttl rr0 rest = hdr_Ttl (Hdr rr).
Proof.
  unfold min_ttl. revert rr0. induction rest as [|x rest IH]; intros rr0; cbn.
  { exists rr0. set_solver. }
  unfold ttl_step at 2; cbn.
  destruct (hdr_Ttl (Hdr x) <? hdr_Ttl (Hdr rr0)).
  - destruct (IH x) as (rr & Hin & Heq). exists rr. set_solver.
  - destruct (IH rr0) as (rr & Hin & Heq). exists rr. set_solver.
Qed.

(** TTL fields are uint32. *)
Definition ttls_ok (m : Msg) : Prop := Forall (fun rr => 0 ≤ hdr_Ttl (Hdr rr) < 2 ^ 32) (Answer m).

(** The lifetime is at least a second, at most 30, and no record's TTL is
    exceeded: the product with [time.Second] does not overflow. *)
Lemma put_ttl_bounds v ttl :
  ttls_ok v → put_ttl v = Some ttl →
  Second ≤ ttl ≤ maxTTL ∧ ∀ rr, rr ∈ Answer v → ttl ≤ hdr_Ttl (Hdr rr) * Second.
Proof.
  unfold put_ttl, ttls_ok. destruct (Answer v) as [|rr0 rest]; [done|].
  rewrite Forall_forall. intros Hok.
  destruct (min_ttl_in rr0 rest) as (rm & Hin & Hm). specialize (Hok rm Hin).
  rewrite <-Hm in Hok. destruct (Z.eqb_spec (min_ttl rr0 rest) 0); [done|]. intros [= <-].
  assert (Hw : wrap64 (min_ttl rr0 rest * Second) = min_ttl rr0 rest * Second).
  { unfold wrap64, Second. rewrite Z.mod_small; lia. }
  rewrite Hw. unfold maxTTL, Second in *.
  split; [destruct (Z.ltb_spec (30 * 1000000000) (min_ttl rr0 rest * 1000000000)); lia|].
  intros rr Hrr%min_ttl_le.
  destruct (Z.ltb_spec (30 * 1000000000) (min_ttl rr0 rest * 1000000000)); lia.
Qed.

(** On a forward clock neither the subtraction nor the conversion wraps. *)
Lemma remaining_exact t0 ttl now :
  t0 ≤ now → ttl ≤ maxTTL → now < t0 + ttl →
  wrapu32 (Z.quot (Time_Sub (t0 + ttl) now) Second) = (t0 + ttl - now) / Second.
Proof.
  intros. unfold Time_Sub, maxTTL, Second in *.
  rewrite Z.min_r, Z.max_r by lia. rewrite Z.quot_div_nonneg by lia.
  unfold wrapu32. apply Z.mod_small. split; [apply Z.div_pos; lia|].
  apply Z.div_lt_upper_bound; lia.
Qed.

(** At any time a hit's TTL, in whole seconds, is no more than what is left. *)
Lemma remaining_le expiry now :
  now < expiry →
  let ttl := wrapu32 (Z.quot (Time_Sub expiry now) Second) in
  0 ≤ ttl ∧ ttl * Second + now ≤ expiry.
Proof.
  intros Hlt. cbv zeta. set (d := Time_Sub expiry now).
  assert (Hd : 0 ≤ d ≤ expiry - now) by (subst d; unfold Time_Sub; lia).
  rewrite Z.quot_div_nonneg by (unfold Second; lia). unfold wrapu32.
  assert (Hq : 0 ≤ d / Second) by (apply Z.div_pos; unfold Second; lia).
  pose proof (Z.mod_le (d / Second) (2 ^ 32) Hq). pose proof (Z.mod_pos_bound (d / Second) (2 ^ 32)).
  pose proof (Z.mul_div_le d Second). unfold Second in *. lia.
Qed.

Lemma Time_Sub_sign t u : (Time_Sub t u <=? 0) = (t <=? u).
Proof.
  unfold Time_Sub. destruct (Z.leb_spec t u), (Z.leb_spec (Z.max (- 2 ^ 63) (Z.min (2 ^ 63 - 1) (t - u))) 0);
    lia || done.
Qed.

(** The answer a hit returns, [elapsed] after it was put. *)
Definition aged (v : Msg) (ttl elapsed : Z) : Msg := set_ttls v ((ttl - elapsed) / Second).

(** What a [Get] finds in a reachable cache, at whatever time it asks. *)
Lemma Get_any n w qname qtype zone now :
  creach n w →
  ∃ r s', Get qname qtype zone now (cw_mem w) = Some (r, s') ∧
    (∀ k, lru_Peek (l (m_cache s')) k = lru_Peek (l (m_cache (cw_mem w))) k) ∧
    match r with
    | None => m_heap s' = m_heap (cw_mem w) ∧
        ∀ e, lru_Peek (l (m_cache (cw_mem w))) (makeKey qname qtype zone) = Some e → e_expiry e ≤ now
    | Some p =>
        ∃ v t0 ttl, cw_put w (asked qname qtype zone) = Some (v, t0) ∧ put_ttl v = Some ttl ∧
          t0 ≤ cw_latest w ∧ now < t0 + ttl ∧ (p ∉ cw_held w) ∧
          m_heap s' = m_heap (cw_mem w) ++
            [set_ttls v (wrapu32 (Z.quot (Time_Sub (t0 + ttl) now) Second))] ∧
          p = length (m_heap (cw_mem w))
    end.
Proof.
  intros Hr. pose proof (creach_inv _ _ Hr) as Hinv. rewrite Get_run.
  2:{ intros e Hk. destruct (ci_entry _ _ Hinv _ e Hk) as (_ & v & _ & _ & Hv & _). by exists v. }
  destruct (lru_Peek _ _) as [e|] eqn:Hk;
    [|eexists _, _; split; [done|]; split; [apply Get_keeps|done]].
  destruct (ci_entry _ _ Hinv _ e Hk) as (Hne & v & t0 & ttl & Hv & Hp & Ht & He).
  rewrite Hv, Time_Sub_sign, He.
  destruct (Z.leb_spec (t0 + ttl) now) as [Hexp|Hlive]; eexists _, _;
    (split; [done|]); (split; [apply Get_keeps|]).
  - split; [done|]. intros e' [= <-]. lia.
  - pose proof (ci_past _ _ Hinv _ _ _ Hp).
    exists v, t0, ttl. split_and!; try done. intros Hh%(ci_held _ _ Hinv). lia.
Qed.

(** A live entry under a key. *)
Definition live (c : Cache) (k : key) (now : Z) : Prop :=
  ∃ e, lru_Peek (l c) k = Some e ∧ now < e_expiry e.

(** Whether a lookup hits is decided by its key's entry alone. *)
Lemma Get_hit n w qname qtype zone now r s' :
  creach n w → Get qname qtype zone now (cw_mem w) = Some (r, s') →
  is_Some r ↔ live (m_cache (cw_mem w)) (makeKey qname qtype zone) now.
Proof.
  intros Hr Hget. pose proof (creach_inv _ _ Hr) as Hinv. rewrite Get_run in Hget.
  2:{ intros e Hk. destruct (ci_entry _ _ Hinv _ e Hk) as (_ & v & _ & _ & Hv & _). by exists v. }
  unfold live. destruct (lru_Peek _ _) as [e|] eqn:Hk.
  2:{ injection Hget as <- _. split; [by intros []|by intros (? & ? & _)]. }
  destruct (ci_entry _ _ Hinv _ e Hk) as (_ & v & t0 & ttl & Hv & _).
  rewrite Hv, Time_Sub_sign in Hget. destruct (Z.leb_spec (e_expiry e) now) as [Hexp|Hlive];
    injection Hget as <- _; split; try done.
  - intros (e' & [= <-] & Hlt). lia.
  - intros _. by exists e.
Qed.

(** What it finds when nothing was stored later: the arithmetic is exact. *)
Lemma Get_reach n w qname qtype zone now :
  creach n w → cw_latest w ≤ now →
  ∃ r s', Get qname qtype zone now (cw_mem w) = Some (r, s') ∧
    (∀ k, lru_Peek (l (m_cache s')) k = lru_Peek (l (m_cache (cw_mem w))) k) ∧
    match r with
    | None => m_heap s' = m_heap (cw_mem w) ∧
        ∀ e, lru_Peek (l (m_cache (cw_mem w))) (makeKey qname qtype zone) = Some e → e_expiry e ≤ now
    | Some p =>
        ∃ v t0 ttl, cw_put w (asked qname qtype zone) = Some (v, t0) ∧ put_ttl v = Some ttl ∧
          t0 ≤ now < t0 + ttl ∧ (p ∉ cw_held w) ∧
          m_heap s' = m_heap (cw_mem w) ++ [aged v ttl (now - t0)] ∧
          p = length (m_heap (cw_mem w))
    end.
Proof.
  intros Hr Hnow. destruct (Get_any n w qname qtype zone now Hr) as (r & s' & Hg & Hk & Hcase).
  exists r, s'. split_and!; [done..|]. destruct r as [p|]; [|done].
  destruct Hcase as (v & t0 & ttl & Hp & Ht & Hpast & Hlive & Hne & -> & ->).
  pose proof (put_ttl_max _ _ Ht). exists v, t0, ttl. split_and!; try done; try lia.
  rewrite remaining_exact by lia. unfold aged. do 4 f_equal. lia.
Qed.

(** The answer records of a hit. *)
Lemma hit_ttl v ttl t0 now :
  ttls_ok v → put_ttl v = Some ttl → now < t0 + ttl →
  Forall2 (fun rr rr' =>
    rr' = with_Ttl rr (hdr_Ttl (Hdr rr')) ∧ 0 ≤ hdr_Ttl (Hdr rr') ∧
    hdr_Ttl (Hdr rr') * Second + (now - t0) ≤ hdr_Ttl (Hdr rr) * Second ∧
    hdr_Ttl (Hdr rr') * Second + (now - t0) ≤ maxTTL)
    (Answer v) (Answer (set_ttls v (wrapu32 (Z.quot (Time_Sub (t0 + ttl) now) Second)))).
Proof.
  intros Hok Ht Hlive. destruct (put_ttl_bounds v ttl Hok Ht) as [Hb Hrr].
  destruct (remaining_le (t0 + ttl) now Hlive) as [Hpos Hle]. cbn [set_ttls with_sections Answer].
  set (r := wrapu32 _) in *. clearbody r.
  apply Forall2_fmap_r, Forall_Forall2_diag, Forall_forall. intros rr Hin. cbn.
  specialize (Hrr rr Hin). split_and!; [done|lia..].
Qed.

(** ** Theorems *)

(** C12: the cache never mixes questions, zones or owners: whatever its callers did
    before, and however they changed the messages they hold, a hit for a name,
    type and zone is a new message holding the value last stored for that name (in
    any spelling), type and zone, before the end of its lifetime, with the remaining
    whole seconds, in the source's int64 and uint32 arithmetic, as TTLs; no existing
    message changes. The time asked for is arbitrary, times before the value was stored
    included; from then on the TTLs are exactly the lifetime less what has passed. *)
Theorem Get_isolated n w qname qtype zone now :
  creach n w →
  ∃ r s', Get qname qtype zone now (cw_mem w) = Some (r, s') ∧
    (∀ i v, m_heap (cw_mem w) !! i = Some v → m_heap s' !! i = Some v) ∧
    (∀ p, r = Some p →
       ∃ v t0 ttl out, cw_put w (asked qname qtype zone) = Some (v, t0) ∧ put_ttl v = Some ttl ∧
         now < t0 + ttl ∧ (p ∉ cw_held w) ∧ m_heap s' !! p = Some out ∧
         out = set_ttls v (wrapu32 (Z.quot (Time_Sub (t0 + ttl) now) Second)) ∧
         (t0 ≤ now → out = aged v ttl (now - t0))).
Proof.
  intros Hr. destruct (Get_any n w qname qtype zone now Hr) as (r & s' & Hg & _ & Hcase).
  exists r, s'. split; [done|]. destruct r as [p|].
  - destruct Hcase as (v & t0 & ttl & Hp & Ht & _ & Hnw & Hne & Hh & ->). rewrite Hh.
    split; [intros; by apply lookup_app_l_Some|]. intros p [= <-].
    eexists v, t0, ttl, _. split_and!; [done..|by rewrite lookup_app_r, Nat.sub_diag by lia|done|].
    intros Hle. unfold aged. rewrite remaining_exact by (pose proof (put_ttl_max v ttl Ht); lia).
    f_equal. f_equal. lia.
  - destruct Hcase as [-> _]. done.
Qed.

(** a cached answer does not outlive what was promised for it: every answer
    record of a hit, counted from the moment it was stored, expires no later than
    its own original TTL and no later than thirty seconds, and keeps its name,
    type, class and data; and so at whatever time it is looked up, times before it was
    stored included. *)
Theorem Get_answer_ttl n w qname qtype zone now p s' out :
  creach n w →
  Get qname qtype zone now (cw_mem w) = Some (Some p, s') → m_heap s' !! p = Some out →
  ∃ v t0, cw_put w (asked qname qtype zone) = Some (v, t0) ∧
    (ttls_ok v →
     Forall2 (fun rr rr' =>
       rr' = with_Ttl rr (hdr_Ttl (Hdr rr')) ∧ 0 ≤ hdr_Ttl (Hdr rr') ∧
       hdr_Ttl (Hdr rr') * Second + (now - t0) ≤ hdr_Ttl (Hdr rr) * Second ∧
       hdr_Ttl (Hdr rr') * Second + (now - t0) ≤ maxTTL) (Answer v) (Answer out)).
Proof.
  intros Hr Hget Hout.
  destruct (Get_any n w qname qtype zone now Hr) as (r & s2 & Hg & _ & Hcase).
  rewrite Hget in Hg. simplify_eq.
  destruct Hcase as (v & t0 & ttl & Hp & Ht & _ & Hlive & _ & Hh & ->). exists v, t0.
  split; [done|]. intros Hok. rewrite Hh, lookup_app_r, Nat.sub_diag in Hout by lia. injection Hout as <-.
  by apply hit_ttl.
Qed.

(** C14: what is stored is found: after a [Put] that its TTL allows, a [Get] for the
    same type and zone and any spelling of the name, within the lifetime, hits and
    returns the stored value aged. *)
Theorem Put_Get n w qname qtype zone p v ttl t0 :
  creach n w → p ∈ cw_held w → m_heap (cw_mem w) !! p = Some v →
  put_ttl v = Some ttl →
  ∃ s1, Put qname qtype zone (Some p) t0 (cw_mem w) = Some (tt, s1) ∧
    ∀ qname' now, ToLower qname' = ToLower qname → t0 ≤ now < t0 + ttl →
      ∃ p' s2, Get qname' qtype zone now s1 = Some (Some p', s2) ∧
               m_heap s2 !! p' = Some (aged v ttl (now - t0)).
Proof.
  intros Hr Hp Hv Ht. eexists. split; [by apply Put_run|]. rewrite Ht.
  intros qname' now Hn Hnow.
  assert (Hk : makeKey qname' qtype zone = makeKey qname qtype zone).
  { unfold makeKey. by rewrite Hn. }
  destruct (ci_cap _ _ (creach_inv _ _ Hr)) as [Hpos Hcap].
  rewrite Get_run; cbv zeta; rewrite Hk; cbn; rewrite Add_same by lia.
  2:{ intros e [= <-]. cbn. by rewrite lookup_app_r, Nat.sub_diag by lia. }
  cbn. rewrite lookup_app_r, Nat.sub_diag, Time_Sub_sign by lia. cbn.
  destruct (Z.leb_spec (t0 + ttl) now); [lia|]. eexists _, _. split; [done|]. cbn.
  rewrite lookup_app_r, Nat.sub_diag by lia. cbn.
  rewrite remaining_exact by (pose proof (put_ttl_max v ttl Ht); lia).
  unfold aged. do 3 f_equal. lia.
Qed.

(** the cache is bounded: [New] refuses a size that is not positive and builds
    a cache for every other, and no sequence of calls makes it hold more entries
    than that size. *)
Theorem Cache_bounded n :
  (n ≤ 0 → NewCache n = Err ErrNotPositive) ∧
  (0 < n → ∃ c, NewCache n = Ok c) ∧
  (∀ w, creach n w → 0 ≤ Cache_Len (cw_mem w) ≤ n).
Proof.
  unfold NewCache. split_and!.
  - intros Hn. destruct (Z.leb_spec n 0); [done|lia].
  - intros Hn. destruct (Z.leb_spec n 0); [lia|]. destruct (New_positive n Hn) as [c ->].
    by eexists.
  - intros w Hr. destruct (ci_cap _ _ (creach_inv _ _ Hr)) as [Hpos Hcap].
    unfold Cache_Len. pose proof (Len_cap (l (m_cache (cw_mem w)))). lia.
Qed.
End facts.
End cache.

(** ** An LRU list *)
Module LruReference.
Section ref.
Context {K V : Type} `{EqDecision K}.

Record lru_list := { entries : list (K * V); capacity : Z }.

Definition peek (c : list (K * V)) (k : K) : option V :=
  snd <$> List.find (fun e => bool_decide (e.1 = k)) c.

Definition drop_key (k : K) (c : list (K * V)) : list (K * V) :=
  List.filter (fun e => negb (bool_decide (e.1 = k))) c.

#[export] Instance ref_lru_ops : LruOps K V := {|
  lru := lru_list;
  lru_New n := if n <=? 0 then Err "must provide a positive size"
               else Ok {| entries := []; capacity := n |};
  lru_Add c k v := {| entries := take (Z.to_nat (capacity c)) ((k, v) :: drop_key k (entries c));
                      capacity := capacity c |};
  lru_Get c k :=
    match peek (entries c) k with
    | Some v => (Some v, {| entries := (k, v) :: drop_key k (entries c); capacity := capacity c |})
    | None => (None, c)
    end;
  lru_Len c := Z.min (capacity c) (Z.of_nat (length (entries c)));
  lru_Peek c := peek (entries c);
  lru_cap := capacity;
|}.

Lemma peek_drop k k' c : k' ≠ k → peek (drop_key k c) k' = peek c k'.
Proof.
  intros Hne. unfold peek, drop_key. induction c as [|[k0 v0] c IH]; [done|]. cbn.
  destruct (decide (k0 = k)) as [->|Hk].
  - rewrite (bool_decide_eq_true_2 (k = k)), (bool_decide_eq_false_2 (k = k')) by congruence. done.
  - rewrite (bool_decide_eq_false_2 (k0 = k)) by done. cbn. by destruct (bool_decide (k0 = k')).
Qed.

Lemma peek_take n k c v : peek (take n c) k = Some v → peek c k = Some v.
Proof.
  unfold peek. revert n; induction c as [|[k0 v0] c IH]; intros [|n]; cbn; try done.
  destruct (bool_decide (k0 = k)); [done|]. apply IH.
Qed.

#[export] Instance ref_lru_laws : LruLaws K V.
Proof.
  split; cbn.
  - intros n Hn. destruct (Z.leb_spec n 0); [lia|]. by eexists.
  - intros n l0. destruct (Z.leb_spec n 0); [done|]. by intros [= <-].
  - intros c k. by destruct (peek (entries c) k).
  - intros c k k'. destruct (peek (entries c) k) as [v|] eqn:Hp; [|done]. cbn.
    destruct (decide (k' = k)) as [->|Hne].
    + rewrite Hp. unfold peek; cbn. by rewrite bool_decide_eq_true_2.
    + rewrite <-(peek_drop k k') by done. unfold peek at 1; cbn.
      by rewrite bool_decide_eq_false_2 by congruence.
  - intros c k. by destruct (peek (entries c) k).
  - intros c k v Hc. destruct (Z.to_nat (capacity c)) as [|n] eqn:Hn; [lia|]. cbn.
    unfold peek; cbn. by rewrite bool_decide_eq_true_2.
  - intros c k v k' v' Hne Hp%peek_take. rewrite <-(peek_drop k k') by done.
    unfold peek in Hp; cbn in Hp. by rewrite bool_decide_eq_false_2 in Hp by congruence.
  - done.
  - intros c Hc. lia.
Qed.
End ref.
End LruReference.

(** ** Witnesses *)
Module ZoneCacheWitnesses.
Import DnsLib.Reference LruReference.

Definition rr_of (name : string) (ttl : Z) (body : RData) : RR :=
  {| Hdr := {| hdr_Name := name; hdr_Rrtype := TypeA; hdr_Class := ClassINET; hdr_Ttl := ttl |};
     Body := body |}.

(** An answer for five minutes, with an authority record for five seconds. *)
Definition answer0 : Msg :=
  with_sections zero_Msg [rr_of "api.example.org." 300 (RD_A [10; 0; 0; 1])]
    [rr_of "example.org." 5 (RD_other "ns1.example.org.")] [].

Definition w0 : cworld := cstart {| l := {| entries := []; capacity := 2 |} |} [answer0] [0%nat] 0.

Definition key0 : key := makeKey "api.example.org." TypeA "fab".
Definition question0 : question := asked "api.example.org." TypeA "fab".

Definition w1 : cworld := {|
  cw_mem := {| m_heap := [answer0; answer0];
               m_cache := {| l := {| entries := [(key0, {| e_msg := 1; e_expiry := 30 * Second |})];
                                     capacity := 2 |} |} |};
  cw_held := [0%nat];
  cw_put := note_put (fun _ => None) question0 answer0 0;
  cw_latest := 0 |}.

Lemma reach0 : creach 2 w0.
Proof. apply cr_start; [by vm_compute|]. intros p ->%list_elem_of_singleton. cbn. lia. Qed.

Lemma reach1 : creach 2 w1.
Proof.
  eapply cr_step; [apply reach0|].
  apply (cs_put w0 "API.example.org." TypeA "fab" 0 answer0 0); [by left|done|by vm_compute].
Qed.

Lemma Get_isolated_witness :
  ∃ r s', Get "api.EXAMPLE.org." TypeA "lab" (10 * Second) (cw_mem w1) = Some (r, s') ∧ r = None.
Proof.
  destruct (Get_isolated 2 w1 "api.EXAMPLE.org." TypeA "lab" (10 * Second) reach1)
    as (r & s' & Hg & _ & Hr).
  exists r, s'. split; [exact Hg|]. destruct r as [p|]; [|done].
  destruct (Hr p eq_refl) as (v & t0 & ttl & out & Hp & _). by vm_compute in Hp.
Defined.

Lemma Get_answer_ttl_witness :
  ∃ v t0, cw_put w1 question0 = Some (v, t0) ∧ Forall2 (fun rr rr' =>
    hdr_Ttl (Hdr rr') * Second + (10 * Second - t0) ≤ maxTTL) (Answer v)
    [rr_of "api.example.org." 20 (RD_A [10; 0; 0; 1])].
Proof.
  edestruct (Get_answer_ttl 2 w1 "API.example.org." TypeA "fab" (10 * Second) 2)
    as (v & t0 & Hv & Hok); [apply reach1|by vm_compute|by vm_compute|].
  exists v, t0. split; [exact Hv|]. injection Hv as <- <-.
  eapply Forall2_impl; [apply Hok; by repeat constructor|]. by intros rr rr' (_ & _ & _ & ?).
Defined.

Lemma Put_Get_witness :
  ∃ s1 p' s2, Put "api.example.org." TypeA "fab" (Some 0%nat) 5 (cw_mem w0) = Some (tt, s1) ∧
    Get "API.example.org." TypeA "fab" (Second + 5) s1 = Some (Some p', s2).
Proof.
  destruct (Put_Get 2 w0 "api.example.org." TypeA "fab" 0 answer0 (30 * Second) 5)
    as (s1 & Hp & Hg); [apply reach0|by left|done|by vm_compute|].
  destruct (Hg "API.example.org." (Second + 5)) as (p' & s2 & Hget & _);
    [by vm_compute|unfold Second; lia|].
  by exists s1, p', s2.
Defined.

Lemma Cache_bounded_witness : 0 ≤ Cache_Len (cw_mem w1) ≤ 2.
Proof. apply (Cache_bounded 2), reach1. Defined.

(** a hit can raise a TTL: the authority record stored with five seconds is
    returned at once with thirty, because [Get] overwrites every TTL with the
    entry's remaining lifetime, which follows the answer section only. *)
Theorem Get_raises_authority_ttl :
  ∃ w p s' out, creach 2 w ∧
    Get "api.example.org." TypeA "fab" 0 (cw_mem w) = Some (Some p, s') ∧
    m_heap s' !! p = Some out ∧
    (∃ v t0, cw_put w (asked "api.example.org." TypeA "fab") = Some (v, t0) ∧
       map (fun rr => hdr_Ttl (Hdr rr)) (Ns v) = [5]) ∧
    map (fun rr => hdr_Ttl (Hdr rr)) (Ns out) = [30].
Proof.
  eexists w1, 2%nat, _, _. split; [apply reach1|].
  split; [by vm_compute|]. split; [done|]. split; [by eexists _, _|by vm_compute].
Qed.
End ZoneCacheWitnesses.
