(* ===== verification/Agent.v ===== *)
(** * plugin/zonedns_agent: the node-side handler

    agent.go and resolver.go. [Agent_ServeDNS] resolves the client's zone, looks the
    answer up under that zone, and otherwise asks central with the zone declared.
    The zone resolver and the upstream are interfaces, as in the source:
    [ZoneResolver] with the watcher and the static resolver as instances, and
    [Upstream]. A run threads the heap and the cache, the upstream's state, and the
    trace of the handler's effects. *)

From S2P Require Import Prelude GoStd NetIP DnsLib EdnsZone Identity PodZone ZoneCache.
Import Strings.

Open Scope Z_scope.

(** ** resolver.go *)
Class ZoneResolver (R : Type) := { Zone : R → Addr → option string }.

Record StaticResolver := { s_zone : string }.

Definition NewStaticResolver (zone : string) : StaticResolver := {| s_zone := zone |}.

Definition StaticResolver_Zone (s : StaticResolver) (_ : Addr) : option string :=
  if bool_decide (s_zone s = "") then None else Some (s_zone s).

#[export] Instance StaticResolver_resolver : ZoneResolver StaticResolver :=
  {| Zone := StaticResolver_Zone |}.

#[export] Instance Watcher_resolver : ZoneResolver Watcher := {| Zone := Watcher_Zone |}.

(** What a resolver promises the agent: the zones it returns are ones the wire
    format carries. *)
Class ResolverOk {R : Type} `{ZoneResolver R} (r : R) : Prop :=
  Zone_Valid : ∀ a z, Zone r a = Some z → Valid z = true.

(** ** agent.go *)

(** The interface [Upstream]: the query's value in, a new message, nil or an error
    out, against the upstream's own state. *)
Class Upstream (E W : Type) := {
  Exchange : Msg → W → result E (option Msg) * W;
}.

(** A reply or an error, never neither. *)
Class UpstreamLaws (E W : Type) `{Upstream E W} : Prop := {
  Exchange_not_nil m w : (Exchange m w).1 ≠ Ok None;
}.

Inductive aevent :=
  | ZoneResolutionInc (result : string)
  | CacheInc (result : string)
  | UpstreamErrorsInc
  | LogExchangeFailed (name : string)
  | LogWrongQuestion (name : string)
  | LogReplyWriteFailed (name : string)
  | Exchanged (outbound : Msg) (answer : option Msg)   (** None: an error or nil *)
  | Wrote (reply : Msg).

#[global] Instance aevent_eq_dec : EqDecision aevent.
Proof. solve_decision. Defined.

Section agent.
Context {R E W : Type} `{Unicode, DnsOps, RequestOps, LruOps key entry, ZoneResolver R, Upstream E W}.

Record Agent := {
  Resolver : R;
  EDNS0Code : Z;
  NodeIP : Addr;
}.

Definition Agent_Name : string := "zonedns_agent".

(** The state of a run: [Agent.Cache] and the heap, the upstream, the trace. *)
Record astate := { as_mem : mem; as_up : W; as_trace : list aevent }.

Definition in_mem {A} (f : GoM mem A) : GoM astate A := fun s =>
  match f (as_mem s) with
  | Some (a, m) => Some (a, {| as_mem := m; as_up := as_up s; as_trace := as_trace s |})
  | None => None
  end.

Definition record (e : aevent) : GoM astate unit :=
  modify_state (fun s => {| as_mem := as_mem s; as_up := as_up s; as_trace := as_trace s ++ [e] |}).

Definition exchange (m : Msg) : GoM astate (result E (option Msg)) := fun s =>
  let '(res, w') := Exchange m (as_up s) in
  let ans := match res with Ok ans => ans | Err _ => None end in
  Some (res, {| as_mem := as_mem s; as_up := w'; as_trace := as_trace s ++ [Exchanged m ans] |}).

Definition resolveZone (a : Agent) (srcIP : string) : GoM astate (string * bool) :=
  match ParseAddr srcIP with
  | None => record (ZoneResolutionInc "bad_source");; mret ("", false)
  | Some src =>
      if IsValid (NodeIP a) && bool_decide (src = NodeIP a)
      then record (ZoneResolutionInc "node_ip");; mret ("", false)
      else
        match Zone (Resolver a) src with
        | None => record (ZoneResolutionInc "unknown");; mret ("", false)
        | Some zone => record (ZoneResolutionInc "ok");; mret (zone, true)
        end
  end.

Definition strip_options (m : Msg) (code : Z) : Msg :=
  match IsEdns0 m with
  | None => m
  | Some opt => set_opt_Option m opt (Slices.compact (is_zone_option code) (opt_Option m opt))
  end.

Definition stripZoneOption (p : nat) (code : Z) : GoM mem unit :=
  m ← deref p; assign p (strip_options m code).

(** The loop of [answersQuestion], the two slices being of one length. *)
Fixpoint same_questions (qs as_ : list Question) : bool :=
  match qs, as_ with
  | [], _ => true
  | q :: qs', a :: as' =>
      if negb (EqualFold (q_Name q) (q_Name a)) || negb (q_Qtype q =? q_Qtype a) ||
         negb (q_Qclass q =? q_Qclass a)
      then false else same_questions qs' as'
  | _ :: _, [] => false
  end.

Definition answersQuestion (outbound answer : Msg) : bool :=
  if negb (length (Questions answer) =? length (Questions outbound))%nat then false
  else same_questions (Questions outbound) (Questions answer).

(** [rcode := p.Rcode; p.SetReply(r); p.Rcode = rcode; w.WriteMsg(p)] *)
Definition reply (w : ResponseWriter) (p r : nat) (name : string) : GoM astate unit :=
  m ← in_mem (deref p);
  let rcode := Rcode m in
  rv ← in_mem (deref r);
  in_mem (assign p (SetReply m rv));;
  m' ← in_mem (deref p);
  in_mem (assign p (with_Rcode m' rcode));;
  out ← in_mem (deref p);
  record (Wrote out);;
  match rw_WriteErr w out with
  | Some _ => record (LogReplyWriteFailed name)
  | None => mret tt
  end.

(** [ServeDNS] from the exchange on: [ov] is the outbound query. *)
Definition forward (w : ResponseWriter) (r : nat) (rv : Msg) (zone : string) (now : Z)
    (ov : Msg) : GoM astate (Z * option string) :=
  res ← exchange ov;
  match res with
  | Err _ =>
      record UpstreamErrorsInc;; record (LogExchangeFailed (req_Name rv));;
      mret (RcodeServerFailure, None)
  | Ok ans =>
      av ← of_option ans;
      answer ← in_mem (alloc av);
      if negb (answersQuestion ov av)
      then
        record UpstreamErrorsInc;; record (LogWrongQuestion (req_Name rv));;
        mret (RcodeServerFailure, None)
      else
        in_mem (Put (req_Name rv) (QType rv) zone (Some answer) now);;
        reply w answer r (req_Name rv);;
        mret (RcodeSuccess, None)
  end.

(** [ServeDNS] after a cache miss. *)
Definition ask_central (a : Agent) (w : ResponseWriter) (r : nat) (rv : Msg) (zone : string)
    (haveZone : bool) (now : Z) : GoM astate (Z * option string) :=
  outbound ← in_mem (copy_msg r);
  in_mem (stripZoneOption outbound (EDNS0Code a));;
  (if haveZone
   then m ← in_mem (deref outbound);
        m' ← of_option (SetZone m (EDNS0Code a) zone);
        in_mem (assign outbound m')
   else mret tt);;
  ov ← in_mem (deref outbound);
  forward w r rv zone now ov.

Definition Agent_ServeDNS (a : Agent) (w : ResponseWriter) (r : nat) (now : Z)
    : GoM astate (Z * option string) :=
  rv ← in_mem (deref r);
  zh ← resolveZone a (rw_RemoteIP w);
  let '(zone, haveZone) := zh in
  hit ← in_mem (Get (req_Name rv) (QType rv) zone now);
  match hit with
  | Some cached =>
      record (CacheInc "hit");;
      reply w cached r (req_Name rv);;
      mret (RcodeSuccess, None)
  | None =>
      record (CacheInc "miss");;
      ask_central a w r rv zone haveZone now
  end.

Lemma in_mem_run {A} (f : GoM mem A) s x m :
  f (as_mem s) = Some (x, m) →
  in_mem f s = Some (x, {| as_mem := m; as_up := as_up s; as_trace := as_trace s |}).
Proof. unfold in_mem. by intros ->. Qed.

Lemma deref_run p s v : m_heap (as_mem s) !! p = Some v → in_mem (deref p) s = Some (v, s).
Proof. intros Hp. erewrite in_mem_run; [|unfold deref; by rewrite Hp]. by destruct s. Qed.

(** ** The specification *)

(** The zone the agent attributes to the client of a connection. *)
Definition client_zone (a : Agent) (w : ResponseWriter) : option string :=
  src ← ParseAddr (rw_RemoteIP w);
  if IsValid (NodeIP a) && bool_decide (src = NodeIP a) then None else Zone (Resolver a) src.

(** What the agent sends for a query: the query without declarations of its own,
    and with the client's zone when there is one. *)
Definition outbound_msg (a : Agent) (zone : option string) (rv : Msg) : option Msg :=
  let m := strip_options (Copy rv) (EDNS0Code a) in
  match zone with Some z => SetZone m (EDNS0Code a) z | None => Some m end.

(** The reply to [rv] made of [m]. *)
Definition reply_msg (m rv : Msg) : Msg := with_Rcode (SetReply m rv) (Rcode m).

(** ** Runs *)
Lemma resolveZone_run a w s :
  ∃ res, resolveZone a (rw_RemoteIP w) s =
    Some ((default "" (client_zone a w), bool_decide (is_Some (client_zone a w))),
          {| as_mem := as_mem s; as_up := as_up s; as_trace := as_trace s ++ [ZoneResolutionInc res] |}).
Proof.
  unfold resolveZone, client_zone, record. go_run.
  destruct (ParseAddr (rw_RemoteIP w)) as [src|]; cbn; [|by eexists].
  destruct (IsValid (NodeIP a) && bool_decide (src = NodeIP a)); [by eexists|].
  destruct (Zone (Resolver a) src); by eexists.
Qed.

(** What reached the client, and what was exchanged with central. *)
Definition wrote (t : list aevent) : list Msg :=
  omap (fun e => match e with Wrote m => Some m | _ => None end) t.

Definition exchanges (t : list aevent) : list (Msg * option Msg) :=
  omap (fun e => match e with Exchanged o ans => Some (o, ans) | _ => None end) t.

Definition quiet (t : list aevent) : Prop := wrote t = [] ∧ exchanges t = [].

Lemma reply_run w p r name m rv s :
  m_heap (as_mem s) !! p = Some m → m_heap (as_mem s) !! r = Some rv → p ≠ r →
  ∃ tail, reply w p r name s =
    Some (tt, {| as_mem := with_heap (as_mem s) (<[p := reply_msg m rv]> (m_heap (as_mem s)));
                 as_up := as_up s; as_trace := as_trace s ++ Wrote (reply_msg m rv) :: tail |}) ∧
    quiet tail.
Proof.
  intros Hp Hr Hne. pose proof (lookup_lt_Some _ _ _ Hp) as Hlt.
  unfold reply, in_mem, deref, assign, record. go_run. rewrite Hp. cbn [as_mem].
  rewrite Hr. cbn [as_mem]. rewrite Hp. cbn [as_mem m_heap with_heap].
  rewrite list_lookup_insert_eq by done. cbn [as_mem m_heap with_heap].
  rewrite list_lookup_insert_eq by done. cbn [as_mem m_heap with_heap].
  rewrite list_insert_insert_eq.
  rewrite list_lookup_insert_eq by (by rewrite ?length_insert). cbn [as_mem as_up as_trace].
  fold (reply_msg m rv). destruct (rw_WriteErr w (reply_msg m rv)).
  - exists [LogReplyWriteFailed name]. cbn. by rewrite <-app_assoc.
  - by exists [].
Qed.

(** Building the outbound query touches its own cell only. *)
Lemma outbound_run {A} a z rv ov r (f : Msg → nat → GoM astate A) s :
  m_heap (as_mem s) !! r = Some rv → outbound_msg a z rv = Some ov →
  (outbound ← in_mem (copy_msg r);
   in_mem (stripZoneOption outbound (EDNS0Code a));;
   (if bool_decide (is_Some z)
    then m ← in_mem (deref outbound);
         m' ← of_option (SetZone m (EDNS0Code a) (default "" z));
         in_mem (assign outbound m')
    else mret tt);;
   ov ← in_mem (deref outbound);
   f ov outbound) s =
  f ov (length (m_heap (as_mem s)))
    {| as_mem := with_heap (as_mem s) (m_heap (as_mem s) ++ [ov]);
       as_up := as_up s; as_trace := as_trace s |}.
Proof.
  intros Hr Hov. unfold in_mem, copy_msg, stripZoneOption, alloc, deref, assign. go_run.
  rewrite Hr. cbn [as_mem as_up as_trace m_heap with_heap].
  rewrite !lookup_last. cbn [as_mem as_up as_trace m_heap with_heap].
  rewrite !lookup_last. cbn [as_mem as_up as_trace m_heap with_heap]. rewrite insert_last.
  unfold outbound_msg in Hov. destruct z as [z|]; cbn in *.
  - rewrite lookup_last. cbn. rewrite Hov. cbn. rewrite lookup_last. cbn.
    rewrite insert_last, lookup_last. done.
  - rewrite lookup_last. simplify_eq. done.
Qed.

Section laws.
Context `{!DnsLaws, !LruLaws key entry}.

Definition declared_as (code : Z) (z : option string) (ov : Msg) : Prop :=
  GetZone ov code = z.

Lemma strip_options_spec m code :
  GetZone (strip_options m code) code = None ∧ Questions (strip_options m code) = Questions m ∧
  Id (strip_options m code) = Id m.
Proof.
  unfold strip_options. destruct (IsEdns0 m) as [i|] eqn:Hi.
  - split; [|done]. rewrite (GetZone_options _ _ i) by by apply IsEdns0_set_opt.
    rewrite opt_Option_set_opt, Slices.compact_filter by done.
    fold (other_options code (opt_Option m i)). by rewrite zone_options_other.
  - split; [|done]. unfold GetZone. by rewrite Hi.
Qed.

(** Options under another code are not the agent's concern. *)
Lemma strip_options_other m code code' :
  code' ≠ code → GetZone (strip_options m code) code' = GetZone m code'.
Proof.
  intros Hne. unfold strip_options. destruct (IsEdns0 m) as [i|] eqn:Hi; [|done].
  rewrite (GetZone_options _ _ i) by by apply IsEdns0_set_opt.
  rewrite opt_Option_set_opt, Slices.compact_filter by done.
  fold (other_options code (opt_Option m i)). rewrite zone_options_other_ne by done.
  by rewrite (GetZone_options m code' i Hi).
Qed.

(** The query sent exists, asks the same question, and declares the zone given and
    nothing else. *)
Lemma outbound_spec a z rv :
  (∀ zone, z = Some zone → Valid zone = true) →
  ∃ ov, outbound_msg a z rv = Some ov ∧ GetZone ov (EDNS0Code a) = z ∧
        Questions ov = Questions rv.
Proof.
  intros Hz. unfold outbound_msg. rewrite Copy_deep.
  destruct (strip_options_spec rv (EDNS0Code a)) as (Hg & Hq & _).
  destruct z as [zone|]; [|by eexists].
  destruct (SetZone_result (strip_options rv (EDNS0Code a)) (EDNS0Code a) zone)
    as (m' & i & Hs & Hi & Hopt & Hqs & _).
  exists m'. split; [done|]. split; [|by rewrite Hqs].
  rewrite (GetZone_options _ _ i Hi), Hopt. by rewrite Hz.
Qed.

(** ** The handler obeys the cache's protocol

    [tracks n s cw]: the handler's memory is that of a cache of size [n] whose
    callers kept to their cells; every operation of the handler keeps it so. *)
Definition tracks (n : Z) (s : astate) (cw : cworld) : Prop :=
  creach n cw ∧ cw_mem cw = as_mem s.

Definition caller_step (m : mem) (held : list nat)
    (put : question → option (Msg * Z)) (now : Z) : cworld :=
  {| cw_mem := m; cw_held := held; cw_put := put; cw_latest := now |}.

Lemma tracks_alloc n s cw v up t :
  tracks n s cw →
  tracks n {| as_mem := with_heap (as_mem s) (m_heap (as_mem s) ++ [v]); as_up := up; as_trace := t |}
    (caller_step (with_heap (as_mem s) (m_heap (as_mem s) ++ [v]))
       (length (m_heap (as_mem s)) :: cw_held cw) (cw_put cw) (cw_latest cw)).
Proof.
  intros [Hr Hm]. split; [|done]. eapply cr_step; [done|].
  apply (cs_alloc cw v). rewrite Hm. done.
Qed.

Lemma tracks_write n s cw p v up t :
  tracks n s cw → p ∈ cw_held cw → is_Some (m_heap (as_mem s) !! p) →
  tracks n {| as_mem := with_heap (as_mem s) (<[p := v]> (m_heap (as_mem s))); as_up := up; as_trace := t |}
    (caller_step (with_heap (as_mem s) (<[p := v]> (m_heap (as_mem s))))
       (cw_held cw) (cw_put cw) (cw_latest cw)).
Proof.
  intros [Hr Hm] Hp [x Hx]. split; [|done]. eapply cr_step; [done|].
  apply (cs_write cw p v); [done|]. unfold assign. rewrite Hm, Hx. done.
Qed.

Lemma tracks_put n s cw qname qtype zone p v now s' up t :
  tracks n s cw → p ∈ cw_held cw → m_heap (as_mem s) !! p = Some v →
  Put qname qtype zone (Some p) now (as_mem s) = Some (tt, s') →
  tracks n {| as_mem := s'; as_up := up; as_trace := t |}
    (caller_step s' (cw_held cw) (note_put (cw_put cw) (asked qname qtype zone) v now)
       (Z.max (cw_latest cw) now)).
Proof.
  intros [Hr Hm] Hp Hv HP. split; [|done]. eapply cr_step; [done|].
  apply cs_put with p; [done..|by rewrite Hm|by rewrite Hm].
Qed.

Lemma tracks_get n s cw qname qtype zone now r s' up t :
  tracks n s cw → Get qname qtype zone now (as_mem s) = Some (r, s') →
  tracks n {| as_mem := s'; as_up := up; as_trace := t |}
    (caller_step s' (from_option (fun p => p :: cw_held cw) (cw_held cw) r) (cw_put cw) (cw_latest cw)).
Proof.
  intros [Hr Hm] HG. split; [|done]. eapply cr_step; [done|].
  apply cs_get with qname qtype zone now. by rewrite Hm.
Qed.

Lemma wrote_app t t' : wrote (t ++ t') = wrote t ++ wrote t'.
Proof. apply omap_app. Qed.

Lemma exchanges_app t t' : exchanges (t ++ t') = exchanges t ++ exchanges t'.
Proof. apply omap_app. Qed.

(** Replying with a message the handler holds keeps the protocol. *)
Lemma reply_tracks n s cw w p r name m rv :
  tracks n s cw → p ∈ cw_held cw → m_heap (as_mem s) !! p = Some m →
  m_heap (as_mem s) !! r = Some rv → p ≠ r →
  ∃ s' cw' tail, reply w p r name s = Some (tt, s') ∧ tracks n s' cw' ∧
    cw_latest cw' = cw_latest cw ∧ cw_put cw' = cw_put cw ∧
    as_trace s' = as_trace s ++ tail ∧ wrote tail = [reply_msg m rv] ∧ exchanges tail = [].
Proof.
  intros Htr Hheld Hp Hr Hne.
  destruct (reply_run w p r name m rv s Hp Hr Hne) as (tail & Hrep & Hw & He).
  eexists _, _, (Wrote (reply_msg m rv) :: tail). split; [done|].
  split; [by apply (tracks_write n s cw p (reply_msg m rv) _ _ Htr)|].
  split_and!; try done. unfold wrote in *; cbn. by rewrite Hw.
Qed.

(** ** From the exchange on *)
Lemma forward_run n s cw w r rv zone now ov :
  tracks n s cw → r ∈ cw_held cw → m_heap (as_mem s) !! r = Some rv → cw_latest cw ≤ now →
  (Exchange ov (as_up s)).1 ≠ Ok None →
  ∃ res s' cw' t, forward w r rv zone now ov s = Some (res, s') ∧ tracks n s' cw' ∧
    cw_latest cw' ≤ now ∧ as_trace s' = as_trace s ++ t ∧
    match (Exchange ov (as_up s)).1 with
    | Ok (Some av) =>
        exchanges t = [(ov, Some av)] ∧
        if answersQuestion ov av
        then res = (RcodeSuccess, None) ∧ wrote t = [reply_msg av rv] ∧
             cw_put cw' = note_put (cw_put cw) (asked (req_Name rv) (QType rv) zone) av now
        else res = (RcodeServerFailure, None) ∧ wrote t = [] ∧ cw_put cw' = cw_put cw ∧
             m_cache (as_mem s') = m_cache (as_mem s)
    | _ => exchanges t = [(ov, None)] ∧ res = (RcodeServerFailure, None) ∧ wrote t = [] ∧
           cw_put cw' = cw_put cw ∧ m_cache (as_mem s') = m_cache (as_mem s)
    end.
Proof.
  intros Htr Hheld Hr Hnow Hnil. unfold forward, exchange, record, in_mem, alloc. go_run.
  destruct (Exchange ov (as_up s)) as [[[av|]|e] up']; cbn [fst] in *; [|done|].
  2:{ eexists _, _, cw, _. split; [done|]. split; [exact Htr|]. split; [done|].
      cbn. rewrite <-!app_assoc. by split. }
  cbn [as_mem as_up as_trace].
  pose proof (tracks_alloc n s cw av up' (as_trace s ++ [Exchanged ov (Some av)]) Htr) as Htr1.
  destruct (answersQuestion ov av) eqn:Hq; cbn [negb].
  2:{ eexists _, _, _, _. split; [done|]. split; [exact Htr1|]. split; [done|].
      cbn. rewrite <-!app_assoc. by split. }
  set (s1 := {| as_mem := _; as_up := up'; as_trace := _ |}) in *.
  set (cw1 := caller_step _ _ _ _) in *. set (p := length (m_heap (as_mem s))) in *.
  assert (Hp1 : m_heap (as_mem s1) !! p = Some av) by apply lookup_last.
  assert (Hr1 : m_heap (as_mem s1) !! r = Some rv) by by apply lookup_app_l_Some.
  assert (Hpr : p ≠ r) by (apply lookup_lt_Some in Hr; subst p; lia).
  pose proof (Put_run (req_Name rv) (QType rv) zone p av now (as_mem s1) Hp1) as HPut.
  rewrite HPut. set (m2 := match put_ttl av with None => _ | _ => _ end) in *.
  pose proof (tracks_put n s1 cw1 _ _ _ p av now m2 up' (as_trace s1) Htr1
    (list_elem_of_here _ _) Hp1 HPut) as Htr2.
  set (s2 := {| as_mem := m2; as_up := up'; as_trace := as_trace s1 |}) in *.
  assert (Hgrow : ∀ i x, m_heap (as_mem s1) !! i = Some x → m_heap (as_mem s2) !! i = Some x).
  { intros i x Hx. subst s2 m2. cbn. destruct (put_ttl av); [by apply lookup_app_l_Some|done]. }
  destruct (reply_tracks n s2 _ w p r (req_Name rv) av rv Htr2)
    as (s3 & cw3 & tail & Hrep & Htr3 & Hn3 & Hp3 & Ht3 & Hw & He); [by left|by apply Hgrow..|done|].
  change (as_up s1) with up'. fold s2. rewrite Hrep.
  eexists _, _, _, (Exchanged ov (Some av) :: tail). split; [done|]. split; [done|].
  rewrite Hn3, Hp3, Ht3. split; [cbn; lia|]. subst s2 s1. cbn. rewrite <-app_assoc. split; [done|].
  unfold wrote, exchanges in *; cbn. by rewrite Hw, He.
Qed.

(** Every lookup finds what it found before. *)
Definition same_cache (s s' : astate) : Prop :=
  ∀ k, lru_Peek (l (m_cache (as_mem s'))) k = lru_Peek (l (m_cache (as_mem s))) k.

(** The cache has a live answer for the query, from this client's zone. *)
Definition remembers (a : Agent) (w : ResponseWriter) (rv : Msg) (now : Z) (s : astate) : Prop :=
  live (m_cache (as_mem s)) (makeKey (req_Name rv) (QType rv) (default "" (client_zone a w))) now.

(** The reply repeats the questions asked: as many, in order, each with the same type
    and class and a name that differs at most in case. *)
Definition repeats (ov av : Msg) : Prop :=
  Forall2 (fun q a => EqualFold (q_Name q) (q_Name a) = true ∧ q_Qtype q = q_Qtype a ∧
                      q_Qclass q = q_Qclass a) (Questions ov) (Questions av).

Lemma answersQuestion_repeats ov av : answersQuestion ov av = true ↔ repeats ov av.
Proof.
  unfold answersQuestion, repeats. generalize (Questions ov) as qs, (Questions av) as as_. intros qs as_.
  destruct (Nat.eqb_spec (length as_) (length qs)) as [Hlen|Hlen]; cbn.
  2:{ split; [done|]. intros ?%Forall2_length. congruence. }
  revert as_ Hlen. induction qs as [|q qs IH]; intros [|x as_] Hlen; try done; cbn.
  rewrite Forall2_cons, <-IH by (by injection Hlen).
  destruct (EqualFold _ _), (Z.eqb_spec (q_Qtype q) (q_Qtype x)), (Z.eqb_spec (q_Qclass q) (q_Qclass x));
    cbn; naive_solver.
Qed.

(** ** A whole query *)
Lemma serve_run n s cw a w r rv now :
  tracks n s cw → r ∈ cw_held cw → m_heap (as_mem s) !! r = Some rv → cw_latest cw ≤ now →
  (∀ z, client_zone a w = Some z → Valid z = true) →
  (∀ m up, (Exchange (E := E) m up).1 ≠ Ok None) →
  let z := client_zone a w in
  let k := asked (req_Name rv) (QType rv) (default "" z) in
  ∃ res s' cw' t, Agent_ServeDNS a w r now s = Some (res, s') ∧ tracks n s' cw' ∧
    cw_latest cw' ≤ now ∧ as_trace s' = as_trace s ++ t ∧
    ((∃ v t0 ttl, cw_put cw k = Some (v, t0) ∧ put_ttl v = Some ttl ∧ t0 ≤ now < t0 + ttl ∧
        res = (RcodeSuccess, None) ∧ exchanges t = [] ∧
        wrote t = [reply_msg (aged v ttl (now - t0)) rv] ∧ cw_put cw' = cw_put cw ∧
        remembers a w rv now s) ∨
     (∃ ov, outbound_msg a z rv = Some ov ∧ GetZone ov (EDNS0Code a) = z ∧
        Questions ov = Questions rv ∧ ¬ remembers a w rv now s ∧
        match (Exchange (E := E) ov (as_up s)).1 with
        | Ok (Some av) =>
            exchanges t = [(ov, Some av)] ∧
            if answersQuestion ov av
            then res = (RcodeSuccess, None) ∧ wrote t = [reply_msg av rv] ∧
                 cw_put cw' = note_put (cw_put cw) k av now
            else res = (RcodeServerFailure, None) ∧ wrote t = [] ∧ cw_put cw' = cw_put cw ∧
                 same_cache s s'
        | _ => exchanges t = [(ov, None)] ∧ res = (RcodeServerFailure, None) ∧ wrote t = [] ∧
               cw_put cw' = cw_put cw ∧ same_cache s s'
        end)).
Proof.
  intros Htr Hheld Hr Hnow Hval Hnil z k.
  unfold Agent_ServeDNS. rewrite (GoM_bind_Some _ _ _ _ _ (deref_run r s rv Hr)).
  destruct (resolveZone_run a w s) as [zr Hres]. fold z in Hres.
  rewrite (GoM_bind_Some _ _ _ _ _ Hres). pose proof Htr as [Hreach Hmem].
  destruct (Get_reach n cw (req_Name rv) (QType rv) (default "" z) now Hreach Hnow)
    as (hit & m1 & HGet & Hpeek & Hcase). rewrite Hmem in HGet, Hpeek, Hcase. fold k in Hcase.
  assert (Hhit : is_Some hit ↔ remembers a w rv now s).
  { unfold remembers. rewrite <-Hmem. eapply Get_hit; [done|]. rewrite Hmem. exact HGet. }
  erewrite GoM_bind_Some; [|by apply in_mem_run]. cbn [as_mem as_up as_trace].
  pose proof (tracks_get n s cw _ _ _ now hit m1 (as_up s)
    ((as_trace s ++ [ZoneResolutionInc zr]) ++ [CacheInc (if hit is Some _ then "hit" else "miss")])
    Htr HGet) as Htr1.
  set (cw1 := caller_step _ _ _ _) in Htr1.
  destruct hit as [p|]; (erewrite GoM_bind_Some; [|done]); cbn [as_mem as_up as_trace].
  - destruct Hcase as (v & t0 & ttl & Hput & Httl & Hlive & Hfresh & Hheap & ->).
    set (s1 := {| as_mem := m1; as_up := _; as_trace := _ |}) in *.
    assert (Hp1 : m_heap (as_mem s1) !! length (m_heap (as_mem s)) = Some (aged v ttl (now - t0))).
    { subst s1. cbn. rewrite Hheap. apply lookup_last. }
    edestruct (reply_tracks n s1 cw1 w (length (m_heap (as_mem s))) r (req_Name rv))
      as (s2 & cw2 & tail & Hrep & Htr2 & Hn2 & Hp2 & Ht2 & Hw & He); [done|by left|done| | |].
    { subst s1. cbn. rewrite Hheap. by apply lookup_app_l_Some. }
    { apply lookup_lt_Some in Hr. lia. }
    rewrite (GoM_bind_Some _ _ _ _ _ Hrep).
    eexists _, _, _, (ZoneResolutionInc zr :: CacheInc "hit" :: tail). split; [done|].
    split; [done|]. rewrite Hn2, Hp2, Ht2. split; [done|]. split; [cbn; by rewrite <-!app_assoc|].
    left. exists v, t0, ttl. repeat (split; [done|]). by apply Hhit.
  - destruct Hcase as [Hheap _].
    set (s1 := {| as_mem := m1; as_up := _; as_trace := _ |}) in *.
    destruct (outbound_spec a z rv Hval) as (ov & Hov & Hdecl & Hqs).
    assert (Hr1 : m_heap (as_mem s1) !! r = Some rv) by by subst s1; cbn; rewrite Hheap.
    unfold ask_central.
    rewrite (outbound_run a z rv ov r (fun ov _ => forward w r rv (default "" z) now ov) s1 Hr1 Hov).
    set (s2 := {| as_mem := with_heap (as_mem s1) _; as_up := _; as_trace := _ |}).
    pose proof (tracks_alloc n s1 cw1 ov (as_up s1) (as_trace s1) Htr1) as Htr2. fold s2 in Htr2.
    destruct (forward_run n s2 _ w r rv (default "" z) now ov Htr2)
      as (res & s' & cw' & t & Hf & Htr' & Hnow' & Ht & Hout).
    1-4: [> cbn; by right|subst s2; cbn; by apply lookup_app_l_Some|done|apply Hnil].
    exists res, s', cw', (ZoneResolutionInc zr :: CacheInc "miss" :: t). split; [exact Hf|].
    split; [done|]. split; [done|]. split; [rewrite Ht; cbn; by rewrite <-!app_assoc|].
    right. exists ov. split_and!; [done..|by intros [? Hx]%Hhit; discriminate Hx|]. clear Hhit.
    assert (Hsame : m_cache (as_mem s') = m_cache (as_mem s2) → same_cache s s').
    { intros Hc k'. rewrite Hc. apply Hpeek. }
    subst s2 s1. cbn in Hout. repeat case_match; naive_solver.
Qed.

(** ** Sequences of queries *)

(** The server hands the handler a new request message. *)
Definition arrive (s : astate) (rv : Msg) : astate :=
  {| as_mem := with_heap (as_mem s) (m_heap (as_mem s) ++ [rv]);
     as_up := as_up s; as_trace := as_trace s |}.

Definition serve (a : Agent) (w : ResponseWriter) (rv : Msg) (now : Z) (s : astate)
    : option ((Z * option string) * astate) :=
  Agent_ServeDNS a w (length (m_heap (as_mem s))) now (arrive s rv).

(** The states of an agent with option code [code]: queries of any content, from
    any connection, on a forward clock; the resolver's knowledge may change from
    one query to the next. *)
Inductive areach (n code : Z) : astate → Z → Prop :=
  | ar_start c up now :
      NewCache n = Ok c →
      areach n code {| as_mem := {| m_heap := []; m_cache := c |}; as_up := up; as_trace := [] |} now
  | ar_query s now a w rv now' res s' :
      areach n code s now → now ≤ now' → EDNS0Code a = code → ResolverOk (Resolver a) →
      serve a w rv now' s = Some (res, s') → areach n code s' now'.

(** The answer under [k] came from central, for a query that declared [k]'s zone. *)
Definition provenance (code : Z) (t : list aevent) (k : question) (v : Msg) : Prop :=
  ∃ z rv ov, (ov, Some v) ∈ exchanges t ∧ GetZone ov code = z ∧ Questions ov = Questions rv ∧
    k = asked (req_Name rv) (QType rv) (default "" z) ∧ answersQuestion ov v = true.

Lemma provenance_mono code t t' k v : provenance code t k v → provenance code (t ++ t') k v.
Proof.
  intros (z & rv & ov & Hin & Hrest). exists z, rv, ov. split; [|done].
  rewrite exchanges_app. apply elem_of_app. by left.
Qed.

Lemma client_zone_Valid a w z :
  ResolverOk (Resolver a) → client_zone a w = Some z → Valid z = true.
Proof.
  intros Hok. unfold client_zone. destruct (ParseAddr (rw_RemoteIP w)) as [src|]; [|done]. cbn.
  destruct (IsValid (NodeIP a) && _); [done|]. apply Hok.
Qed.

Section upstream_laws.
Context `{!UpstreamLaws E W}.

(** [serve_run] for a query that arrives. *)
Lemma serve_arrives n s cw a w rv now :
  tracks n s cw → cw_latest cw ≤ now → ResolverOk (Resolver a) →
  ∃ res s' cw' t, serve a w rv now s = Some (res, s') ∧ tracks n s' cw' ∧
    cw_latest cw' ≤ now ∧ as_trace s' = as_trace s ++ t ∧
    let z := client_zone a w in
    let k := asked (req_Name rv) (QType rv) (default "" z) in
    ((∃ v t0 ttl, cw_put cw k = Some (v, t0) ∧ put_ttl v = Some ttl ∧ t0 ≤ now < t0 + ttl ∧
        res = (RcodeSuccess, None) ∧ exchanges t = [] ∧
        wrote t = [reply_msg (aged v ttl (now - t0)) rv] ∧ cw_put cw' = cw_put cw ∧
        remembers a w rv now s) ∨
     (∃ ov, outbound_msg a z rv = Some ov ∧ GetZone ov (EDNS0Code a) = z ∧
        Questions ov = Questions rv ∧ ¬ remembers a w rv now s ∧
        match (Exchange (E := E) ov (as_up s)).1 with
        | Ok (Some av) =>
            exchanges t = [(ov, Some av)] ∧
            if answersQuestion ov av
            then res = (RcodeSuccess, None) ∧ wrote t = [reply_msg av rv] ∧
                 cw_put cw' = note_put (cw_put cw) k av now
            else res = (RcodeServerFailure, None) ∧ wrote t = [] ∧ cw_put cw' = cw_put cw ∧
                 same_cache s s'
        | _ => exchanges t = [(ov, None)] ∧ res = (RcodeServerFailure, None) ∧ wrote t = [] ∧
               cw_put cw' = cw_put cw ∧ same_cache s s'
        end)).
Proof.
  intros Htr Hnow Hok. unfold serve.
  pose proof (tracks_alloc n s cw rv (as_up s) (as_trace s) Htr) as Htr1.
  destruct (serve_run n (arrive s rv) _ a w (length (m_heap (as_mem s))) rv now Htr1)
    as (res & s' & cw' & t & Hrun & Htr' & Hnow' & Ht & Hcases).
  - by left.
  - apply lookup_last.
  - done.
  - intros z. by apply client_zone_Valid.
  - intros m up. apply Exchange_not_nil.
  - by exists res, s', cw', t.
Qed.

Lemma areach_inv n code s now :
  areach n code s now →
  ∃ cw, tracks n s cw ∧ cw_latest cw ≤ now ∧
        ∀ k v t0, cw_put cw k = Some (v, t0) → provenance code (as_trace s) k v.
Proof.
  induction 1 as [c up now Hnew|s now a w rv now' res s' _ (cw & Htr & Hcn & Hprov) Hle Hcode Hok Hrun].
  { exists (cstart c [] [] now). split_and!; try done. split; [|done].
    apply cr_start; [done|]. by intros p ?%elem_of_nil. }
  destruct (serve_arrives n s cw a w rv now' Htr) as (res2 & s2 & cw2 & t & Hrun2 & Htr2 & Hcn2 & Ht & Hcases);
    [lia|done|]. rewrite Hrun in Hrun2. simplify_eq.
  exists cw2. split_and!; [done..|].
  assert (Hold : cw_put cw2 = cw_put cw →
    ∀ k v t0, cw_put cw2 k = Some (v, t0) → provenance (EDNS0Code a) (as_trace s2) k v).
  { intros -> k v t0 Hk. rewrite Ht. by eapply provenance_mono, Hprov. }
  destruct Hcases as [(? & ? & ? & _ & _ & _ & _ & _ & _ & Hput & _)|(ov & _ & Hz & Hq & _ & Hcase)].
  { by apply Hold. }
  destruct (Exchange ov (as_up s)).1 as [[av|]|]; [|by apply Hold, Hcase..].
  destruct Hcase as [Hex Hcase]. destruct (answersQuestion ov av) eqn:Haq; [|by apply Hold, Hcase].
  destruct Hcase as (_ & _ & Hput). unfold note_put in Hput.
  destruct (put_ttl av); [|by apply Hold].
  intros k v t0. rewrite Hput. case_decide as Hk.
  - intros [= <- <-]. exists (client_zone a w), rv, ov. split_and!; try done.
    rewrite Ht, exchanges_app, Hex. apply elem_of_app. right. by left.
  - intros Hp. rewrite Ht. by eapply provenance_mono, Hprov.
Qed.

Lemma default_zone_inj (z z' : option string) :
  (∀ x, z = Some x → Valid x = true) → (∀ x, z' = Some x → Valid x = true) →
  default "" z = default "" z' → z = z'.
Proof.
  intros Hz Hz' Heq. destruct z as [x|], z' as [x'|]; cbn in Heq; subst; try done.
  - by destruct (Valid_nonempty "" (Hz "" eq_refl)).
  - by destruct (Valid_nonempty "" (Hz' "" eq_refl)).
Qed.

(** [m] answers [rv] with what central answered, up to the TTLs. *)
Definition relays (rv av m : Msg) : Prop :=
  Id m = Id rv ∧ Response m = true ∧ Rcode m = Rcode av ∧
  (∀ q, Questions rv = [q] → Questions m = [q]) ∧
  map Body (Answer m) = map Body (Answer av).

Lemma reply_msg_relays av m rv :
  Rcode m = Rcode av → map Body (Answer m) = map Body (Answer av) →
  relays rv av (reply_msg m rv).
Proof.
  intros Hrc Han. unfold relays, reply_msg; cbn.
  rewrite SetReply_Id, SetReply_Response, SetReply_Answer. split_and!; try done.
  intros q Hq. by apply (SetReply_Questions _ _ _ [] Hq).
Qed.

Lemma set_ttls_Body v ttl : map Body (Answer (set_ttls v ttl)) = map Body (Answer v).
Proof. cbn. rewrite <-list_fmap_compose. done. Qed.

(** ** Theorems *)

(** the declaration is the agent's own: whatever options a client's query
    carries, forged declarations included, what the agent sends to central for it
    asks the client's question and declares exactly the zone the agent attributes
    to the client's address, or no zone when it attributes none. *)
Theorem agent_declares n code s now0 a w rv now :
  areach n code s now0 → now0 ≤ now → EDNS0Code a = code → ResolverOk (Resolver a) →
  ∃ res s' t, serve a w rv now s = Some (res, s') ∧ as_trace s' = as_trace s ++ t ∧
    ∀ ov ans, (ov, ans) ∈ exchanges t →
      GetZone ov code = client_zone a w ∧ Questions ov = Questions rv.
Proof.
  intros Hr Hnow Hcode Hok. destruct (areach_inv _ _ _ _ Hr) as (cw & Htr & Hcn & _).
  destruct (serve_arrives n s cw a w rv now Htr) as (res & s' & cw' & t & Hrun & _ & _ & Ht & Hcases);
    [lia|done|]. exists res, s', t. split_and!; [done..|]. intros ov ans.
  destruct Hcases as [(? & ? & ? & _ & _ & _ & _ & -> & _)|(ov' & _ & Hz & Hq & _ & Hcase)].
  { by intros ?%elem_of_nil. }
  assert (Hex : ∃ ans', exchanges t = [(ov', ans')]).
  { destruct (Exchange ov' (as_up s)).1 as [[av|]|]; destruct Hcase as [-> _]; by eexists. }
  destruct Hex as [ans' ->]. intros [= -> ->]%list_elem_of_singleton. by rewrite <-Hcode.
Qed.

(** zone isolation at the node: for every sequence of queries from any mix of
    clients, each message written to a client relays an answer central gave, in
    this query or an earlier one, to a query for the same name (in any spelling)
    and type that declared the very zone of this client, or none if the client has
    none; its response code is central's and its id the client's. No answer
    computed for one zone reaches another. *)
Theorem agent_zone_isolation n code s now0 a w rv now :
  areach n code s now0 → now0 ≤ now → EDNS0Code a = code → ResolverOk (Resolver a) →
  ∃ res s' t, serve a w rv now s = Some (res, s') ∧ as_trace s' = as_trace s ++ t ∧
    ∀ m, m ∈ wrote t →
      ∃ rv' ov av, (ov, Some av) ∈ exchanges (as_trace s') ∧
        GetZone ov code = client_zone a w ∧ answersQuestion ov av = true ∧
        Questions ov = Questions rv' ∧ QType rv' = QType rv ∧
        ToLower (req_Name rv') = ToLower (req_Name rv) ∧ relays rv av m.
Proof.
  intros Hr Hnow Hcode Hok. destruct (areach_inv _ _ _ _ Hr) as (cw & Htr & Hcn & Hprov).
  destruct (serve_arrives n s cw a w rv now Htr) as (res & s' & cw' & t & Hrun & _ & _ & Ht & Hcases);
    [lia|done|]. exists res, s', t. split_and!; [done..|]. intros m Hm.
  destruct Hcases as [(v & t0 & ttl & Hput & _ & _ & _ & _ & Hw & _)|(ov & _ & Hz & Hq & _ & Hcase)].
  - rewrite Hw in Hm. apply list_elem_of_singleton in Hm as ->.
    destruct (Hprov _ _ _ Hput) as (z & rv' & ov & Hin & Hz & Hq & Hk & Haq).
    unfold asked in Hk. simplify_eq.
    exists rv', ov, v. split_and!; try done.
    + rewrite Ht, exchanges_app. apply elem_of_app. by left.
    + apply default_zone_inj; [|intros x; by apply client_zone_Valid|done].
      intros x. apply GetZone_Valid.
    + apply reply_msg_relays; [done|apply set_ttls_Body].
  - destruct (Exchange ov (as_up s)).1 as [[av|]|].
    2,3: by destruct Hcase as (_ & _ & Hw & _); rewrite Hw in Hm; apply elem_of_nil in Hm.
    destruct Hcase as [Hex Hcase]. destruct (answersQuestion ov av) eqn:Haq.
    2:{ by destruct Hcase as (_ & Hw & _); rewrite Hw in Hm; apply elem_of_nil in Hm. }
    destruct Hcase as (_ & Hw & _). rewrite Hw in Hm. apply list_elem_of_singleton in Hm as ->.
    exists rv, ov, av. split_and!; try done.
    + rewrite Ht, exchanges_app, Hex. apply elem_of_app. right. by left.
    + by rewrite <-Hcode.
    + by apply reply_msg_relays.
Qed.

(** C24: the handler fails closed and never panics. A query is answered from the cache,
    without asking central, exactly when the cache has a live answer for its name, type
    and zone, and then one message is written, relaying an answer central gave before.
    Otherwise central is asked exactly once: if the exchange succeeds with a reply that
    repeats the question, that reply is relayed; if it fails, or the reply does not
    repeat the question, the query ends in SERVFAIL with nothing written, and every
    lookup in the cache finds what it found before. *)
Theorem agent_fails_closed n code s now0 a w rv now :
  areach n code s now0 → now0 ≤ now → EDNS0Code a = code → ResolverOk (Resolver a) →
  ∃ res s' t, serve a w rv now s = Some (res, s') ∧ as_trace s' = as_trace s ++ t ∧
    ((remembers a w rv now s ∧ res = (RcodeSuccess, None) ∧ exchanges t = [] ∧
      ∃ av m, provenance code (as_trace s) (asked (req_Name rv) (QType rv) (default "" (client_zone a w))) av ∧
        wrote t = [m] ∧ relays rv av m) ∨
     (¬ remembers a w rv now s ∧
      ∃ ov ans, exchanges t = [(ov, ans)] ∧ Questions ov = Questions rv ∧
        ans = match (Exchange (E := E) ov (as_up s)).1 with Ok ans => ans | Err _ => None end ∧
        ((∃ av, ans = Some av ∧ repeats ov av ∧ res = (RcodeSuccess, None) ∧
            wrote t = [reply_msg av rv]) ∨
         ((∀ av, ans = Some av → ¬ repeats ov av) ∧
          res = (RcodeServerFailure, None) ∧ wrote t = [] ∧ same_cache s s')))).
Proof.
  intros Hr Hnow Hcode Hok. destruct (areach_inv _ _ _ _ Hr) as (cw & Htr & Hcn & Hprov).
  destruct (serve_arrives n s cw a w rv now Htr) as (res & s' & cw' & t & Hrun & _ & _ & Ht & Hcases);
    [lia|done|]. exists res, s', t. split_and!; [done..|].
  destruct Hcases as [(v & t0 & ttl & Hput & _ & _ & -> & Hex & Hw & _ & Hrem)|(ov & _ & Hz & Hq & Hrem & Hcase)].
  { left. split_and!; [done..|]. eexists v, _. split_and!; [by eapply Hprov|done|].
    apply reply_msg_relays; [done|apply set_ttls_Body]. }
  right. split; [done|]. exists ov.
  pose proof (Exchange_not_nil ov (as_up s)) as Hnil.
  destruct (Exchange ov (as_up s)).1 as [[av|]|e]; [|done|].
  - destruct Hcase as [Hex Hcase]. exists (Some av). split_and!; [done..|].
    destruct (answersQuestion ov av) eqn:Haq; [left|right].
    + exists av. split_and!; try apply Hcase; [done|by apply answersQuestion_repeats].
    + split_and!; try apply Hcase. intros av' [= <-] Hrep%answersQuestion_repeats. congruence.
  - exists None. split_and!; try apply Hcase; try done. by right; split_and!; try apply Hcase.
Qed.
End upstream_laws.
End laws.
End agent.

(** ** The resolvers keep the promise *)
Lemma static_ok zone : Valid zone = true → ResolverOk (NewStaticResolver zone).
Proof.
  intros Hv a z. unfold Zone, StaticResolver_resolver, StaticResolver_Zone; cbn.
  case_bool_decide; [done|]. by intros [= <-].
Qed.

#[export] Instance watcher_ok node label es : ResolverOk (apply_events (NewWatcher node label) es).
Proof.
  intros a z. unfold Zone, Watcher_resolver. intros [_ Hl]%Zone_iff.
  destruct (table_ok_reachable node label es) as [[_ Hip] _].
  destruct (Hip a z Hl) as (key & pod & _ & Hq). by eapply qualify_Valid.
Qed.

(** a reply is accepted exactly when it repeats the question: as many questions
    as were asked, each with the same type, the same class and the same name up to
    ASCII case, for names of ASCII characters. *)
Theorem answersQuestion_spec `{Unicode} outbound answer :
  Forall (fun q => string_forallb is_ascii (q_Name q) = true)
    (Questions outbound ++ Questions answer) →
  answersQuestion outbound answer = true ↔
  Forall2 (fun q a => ToLower (q_Name q) = ToLower (q_Name a) ∧ q_Qtype q = q_Qtype a ∧
                      q_Qclass q = q_Qclass a) (Questions outbound) (Questions answer).
Proof.
  rewrite Forall_app, answersQuestion_repeats. unfold repeats. intros [Hq Ha].
  split; intros Hall; revert Hq Ha; induction Hall as [|q x qs xs Hqx _ IH]; try done;
    intros [Hq Hqs]%Forall_cons [Hx Hxs]%Forall_cons; (constructor; [|by apply IH]);
    rewrite (EqualFold_ToLower (q_Name q) (q_Name x) Hq Hx) in *;
    rewrite bool_decide_eq_true in *; done.
Qed.

(** ** Witnesses *)
Module AgentWitnesses.
Import DnsLib.Reference LruReference IdentityWitnesses.

(** A central that answers every query with one address. *)
#[export] Instance stub_central : Upstream string unit := {|
  Exchange m w :=
    (Ok (Some (with_Answer (SetReply zero_Msg m)
       [{| Hdr := {| hdr_Name := "api.example.org."; hdr_Rrtype := TypeA;
                     hdr_Class := ClassINET; hdr_Ttl := 300 |};
           Body := RD_A [10; 0; 0; 1] |}])), w);
|}.

#[export] Instance stub_laws : UpstreamLaws string unit.
Proof. by split. Qed.

Definition agent0 : Agent := {|
  Resolver := NewStaticResolver "fab"; EDNS0Code := DefaultCode; NodeIP := AddrZero |}.

Definition start0 : astate := {|
  as_mem := {| m_heap := []; m_cache := {| l := {| entries := []; capacity := 2 |} |} |};
  as_up := tt; as_trace := [] |}.

Definition question (qclass : Z) : Msg := {|
  Id := 7; Response := false; Opcode := 0; Authoritative := false;
  Truncated := false; RecursionDesired := true; RecursionAvailable := false;
  AuthenticatedData := false; CheckingDisabled := false; Rcode := 0;
  Questions := [{| q_Name := "API.example.org."; q_Qtype := TypeA; q_Qclass := qclass |}];
  Answer := []; Ns := [];
  Extra := [{| Hdr := Hdr (fresh_opt 1232 false); Body := RD_OPT [EDNS0_LOCAL 65001 "lab"] |}] |}.

Lemma start_reach : areach (R := StaticResolver) 2 DefaultCode start0 0.
Proof. by apply ar_start. Qed.

Lemma fab_ok : ResolverOk (Resolver agent0).
Proof. by apply static_ok. Qed.

Lemma agent_declares_witness :
  ∃ res s' t, serve agent0 plain_writer (question ClassINET) 5 start0 = Some (res, s') ∧
    as_trace s' = as_trace start0 ++ t ∧
    ∀ ov ans, (ov, ans) ∈ exchanges t → GetZone ov DefaultCode = Some "fab" ∧
      Questions ov = Questions (question ClassINET).
Proof.
  replace (Some "fab") with (client_zone agent0 plain_writer) by by vm_compute.
  apply (agent_declares 2 DefaultCode start0 0 agent0 plain_writer);
    [apply start_reach|done|done|apply fab_ok].
Defined.

Lemma agent_zone_isolation_witness :
  ∃ res s' t m, serve agent0 plain_writer (question ClassINET) 5 start0 = Some (res, s') ∧
    as_trace s' = as_trace start0 ++ t ∧ m ∈ wrote t ∧
    ∃ ov av, (ov, Some av) ∈ exchanges (as_trace s') ∧ relays (question ClassINET) av m.
Proof.
  destruct (agent_zone_isolation 2 DefaultCode start0 0 agent0 plain_writer (question ClassINET) 5)
    as (res & s' & t & Hs & Ht & Hm); [apply start_reach|done|done|apply fab_ok|].
  cbn in Ht. subst t. vm_compute in Hs. injection Hs as <- <-.
  eexists _, _, _, _. split; [by vm_compute|]. split; [done|]. split; [by left|].
  destruct (Hm _ (list_elem_of_here _ _)) as (_ & ov & av & Hin & _ & _ & _ & _ & _ & Hrel).
  by exists ov, av.
Defined.

Lemma agent_fails_closed_witness :
  ∃ res s' t ov ans, serve agent0 plain_writer (question ClassINET) 5 start0 = Some (res, s') ∧
    as_trace s' = as_trace start0 ++ t ∧ exchanges t = [(ov, ans)] ∧
    Questions ov = Questions (question ClassINET).
Proof.
  destruct (agent_fails_closed 2 DefaultCode start0 0 agent0 plain_writer (question ClassINET) 5)
    as (res & s' & t & Hs & Ht & [((e & He & _) & _)|(_ & ov & ans & Hex & Hq & _)]);
    [apply start_reach|done|done|apply fab_ok| |].
  - by vm_compute in He.
  - exists res, s', t, ov, ans. split_and!; [exact Hs|exact Ht|exact Hex|exact Hq].
Defined.

Lemma answersQuestion_spec_witness :
  answersQuestion (question ClassINET)
    (with_Rcode (SetReply zero_Msg (question ClassINET)) 3) = true.
Proof. apply answersQuestion_spec; by repeat constructor. Defined.

(** a cached answer is served to a question of another class: the cache key
    has the name, the type and the zone but not the class, so once the IN answer
    is cached, a class CH query for the name is answered with the IN address and
    never reaches central, where [answersQuestion] would compare the classes. *)
Theorem cache_ignores_class :
  ∃ s1 res s2 t m, areach (R := StaticResolver) 2 DefaultCode s1 5 ∧
    serve agent0 plain_writer (question 3) 6 s1 = Some (res, s2) ∧
    as_trace s2 = as_trace s1 ++ t ∧ exchanges t = [] ∧ wrote t = [m] ∧
    map q_Qclass (Questions m) = [3] ∧
    map (fun rr => (hdr_Class (Hdr rr), Body rr)) (Answer m) = [(ClassINET, RD_A [10; 0; 0; 1])].
Proof.
  assert (Hs1 : ∃ res s1, serve agent0 plain_writer (question ClassINET) 5 start0 = Some (res, s1)).
  { eexists _, _. by vm_compute. }
  destruct Hs1 as (res1 & s1 & Hs1).
  pose proof (ar_query 2 DefaultCode start0 0 agent0 plain_writer (question ClassINET) 5 res1 s1
    start_reach ltac:(done) eq_refl fab_ok Hs1) as Hr1.
  vm_compute in Hs1. injection Hs1 as <- <-.
  eexists _, _, _, _, _. split; [exact Hr1|]. split; [by vm_compute|]. split; [done|].
  by vm_compute.
Qed.
End AgentWitnesses.
