(* ===== verification/AgentConcurrent.v ===== *)
(** * plugin/zonedns_agent: queries that run at once

    CoreDNS calls [ServeDNS] for every query in a goroutine of its own. Here a query
    is a thread that takes the handler's steps one by one, [phase_step], with the
    cache, the heap, the upstream and the clock shared, and with the steps of other
    queries, the arrival of new ones and changes of the resolver in between. A step
    is what the handler does between two accesses to something shared: reading the
    resolver, looking up the cache, the exchange, storing in the cache, writing the
    reply. [phases_ServeDNS] shows that the steps are those of the handler. *)

From S2P Require Import Prelude GoStd NetIP DnsLib EdnsZone Identity PodZone ZoneCache Agent.
Import Strings.

Open Scope Z_scope.

(** Where a query is in [ServeDNS], with the values of its local variables. *)
Inductive phase :=
  | Arrived
  | Located (rv : Msg) (zone : string) (haveZone : bool) (now : Z)  (** after resolveZone *)
  | Missed (rv : Msg) (zone : string) (haveZone : bool) (now : Z)   (** after a cache miss *)
  | Asking (rv : Msg) (zone : string) (now : Z) (ov : Msg)          (** the outbound query is built *)
  | Received (rv : Msg) (zone : string) (now : Z) (answer : nat)    (** an answer to the question *)
  | Replying (rv : Msg) (p : nat)                                   (** the message to write *)
  | Done (res : Z * option string).

#[global] Instance Arrived_dec ph : Decision (ph = Arrived).
Proof. destruct ph; [by left|by right..]. Defined.

Section concurrent.
Context {R E W : Type} `{Unicode, DnsOps, RequestOps, LruOps key entry, ZoneResolver R, Upstream E W}.

#[local] Abbreviation astate := (Agent.astate (W := W)).
#[local] Abbreviation Agent := (Agent.Agent (R := R)).

(** [clock] is what [timeNow] returns in this step; the handler reads it once, so the
    cache is given that time however long the exchange takes. *)
Definition phase_step (a : Agent) (w : ResponseWriter) (r : nat) (clock : Z) (ph : phase)
    : GoM astate phase :=
  match ph with
  | Arrived =>
      rv ← in_mem (deref r);
      zh ← resolveZone a (rw_RemoteIP w);
      let '(zone, haveZone) := zh in
      mret (Located rv zone haveZone clock)
  | Located rv zone haveZone now =>
      hit ← in_mem (Get (req_Name rv) (QType rv) zone now);
      match hit with
      | Some cached => record (CacheInc "hit");; mret (Replying rv cached)
      | None => record (CacheInc "miss");; mret (Missed rv zone haveZone now)
      end
  | Missed rv zone haveZone now =>
      outbound ← in_mem (copy_msg r);
      in_mem (stripZoneOption outbound (EDNS0Code a));;
      (if haveZone
       then m ← in_mem (deref outbound);
            m' ← of_option (SetZone m (EDNS0Code a) zone);
            in_mem (assign outbound m')
       else mret tt);;
      ov ← in_mem (deref outbound);
      mret (Asking rv zone now ov)
  | Asking rv zone now ov =>
      res ← exchange ov;
      match res with
      | Err _ =>
          record UpstreamErrorsInc;; record (LogExchangeFailed (req_Name rv));;
          mret (Done (RcodeServerFailure, None))
      | Ok ans =>
          av ← of_option ans;
          answer ← in_mem (alloc av);
          if negb (answersQuestion ov av)
          then
            record UpstreamErrorsInc;; record (LogWrongQuestion (req_Name rv));;
            mret (Done (RcodeServerFailure, None))
          else mret (Received rv zone now answer)
      end
  | Received rv zone now answer =>
      in_mem (Put (req_Name rv) (QType rv) zone (Some answer) now);;
      mret (Replying rv answer)
  | Replying rv p =>
      reply w p r (req_Name rv);;
      mret (Done (RcodeSuccess, None))
  | Done res => mret (Done res)
  end.

(** A query that runs alone, at one instant. *)
Fixpoint run_phases (fuel : nat) (a : Agent) (w : ResponseWriter) (r : nat) (now : Z) (ph : phase)
    : GoM astate (Z * option string) :=
  match ph with
  | Done res => mret res
  | _ =>
      match fuel with
      | O => panic
      | S fuel' => ph' ← phase_step a w r now ph; run_phases fuel' a w r now ph'
      end
  end.

(** The steps a query has left. *)
Definition rank (ph : phase) : nat :=
  match ph with
  | Arrived => 6 | Located _ _ _ _ => 5 | Missed _ _ _ _ => 4 | Asking _ _ _ _ => 3
  | Received _ _ _ _ => 2 | Replying _ _ => 1 | Done _ => 0
  end.

(** The clock reading a query carries is not after [T]. *)
Definition read_by (T : Z) (ph : phase) : Prop :=
  match ph with
  | Located _ _ _ now | Missed _ _ _ now | Asking _ _ now _ | Received _ _ now _ => now ≤ T
  | Arrived | Replying _ _ | Done _ => True
  end.

(** The cut is the handler's: a query that takes its steps without interruption does
    exactly what [ServeDNS] does, in every state, panics included. *)
Lemma phases_ServeDNS a w r now s :
  run_phases 6 a w r now Arrived s = Agent_ServeDNS a w r now s.
Proof.
  unfold Agent_ServeDNS. cbn [run_phases phase_step]. rewrite GoM_bind_assoc.
  apply GoM_bind_ext; intros rv s1. rewrite GoM_bind_assoc.
  apply GoM_bind_ext; intros [zone haveZone] s2. rewrite GoM_bind_ret.
  cbn [run_phases phase_step]. rewrite GoM_bind_assoc.
  apply GoM_bind_ext; intros [cached|] s3; rewrite GoM_bind_assoc; apply GoM_bind_ext; intros [] s4;
    rewrite GoM_bind_ret; cbn [run_phases phase_step].
  { rewrite GoM_bind_assoc. apply GoM_bind_ext; intros [] s5. by rewrite GoM_bind_ret. }
  unfold ask_central. rewrite GoM_bind_assoc. apply GoM_bind_ext; intros outbound s5.
  do 2 (rewrite GoM_bind_assoc; apply GoM_bind_ext; intros [] ?).
  rewrite GoM_bind_assoc. apply GoM_bind_ext; intros ov s6. rewrite GoM_bind_ret.
  unfold forward. cbn [run_phases phase_step]. rewrite GoM_bind_assoc.
  apply GoM_bind_ext; intros [ans|e] s7.
  2:{ do 2 (rewrite GoM_bind_assoc; apply GoM_bind_ext; intros [] ?). by rewrite GoM_bind_ret. }
  do 2 (rewrite GoM_bind_assoc; apply GoM_bind_ext; intros ? ?).
  destruct (answersQuestion _ _); cbn [negb].
  - rewrite GoM_bind_ret. cbn [run_phases phase_step]. rewrite GoM_bind_assoc.
    apply GoM_bind_ext; intros [] ?. rewrite GoM_bind_ret. cbn [run_phases phase_step].
    rewrite GoM_bind_assoc. apply GoM_bind_ext; intros [] ?. by rewrite GoM_bind_ret.
  - do 2 (rewrite GoM_bind_assoc; apply GoM_bind_ext; intros [] ?). by rewrite GoM_bind_ret.
Qed.

(** A query is looked up once. *)
Lemma phase_step_left a w r now ph s s' : phase_step a w r now ph s ≠ Some (Arrived, s').
Proof. destruct ph; cbn [phase_step]; intros Hs; try done; by go_inv Hs. Qed.

(** A query ends in failure only at the exchange. *)
Lemma phase_step_Done a w r now ph s res s' :
  phase_step a w r now ph s = Some (Done res, s') →
  res = (RcodeSuccess, None) ∨ ph = Done res ∨
  ∃ rv zone now' ov, ph = Asking rv zone now' ov ∧
    ∀ av, (Exchange (E := E) ov (as_up s)).1 = Ok (Some av) → answersQuestion ov av = false.
Proof.
  destruct ph; cbn [phase_step]; intros Hs.
  1-3: by go_inv Hs.
  - right; right. eexists _, _, _, _. split; [done|]. intros av Hav.
    apply GoM_bind_inv in Hs as (x & s1 & Hx & Hs). unfold exchange in Hx.
    destruct (Exchange ov (as_up s)) as [res' up']; cbn in Hav; simplify_eq/=.
    apply GoM_bind_inv in Hs as (av' & s2 & Hav & Hs). unfold of_option in Hav. simplify_eq.
    apply GoM_bind_inv in Hs as (p & s3 & _ & Hs). by destruct (answersQuestion ov av').
  - by go_inv Hs.
  - left. apply GoM_bind_inv in Hs as (x & s1 & _ & Hs). by injection Hs as <- <-.
  - right; left. by injection Hs as <- <-.
Qed.

(** ** The history of the upstream

    [replays up exs up']: the exchanges [exs], made one after the other from the
    upstream's state [up], have these answers and end in [up']. *)
Inductive replays : W → list (Msg * option Msg) → W → Prop :=
  | rp_nil up : replays up [] up
  | rp_cons up ov res up1 exs up2 :
      Exchange ov up = (res, up1) → replays up1 exs up2 →
      replays up ((ov, match res with Ok ans => ans | Err _ => None end) :: exs) up2.

Lemma replays_app up exs up1 exs' up2 :
  replays up exs up1 → replays up1 exs' up2 → replays up (exs ++ exs') up2.
Proof. induction 1; cbn; [done|]. intros. econstructor; eauto. Qed.

(** The state each exchange was made in. *)
Lemma replays_lookup up exs up' k ov av :
  replays up exs up' → exs !! k = Some (ov, Some av) →
  ∃ up1, replays up (take k exs) up1 ∧ (Exchange ov up1).1 = Ok (Some av).
Proof.
  intros Hr. revert k. induction Hr as [|up ov' res up1 exs up2 Hx _ IH]; intros [|k] Hk; [done..| |]; cbn in *.
  - exists up. split; [constructor|]. injection Hk as -> Hres. rewrite Hx. cbn. by destruct res; simplify_eq.
  - destruct (IH k Hk) as (up3 & Hr3 & Hx3). exists up3. split; [by econstructor|done].
Qed.

(** A computation that tells the truth about its exchanges. *)
Definition faithful {A} (f : GoM astate A) : Prop :=
  ∀ s x s', f s = Some (x, s') →
    ∃ t, as_trace s' = as_trace s ++ t ∧ replays (as_up s) (exchanges t) (as_up s').

Lemma faithful_ret {A} (x : A) : faithful (mret x).
Proof. intros s y s' [= <- <-]. exists []. split; [by rewrite app_nil_r|constructor]. Qed.

Lemma faithful_bind {A B} (f : GoM astate A) (g : A → GoM astate B) :
  faithful f → (∀ x, faithful (g x)) → faithful (f ≫= g).
Proof.
  intros Hf Hg s y s' (x & s1 & Hx & Hy)%GoM_bind_inv.
  destruct (Hf _ _ _ Hx) as (t1 & Ht1 & Hr1), (Hg _ _ _ _ Hy) as (t2 & Ht2 & Hr2).
  exists (t1 ++ t2). rewrite Ht2, Ht1, app_assoc, exchanges_app. split; [done|by eapply replays_app].
Qed.

Lemma faithful_in_mem {A} (f : GoM mem A) : faithful (in_mem f).
Proof.
  intros s x s'. unfold in_mem. destruct (f (as_mem s)) as [[y m]|]; [|done]. intros [= <- <-].
  exists []. split; [by rewrite app_nil_r|constructor].
Qed.

Lemma faithful_of_option {A} (o : option A) : faithful (of_option o).
Proof. destruct o; [apply faithful_ret|done]. Qed.

Lemma faithful_record e : exchanges [e] = [] → faithful (record e).
Proof. intros He s x s' [= _ <-]. exists [e]. cbn [as_trace as_up]. rewrite He. split; [done|constructor]. Qed.

Lemma faithful_exchange m : faithful (exchange m).
Proof.
  intros s x s'. unfold exchange. destruct (Exchange m (as_up s)) as [res up] eqn:Hx. intros [= <- <-].
  eexists. split; [done|]. cbn. econstructor; [done|constructor].
Qed.

Ltac faithful_auto :=
  repeat first
    [ apply faithful_ret | apply faithful_in_mem | apply faithful_of_option | apply faithful_exchange
    | apply faithful_record; done | apply faithful_bind; [|intros ?] | case_match ].

Lemma phase_step_faithful a w r clock ph : faithful (phase_step a w r clock ph).
Proof. destruct ph; cbn [phase_step]; unfold resolveZone, reply; faithful_auto. Qed.

(** ** Many queries

    [q_rv] is the request as it arrived and [q_zone] the zone the resolver gave for
    the client when it was asked: what the theorems speak of, not read by the steps. *)
Record query := {
  q_w : ResponseWriter;
  q_r : nat;
  q_rv : Msg;
  q_zone : option string;
  q_phase : phase;
}.

Record world := {
  w_state : astate;
  w_now : Z;
  w_agent : Agent;
  w_queries : list query;
}.

Definition with_resolver (a : Agent) (r : R) : Agent :=
  {| Resolver := r; EDNS0Code := EDNS0Code a; NodeIP := NodeIP a |}.

Definition new_query (s : astate) (w : ResponseWriter) (rv : Msg) : query :=
  {| q_w := w; q_r := length (m_heap (as_mem s)); q_rv := rv; q_zone := None; q_phase := Arrived |}.

Definition moved (a : Agent) (q : query) (ph : phase) : query :=
  {| q_w := q_w q; q_r := q_r q; q_rv := q_rv q;
     q_zone := if q_phase q is Arrived then client_zone a (q_w q) else q_zone q;
     q_phase := ph |}.

Inductive step : world → world → Prop :=
  | st_resolver wd r :
      ResolverOk r →
      step wd {| w_state := w_state wd; w_now := w_now wd; w_agent := with_resolver (w_agent wd) r;
                 w_queries := w_queries wd |}
  | st_arrive wd w rv :
      step wd {| w_state := arrive (w_state wd) rv; w_now := w_now wd; w_agent := w_agent wd;
                 w_queries := w_queries wd ++ [new_query (w_state wd) w rv] |}
  | st_query wd i q now ph s :
      w_queries wd !! i = Some q → w_now wd ≤ now →
      phase_step (w_agent wd) (q_w q) (q_r q) now (q_phase q) (w_state wd) = Some (ph, s) →
      step wd {| w_state := s; w_now := now; w_agent := w_agent wd;
                 w_queries := <[i := moved (w_agent wd) q ph]> (w_queries wd) |}.

Inductive reach (n code : Z) : world → Prop :=
  | re_start c up now a :
      NewCache n = Ok c → EDNS0Code a = code → ResolverOk (Resolver a) →
      reach n code {| w_state := {| as_mem := {| m_heap := []; m_cache := c |};
                                    as_up := up; as_trace := [] |};
                      w_now := now; w_agent := a; w_queries := [] |}
  | re_step wd wd' : reach n code wd → step wd wd' → reach n code wd'.

(** Schedules, executable: which query takes the next step, and when. *)
Definition take_step (wd : world) (turn : nat * Z) : option world :=
  let '(i, now) := turn in
  q ← w_queries wd !! i;
  if bool_decide (w_now wd ≤ now) then
    '(ph, s) ← phase_step (w_agent wd) (q_w q) (q_r q) now (q_phase q) (w_state wd);
    Some {| w_state := s; w_now := now; w_agent := w_agent wd;
            w_queries := <[i := moved (w_agent wd) q ph]> (w_queries wd) |}
  else None.

Fixpoint take_steps (wd : world) (turns : list (nat * Z)) : option world :=
  match turns with
  | [] => Some wd
  | turn :: turns' => wd' ← take_step wd turn; take_steps wd' turns'
  end.

Lemma take_step_step wd turn wd' :
  take_step wd turn = Some wd' → step wd wd' ∧ w_agent wd' = w_agent wd.
Proof.
  destruct turn as [i now]. unfold take_step.
  destruct (w_queries wd !! i) as [q|] eqn:Hi; [|done]. cbn. case_bool_decide; [|done].
  destruct (phase_step _ _ _ _ _ _) as [[ph s]|] eqn:Hs; [|done]. cbn. intros [= <-].
  split; [by eapply st_query|done].
Qed.

Lemma take_steps_reach n code wd turns wd' :
  reach n code wd → take_steps wd turns = Some wd' → reach n code wd'.
Proof.
  revert wd. induction turns as [|turn turns IH]; intros wd Hr; cbn; [by intros [= <-]|].
  destruct (take_step wd turn) as [wd1|] eqn:Ht; [|done]. cbn.
  apply IH. apply take_step_step in Ht as [Ht _]. by eapply re_step.
Qed.

(** ** What a query knows *)

(** [av] is what central answered to a query that declared [z] and asked for the
    name and type of [rv]. *)
Definition from_central (code : Z) (t : list aevent) (rv : Msg) (z : option string) (av : Msg) : Prop :=
  ∃ rv' ov, (ov, Some av) ∈ exchanges t ∧ GetZone ov code = z ∧ answersQuestion ov av = true ∧
    Questions ov = Questions rv' ∧ QType rv' = QType rv ∧
    ToLower (req_Name rv') = ToLower (req_Name rv).

(** The cells only this query writes. *)
Definition owned (q : query) : list nat :=
  q_r q :: match q_phase q with Received _ _ _ p | Replying _ p => [p] | _ => [] end.

Definition phase_ok (code : Z) (s : astate) (q : query) : Prop :=
  let located rv zone haveZone :=
    rv = q_rv q ∧ zone = default "" (q_zone q) ∧ haveZone = bool_decide (is_Some (q_zone q)) in
  match q_phase q with
  | Arrived | Done _ => True
  | Located rv zone haveZone _ | Missed rv zone haveZone _ => located rv zone haveZone
  | Asking rv zone _ ov =>
      rv = q_rv q ∧ zone = default "" (q_zone q) ∧ GetZone ov code = q_zone q ∧ Questions ov = Questions rv
  | Received rv zone _ p =>
      rv = q_rv q ∧ zone = default "" (q_zone q) ∧
      ∃ ov av, m_heap (as_mem s) !! p = Some av ∧ (ov, Some av) ∈ exchanges (as_trace s) ∧
        GetZone ov code = q_zone q ∧ Questions ov = Questions rv ∧ answersQuestion ov av = true
  | Replying rv p =>
      rv = q_rv q ∧
      ∃ m av, m_heap (as_mem s) !! p = Some m ∧
        from_central code (as_trace s) (q_rv q) (q_zone q) av ∧
        Rcode m = Rcode av ∧ map Body (Answer m) = map Body (Answer av)
  end.

Record query_ok (code : Z) (s : astate) (held : list nat) (q : query) : Prop := {
  qo_held p : p ∈ owned q → p ∈ held;
  qo_nodup : NoDup (owned q);
  qo_request : m_heap (as_mem s) !! q_r q = Some (q_rv q);
  qo_zone z : q_zone q = Some z → Valid z = true;
  qo_phase : phase_ok code s q;
}.

Lemma from_central_mono code t t' rv z av :
  from_central code t rv z av → from_central code (t ++ t') rv z av.
Proof.
  intros (rv' & ov & Hin & Hrest). exists rv', ov. split; [|done].
  rewrite exchanges_app. apply elem_of_app. by left.
Qed.

(** Others' steps leave a query alone. *)
Lemma query_ok_frame code s held q s' held' t :
  query_ok code s held q →
  (∀ p v, p ∈ owned q → m_heap (as_mem s) !! p = Some v → m_heap (as_mem s') !! p = Some v) →
  (∀ p, p ∈ held → p ∈ held') → as_trace s' = as_trace s ++ t →
  query_ok code s' held' q.
Proof.
  intros [Hh Hnd Hr Hz Hp] Hheap Hheld Ht.
  split; [by intros p ?%Hh%Hheld|done|apply Hheap; [by left|done]|done|].
  unfold phase_ok, owned in *. destruct (q_phase q); try done.
  - destruct Hp as (? & ? & ov & av & Hc & Hin & ?). split_and!; [done..|].
    exists ov, av. split; [apply Hheap; [by right; left|done]|]. split; [|done].
    rewrite Ht, exchanges_app. apply elem_of_app. by left.
  - destruct Hp as (? & m & av & Hc & Hfc & ?). split; [done|].
    exists m, av. split; [apply Hheap; [by right; left|done]|]. split; [|done].
    rewrite Ht. by apply from_central_mono.
Qed.

(** ** One step *)
Section laws.
Context `{!DnsLaws, !LruLaws key entry, !UpstreamLaws E W}.

(** The query is about to store [v], as what central answered, under the time [t0]. *)
Definition storing (s : astate) (q : query) (k : question) (v : Msg) (t0 : Z) : Prop :=
  ∃ rv zone p, q_phase q = Received rv zone t0 p ∧ m_heap (as_mem s) !! p = Some v ∧
    k = asked (req_Name rv) (QType rv) zone.

(** What the handler's own step from [q] to [q'] does, the rest of the world aside. *)
Record stepped (n code : Z) (s : astate) (cw : cworld) (q q' : query) (s' : astate)
    (cw' : cworld) (t : list aevent) : Prop := {
  sp_tracks : tracks n s' cw';
  sp_put k v t0 : cw_put cw' k = Some (v, t0) → provenance code (as_trace s') k v;
  sp_trace : as_trace s' = as_trace s ++ t;
  sp_ok : query_ok code s' (cw_held cw') q';
  sp_heap p v : p ∉ owned q → m_heap (as_mem s) !! p = Some v → m_heap (as_mem s') !! p = Some v;
  sp_held p : p ∈ cw_held cw → p ∈ cw_held cw';
  sp_owned p : p ∈ owned q' → p ∈ owned q ∨ (length (m_heap (as_mem s)) ≤ p)%nat;
  sp_wrote m : m ∈ wrote t →
    ∃ av, from_central code (as_trace s') (q_rv q') (q_zone q') av ∧ relays (q_rv q') av m;
  sp_exchanged ov ans : (ov, ans) ∈ exchanges t →
    GetZone ov code = q_zone q' ∧ Questions ov = Questions (q_rv q') ∧
    ∀ av, ans = Some av → ∃ up, (Exchange (E := E) ov up).1 = Ok (Some av);
  sp_latest T : cw_latest cw ≤ T → read_by T (q_phase q) → cw_latest cw' ≤ T;
  sp_stored k v t0 : cw_put cw' k = Some (v, t0) → cw_put cw k = Some (v, t0) ∨ storing s q k v t0;
}.

Lemma provenance_from_central code t rv z v :
  provenance code t (asked (req_Name rv) (QType rv) (default "" z)) v →
  (∀ x, z = Some x → Valid x = true) → from_central code t rv z v.
Proof.
  intros (z' & rv' & ov & Hin & Hz' & Hqs & Hk & Haq) Hz. unfold asked in Hk. simplify_eq.
  exists rv', ov. split_and!; try done. apply default_zone_inj; [|done|done].
  intros x. apply GetZone_Valid.
Qed.

Section one_step.
Context (n code : Z) (s : astate) (cw : cworld) (a : Agent) (clock : Z).
Hypothesis Htr : tracks n s cw.
Hypothesis Hprov : ∀ k v t0, cw_put cw k = Some (v, t0) → provenance code (as_trace s) k v.
Hypothesis Hcode : EDNS0Code a = code.
Hypothesis Hok : ResolverOk (Resolver a).

Definition steps_from (q : query) : Prop :=
  query_ok code s (cw_held cw) q →
  ∃ ph' s' cw' t, phase_step a (q_w q) (q_r q) clock (q_phase q) s = Some (ph', s') ∧
    stepped n code s cw q (moved a q ph') s' cw' t.

Lemma keep k v t0 e : cw_put cw k = Some (v, t0) → provenance code (as_trace s ++ e) k v.
Proof using Hprov. intros Hp. by eapply provenance_mono, Hprov. Qed.

Ltac stepped_by H := unfold moved; cbn; split; [exact H|..]; cbn; rewrite <-?app_assoc; try done.

Lemma step_Arrived w r rv0 z :
  steps_from (Build_query w r rv0 z Arrived).
Proof using All.
  intros [Hh Hnd Hr Hz _]. cbn in *.
  rewrite (GoM_bind_Some _ _ _ _ _ (deref_run r s _ Hr)).
  destruct (resolveZone_run a w s) as [zr Hres]. rewrite (GoM_bind_Some _ _ _ _ _ Hres).
  eexists _, _, cw, [ZoneResolutionInc zr]. split; [done|]. unfold moved; cbn.
  split; cbn; try done.
  - intros k v t0. apply keep.
  - split; cbn; try done. intros z'. by apply client_zone_Valid.
  - intros p Hp. by left.
  - by intros m ?%elem_of_nil.
  - by intros ov ans ?%elem_of_nil.
  - intros k v' t1 Hk. by left.
Qed.

Lemma step_Located w r rv0 z rv zone haveZone now :
  steps_from (Build_query w r rv0 z (Located rv zone haveZone now)).
Proof using All.
  intros [Hh Hnd Hr Hz (-> & -> & ->)]. cbn in *. pose proof Htr as [Hreach Hmem].
  destruct (Get_any n cw (req_Name rv0) (QType rv0) (default "" z) now Hreach)
    as (hit & m1 & HGet & _ & Hcase). rewrite Hmem in HGet, Hcase.
  erewrite GoM_bind_Some; [|by apply in_mem_run].
  pose proof (tracks_get n s cw _ _ _ now hit m1 (as_up s)
    (as_trace s ++ [CacheInc (if hit is Some _ then "hit" else "miss")]) Htr HGet) as Htr1.
  pose proof (lookup_lt_Some _ _ _ Hr) as Hlt. destruct hit as [p|].
  - destruct Hcase as (v & t0 & ttl & Hput & _ & _ & _ & _ & Hheap & ->).
    eexists _, _, _, [CacheInc "hit"]. split; [done|]. unfold moved; cbn.
    split; cbn; rewrite ?Hheap; try done; [|..].
    + intros k v' t1. apply keep.
    + split; cbn; rewrite ?Hheap; try done.
      * set_solver.
      * apply NoDup_cons. split; [|apply NoDup_singleton]. cbn. intros ?%list_elem_of_singleton. lia.
      * by apply lookup_app_l_Some.
      * split; [done|]. eexists _, v. split; [apply lookup_last|].
        split; [|split; [done|apply set_ttls_Body]].
        by eapply provenance_from_central; [eapply keep|].
    + intros p v' _. by apply lookup_app_l_Some.
    + set_solver.
    + set_solver by lia.
    + by intros m ?%elem_of_nil.
    + by intros ov ans ?%elem_of_nil.
    + intros k v' t1 Hk. by left.
  - destruct Hcase as [Hheap _]. eexists _, _, _, [CacheInc "miss"]. split; [done|]. unfold moved; cbn.
    split; cbn; rewrite ?Hheap; try done; [|..].
    + intros k v' t1. apply keep.
    + split; cbn; rewrite ?Hheap; done.
    + set_solver.
    + by intros m ?%elem_of_nil.
    + by intros ov ans ?%elem_of_nil.
    + intros k v' t1 Hk. by left.
Qed.

Lemma step_Missed w r rv0 z rv zone haveZone now :
  steps_from (Build_query w r rv0 z (Missed rv zone haveZone now)).
Proof using All.
  intros [Hh Hnd Hr Hz (-> & -> & ->)]. cbn in *.
  destruct (outbound_spec a z rv0 Hz) as (ov & Hov & Hdecl & Hqs).
  pose proof (outbound_run a z rv0 ov r (fun ov _ => mret (Asking rv0 (default "" z) now ov)) s Hr Hov) as Hrun.
  cbn in Hrun. rewrite Hrun. clear Hrun.
  pose proof (tracks_alloc n s cw ov (as_up s) (as_trace s) Htr) as Htr1.
  eexists _, _, _, []. split; [done|]. stepped_by Htr1.
  - by rewrite app_nil_r.
  - split; cbn; try done.
    + set_solver.
    + by apply lookup_app_l_Some.
    + by rewrite <-Hcode.
  - intros p v _. by apply lookup_app_l_Some.
  - set_solver.
  - set_solver.
  - by intros m ?%elem_of_nil.
  - by intros ov' ans ?%elem_of_nil.
  - intros k v' t1 Hk. by left.
Qed.

Lemma step_Asking w r rv0 z rv zone now ov :
  steps_from (Build_query w r rv0 z (Asking rv zone now ov)).
Proof using All.
  intros [Hh Hnd Hr Hz (-> & -> & Hdecl & Hqs)]. cbn in *.
  pose proof (Exchange_not_nil ov (as_up s)) as Hnil.
  unfold exchange. go_run. destruct (Exchange ov (as_up s)) as [[[av|]|e] up'] eqn:Hex; cbn [fst] in *; [|done|].
  2:{ unfold record. go_run. eexists _, _, cw, [_; _; _]. split; [done|]. stepped_by Htr.
      - intros k v t0. apply keep.
      - set_solver.
      - by intros m ?%elem_of_nil.
      - by intros ov' ans [= -> ->]%list_elem_of_singleton.
      - intros k v' t1 Hk. by left. }
  pose proof (tracks_alloc n s cw av up' (as_trace s ++ [Exchanged ov (Some av)]) Htr) as Htr1.
  pose proof (lookup_lt_Some _ _ _ Hr) as Hlt.
  assert (Hout : ∀ ov' ans', (ov', ans') ∈ [(ov, Some av)] →
    GetZone ov' code = z ∧ Questions ov' = Questions rv0 ∧
    ∀ av', ans' = Some av' → ∃ up, (Exchange (E := E) ov' up).1 = Ok (Some av')).
  { intros ov' ans' [= -> ->]%list_elem_of_singleton. split_and!; [done..|].
    intros av' [= <-]. exists (as_up s). by rewrite Hex. }
  unfold in_mem, alloc, record. go_run. cbn [as_mem as_up as_trace].
  destruct (answersQuestion ov av) eqn:Haq; cbn [negb].
  - eexists _, _, _, [_]. split; [done|]. stepped_by Htr1.
    + intros k v t0. apply keep.
    + split; cbn; try done.
      * set_solver.
      * apply NoDup_cons. split; [|apply NoDup_singleton]. cbn. intros ?%list_elem_of_singleton. lia.
      * by apply lookup_app_l_Some.
      * split_and!; [done..|]. exists ov, av. split; [apply lookup_last|]. split_and!; try done.
        rewrite exchanges_app. apply elem_of_app. right. by left.
    + intros p v _. by apply lookup_app_l_Some.
    + set_solver.
    + set_solver by lia.
    + by intros m ?%elem_of_nil.
    + intros k v' t1 Hk. by left.
  - eexists _, _, _, [_; _; _]. split; [done|]. stepped_by Htr1.
    + intros k v t0. apply keep.
    + split; cbn; try done; [set_solver|by apply lookup_app_l_Some].
    + intros p v _. by apply lookup_app_l_Some.
    + set_solver.
    + set_solver.
    + by intros m ?%elem_of_nil.
    + intros k v' t1 Hk. by left.
Qed.

Lemma step_Received w r rv0 z rv zone now p :
  steps_from (Build_query w r rv0 z (Received rv zone now p)).
Proof using All.
  intros [Hh Hnd Hr Hz (-> & -> & ov & av & Hp & Hin & Hdecl & Hqs & Haq)]. cbn in *.
  pose proof (Put_run (req_Name rv0) (QType rv0) (default "" z) p av now (as_mem s) Hp) as HPut.
  erewrite GoM_bind_Some; [|by apply in_mem_run].
  set (m2 := match put_ttl av with None => _ | _ => _ end) in *.
  assert (Hheld : p ∈ cw_held cw) by (apply Hh; right; by left).
  pose proof (tracks_put n s cw _ _ _ p av now m2 (as_up s) (as_trace s) Htr Hheld Hp HPut) as Htr1.
  assert (Hgrow : ∀ i x, m_heap (as_mem s) !! i = Some x → m_heap m2 !! i = Some x).
  { intros i x Hx. subst m2. destruct (put_ttl av); [by apply lookup_app_l_Some|done]. }
  clearbody m2. eexists _, _, _, []. split; [done|]. stepped_by Htr1.
  - intros k v t0. unfold note_put. destruct (put_ttl av); [|apply Hprov].
    case_decide as Hk; [|apply Hprov]. intros [= <- <-]. by exists z, rv0, ov.
  - by rewrite app_nil_r.
  - split; cbn; try done; [by apply Hgrow|]. split; [done|]. exists av, av.
    split; [by apply Hgrow|]. split; [|done]. by exists rv0, ov.
  - intros i x _. apply Hgrow.
  - intros i Hi. by left.
  - by intros m ?%elem_of_nil.
  - by intros ov' ans ?%elem_of_nil.
  - intros T. unfold note_put. lia.
  - intros k v t0. unfold note_put. destruct (put_ttl av); [|by left].
    case_decide as Hk; [|by left]. intros [= <- <-]. right. by exists rv0, (default "" z), p.
Qed.

Lemma step_Replying w r rv0 z rv p :
  steps_from (Build_query w r rv0 z (Replying rv p)).
Proof using All.
  intros [Hh Hnd Hr Hz (-> & m & av & Hp & Hfc & Hrc & Hbody)]. cbn in *.
  assert (Hpr : p ≠ r) by (apply NoDup_cons in Hnd as [Hnd _]; set_solver).
  destruct (reply_run w p r (req_Name rv0) m rv0 s Hp Hr Hpr) as (tail & Hrep & Hw & He).
  rewrite (GoM_bind_Some _ _ _ _ _ Hrep).
  assert (Hheld : p ∈ cw_held cw) by (apply Hh; right; by left).
  pose proof (tracks_write n s cw p (reply_msg m rv0) (as_up s)
    (as_trace s ++ Wrote (reply_msg m rv0) :: tail) Htr Hheld (mk_is_Some _ _ Hp)) as Htr1.
  eexists _, _, _, (Wrote (reply_msg m rv0) :: tail). split; [done|]. stepped_by Htr1.
  - intros k v t0. apply keep.
  - split; cbn; try done; [set_solver|apply NoDup_singleton|].
    by rewrite list_lookup_insert_ne.
  - intros i x Hi Hx. rewrite list_lookup_insert_ne; [done|]. set_solver.
  - set_solver.
  - intros m'. unfold wrote in Hw. rewrite Hw. intros ->%list_elem_of_singleton. exists av.
    split; [by apply from_central_mono|by apply reply_msg_relays].
  - intros ov' ans. unfold exchanges in He. rewrite He. by intros ?%elem_of_nil.
  - intros k v' t1 Hk. by left.
Qed.

Lemma step_Done w r rv0 z res : steps_from (Build_query w r rv0 z (Done res)).
Proof using All.
  intros Hq. cbn. eexists _, _, cw, []. split; [done|]. stepped_by Htr.
  - by rewrite app_nil_r.
  - intros p Hp. by left.
  - by intros m ?%elem_of_nil.
  - by intros ov' ans ?%elem_of_nil.
  - intros k v' t1 Hk. by left.
Qed.

Lemma step_query q : steps_from q.
Proof using All.
  destruct q as [w r rv0 z []];
    eauto using step_Arrived, step_Located, step_Missed, step_Asking, step_Received, step_Replying, step_Done.
Qed.
End one_step.

(** ** The whole world *)
Record world_ok (n code : Z) (wd : world) (cw : cworld) : Prop := {
  wo_tracks : tracks n (w_state wd) cw;
  wo_put k v t0 : cw_put cw k = Some (v, t0) → provenance code (as_trace (w_state wd)) k v;
  wo_code : EDNS0Code (w_agent wd) = code;
  wo_resolver : ResolverOk (Resolver (w_agent wd));
  wo_query i q : w_queries wd !! i = Some q → query_ok code (w_state wd) (cw_held cw) q;
  wo_disjoint i j q q' p : w_queries wd !! i = Some q → w_queries wd !! j = Some q' → i ≠ j →
    p ∈ owned q → p ∉ owned q';
  wo_honest ov av : (ov, Some av) ∈ exchanges (as_trace (w_state wd)) →
    ∃ up, (Exchange (E := E) ov up).1 = Ok (Some av);
}.

(** An owned cell exists. *)
Lemma owned_lt code s held q p :
  query_ok code s held q → (∀ p, p ∈ held → (p < length (m_heap (as_mem s)))%nat) →
  p ∈ owned q → (p < length (m_heap (as_mem s)))%nat.
Proof. intros Hq Hheld Hp. by apply Hheld, (qo_held _ _ _ _ Hq). Qed.

Lemma world_ok_held n code wd cw p :
  world_ok n code wd cw → p ∈ cw_held cw → (p < length (m_heap (as_mem (w_state wd))))%nat.
Proof. intros Hw Hp. destruct (wo_tracks _ _ _ _ Hw) as [Hr <-]. by eapply ci_held; [apply creach_inv|]. Qed.

Lemma world_ok_arrive n code wd cw w rv :
  world_ok n code wd cw →
  ∃ cw', cw_latest cw' = cw_latest cw ∧ cw_put cw' = cw_put cw ∧
    world_ok n code {| w_state := arrive (w_state wd) rv; w_now := w_now wd; w_agent := w_agent wd;
                       w_queries := w_queries wd ++ [new_query (w_state wd) w rv] |} cw'.
Proof.
  intros Hw. set (s := w_state wd).
  pose proof (tracks_alloc n s cw rv (as_up s) (as_trace s) (wo_tracks _ _ _ _ Hw)) as Htr1.
  eexists. split; [|split; [|split; cbn; [exact Htr1|apply Hw..| | |apply Hw]]]; [done|done|..].
  - intros i q [Hi|[_ Hi]]%lookup_app_Some.
    + eapply query_ok_frame with (t := []); [by eapply wo_query|..]; cbn.
      * intros p v _. by apply lookup_app_l_Some.
      * by right.
      * by rewrite app_nil_r.
    + apply list_lookup_singleton_Some in Hi as [_ <-]. split; cbn; try done.
      * intros p ->%list_elem_of_singleton. by left.
      * apply NoDup_singleton.
      * apply lookup_last.
  - assert (Hfresh : ∀ i q p, w_queries wd !! i = Some q → p ∈ owned q →
      p ≠ length (m_heap (as_mem s))).
    { intros i q p Hi Hp. enough (p < length (m_heap (as_mem s)))%nat by lia.
      eapply owned_lt; [by eapply wo_query| |done]. intros. by eapply world_ok_held. }
    intros i j q q' p [Hi|[Hge Hi]]%lookup_app_Some [Hj|[Hge' Hj]]%lookup_app_Some Hne Hp Hp'.
    + by eapply (wo_disjoint _ _ _ _ Hw i j).
    + apply list_lookup_singleton_Some in Hj as [_ <-]. apply list_elem_of_singleton in Hp'.
      by eapply Hfresh.
    + apply list_lookup_singleton_Some in Hi as [_ <-]. apply list_elem_of_singleton in Hp.
      by eapply Hfresh.
    + apply list_lookup_singleton_Some in Hi as [? _], Hj as [? _]. lia.
Qed.

Lemma world_ok_query n code wd cw i q now :
  world_ok n code wd cw → w_queries wd !! i = Some q →
  ∃ ph s cw' t,
    phase_step (w_agent wd) (q_w q) (q_r q) now (q_phase q) (w_state wd) = Some (ph, s) ∧
    stepped n code (w_state wd) cw q (moved (w_agent wd) q ph) s cw' t ∧
    world_ok n code {| w_state := s; w_now := now; w_agent := w_agent wd;
                       w_queries := <[i := moved (w_agent wd) q ph]> (w_queries wd) |} cw'.
Proof.
  intros Hw Hi.
  destruct (step_query n code (w_state wd) cw (w_agent wd) now (wo_tracks _ _ _ _ Hw)) with q
    as (ph & s & cw' & t & Hrun & Hsp); [apply Hw..|by eapply wo_query|].
  exists ph, s, cw', t. split; [done|]. split; [done|].
  pose proof (lookup_lt_Some _ _ _ Hi) as Hlen.
  split; cbn; [apply Hsp|apply Hsp|apply Hw|apply Hw| | |].
  - intros j q'. destruct (decide (i = j)) as [<-|Hij].
    { rewrite list_lookup_insert_eq by done. intros [= <-]. apply Hsp. }
    rewrite list_lookup_insert_ne by done. intros Hj.
    eapply query_ok_frame; [by eapply wo_query| |apply Hsp|apply Hsp].
    intros p v Hp. apply (sp_heap _ _ _ _ _ _ _ _ _ Hsp). intros Hp'.
    by eapply (wo_disjoint _ _ _ _ Hw i j).
  - assert (Hmine : ∀ j q' p, w_queries wd !! j = Some q' → i ≠ j →
      p ∈ owned (moved (w_agent wd) q ph) → p ∉ owned q').
    { intros j q' p Hj Hij [Hp|Hp]%(sp_owned _ _ _ _ _ _ _ _ _ Hsp) Hp'.
      - by eapply (wo_disjoint _ _ _ _ Hw i j).
      - enough (p < length (m_heap (as_mem (w_state wd))))%nat by lia.
        eapply owned_lt; [by eapply wo_query| |done]. intros. by eapply world_ok_held. }
    intros j k q1 q2 p Hj Hk Hjk. destruct (decide (i = j)) as [<-|Hij].
    + rewrite list_lookup_insert_eq in Hj by done. rewrite list_lookup_insert_ne in Hk by done.
      simplify_eq. by eapply Hmine.
    + rewrite list_lookup_insert_ne in Hj by done. destruct (decide (i = k)) as [<-|Hik].
      * rewrite list_lookup_insert_eq in Hk by done. simplify_eq. intros Hp Hp'. by eapply Hmine.
      * rewrite list_lookup_insert_ne in Hk by done. by eapply (wo_disjoint _ _ _ _ Hw j k).
  - intros ov av. rewrite (sp_trace _ _ _ _ _ _ _ _ _ Hsp), exchanges_app.
    intros [Hin|Hin]%elem_of_app; [by eapply wo_honest|].
    destruct (sp_exchanged _ _ _ _ _ _ _ _ _ Hsp _ _ Hin) as (_ & _ & Hav). by apply Hav.
Qed.

(** Nothing was stored and no clock was read after the world's time. *)
Record world_times (wd : world) (cw : cworld) : Prop := {
  wt_latest : cw_latest cw ≤ w_now wd;
  wt_read i q : w_queries wd !! i = Some q → read_by (w_now wd) (q_phase q);
}.

(** What the cache holds was stored on the way here: in an earlier state a query was about
    to store it, with its own reading of the clock as the time. *)
Definition world_stored (wd : world) (cw : cworld) : Prop :=
  ∀ k v t0, cw_put cw k = Some (v, t0) →
    ∃ wd0 i q0, rtc step wd0 wd ∧ w_queries wd0 !! i = Some q0 ∧ storing (w_state wd0) q0 k v t0.

Lemma world_stored_step wd cw wd' cw' :
  world_stored wd cw → step wd wd' →
  (∀ k v t0, cw_put cw' k = Some (v, t0) → cw_put cw k = Some (v, t0) ∨
     ∃ i q, w_queries wd !! i = Some q ∧ storing (w_state wd) q k v t0) →
  world_stored wd' cw'.
Proof.
  intros Hw Hst Hput k v t0 [Hk|(i & q & Hi & Hs)]%Hput.
  - destruct (Hw k v t0 Hk) as (wd0 & i & q0 & Hr & Hq). exists wd0, i, q0. split; [by eapply rtc_r|done].
  - exists wd, i, q. by split; [apply rtc_once|].
Qed.

Lemma read_by_mono T T' ph : read_by T ph → T ≤ T' → read_by T' ph.
Proof. destruct ph; cbn; lia. Qed.

Lemma phase_step_read a w r clock ph s ph' s' T :
  phase_step a w r clock ph s = Some (ph', s') → read_by T ph → clock ≤ T → read_by T ph'.
Proof.
  intros Hs HT Hc. destruct ph; cbn [phase_step] in Hs.
  all: by go_inv Hs; injection Hs as <- <-.
Qed.

Lemma world_times_query wd cw i q now ph s n code cw' t :
  world_times wd cw → w_queries wd !! i = Some q → w_now wd ≤ now →
  phase_step (w_agent wd) (q_w q) (q_r q) now (q_phase q) (w_state wd) = Some (ph, s) →
  stepped n code (w_state wd) cw q (moved (w_agent wd) q ph) s cw' t →
  world_times {| w_state := s; w_now := now; w_agent := w_agent wd;
                 w_queries := <[i := moved (w_agent wd) q ph]> (w_queries wd) |} cw'.
Proof.
  intros [Hl Hr] Hi Hnow Hrun Hsp. split; cbn [w_now w_queries].
  - eapply sp_latest; [done|lia|]. by eapply read_by_mono; [eapply Hr|].
  - intros j q' [(<- & <- & _)|[_ Hj]]%list_lookup_insert_Some.
    + cbn. eapply phase_step_read; [done| |done]. by eapply read_by_mono; [eapply Hr|].
    + by eapply read_by_mono; [eapply Hr|].
Qed.

Lemma reach_history n code wd :
  reach n code wd → ∃ cw, world_ok n code wd cw ∧ world_times wd cw ∧ world_stored wd cw.
Proof.
  induction 1 as [c up now a Hnew Hcode Hok|wd wd' _ (cw & Hw & Ht & Hh) Hst].
  { exists (cstart c [] [] now). split; [|by split; [split|]]. split; cbn; try done.
    - split; [|done]. apply cr_start; [done|]. by intros p ?%elem_of_nil.
    - by intros ov av ?%elem_of_nil. }
  pose proof (fun cw' => world_stored_step wd cw wd' cw' Hh Hst) as Hh'.
  destruct Hst as [wd r Hr|wd w rv|wd i q now ph s Hi Hnow Hrun].
  - exists cw. split; [split; cbn; try done; apply Hw|]. split; [by destruct Ht|]. apply Hh'. by left.
  - destruct (world_ok_arrive n code wd cw w rv Hw) as (cw' & Hl & Hp & Hw'). exists cw'. split; [done|].
    split; [|apply Hh'; rewrite Hp; by left].
    split; cbn; [rewrite Hl; apply Ht|]. intros i q [Hi|[_ Hi]]%lookup_app_Some; [by eapply wt_read|].
    by apply list_lookup_singleton_Some in Hi as [_ <-].
  - destruct (world_ok_query n code wd cw i q now Hw Hi) as (ph' & s' & cw' & t & Hrun' & Hsp & Hw').
    rewrite Hrun in Hrun'. simplify_eq. exists cw'. split; [done|]. split; [by eapply world_times_query|].
    apply Hh'. intros k v t0 [?|?]%(sp_stored _ _ _ _ _ _ _ _ _ Hsp); [by left|right; by exists i, q].
Qed.

Lemma reach_ok n code wd : reach n code wd → ∃ cw, world_ok n code wd cw.
Proof. intros (cw & Hw & _)%reach_history. by exists cw. Qed.

(** zone isolation with any number of queries running at once: whatever steps
    other queries take between those of one, and however the resolver changes
    meanwhile, the query's next step succeeds, everything it writes to its client
    relays an answer central gave to a query for the same name and type that
    declared the very zone this client was found in, and everything it asks central
    declares that zone and no other. *)
Theorem concurrent_zone_isolation n code wd i q now :
  reach n code wd → w_queries wd !! i = Some q →
  ∃ ph s t, phase_step (w_agent wd) (q_w q) (q_r q) now (q_phase q) (w_state wd) = Some (ph, s) ∧
    as_trace s = as_trace (w_state wd) ++ t ∧
    let zone := q_zone (moved (w_agent wd) q ph) in
    (∀ m, m ∈ wrote t →
       ∃ av, from_central code (as_trace s) (q_rv q) zone av ∧ relays (q_rv q) av m) ∧
    (∀ ov ans, (ov, ans) ∈ exchanges t → GetZone ov code = zone ∧ Questions ov = Questions (q_rv q)).
Proof.
  intros [cw Hw]%reach_ok Hi.
  destruct (world_ok_query n code wd cw i q now Hw Hi) as (ph & s & cw' & t & Hrun & Hsp & _).
  exists ph, s, t. split; [done|]. split; [apply Hsp|]. split; [apply Hsp|].
  intros ov ans Hin. by destruct (sp_exchanged _ _ _ _ _ _ _ _ _ Hsp _ _ Hin) as (? & ? & _).
Qed.

(** C13: a cached answer does not outlive central's promise, however queries interleave:
    when a query that read the clock at [now] finds its answer in the cache, the answer
    is one central gave to a query for the same name and type with the same zone; in an
    earlier state that query was about to store it, having read the clock at [t0]; and
    every answer record of what this query will write has its data and a TTL that, counted
    from [now], ends no later than its own original TTL, and no later than thirty seconds,
    after [t0]. *)
Theorem concurrent_ttl n code wd i q rv zone haveZone now clock :
  reach n code wd → w_queries wd !! i = Some q → q_phase q = Located rv zone haveZone now →
  ∃ ph s, phase_step (w_agent wd) (q_w q) (q_r q) clock (q_phase q) (w_state wd) = Some (ph, s) ∧
    (ph = Missed rv zone haveZone now ∨
     ∃ p out av t0, ph = Replying rv p ∧ m_heap (as_mem s) !! p = Some out ∧ now ≤ w_now wd ∧
       t0 ≤ w_now wd ∧ from_central code (as_trace s) (q_rv q) (q_zone q) av ∧
       (∃ wd0 i0 q0, rtc step wd0 wd ∧ w_queries wd0 !! i0 = Some q0 ∧
          storing (w_state wd0) q0 (asked (req_Name rv) (QType rv) zone) av t0) ∧
       (ttls_ok av →
        Forall2 (fun rr rr' =>
          rr' = with_Ttl rr (hdr_Ttl (Hdr rr')) ∧ 0 ≤ hdr_Ttl (Hdr rr') ∧
          now + hdr_Ttl (Hdr rr') * Second ≤ t0 + hdr_Ttl (Hdr rr) * Second ∧
          now + hdr_Ttl (Hdr rr') * Second ≤ t0 + maxTTL) (Answer av) (Answer out))).
Proof.
  intros (cw & Hw & Ht & Hh)%reach_history Hi Hph.
  destruct (wo_query _ _ _ _ Hw i q Hi) as [_ _ _ Hz Hok]. unfold phase_ok in Hok. rewrite Hph in Hok.
  destruct Hok as (-> & -> & ->). pose proof (wt_read _ _ Ht i q Hi) as Hread. rewrite Hph in Hread |- *.
  destruct (wo_tracks _ _ _ _ Hw) as [Hcr Hmem].
  destruct (Get_any n cw (req_Name (q_rv q)) (QType (q_rv q)) (default "" (q_zone q)) now Hcr)
    as (hit & m1 & HGet & _ & Hcase). rewrite Hmem in HGet, Hcase.
  cbn [phase_step]. erewrite GoM_bind_Some; [|by apply in_mem_run].
  destruct hit as [p|]; eexists _, _; (split; [done|]); [right|by left].
  destruct Hcase as (v & t0 & ttl & Hput & Httl & Hpast & Hlive & _ & Hheap & ->).
  pose proof (wt_latest _ _ Ht). eexists _, _, v, t0. cbn. rewrite Hheap.
  split; [done|]. split; [apply lookup_last|]. split; [done|]. split; [lia|]. split; [|split; [by apply Hh|]].
  - apply from_central_mono. eapply provenance_from_central; [|done]. by eapply wo_put.
  - intros Hv. eapply Forall2_impl; [by apply hit_ttl|]. cbn. intros rr rr' (? & ? & ? & ?).
    split_and!; [done|done|lia..].
Qed.
End laws.
End concurrent.

(** ** Witnesses *)
Module AgentConcurrentWitnesses.
Import DnsLib.Reference LruReference IdentityWitnesses AgentWitnesses.

Definition world0 : world (R := StaticResolver) (W := unit) := {|
  w_state := start0; w_now := 0; w_agent := agent0; w_queries := [] |}.

Definition arrive0 (wd : world (R := StaticResolver) (W := unit)) : world (R := StaticResolver) (W := unit) := {|
  w_state := arrive (w_state wd) (question ClassINET); w_now := w_now wd; w_agent := w_agent wd;
  w_queries := w_queries wd ++ [new_query (w_state wd) plain_writer (question ClassINET)] |}.

(** Two queries for one name: both miss before either has stored its answer. *)
Definition race : list (nat * Z) :=
  [(0%nat, 1); (1%nat, 1); (0%nat, 2); (1%nat, 2); (1%nat, 3); (0%nat, 3); (0%nat, 9); (1%nat, 9);
   (0%nat, 10); (1%nat, 10)].

Definition raced : world := default world0 (take_steps (arrive0 (arrive0 world0)) race).

Lemma arrived_reach : reach 2 DefaultCode (arrive0 (arrive0 world0)).
Proof.
  eapply re_step; [|apply st_arrive]. eapply re_step; [|apply st_arrive].
  apply re_start; [done..|apply fab_ok].
Qed.

Lemma raced_reach : reach 2 DefaultCode raced.
Proof. apply (take_steps_reach 2 DefaultCode _ race raced arrived_reach). by vm_compute. Qed.

(** The query a position holds. *)
Definition query_at (wd : world) (i : nat) : query :=
  default (new_query start0 plain_writer (question ClassINET)) (w_queries (R := StaticResolver) (W := unit) wd !! i).

Lemma concurrent_zone_isolation_witness :
  let q := query_at raced 0 in
  rank (q_phase q) = 1%nat ∧ q_zone q = Some "fab" ∧
  ∃ ph s t, phase_step agent0 (q_w q) (q_r q) 11 (q_phase q) (w_state raced) = Some (ph, s) ∧
    as_trace s = as_trace (w_state raced) ++ t ∧
    ∀ m, m ∈ wrote t → ∃ av, from_central DefaultCode (as_trace s) (q_rv q) (Some "fab") av ∧
      relays (q_rv q) av m.
Proof.
  assert (Hz : q_zone (query_at raced 0) = Some "fab") by by vm_compute.
  assert (Hrank : rank (q_phase (query_at raced 0)) = 1%nat) by by vm_compute.
  split; [exact Hrank|]. split; [exact Hz|].
  destruct (concurrent_zone_isolation 2 DefaultCode raced 0 (query_at raced 0) 11 raced_reach)
    as (ph & s & t & Hs & Ht & Hm & _); [by vm_compute|].
  exists ph, s, t. split; [exact Hs|]. split; [exact Ht|].
  unfold moved in Hm. cbn [q_zone] in Hm. rewrite Hz in Hm.
  by destruct (q_phase (query_at raced 0)).
Defined.

(** One query reads the clock at 0 and waits; another is answered and stores at 5 s. *)
Definition overtaking : list (nat * Z) :=
  [(0%nat, 0); (1%nat, 5 * Second); (1%nat, 5 * Second); (1%nat, 5 * Second); (1%nat, 5 * Second);
   (1%nat, 5 * Second)].

Definition overtaken : world := default world0 (take_steps (arrive0 (arrive0 world0)) overtaking).

Lemma overtaken_reach : reach 2 DefaultCode overtaken.
Proof. apply (take_steps_reach 2 DefaultCode _ overtaking overtaken arrived_reach). by vm_compute. Qed.

(** What a query that is about to look up the cache will write, if it hits. *)
Definition hit_of (wd : world) (i : nat) : option Msg :=
  let q := query_at wd i in
  '(ph, s) ← phase_step agent0 (q_w q) (q_r q) (w_now wd) (q_phase q) (w_state wd);
  match ph with Replying _ p => m_heap (as_mem s) !! p | _ => None end.

(** The hit's record ends thirty seconds after it was stored, at 5 s; counted from the
    query's own reading, 0, that is a TTL of 35 seconds, above the cap. *)
Lemma concurrent_ttl_witness :
  fmap (fun m => map (fun rr => hdr_Ttl (Hdr rr)) (Answer m)) (hit_of overtaken 0) = Some [35] ∧
  let q := query_at overtaken 0 in
  ∃ p out av t0 (s : Agent.astate (W := unit)), m_heap (as_mem s) !! p = Some out ∧ t0 ≤ 5 * Second ∧
    from_central DefaultCode (as_trace s) (q_rv q) (q_zone q) av ∧
    (ttls_ok av → Forall2 (fun _ rr' => hdr_Ttl (Hdr rr') * Second ≤ t0 + maxTTL) (Answer av) (Answer out)).
Proof.
  split; [by vm_compute|]. intros q.
  assert (Hi : w_queries overtaken !! 0%nat = Some q) by by vm_compute.
  assert (Hph : q_phase q = Located (question ClassINET) "fab" true 0) by by vm_compute.
  assert (Hrank : option_map (fun r => rank r.1)
    (phase_step agent0 (q_w q) (q_r q) 0 (q_phase q) (w_state overtaken)) = Some 1%nat) by by vm_compute.
  assert (Ha : w_agent overtaken = agent0) by by vm_compute.
  destruct (concurrent_ttl 2 DefaultCode overtaken 0 q _ _ _ _ 0 overtaken_reach Hi Hph)
    as (ph & s & Hs & [->|(p & out & av & t0 & _ & Hp & _ & Ht0 & Hfc & _ & Hf)]).
  { exfalso. rewrite Ha in Hs. rewrite Hs in Hrank. discriminate Hrank. }
  exists p, out, av, t0, s. split; [exact Hp|]. split; [exact Ht0|]. split; [exact Hfc|].
  intros Hok. eapply Forall2_impl; [exact (Hf Hok)|]. cbn. intros rr rr' (_ & _ & _ & H). exact H.
Defined.
End AgentConcurrentWitnesses.
