(* ===== verification/Directives.v ===== *)
(** * The plugin order: build/zonedns_register.go and the two CheckDirectiveOrder

    The build inserts the agent's directive ahead of [cache] in
    [dnsserver.Directives]; each plugin's [setup] refuses to start when the
    directives list has it after [cache]. *)

From S2P Require Import Prelude.

Open Scope Z_scope.

(** ** build/zonedns_register.go *)
Fixpoint insert_loop (name : string) (ds : list string) : list string :=
  match ds with
  | [] => []
  | d :: ds' => (if bool_decide (d = "cache") then [name] else []) ++ d :: insert_loop name ds'
  end.

Definition insertBeforeCache (name : string) (directives : list string) : list string :=
  if existsb (fun d => bool_decide (d = name)) directives then directives
  else insert_loop name directives.

(** The [init] of the file added to node-local-dns. *)
Definition register_init (directives : list string) : list string :=
  insertBeforeCache "zonedns_agent" directives.

(** ** CheckDirectiveOrder *)
Inductive order_error :=
  | NotRegistered
  | AfterCache (cacheAt pluginAt : Z).

(** The loop: the positions of the plugin and of [cache], the last ones seen. *)
Fixpoint scan (name : string) (ds : list string) (i pluginAt cacheAt : Z) : Z * Z :=
  match ds with
  | [] => (pluginAt, cacheAt)
  | d :: ds' =>
      if bool_decide (d = name) then scan name ds' (i + 1) i cacheAt
      else if bool_decide (d = "cache") then scan name ds' (i + 1) pluginAt i
      else scan name ds' (i + 1) pluginAt cacheAt
  end.

Definition check_order (name : string) (directives : list string) : result order_error unit :=
  let '(pluginAt, cacheAt) := scan name directives 0 (-1) (-1) in
  if pluginAt <? 0 then Err NotRegistered
  else if (0 <=? cacheAt) && (cacheAt <? pluginAt) then Err (AfterCache cacheAt pluginAt)
  else Ok tt.

(** plugin/zonedns/setup.go *)
Definition CheckDirectiveOrder (directives : list string) : result order_error unit :=
  check_order "zonedns" directives.

(** plugin/zonedns_agent/setup.go *)
Definition Agent_CheckDirectiveOrder (directives : list string) : result order_error unit :=
  check_order "zonedns_agent" directives.

(** ** Facts *)
Lemma scan_spec name ds i p c :
  name ≠ "cache" → NoDup ds →
  scan name ds i p c =
  (match list_find (fun d => d = name) ds with Some (j, _) => i + Z.of_nat j | None => p end,
   match list_find (fun d => d = "cache") ds with Some (j, _) => i + Z.of_nat j | None => c end).
Proof.
  intros Hne. revert i p c. induction ds as [|d ds IH]; intros i p c Hnd; [done|].
  apply NoDup_cons in Hnd as [Hd Hnd]. cbn.
  assert (Hnone : ∀ x, x ∉ ds → list_find (fun d => d = x) ds = None).
  { intros x Hx. apply list_find_None, Forall_forall. by intros y Hy ->. }
  set (fn := list_find (fun d => d = name) ds) in *.
  set (fc := list_find (fun d => d = "cache") ds) in *.
  destruct (decide (d = name)) as [->|Hdn].
  - rewrite bool_decide_eq_true_2, decide_False, IH by done. fold fc. fold fn.
    assert (fn = None) as -> by by apply Hnone.
    destruct fc as [[j ?]|]; cbn; f_equal; lia.
  - rewrite (bool_decide_eq_false_2 (d = name)) by done.
    destruct (decide (d = "cache")) as [->|Hdc].
    + rewrite bool_decide_eq_true_2, IH by done. fold fc. fold fn.
      assert (fc = None) as -> by by apply Hnone.
      destruct fn as [[j ?]|]; cbn; f_equal; lia.
    + rewrite bool_decide_eq_false_2, IH by done. fold fc. fold fn.
      destruct fn as [[? ?]|], fc as [[? ?]|]; cbn; f_equal; lia.
Qed.

(** [name] is in the list, with no [cache] ahead of it. *)
Definition ordered_before_cache (name : string) (ds : list string) : Prop :=
  ∃ pre post, ds = pre ++ name :: post ∧ "cache" ∉ pre.

Lemma check_order_spec name ds :
  name ≠ "cache" → NoDup ds → check_order name ds = Ok tt ↔ ordered_before_cache name ds.
Proof.
  intros Hne Hnd. unfold check_order. rewrite scan_spec by done.
  set (fn := list_find (fun d => d = name) ds). set (fc := list_find (fun d => d = "cache") ds).
  split.
  - destruct fn as [[j x]|] eqn:Hfn; [|done].
    apply list_find_Some in Hfn as (Hj & -> & _). destruct (Z.ltb_spec (0 + Z.of_nat j) 0); [lia|].
    intros Hc. exists (take j ds), (drop (S j) ds). split; [by rewrite take_drop_middle|].
    intros (k & Hk)%list_elem_of_lookup. apply lookup_take_Some in Hk as [Hk Hlt].
    assert (Hfc : fc = Some (k, "cache")).
    { apply list_find_Some. split_and!; [done..|]. intros j' y Hj' Hlt' ->.
      pose proof (NoDup_lookup _ _ _ _ Hnd Hj' Hk). lia. }
    rewrite Hfc in Hc.
    destruct (Z.leb_spec 0 (0 + Z.of_nat k)), (Z.ltb_spec (0 + Z.of_nat k) (0 + Z.of_nat j));
      cbn in Hc; lia || done.
  - intros (pre & post & -> & Hpre).
    assert (Hfn : fn = Some (length pre, name)).
    { apply list_find_Some. split_and!; [apply list_lookup_middle; done|done|].
      intros j y Hj Hlt ->. rewrite lookup_app_l in Hj by done.
      apply NoDup_app in Hnd as (_ & Hdis & _). apply (Hdis name); [|by left].
      by apply list_elem_of_lookup_2 in Hj. }
    rewrite Hfn. destruct (Z.ltb_spec (0 + Z.of_nat (length pre)) 0); [lia|].
    destruct fc as [[k x]|] eqn:Hfc; [|done].
    apply list_find_Some in Hfc as (Hk & -> & _).
    destruct (Z.ltb_spec (0 + Z.of_nat k) (0 + Z.of_nat (length pre))); [|by rewrite andb_false_r].
    exfalso. apply Hpre. rewrite lookup_app_l in Hk by lia. by apply list_elem_of_lookup_2 in Hk.
Qed.

Lemma insert_loop_elem name ds x :
  x ∈ insert_loop name ds ↔ x ∈ ds ∨ (x = name ∧ "cache" ∈ ds).
Proof.
  induction ds as [|d ds IH]; cbn; [rewrite !elem_of_nil; naive_solver|].
  rewrite elem_of_app, !elem_of_cons, IH. case_bool_decide; set_solver.
Qed.

Lemma insert_loop_filter name ds :
  name ∉ ds → filter (fun d => d ≠ name) (insert_loop name ds) = ds.
Proof.
  induction ds as [|d ds IH]; cbn; [done|]. intros [Hd Hds]%not_elem_of_cons.
  rewrite filter_app, filter_cons_True by done. rewrite IH by done.
  case_bool_decide; [|done]. rewrite filter_cons_False by naive_solver. done.
Qed.

Lemma insert_loop_split name ds :
  "cache" ∈ ds → ∃ pre post, ds = pre ++ "cache" :: post ∧ ("cache" ∉ pre) ∧
    insert_loop name ds = pre ++ name :: "cache" :: insert_loop name post.
Proof.
  induction ds as [|d ds IH]; [by intros ?%elem_of_nil|].
  destruct (decide (d = "cache")) as [->|Hd].
  - intros _. exists [], ds. cbn. split_and!; try done. apply not_elem_of_nil.
  - intros [?|Hin]%elem_of_cons; [congruence|]. destruct (IH Hin) as (pre & post & -> & Hn & Heq).
    exists (d :: pre), post. cbn. rewrite bool_decide_eq_false_2, Heq by done. cbn.
    split_and!; try done. apply not_elem_of_cons. split; [congruence|done].
Qed.

Lemma insert_loop_none name ds : "cache" ∉ ds → insert_loop name ds = ds.
Proof.
  induction ds as [|d ds IH]; [done|]. intros [Hd Hds]%not_elem_of_cons. cbn.
  rewrite bool_decide_eq_false_2 by congruence. cbn. by rewrite IH.
Qed.

(** ** Theorems *)

(** the start-up check is exact: on a list without repetitions, each plugin
    starts exactly when its directive is listed and [cache] does not come before
    it. *)
Theorem CheckDirectiveOrder_spec ds :
  NoDup ds →
  (CheckDirectiveOrder ds = Ok tt ↔ ordered_before_cache "zonedns" ds) ∧
  (Agent_CheckDirectiveOrder ds = Ok tt ↔ ordered_before_cache "zonedns_agent" ds).
Proof. intros Hnd. split; by apply check_order_spec. Qed.

(** C31: the build step makes the check pass: inserting the agent's directive into a
    list with [cache] but without it gives a list the agent starts on, with every
    other directive in its old order; without [cache] it inserts nothing and the
    agent refuses to start rather than run out of order. *)
Theorem insertBeforeCache_ok ds :
  NoDup ds → "zonedns_agent" ∉ ds →
  let ds' := register_init ds in
  filter (fun d => d ≠ "zonedns_agent") ds' = ds ∧
  ("cache" ∈ ds → Agent_CheckDirectiveOrder ds' = Ok tt) ∧
  ("cache" ∉ ds → Agent_CheckDirectiveOrder ds' = Err NotRegistered).
Proof.
  intros Hnd Hnew. unfold register_init, insertBeforeCache.
  assert (Hex : existsb (fun d => bool_decide (d = "zonedns_agent")) ds = false).
  { apply not_true_is_false. rewrite existsb_exists. intros (d & Hin & ->%bool_decide_eq_true).
    by apply Hnew, list_elem_of_In. }
  rewrite Hex. cbv zeta. split; [by apply insert_loop_filter|]. split.
  - intros Hc. destruct (insert_loop_split "zonedns_agent" ds Hc) as (pre & post & -> & Hpre & ->).
    apply NoDup_app in Hnd as (Hnd1 & Hdis & Hnd2). apply NoDup_cons in Hnd2 as [Hc2 Hnd2].
    rewrite insert_loop_none by done.
    apply check_order_spec; [done| |by exists pre, ("cache" :: post)].
    apply NoDup_app. split_and!; [done|set_solver|]. apply NoDup_cons. split; [set_solver|].
    by apply NoDup_cons.
  - intros Hc. rewrite insert_loop_none by done. unfold Agent_CheckDirectiveOrder, check_order.
    rewrite scan_spec by done.
    assert (list_find (fun d => d = "zonedns_agent") ds = None) as ->; [|done].
    apply list_find_None, Forall_forall. by intros y Hy ->.
Qed.

(** ** Witnesses *)
Module DirectivesWitnesses.
Definition stock : list string := ["metadata"; "health"; "cache"; "kubernetes"; "forward"].

Lemma stock_NoDup : NoDup stock.
Proof. apply (bool_decide_unpack (NoDup stock)). by vm_compute. Qed.

Lemma CheckDirectiveOrder_spec_witness :
  Agent_CheckDirectiveOrder stock = Ok tt ↔ ordered_before_cache "zonedns_agent" stock.
Proof. apply (CheckDirectiveOrder_spec stock), stock_NoDup. Defined.

Lemma insertBeforeCache_ok_witness :
  Agent_CheckDirectiveOrder (register_init stock) = Ok tt.
Proof.
  apply (insertBeforeCache_ok stock); [apply stock_NoDup| |];
    apply (bool_decide_unpack _); by vm_compute.
Defined.
End DirectivesWitnesses.
