(* ===== verification/ReadyGauge.v ===== *)
(** * plugin/zonedns_agent/setup.go: the resolver_ready gauge across reloads

    The gauge is shared by all instances of the plugin in the process, and during a
    reload two of them overlap. [markResolverReady] and [markResolverStopped] each
    hold [resolverReadyMu], so each is one step; the steps of different goroutines
    interleave freely. An instance is identified by its generation. *)

From S2P Require Import Prelude.

Open Scope Z_scope.

(** Where an instance's goroutines are. *)
Inductive phase :=
  | VmStarted   (** gen taken, markResolverReady not yet called (vm) *)
  | Syncing     (** Run is waiting for the cache (k8s) *)
  | Synced      (** WaitForCacheSync returned true, OnReady not yet called (k8s) *)
  | Marked.     (** markResolverReady(gen) done *)

#[global] Instance phase_eq_dec : EqDecision phase.
Proof. solve_decision. Defined.

Record instance := {
  i_phase : phase;
  i_cancelled : bool;   (** ctx cancelled *)
  i_stopped : bool;     (** markResolverStopped(gen) done *)
}.

(** The package's variables. *)
Record gvars := {
  resolverGeneration : Z;
  resolverReadyGeneration : Z;
  resolverReady : Z;
}.

(** The variables, and where the instances are, by generation. *)
Record gstate := { vars :> gvars; instances : gmap Z instance }.

(** Before the first [setup]; a gauge starts at 0. *)
Definition vstart : gvars :=
  {| resolverGeneration := 0; resolverReadyGeneration := 0; resolverReady := 0 |}.
Definition gstart : gstate := {| vars := vstart; instances := ∅ |}.

(** ** The code *)
Definition uint64_succ (x : Z) : Z := (x + 1) mod 2 ^ 64.

Definition markResolverReady (v : gvars) (gen : Z) : gvars :=
  {| resolverGeneration := resolverGeneration v; resolverReadyGeneration := gen; resolverReady := 1 |}.

Definition markResolverStopped (v : gvars) (gen : Z) : gvars :=
  let stillLatest := resolverReadyGeneration v =? gen in
  if stillLatest
  then {| resolverGeneration := resolverGeneration v;
          resolverReadyGeneration := resolverReadyGeneration v; resolverReady := 0 |}
  else v.

(** [gen := resolverGeneration.Add(1)] *)
Definition next_generation (v : gvars) : gvars :=
  {| resolverGeneration := uint64_succ (resolverGeneration v);
     resolverReadyGeneration := resolverReadyGeneration v; resolverReady := resolverReady v |}.

(** Likewise, with the new instance. *)
Definition take_generation (s : gstate) (p : phase) : gstate :=
  {| vars := next_generation s;
     instances := <[resolverGeneration (next_generation s) :=
                    {| i_phase := p; i_cancelled := false; i_stopped := false |}]> (instances s) |}.

Inductive action :=
  | StartVM            (** setup, vm mode: wireResolverReadyLifecycle takes a generation *)
  | StartK8s           (** setup, k8s mode: likewise *)
  | VmReady (gen : Z)  (** wireResolverReadyLifecycle marks it ready *)
  | CacheSync (gen : Z) (** the watcher's WaitForCacheSync returns true *)
  | OnReady (gen : Z)  (** the watcher calls OnReady *)
  | Cancel (gen : Z)   (** OnShutdown cancels ctx *)
  | CtxDone (gen : Z). (** the goroutine waiting for ctx.Done() runs *)

Definition set_instance (s : gstate) (v : gvars) (gen : Z) (i : instance) : gstate :=
  {| vars := v; instances := <[gen := i]> (instances s) |}.

Definition gstep (s : gstate) (a : action) : option gstate :=
  match a with
  | StartVM => Some (take_generation s VmStarted)
  | StartK8s => Some (take_generation s Syncing)
  | VmReady gen | OnReady gen =>
      i ← instances s !! gen;
      let from := match a with VmReady _ => VmStarted | _ => Synced end in
      if bool_decide (i_phase i = from)
      then Some (set_instance s (markResolverReady s gen) gen
             {| i_phase := Marked; i_cancelled := i_cancelled i; i_stopped := i_stopped i |})
      else None
  | CacheSync gen =>
      i ← instances s !! gen;
      if bool_decide (i_phase i = Syncing)
      then Some (set_instance s s gen
             {| i_phase := Synced; i_cancelled := i_cancelled i; i_stopped := i_stopped i |})
      else None
  | Cancel gen =>
      i ← instances s !! gen;
      Some (set_instance s s gen
        {| i_phase := i_phase i; i_cancelled := true; i_stopped := i_stopped i |})
  | CtxDone gen =>
      i ← instances s !! gen;
      if i_cancelled i && negb (i_stopped i)
      then Some (set_instance s (markResolverStopped s gen) gen
             {| i_phase := i_phase i; i_cancelled := true; i_stopped := true |})
      else None
  end.

Fixpoint grun (s : gstate) (as_ : list action) : option gstate :=
  match as_ with
  | [] => Some s
  | a :: as' => s' ← gstep s a; grun s' as'
  end.

(** ** The specification *)

(** An instance that has reported ready and has not been cleaned up. *)
Definition up (s : gstate) (gen : Z) : Prop :=
  ∃ i, instances s !! gen = Some i ∧ i_phase i = Marked ∧ i_stopped i = false.

(** The newest generation that ever became ready. *)
Definition newest_ready (s : gstate) (gen : Z) : Prop :=
  (∃ i, instances s !! gen = Some i ∧ i_phase i = Marked) ∧
  ∀ g i, instances s !! g = Some i → i_phase i = Marked → g ≤ gen.

(** A step is orderly when readiness is reported in the order of the generations,
    and not after the instance's own clean-up. *)
Definition orderly (s : gstate) (a : action) : Prop :=
  match a with
  | VmReady gen | OnReady gen =>
      (∀ g i, instances s !! g = Some i → i_phase i = Marked → g < gen) ∧
      (∀ i, instances s !! gen = Some i → i_stopped i = false)
  | StartVM | StartK8s => resolverGeneration s < 2 ^ 64 - 1
  | _ => True
  end.

Inductive orderly_run : gstate → list action → gstate → Prop :=
  | or_nil s : orderly_run s [] s
  | or_snoc s as_ s1 a s2 :
      orderly_run s as_ s1 → orderly s1 a → gstep s1 a = Some s2 → orderly_run s (as_ ++ [a]) s2.

(** What holds of the shared variables after an orderly run. *)
Record gauge_inv (s : gstate) : Prop := {
  gi_fresh g : is_Some (instances s !! g) → 0 < g ≤ resolverGeneration s;
  gi_gen : 0 ≤ resolverGeneration s;
  gi_none : resolverReadyGeneration s = 0 → resolverReady s = 0 ∧
    ∀ g i, instances s !! g = Some i → i_phase i ≠ Marked;
  gi_newest : resolverReadyGeneration s ≠ 0 → newest_ready s (resolverReadyGeneration s);
  gi_gauge : resolverReady s = 1 ↔ up s (resolverReadyGeneration s);
  gi_bit : resolverReady s = 0 ∨ resolverReady s = 1;
}.

(** ** The invariant, step by step *)
Lemma gauge_inv_start : gauge_inv gstart.
Proof.
  split; cbn; try done; try lia.
  - intros g [i Hi]. by rewrite lookup_empty in Hi.
  - split; [done|]. intros (i & Hi & _). cbn in Hi. by rewrite lookup_empty in Hi.
Qed.

(** Changing one instance without changing which instances are marked, nor the
    clean-up of the latest one. *)
Lemma gauge_inv_update s gen i' :
  gauge_inv s → 0 < gen ≤ resolverGeneration s →
  (i_phase i' = Marked ↔ ∃ i, instances s !! gen = Some i ∧ i_phase i = Marked) →
  (gen = resolverReadyGeneration s → ∀ i, instances s !! gen = Some i → i_stopped i' = i_stopped i) →
  gauge_inv (set_instance s s gen i').
Proof.
  intros [Hf Hg Hn Hnew Hga Hb] Hin Hph Hst.
  assert (Hm : ∀ g, (∃ i, <[gen := i']> (instances s) !! g = Some i ∧ i_phase i = Marked) ↔
                    (∃ i, instances s !! g = Some i ∧ i_phase i = Marked)).
  { intros g. destruct (decide (g = gen)) as [->|Hne].
    - rewrite lookup_insert_eq. naive_solver.
    - by rewrite lookup_insert_ne. }
  split; cbn; try done.
  - intros g. destruct (decide (g = gen)) as [->|Hne]; [done|]. rewrite lookup_insert_ne by done.
    apply Hf.
  - intros Hz. destruct (Hn Hz) as [? Hno]. split; [done|]. intros g i Hi Hp.
    destruct (proj1 (Hm g)) as (i0 & ? & ?); [by exists i|]. by eapply Hno.
  - intros Hz. destruct (Hnew Hz) as [Hex Hmax]. split; [by apply Hm|].
    intros g i Hi Hp. destruct (proj1 (Hm g)) as (i0 & ? & ?); [by exists i|]. by eapply Hmax.
  - rewrite Hga. unfold up; cbn. destruct (decide (resolverReadyGeneration s = gen)) as [Heq|Hne].
    + rewrite Heq, lookup_insert_eq. split.
      * intros (i & Hi & Hp & Hs). exists i'. split; [done|]. split; [apply Hph; by exists i|].
        by rewrite (Hst (eq_sym Heq) i Hi).
      * intros (i & [= <-] & Hp & Hs). apply Hph in Hp as (i & Hi & Hp). exists i.
        split_and!; try done. by rewrite <-(Hst (eq_sym Heq) i Hi).
    + by rewrite lookup_insert_ne.
Qed.

Lemma gauge_inv_take s p :
  gauge_inv s → resolverGeneration s < 2 ^ 64 - 1 → p ≠ Marked → gauge_inv (take_generation s p).
Proof.
  intros Hinv Hlt Hp. pose proof (gi_gen _ Hinv).
  assert (Hgen : uint64_succ (resolverGeneration s) = resolverGeneration s + 1).
  { unfold uint64_succ. apply Z.mod_small. lia. }
  assert (Hfresh : instances s !! (resolverGeneration s + 1) = None).
  { apply eq_None_not_Some. intros Hs%(gi_fresh _ Hinv). lia. }
  set (s1 := {| vars := {| resolverGeneration := resolverGeneration s + 1;
    resolverReadyGeneration := resolverReadyGeneration s; resolverReady := resolverReady s |};
    instances := instances s |}).
  assert (Hinv1 : gauge_inv s1).
  { destruct Hinv as [Hf Hg Hn Hnew Hga Hb]. split; cbn; try done; [|lia].
    intros g Hs%Hf. lia. }
  unfold take_generation, next_generation. cbn. rewrite Hgen. apply (gauge_inv_update s1); [done|cbn; lia| |].
  - split; [by intros Hp'; cbn in Hp'|]. cbn. rewrite Hfresh. by intros (? & ? & _).
  - cbn. rewrite Hfresh. done.
Qed.

Lemma gauge_inv_ready s gen i c :
  gauge_inv s → instances s !! gen = Some i → i_stopped i = false →
  (∀ g j, instances s !! g = Some j → i_phase j = Marked → g < gen) →
  gauge_inv (set_instance s (markResolverReady s gen) gen
    {| i_phase := Marked; i_cancelled := c; i_stopped := i_stopped i |}).
Proof.
  intros Hinv Hi Hst Hmax. destruct (gi_fresh _ Hinv gen) as [Hpos Hle]; [by exists i|].
  split; cbn.
  - intros g. destruct (decide (g = gen)) as [->|Hne]; [done|]. rewrite lookup_insert_ne by done.
    apply Hinv.
  - apply (gi_gen _ Hinv).
  - lia.
  - intros _. split; [eexists; cbn; by rewrite lookup_insert_eq|]. intros g j.
    cbn. intros [[<- _]|[_ Hj]]%lookup_insert_Some Hp; [done|]. specialize (Hmax g j Hj Hp). lia.
  - split; [|done]. intros _. eexists. cbn. by rewrite lookup_insert_eq.
  - by right.
Qed.

Lemma gauge_inv_stop s gen i c :
  gauge_inv s → instances s !! gen = Some i →
  gauge_inv (set_instance s (markResolverStopped s gen) gen
    {| i_phase := i_phase i; i_cancelled := c; i_stopped := true |}).
Proof.
  intros Hinv Hi. pose proof (gi_fresh _ Hinv gen ltac:(by exists i)) as Hrange.
  unfold markResolverStopped. destruct (Z.eqb_spec (resolverReadyGeneration s) gen) as [Heq|Hne].
  - set (s1 := set_instance s s gen {| i_phase := i_phase i; i_cancelled := c; i_stopped := i_stopped i |}).
    assert (Hinv1 : gauge_inv s1).
    { apply gauge_inv_update; [done..| |].
      - cbn. naive_solver.
      - intros _ j Hj. cbn. naive_solver. }
    destruct Hinv1 as [Hf Hg Hn Hnew Hga Hb]. subst s1. cbn in *.
    assert (Hm : ∀ g j, <[gen := {| i_phase := i_phase i; i_cancelled := c; i_stopped := true |}]>
      (instances s) !! g = Some j → ∃ j0, i_phase j0 = i_phase j ∧
      <[gen := {| i_phase := i_phase i; i_cancelled := c; i_stopped := i_stopped i |}]>
      (instances s) !! g = Some j0).
    { intros g j [[<- <-]|[? ?]]%lookup_insert_Some.
      - eexists. rewrite lookup_insert_eq. by split; [|done].
      - exists j. by rewrite lookup_insert_ne. }
    split; cbn; try done.
    + intros g [j (j0 & _ & Hj0)%Hm]. apply Hf. by exists j0.
    + intros Hz. lia.
    + intros Hz. destruct (Hnew Hz) as [(j & Hj & Hp) Hmax]. split.
      * eexists. rewrite Heq. cbn. rewrite lookup_insert_eq. split; [done|]. cbn.
        rewrite Heq in Hj. cbn in Hj. rewrite lookup_insert_eq in Hj. by simplify_eq.
      * intros g j' Hj' Hp'. cbn in Hj'. destruct (Hm g j' Hj') as (j0 & Hp0 & Hj0).
        apply (Hmax g j0); [done|congruence].
    + split; [done|]. intros (j & Hj & _ & Hs). cbn in Hj. rewrite Heq, lookup_insert_eq in Hj.
      by simplify_eq.
    + by left.
  - apply gauge_inv_update; [done..| |].
    + cbn. naive_solver.
    + intros ->. done.
Qed.

Lemma gauge_inv_step s a s' : gauge_inv s → orderly s a → gstep s a = Some s' → gauge_inv s'.
Proof.
  intros Hinv Hord Hst. destruct a as [| |gen|gen|gen|gen|gen]; cbn in *.
  - simplify_eq. by apply gauge_inv_take.
  - simplify_eq. by apply gauge_inv_take.
  - destruct (instances s !! gen) as [i|] eqn:Hi; [|done]. cbn in Hst.
    case_bool_decide; [|done]. simplify_eq. destruct Hord as [Hmax Hs].
    eapply gauge_inv_ready; eauto.
  - destruct (instances s !! gen) as [i|] eqn:Hi; [|done]. cbn in Hst.
    case_bool_decide as Hp; [|done]. simplify_eq.
    apply gauge_inv_update; [done|apply (gi_fresh _ Hinv); by exists i| |].
    + cbn. split; [done|]. intros (j & Hj & Hpj). simplify_eq. congruence.
    + intros _ j Hj. cbn. naive_solver.
  - destruct (instances s !! gen) as [i|] eqn:Hi; [|done]. cbn in Hst.
    case_bool_decide; [|done]. simplify_eq. destruct Hord as [Hmax Hs].
    eapply gauge_inv_ready; eauto.
  - destruct (instances s !! gen) as [i|] eqn:Hi; [|done]. cbn in Hst. simplify_eq.
    apply gauge_inv_update; [done|apply (gi_fresh _ Hinv); by exists i| |].
    + cbn. naive_solver.
    + intros _ j Hj. cbn. naive_solver.
  - destruct (instances s !! gen) as [i|] eqn:Hi; [|done]. cbn in Hst.
    destruct (_ && _); [|done]. simplify_eq. by apply gauge_inv_stop.
Qed.

Lemma orderly_run_inv as_ s : orderly_run gstart as_ s → gauge_inv s.
Proof.
  remember gstart as s0 eqn:Hs0. induction 1 as [s|s as_ s1 a s2 _ IH Hord Hst]; subst.
  - apply gauge_inv_start.
  - by eapply gauge_inv_step; [apply IH|..].
Qed.

(** What the invariant says of the gauge. *)
Lemma gauge_inv_truthful s :
  gauge_inv s →
  (resolverReady s = 1 ↔ ∃ gen, newest_ready s gen ∧ up s gen) ∧
  (resolverReady s = 0 ∨ resolverReady s = 1).
Proof.
  intros [Hf Hg Hn Hnew Hga Hb]. split; [|done]. rewrite Hga. split.
  - intros Hup. exists (resolverReadyGeneration s). split; [|done]. apply Hnew. intros Hz.
    destruct Hup as (i & Hi & Hp & _). destruct (Hn Hz) as [_ Hno]. by apply (Hno _ i Hi).
  - intros (gen & [(i & Hi & Hp) Hmax] & Hup).
    assert (Hz : resolverReadyGeneration s ≠ 0).
    { intros Hz. destruct (Hn Hz) as [_ Hno]. by apply (Hno _ i Hi). }
    destruct (Hnew Hz) as [(j & Hj & Hpj) Hmax'].
    assert (resolverReadyGeneration s = gen) as ->; [|done].
    pose proof (Hmax _ j Hj Hpj). pose proof (Hmax' _ i Hi Hp). lia.
Qed.

(** ** Theorems *)

(** on an orderly run, in which instances report ready in the order they were
    started and before their own clean-up, the gauge is right at every moment: it
    is 1 exactly while the newest instance that has become ready is not cleaned
    up, whatever older instances do meanwhile, and 0 otherwise. *)
Theorem gauge_truthful as_ s :
  orderly_run gstart as_ s →
  (resolverReady s = 1 ↔ ∃ gen, newest_ready s gen ∧ up s gen) ∧
  (resolverReady s = 0 ∨ resolverReady s = 1).
Proof.
  intros Hrun%orderly_run_inv. by apply gauge_inv_truthful.
Qed.

(** ** Out of order *)

(** Neither a set-up nor a report of readiness. *)
Definition quiet (a : action) : Prop :=
  match a with CacheSync _ | Cancel _ | CtxDone _ => True | _ => False end.

(** Invariants of quiet runs. *)
Lemma quiet_run (P : gstate → Prop) (Q : action → Prop) :
  (∀ s a s', P s → quiet a → Q a → gstep s a = Some s' → P s') →
  ∀ as_ s s', Forall quiet as_ → Forall Q as_ → grun s as_ = Some s' → P s → P s'.
Proof.
  intros Hstep as_. induction as_ as [|a as_ IH]; intros s s' Hq HQ; cbn; [by intros [= <-]|].
  apply Forall_cons in Hq as [Ha Hq]. apply Forall_cons in HQ as [Ha' HQ].
  destruct (gstep s a) as [s1|] eqn:Hs; [|done]. cbn. intros Hrun HP.
  eapply IH; [done|done|exact Hrun|]. by eapply Hstep.
Qed.

(** What a quiet step does: it changes one instance, not to ready, and the variables at
    most by [markResolverStopped] on behalf of an instance not cleaned up before. *)
Lemma quiet_step s a s' :
  quiet a → gstep s a = Some s' →
  ∃ gen i i', instances s !! gen = Some i ∧ instances s' = <[gen := i']> (instances s) ∧
    (i_phase i' = i_phase i ∨ i_phase i = Syncing ∧ i_phase i' = Synced) ∧
    ((vars s' = vars s ∧ i_stopped i' = i_stopped i) ∨
     (a = CtxDone gen ∧ i_stopped i = false ∧ i_stopped i' = true ∧ vars s' = markResolverStopped s gen)).
Proof.
  destruct a as [| |g|g|g|g|g]; try done; intros _; cbn; (destruct (instances s !! g) as [i|] eqn:Hi; [|done]); cbn.
  - case_bool_decide; [|done]. intros [= <-]. eexists g, i, _. split_and!; [done|done|by right|by left].
  - intros [= <-]. eexists g, i, _. split_and!; [done|done|by left|by left].
  - destruct (i_cancelled i), (i_stopped i) eqn:Hs; try done. intros [= <-]. eexists g, i, _.
    split_and!; [done|done|by left|by right].
Qed.

Lemma quiet_zero (s s' : gstate) a : resolverReady s = 0 → quiet a → gstep s a = Some s' → resolverReady s' = 0.
Proof.
  intros Hz Hq Hs. destruct (quiet_step _ _ _ Hq Hs) as (g & i & i' & _ & _ & _ & [[-> _]|(_ & _ & _ & ->)]);
    [done|]. unfold markResolverStopped. by case_match.
Qed.

Lemma quiet_up s a s' gen : quiet a → a ≠ CtxDone gen → gstep s a = Some s' → up s gen → up s' gen.
Proof.
  intros Hq Ha Hs (i & Hi & Hp & Hst).
  destruct (quiet_step _ _ _ Hq Hs) as (g & i0 & i' & Hi0 & Hins & Hph & Hv). unfold up. rewrite Hins.
  destruct (decide (g = gen)) as [->|Hne]; [|by rewrite lookup_insert_ne by done; exists i].
  rewrite lookup_insert_eq. exists i'. simplify_eq. split_and!; [done|intuition congruence|].
  destruct Hv as [[_ ?]|[? _]]; [congruence|done].
Qed.

Lemma quiet_not_up s a s' : quiet a → gstep s a = Some s' → (∀ g, ¬ up s g) → ∀ g, ¬ up s' g.
Proof.
  intros Hq Hs Hno gen (j & Hj & Hp & Hst).
  destruct (quiet_step _ _ _ Hq Hs) as (g & i & i' & Hi & Hins & Hph & Hv). rewrite Hins in Hj.
  apply lookup_insert_Some in Hj as [[-> <-]|[_ Hj]]; [|by apply (Hno gen); exists j].
  apply (Hno gen). exists i. destruct Hph as [Hph|[_ Hph]]; [|congruence]. split_and!; [done|congruence|].
  destruct Hv as [[_ ?]|(_ & _ & ? & _)]; congruence.
Qed.

(** The gauge was set last by an instance that had already been cleaned up. *)
Definition set_late (gen : Z) (s : gstate) : Prop :=
  resolverReady s = 1 ∧ resolverReadyGeneration s = gen ∧
  ∃ i, instances s !! gen = Some i ∧ i_stopped i = true.

Lemma quiet_late gen s a s' : set_late gen s → quiet a → gstep s a = Some s' → set_late gen s'.
Proof.
  intros (Hone & Hgen & i & Hi & Hst) Hq Hs.
  destruct (quiet_step _ _ _ Hq Hs) as (g & i0 & i' & Hi0 & Hins & _ & Hv). unfold set_late. rewrite Hins.
  destruct Hv as [[Hv Hs']|(_ & Hno & _ & Hv)]; rewrite Hv.
  - split_and!; [done..|]. destruct (decide (g = gen)) as [->|Hne].
    + exists i'. rewrite lookup_insert_eq. by simplify_eq; rewrite Hs'.
    + exists i. by rewrite lookup_insert_ne.
  - assert (Hne : g ≠ gen) by (intros ->; simplify_eq; congruence).
    unfold markResolverStopped. destruct (Z.eqb_spec (resolverReadyGeneration s) g); [congruence|].
    split_and!; [done..|]. exists i. by rewrite lookup_insert_ne.
Qed.

(** C26: out of order the gauge is left wrong. In any state, take an instance whose
    watcher has synced but not reported yet. If another instance, newer ones included, is
    ready and running, then the late report followed by the late instance's clean-up
    zeroes the gauge, and it stays 0 whatever happens short of a further set-up or
    report, the other instance running on all the while. If the late instance has been
    cleaned up already, its report sets the gauge to 1, and it stays 1 whatever happens
    short of a further set-up or report, even if nothing was running before and
    nothing is. *)
Theorem gauge_stuck s gen i :
  instances s !! gen = Some i → i_phase i = Synced →
  (i_stopped i = false → ∀ other, other ≠ gen → up s other →
     ∃ s1, grun s [OnReady gen; Cancel gen; CtxDone gen] = Some s1 ∧
       ∀ as_ s2, Forall quiet as_ → grun s1 as_ = Some s2 →
         resolverReady s2 = 0 ∧ (CtxDone other ∉ as_ → up s2 other)) ∧
  (i_stopped i = true →
     ∃ s1, gstep s (OnReady gen) = Some s1 ∧
       ∀ as_ s2, Forall quiet as_ → grun s1 as_ = Some s2 →
         resolverReady s2 = 1 ∧ ((∀ g, ¬ up s g) → ∀ g, ¬ up s2 g)).
Proof.
  intros Hi Hp. assert (Htrue : ∀ as_ : list action, Forall (fun _ => True) as_)
    by (intros; by apply Forall_forall).
  split; intros Hst; cbn; rewrite Hi; cbn; rewrite (bool_decide_eq_true_2 (i_phase i = Synced)) by done; cbn.
  - intros other Hne Hup. rewrite !lookup_insert_eq, Hst. cbn. rewrite lookup_insert_eq. cbn.
    eexists. split; [done|]. intros as_ s2 Hq Hrun. split.
    + eapply (quiet_run (fun s : gstate => resolverReady s = 0) (fun _ => True)); [|done|done|exact Hrun|].
      * intros s0 a s' Hz Ha _. by apply quiet_zero.
      * cbn. unfold markResolverStopped; cbn. by rewrite Z.eqb_refl.
    + intros Hnot. eapply (quiet_run (fun s => up s other) (fun a => a ≠ CtxDone other)); [|done| |exact Hrun|].
      * intros s0 a s' Hu Ha Hd Hs. by eapply quiet_up.
      * apply Forall_forall. by intros a Ha ->.
      * unfold up; cbn. destruct Hup as (j & Hj & ? & ?). exists j. by rewrite !lookup_insert_ne.
  - eexists. split; [done|]. intros as_ s2 Hq Hrun. split.
    + eapply (quiet_run (set_late gen) (fun _ => True)); [|done|done|exact Hrun|].
      * intros s0 a s' Hl Ha _. by apply quiet_late.
      * split_and!; [done..|]. cbn. rewrite lookup_insert_eq. by eexists.
    + intros Hno. eapply (quiet_run (fun s => ∀ g, ¬ up s g) (fun _ => True)); [|done|done|exact Hrun|].
      * intros s0 a s' Hu Ha _ Hs. by eapply quiet_not_up.
      * intros g (j & Hj & Hpj & Hsj). cbn in Hj.
        apply lookup_insert_Some in Hj as [[_ <-]|[_ Hj]]; [cbn in Hsj; congruence|]. by apply (Hno g); exists j.
Qed.

(** ** Witnesses *)
Module ReadyGaugeWitnesses.

(** A reload: the old instance is cleaned up after the new one is ready. *)
Definition reload : list action :=
  ((((([] ++ [StartVM]) ++ [VmReady 1]) ++ [StartVM]) ++ [VmReady 2]) ++ [Cancel 1]) ++ [CtxDone 1].

Lemma gauge_truthful_witness :
  ∃ s, orderly_run gstart reload s ∧ ∃ gen, newest_ready s gen ∧ up s gen.
Proof.
  assert (Hrun : orderly_run gstart reload
    {| vars := {| resolverGeneration := 2; resolverReadyGeneration := 2; resolverReady := 1 |};
       instances := <[1 := {| i_phase := Marked; i_cancelled := true; i_stopped := true |}]>
        (<[2 := {| i_phase := Marked; i_cancelled := false; i_stopped := false |}]> ∅) |}).
  { eapply or_snoc; [eapply or_snoc; [eapply or_snoc; [eapply or_snoc; [eapply or_snoc;
      [eapply or_snoc; [apply or_nil|..]|..]|..]|..]|..]|..]; try (by vm_compute); cbn.
    - split; [|by intros i [= <-]].
      refine (bool_decide_unpack (map_Forall (fun g i => i_phase i = Marked → g < 1) _) _).
      by vm_compute.
    - split; [|by intros i [= <-]].
      refine (bool_decide_unpack (map_Forall (fun g i => i_phase i = Marked → g < 2) _) _).
      by vm_compute. }
  eexists. split; [exact Hrun|]. by apply (gauge_truthful _ _ Hrun).
Defined.

(** The second watcher reports before the first. *)
Definition overtaken : gstate :=
  default gstart (grun gstart [StartK8s; StartK8s; CacheSync 2; OnReady 2; CacheSync 1]).

(** The instance is cleaned up between its sync and its report. *)
Definition cleaned_early : gstate :=
  default gstart (grun gstart [StartK8s; CacheSync 1; Cancel 1; CtxDone 1]).

Lemma gauge_stuck_witness :
  (∃ s1, grun overtaken [OnReady 1; Cancel 1; CtxDone 1] = Some s1 ∧ resolverReady s1 = 0 ∧ up s1 2) ∧
  (∃ s1, gstep cleaned_early (OnReady 1) = Some s1 ∧ resolverReady s1 = 1).
Proof.
  split.
  - destruct (gauge_stuck overtaken 1 {| i_phase := Synced; i_cancelled := false; i_stopped := false |})
      as [Hlow _]; [by vm_compute|done|].
    destruct (Hlow eq_refl 2) as (s1 & Hs & Hq); [done|by eexists; vm_compute|].
    exists s1. split; [exact Hs|]. destruct (Hq [] s1) as [Hz Hup]; [constructor|done|].
    split; [exact Hz|]. apply Hup. by intros ?%elem_of_nil.
  - destruct (gauge_stuck cleaned_early 1 {| i_phase := Synced; i_cancelled := true; i_stopped := true |})
      as [_ Hhigh]; [by vm_compute|done|].
    destruct (Hhigh eq_refl) as (s1 & Hs & Hq). exists s1. split; [exact Hs|].
    by destruct (Hq [] s1) as [Hone _].
Defined.
End ReadyGaugeWitnesses.
