(* ===== verification/DohUpstream.v ===== *)
(** * internal/dohupstream: the agent's DoH client

    [Exchange] posts a query to central and gives the reply its id back; [NewMTLS]
    builds the client, pinned to central's SPIFFE ID. CoreDNS's [doh] package,
    [net/http] and go-spiffe are the interfaces below. *)

From S2P Require Import Prelude GoStd NetIP DnsLib EdnsZone Identity PodZone ZoneCache Agent.

Open Scope Z_scope.

Definition StatusOK : Z := 200.
Definition defaultDialTimeout : Z := 10 * Second.
Definition defaultQueryTimeout : Z := 5 * Second.

(** ** Interfaces *)

(** An [http.Client], of which the source sets two fields. *)
Record HttpClient (Tls : Type) := { hc_TLS : Tls; hc_Timeout : Z }.
Arguments hc_TLS {Tls}.
Arguments hc_Timeout {Tls}.

(** The HTTP exchange, [W] being the state of the world it happens in. *)
Class HttpOps (Tls Request Response W : Type) := {
  (** doh.NewRequestWithContext, with http.MethodPost *)
  NewRequest : string → Msg → result string Request;
  Do : HttpClient Tls → Request → W → result string Response * W;
  StatusCode : Response → Z;
  (** doh.ResponseToMsg, which closes the body *)
  ResponseToMsg : Response → W → result string Msg * W;
  CloseBody : Response → W → W;
}.

(** go-spiffe: IDs, X509 sources and the TLS configuration built from them. *)
Class SpiffeOps (ID Source Tls W : Type) := {
  FromString : string → result string ID;
  NewX509Source : string → Z → W → result string Source * W;
  MTLSClientConfig : Source → ID → Tls;
  X509Source_Close : Source → W → W;
}.

(** ** Exchange *)
Inductive doh_error :=
  | ErrBuild (e : string)
  | ErrDo (e : string)
  | ErrStatus (code : Z)
  | ErrDecode (e : string).

Section client.
Context {Tls Request Response W : Type} `{DnsOps, HttpOps Tls Request Response W}.

Record Client := { c_url : string; c_hc : HttpClient Tls }.

Definition NewWithHTTPClient (url : string) (hc : HttpClient Tls) : Client :=
  {| c_url := url; c_hc := hc |}.

Definition Client_Exchange (c : Client) (m : Msg) (w : W) : result doh_error Msg * W :=
  let originalID := Id m in
  let outbound := with_Id (Copy m) 0 in
  match NewRequest (c_url c) outbound with
  | Err e => (Err (ErrBuild e), w)
  | Ok req =>
      match Do (c_hc c) req w with
      | (Err e, w) => (Err (ErrDo e), w)
      | (Ok resp, w) =>
          if negb (StatusCode resp =? StatusOK)
          then (Err (ErrStatus (StatusCode resp)), CloseBody resp w)
          else
            match ResponseToMsg resp w with
            | (Err e, w) => (Err (ErrDecode e), w)
            | (Ok answer, w) => (Ok (with_Id answer originalID), w)
            end
      end
  end.

(** The client as the agent's [Upstream]. *)
Definition client_upstream (c : Client) : Upstream doh_error W := {|
  Exchange m w :=
    match Client_Exchange c m w with
    | (Ok answer, w) => (Ok (Some answer), w)
    | (Err e, w) => (Err e, w)
    end;
|}.

Lemma client_upstream_laws c : UpstreamLaws doh_error W (H := client_upstream c).
Proof. split. intros m w. cbn. destruct (Client_Exchange c m w) as [[] ?]; done. Qed.

(** what goes over the wire and what comes back: the client posts the query
    with id 0, as RFC 8484 asks, and otherwise unchanged; it succeeds exactly when
    the request is built, sent, answered with status 200 and decoded, and then the
    result is the decoded reply with the query's own id. *)
Theorem Client_Exchange_spec `{!DnsLaws} c m w answer w' :
  Client_Exchange c m w = (Ok answer, w') ↔
  ∃ req resp w1 reply,
    NewRequest (c_url c) (with_Id m 0) = Ok req ∧
    Do (c_hc c) req w = (Ok resp, w1) ∧ StatusCode resp = StatusOK ∧
    ResponseToMsg resp w1 = (Ok reply, w') ∧ answer = with_Id reply (Id m).
Proof.
  unfold Client_Exchange. rewrite Copy_deep. split.
  - destruct (NewRequest _ _) as [req|] eqn:Hr; [|done].
    destruct (Do _ _ _) as [[resp|] w1] eqn:Hd; [|done].
    destruct (Z.eqb_spec (StatusCode resp) StatusOK) as [Hs|]; [|done]. cbn.
    destruct (ResponseToMsg resp w1) as [[reply|] w2] eqn:Hm; [|done].
    intros [= <- <-]. by exists req, resp, w1, reply.
  - intros (req & resp & w1 & reply & -> & -> & -> & Hm & ->). cbn. by rewrite Hm.
Qed.

(** The same operations, counting the response bodies that are open: a response comes
    with an open body, which [ResponseToMsg] and [Body.Close] close. *)
Definition body_counting : HttpOps Tls Request Response (W * Z) := {|
  NewRequest := NewRequest;
  Do hc req '(w, bodies) :=
    let '(r, w) := Do hc req w in (r, (w, match r with Ok _ => bodies + 1 | Err _ => bodies end));
  StatusCode := StatusCode;
  ResponseToMsg resp '(w, bodies) := let '(r, w) := ResponseToMsg resp w in (r, (w, bodies - 1));
  CloseBody resp '(w, bodies) := (CloseBody resp w, bodies - 1);
|}.
End client.
Arguments Client Tls : clear implicits.

Section bodies.
Context {Tls Request Response W : Type} `{DnsOps, !HttpOps Tls Request Response W}.

(** C35: no query leaks its connection: whatever the server does, on success and on every
    error path, [Exchange] closes the response body it opened, exactly once, and counting
    the bodies changes nothing of what it returns. *)
Theorem Client_Exchange_closes (c : Client Tls) m (w : W) bodies :
  Client_Exchange (H0 := body_counting) c m (w, bodies) =
    let '(res, w') := Client_Exchange c m w in (res, (w', bodies)).
Proof.
  unfold Client_Exchange. cbn. destruct (NewRequest _ _) as [req|]; [|done].
  destruct (Do _ _ w) as [[resp|] w1]; [|done].
  destruct (StatusCode resp =? StatusOK); cbn; [|by rewrite Z.add_simpl_r].
  destruct (ResponseToMsg resp w1) as [[answer|] w2]; by rewrite Z.add_simpl_r.
Qed.
End bodies.

(** ** NewMTLS *)
Definition buildHTTPClient {Tls : Type} (tlsCfg : Tls) (timeout : Z) : HttpClient Tls :=
  let timeout := if timeout =? 0 then defaultQueryTimeout else timeout in
  {| hc_TLS := tlsCfg; hc_Timeout := timeout |}.

Record DohConfig := {
  cfg_URL : string;
  cfg_WorkloadAPIAddr : string;
  cfg_CentralSPIFFEID : string;
  cfg_DialTimeout : Z;
  cfg_Timeout : Z;
}.

Inductive mtls_error :=
  | ErrIDRequired
  | ErrInvalidID (id e : string)
  | ErrNoSVID (addr : string) (timeout : Z) (e : string).

Section mtls.
Context {ID Source Tls W : Type} `{SpiffeOps ID Source Tls W}.

(** The client, and the source its cleanup closes. *)
Definition NewMTLS (cfg : DohConfig) (w : W) : result mtls_error (Client Tls * Source) * W :=
  if bool_decide (cfg_CentralSPIFFEID cfg = "") then (Err ErrIDRequired, w)
  else
    match FromString (cfg_CentralSPIFFEID cfg) with
    | Err e => (Err (ErrInvalidID (cfg_CentralSPIFFEID cfg) e), w)
    | Ok id =>
        let timeout := if cfg_DialTimeout cfg =? 0 then defaultDialTimeout else cfg_DialTimeout cfg in
        match NewX509Source (cfg_WorkloadAPIAddr cfg) timeout w with
        | (Err e, w) => (Err (ErrNoSVID (cfg_WorkloadAPIAddr cfg) timeout e), w)
        | (Ok source, w) =>
            let tlsCfg := MTLSClientConfig source id in
            let hc := buildHTTPClient tlsCfg (cfg_Timeout cfg) in
            (Ok ({| c_url := cfg_URL cfg; c_hc := hc |}, source), w)
        end
    end.

(** every client is pinned and bounded: a client exists only for a
    configuration that names central's SPIFFE ID, its TLS configuration authorizes
    exactly that ID with the source its cleanup releases, it waits neither for the
    first SVID nor for a reply without a limit, and without the ID none is built. *)
Theorem NewMTLS_pinned cfg w c source w' :
  NewMTLS cfg w = (Ok (c, source), w') →
  ∃ id timeout,
    cfg_CentralSPIFFEID cfg ≠ "" ∧ FromString (Tls := Tls) (Source := Source) (W := W)
      (cfg_CentralSPIFFEID cfg) = Ok id ∧
    timeout ≠ 0 ∧ NewX509Source (cfg_WorkloadAPIAddr cfg) timeout w = (Ok source, w') ∧
    c_url c = cfg_URL cfg ∧ hc_TLS (c_hc c) = MTLSClientConfig source id ∧
    hc_Timeout (c_hc c) ≠ 0.
Proof.
  unfold NewMTLS. case_bool_decide as He; [done|].
  destruct (FromString _) as [id|] eqn:Hid; [|done].
  set (timeout := if cfg_DialTimeout cfg =? 0 then _ else _).
  destruct (NewX509Source _ _ _) as [[src|] w1] eqn:Hs; [|done]. intros [= <- <- <-].
  exists id, timeout. split_and!; try done; cbn.
  - subst timeout. destruct (Z.eqb_spec (cfg_DialTimeout cfg) 0); [done|done].
  - destruct (Z.eqb_spec (cfg_Timeout cfg) 0); [done|done].
Qed.
End mtls.

(** ** Witnesses *)
Module DohUpstreamWitnesses.

(** A Workload API that hands out its address as the source. *)
#[export] Instance workload : SpiffeOps string string (string * string) unit := {|
  FromString s := if Strings.HasPrefix s "spiffe://" then Ok s else Err "scheme is missing";
  NewX509Source addr _ w := (Ok addr, w);
  MTLSClientConfig source id := (source, id);
  X509Source_Close _ w := w;
|}.

Definition cfg0 : DohConfig := {|
  cfg_URL := "https://central"; cfg_WorkloadAPIAddr := "unix:///run/spire/agent.sock";
  cfg_CentralSPIFFEID := "spiffe://example.org/central"; cfg_DialTimeout := 0; cfg_Timeout := 0 |}.

Lemma NewMTLS_pinned_witness :
  ∃ c : Client (string * string),
    hc_TLS (c_hc c) = ("unix:///run/spire/agent.sock", "spiffe://example.org/central") ∧
    hc_Timeout (c_hc c) ≠ 0.
Proof.
  edestruct (NewMTLS_pinned cfg0 tt) as (id & timeout & _ & Hid & _ & _ & _ & Htls & Ht);
    [by vm_compute|].
  eexists. split; [|exact Ht]. rewrite Htls. vm_compute in Hid. injection Hid as <-. done.
Defined.
End DohUpstreamWitnesses.
