(* ===== verification/EndToEnd.v ===== *)
(** * The two ends together

    The agent's upstream is the DoH client of dohupstream, and what answers at the
    other end of the connection is central's handler. [Wire] states what the HTTP
    layer between them does when it does anything: building the request, the round trip
    and reading the reply may each fail, with any status, but a reply that is read with
    status 200 is the message central wrote for the query sent, on a connection
    authenticated as [ctx] says. *)

From S2P Require Import Prelude GoStd GoUrl NetIP DnsLib EdnsZone Registry Decision.
From S2P Require Import Identity Central PodZone ZoneCache Agent AgentConcurrent DohUpstream.
Import Strings.

Open Scope Z_scope.

Section ends.
Context {R Handler Tls Request Response W : Type}.
Context `{Unicode, DnsOps, RequestOps, LruOps key entry, ZoneResolver R, PluginOps Handler}.
Context `{!HttpOps Tls Request Response W}.
Context `{!DnsLaws, !RequestLaws, !LruLaws key entry}.

Variable c : Client Tls.

#[local] Instance doh_upstream : Upstream doh_error W := client_upstream c.
#[local] Instance doh_upstream_laws : UpstreamLaws doh_error W := client_upstream_laws c.

Class Wire (z : ZoneDNS (Handler := Handler)) (ctx : Context) (wr : ResponseWriter) : Prop := {
  wire_faithful m req w resp w1 reply w2 rc t m' :
    NewRequest (c_url c) m = Ok req → Do (c_hc c) req w = (Ok resp, w1) → StatusCode resp = StatusOK →
    ResponseToMsg resp w1 = (Ok reply, w2) →
    ServeDNS z ctx wr m [] = Some (rc, t) → written t = [m'] → reply = m';
}.

Section wire.
Context (z : ZoneDNS (Handler := Handler)) (ctx : Context) (wr : ResponseWriter) `{!Wire z ctx wr}.

(** What comes back for a query central answers itself is that answer, with the
    query's own id. *)
Lemma exchange_central m rc t reply w av :
  ServeDNS z ctx wr (with_Id m 0) [] = Some (rc, t) → written t = [reply] →
  (Exchange m w).1 = Ok (Some av) → av = with_Id reply (Id m).
Proof.
  intros Hs Hw Hex. cbn in Hex.
  destruct (Client_Exchange c m w) as [[av'|] w'] eqn:Hce; [|done]. cbn in Hex. simplify_eq.
  apply Client_Exchange_spec in Hce as (req & resp & w1 & r & Hreq & Hdo & Hst & Hm & ->).
  by rewrite (wire_faithful _ _ _ _ _ _ _ _ _ _ Hreq Hdo Hst Hm Hs Hw).
Qed.

Lemma EqualFold_refl s : string_forallb is_ascii s = true → EqualFold s s = true.
Proof. intros Hs. rewrite EqualFold_ToLower by done. by apply bool_decide_eq_true_2. Qed.

Lemma answersQuestion_same m m' q :
  string_forallb is_ascii (q_Name q) = true → Questions m = [q] → Questions m' = [q] →
  answersQuestion m m' = true.
Proof.
  intros Ha Hm Hm'. unfold answersQuestion. rewrite Hm, Hm'. cbn.
  by rewrite EqualFold_refl, !Z.eqb_refl.
Qed.

(** The gateway's bytes depend on the type asked for alone. *)
Lemma gateway_record_Body r r' gw :
  QType r = QType r' → map Body (gateway_record z r gw) = map Body (gateway_record z r' gw).
Proof.
  intros Hq. unfold gateway_record. rewrite Hq.
  destruct gw; repeat case_match; done.
Qed.

Section cross_zone.
Context (code : Z) (agents : list string) (id src dest : string) (gw : Addr).
Hypothesis Hid : z_Identity z = NewConfig agents code.
Hypothesis Hpeer : peer_id ctx wr = Some id.
Hypothesis Hin : id ∈ agents.
Hypothesis Hne : dest ≠ src.
Hypothesis Hgw : Gateway (z_Zones z) dest = Some gw.
Hypothesis Hwf : Addr_wf gw.
Hypothesis Hzone : Addr_Zone gw = "".

(** What comes back for a query that declares [src] and asks for a name of [dest],
    whenever it is sent. *)
Lemma central_answers ov up av :
  GetZone ov code = Some src → address_query ov → Store_Lookup (z_Registry z) (req_Name ov) = Some dest →
  (Exchange ov up).1 = Ok (Some av) →
  Rcode av = RcodeSuccess ∧ map Body (Answer av) = map Body (gateway_record z ov gw) ∧
  ∀ qu, Questions ov = [qu] → Questions av = [qu].
Proof using All.
  intros Hdecl Haddr Hreg Hex.
  destruct (request_question (with_Id ov 0) ov eq_refl) as (Hqt & _ & Hname).
  assert (Hx : crosses z ctx wr (with_Id ov 0) src dest).
  { split_and!; [| | |done].
    - unfold address_query. by rewrite Hqt.
    - by rewrite Hid, (SourceZone_authorized _ _ _ _ _ id Hpeer Hin), (GetZone_Extra _ ov), Hdecl.
    - by rewrite Hname. }
  destruct (ServeDNS_gateway_reply _ _ _ _ _ _ _ Hx Hgw Hwf Hzone) as (tc & reply & Hs & Hwr & Hrep & Hans).
  rewrite (exchange_central _ _ _ _ _ _ Hs Hwr Hex).
  destruct Hrep as (_ & _ & _ & Hrc & Hrq & _). split; [done|]. split; [|by intros qu ?; apply Hrq].
  cbn. rewrite Hans. by apply gateway_record_Body.
Qed.

(** C4: the whole path, with any number of queries at once, of agents that central
    authorizes and that use its option code, central's configuration and registry being
    fixed meanwhile. Take a query with one question, for an address of an ASCII name with
    its trailing dot, that is registered to a zone whose gateway has no IPv6 zone, from a
    client the agent found in another zone [src]. Whatever options the query carries and
    whatever other clients do, its next step does not panic; what it writes, from central
    or from the cache, is that gateway (or an empty answer for the other address family),
    under the client's own id and question; and it ends in failure only when its exchange
    did: a reply from central passes the agent's checks. *)
Theorem cross_zone_concurrent n wd i q now qu :
  reach n code wd → w_queries wd !! i = Some q →
  Questions (q_rv q) = [qu] → q_Qtype qu = TypeA ∨ q_Qtype qu = TypeAAAA →
  HasSuffix (q_Name qu) "." = true → string_forallb is_ascii (q_Name qu) = true →
  Store_Lookup (z_Registry z) (ToLower (q_Name qu)) = Some dest →
  ∃ ph s t, phase_step (w_agent wd) (q_w q) (q_r q) now (q_phase q) (w_state wd) = Some (ph, s) ∧
    as_trace s = as_trace (w_state wd) ++ t ∧
    (q_zone (moved (w_agent wd) q ph) = Some src →
     (∀ m, m ∈ wrote t →
        Id m = Id (q_rv q) ∧ Rcode m = RcodeSuccess ∧ Questions m = [qu] ∧
        map Body (Answer m) = map Body (gateway_record z (q_rv q) gw)) ∧
     ∀ res, ph = Done res → res = (RcodeSuccess, None) ∨ q_phase q = Done res ∨
       ∃ rv zone now' ov e, q_phase q = Asking rv zone now' ov ∧
         (Exchange ov (as_up (w_state wd))).1 = Err e).
Proof using All.
  intros [cw Hw]%reach_ok Hi Hq Hqt Hdot Hascii Hreg.
  destruct (world_ok_query n code wd cw i q now Hw Hi) as (ph & s & cw' & t & Hrun & Hsp & Hw').
  exists ph, s, t. split; [done|]. split; [apply Hsp|]. intros Hsrc.
  assert (Haddr : address_query (q_rv q)) by (unfold address_query; by rewrite (QType_one _ qu Hq)).
  assert (Hname : Store_Lookup (z_Registry z) (req_Name (q_rv q)) = Some dest)
    by by rewrite (req_Name_one _ qu Hq).
  split.
  - intros m Hm. destruct (sp_wrote _ _ _ _ _ _ _ _ _ Hsp m Hm) as (av & Hfc & Hrel).
    rewrite Hsrc in Hfc. cbn in Hfc, Hrel.
    destruct Hfc as (rv' & ov & Hex & Hdecl & _ & Hqs & Hty & Hnm).
    rewrite !req_Name_lower in Hnm. destruct (request_question ov rv' Hqs) as (Hty' & _ & Hnm').
    destruct (wo_honest _ _ _ _ Hw' _ _ Hex) as [up Hup].
    destruct (central_answers ov up av Hdecl) as (Hrc & Hbody & _).
    { unfold address_query. by rewrite Hty', Hty. }
    { by rewrite Hnm', Hnm. }
    { done. }
    destruct Hrel as (HId & _ & Hrcm & Hqm & Hbm).
    split_and!; [done|congruence|by apply Hqm|]. rewrite Hbm, Hbody.
    apply gateway_record_Body. congruence.
  - intros res ->. destruct (phase_step_Done _ _ _ _ _ _ _ _ Hrun) as [Hr|[Hr|(rv & zn & now' & ov & Hph & Hno)]];
      [by left|right; by left|right; right].
    pose proof (qo_phase _ _ _ _ (wo_query _ _ _ _ Hw i q Hi)) as Hp. unfold phase_ok in Hp.
    unfold moved in Hsrc. rewrite Hph in Hp, Hsrc. cbn in Hsrc. destruct Hp as (-> & _ & Hdecl & Hqs).
    destruct (request_question ov (q_rv q) Hqs) as (Hty & _ & Hnm).
    pose proof (Exchange_not_nil ov (as_up (w_state wd))) as Hnil.
    destruct (Exchange ov (as_up (w_state wd))).1 as [[av|]|e] eqn:Hex;
      [exfalso|done|by exists (q_rv q), zn, now', ov, e; rewrite Hex].
    destruct (central_answers ov (as_up (w_state wd)) av) as (_ & _ & Hqa); [by rewrite Hdecl| | |done|].
    { unfold address_query. by rewrite Hty. }
    { by rewrite Hnm. }
    specialize (Hno av eq_refl). rewrite (answersQuestion_same ov av qu) in Hno; [done|done| |].
    + by rewrite Hqs.
    + apply Hqa. by rewrite Hqs.
Qed.
End cross_zone.
End wire.

(** C28: with different option codes at the two ends a client chooses its own zone:
    the agent removes declarations under its own code only, so an option the
    client attaches under central's code arrives unchanged next to the agent's,
    over the agent's authenticated connection, and central takes it for a trusted
    declaration. *)
Theorem mismatched_codes_forgeable ctx wr agents id (a : Agent (R := R)) zc rv ov code' forged :
  EDNS0Code a ≠ code' → outbound_msg a zc rv = Some ov →
  peer_id ctx wr = Some id → id ∈ agents → GetZone rv code' = Some forged →
  Config_SourceZone (NewConfig agents code') ctx wr ov = Some (forged, ReasonOK).
Proof.
  intros Hne Hov Hpeer Hin Hforged.
  rewrite (SourceZone_authorized _ _ _ _ _ id Hpeer Hin).
  assert (Hget : GetZone ov code' = GetZone rv code') by
    (unfold outbound_msg in Hov; rewrite Copy_deep in Hov;
     rewrite <-(strip_options_other rv (EDNS0Code a)) by done;
     destruct zc; [by eapply SetZone_other_code|by simplify_eq]).
  by rewrite Hget, Hforged.
Qed.
End ends.

(** ** Witnesses *)
Module EndToEndWitnesses.
Import DnsLib.Reference LruReference IdentityWitnesses CentralWitnesses.

Definition gw0 : Addr := Addr4 [10; 0; 0; 1].

(** Central's handler behind an HTTP connection that carries messages as they are. *)
Definition answer_of (m : Msg) : result string Msg :=
  match ServeDNS (central0 gw0) agent_ctx plain_writer m [] with
  | Some (_, t) => match written t with [reply] => Ok reply | _ => Err "handed on" end
  | None => Err "panic"
  end.

#[export] Instance loopback : HttpOps unit Msg Msg unit := {|
  NewRequest _ m := Ok m;
  Do _ req w := (answer_of req, w);
  StatusCode _ := StatusOK;
  ResponseToMsg resp w := (Ok resp, w);
  CloseBody _ w := w;
|}.

Definition client0 : Client unit :=
  NewWithHTTPClient "https://central" {| hc_TLS := tt; hc_Timeout := defaultQueryTimeout |}.

Lemma loopback_wire : Wire client0 (central0 gw0) agent_ctx plain_writer.
Proof.
  split. intros m req w resp w1 reply w2 rc t m' [= <-] [= Hans _] _ [= <- _] Hs Hw.
  unfold answer_of in Hans. rewrite Hs, Hw in Hans. by injection Hans.
Qed.

(** An agent on a machine of zone "office". *)
Definition office : Agent := {|
  Resolver := NewStaticResolver "office"; EDNS0Code := DefaultCode; NodeIP := AddrZero |}.

Definition start1 : astate := {|
  as_mem := {| m_heap := []; m_cache := {| l := {| entries := []; capacity := 2 |} |} |};
  as_up := tt; as_trace := [] |}.

(** A query as a thread: five steps, and the reply is the next. *)
Definition asked1 : Msg := query "API.example.org." TypeA "fab".

Definition arrived1 : world (R := StaticResolver) (W := unit) := {|
  w_state := arrive start1 asked1; w_now := 0; w_agent := office;
  w_queries := [new_query start1 plain_writer asked1] |}.

Definition answered1 : world := default arrived1
  (take_steps (H4 := client_upstream client0) arrived1
     [(0%nat, 1); (0%nat, 1); (0%nat, 2); (0%nat, 3); (0%nat, 9)]).

Definition thread1 : AgentConcurrent.query :=
  default (new_query start1 plain_writer asked1) (w_queries answered1 !! 0%nat).

Lemma answered1_reach : reach (H4 := client_upstream client0) 2 DefaultCode answered1.
Proof.
  apply (take_steps_reach (H4 := client_upstream client0) 2 DefaultCode arrived1
    [(0%nat, 1); (0%nat, 1); (0%nat, 2); (0%nat, 3); (0%nat, 9)]); [|by vm_compute].
  eapply re_step; [|apply (st_arrive {| w_state := start1; w_now := 0; w_agent := office; w_queries := [] |})].
  apply re_start; [done|done|by apply static_ok].
Qed.

Lemma cross_zone_concurrent_witness :
  ∃ ph s t, phase_step (H4 := client_upstream client0) office (q_w thread1) (q_r thread1) 10
      (q_phase thread1) (w_state answered1) = Some (ph, s) ∧
    as_trace s = as_trace (w_state answered1) ++ t ∧
    (q_zone (moved office thread1 ph) = Some "office" →
     (∀ m, m ∈ wrote t → Id m = Id (q_rv thread1) ∧ Rcode m = RcodeSuccess ∧
        Questions m = [{| q_Name := "API.example.org."; q_Qtype := TypeA; q_Qclass := ClassINET |}] ∧
        map Body (Answer m) = map Body (gateway_record (central0 gw0) (q_rv thread1) gw0)) ∧
     ∀ res, ph = Done res → res = (RcodeSuccess, None) ∨ q_phase thread1 = Done res ∨
       ∃ rv zone now' ov e, q_phase thread1 = Asking rv zone now' ov ∧
         (Exchange (Upstream := client_upstream client0) ov (as_up (w_state answered1))).1 = Err e).
Proof.
  apply (cross_zone_concurrent client0 (central0 gw0) agent_ctx plain_writer (Wire0 := loopback_wire)
    DefaultCode ["spiffe://example.org/ns/dns/sa/agent"] "spiffe://example.org/ns/dns/sa/agent"
    "office" "fab" gw0) with (n := 2) (wd := answered1) (i := 0%nat).
  - reflexivity.
  - by vm_compute.
  - by left.
  - done.
  - by vm_compute.
  - split; [done|]. repeat constructor; done.
  - reflexivity.
  - exact answered1_reach.
  - by vm_compute.
  - by vm_compute.
  - by left.
  - reflexivity.
  - reflexivity.
  - by vm_compute.
Defined.

(** A query with a declaration under code 65002. *)
Definition forged_query : Msg := with_Extra zero_Msg
  [{| Hdr := Hdr (fresh_opt 1232 false); Body := RD_OPT [EDNS0_LOCAL 65002 "fab"] |}].

Lemma mismatched_codes_forgeable_witness :
  ∃ ov, outbound_msg office (Some "office") forged_query = Some ov ∧
    Config_SourceZone (NewConfig ["spiffe://example.org/ns/dns/sa/agent"] 65002) agent_ctx
      plain_writer ov = Some ("fab", ReasonOK).
Proof.
  eexists. split; [by vm_compute|].
  eapply (mismatched_codes_forgeable agent_ctx plain_writer _ "spiffe://example.org/ns/dns/sa/agent"
    office (Some "office") forged_query); [done|by vm_compute|by vm_compute|by left|by vm_compute].
Defined.
End EndToEndWitnesses.
