(* ===== verification/Flags.v ===== *)
(** * Go's flag package, as a command that only calls [flag.Parse] sees it

    A flag set maps names to values that are set from text; [Parse] walks over the
    arguments, and leaves the program with 0 when help is asked for and with 2 on an
    error ([flag.ExitOnError]). [spelled] is the syntax the package documents, and
    [Parse_spelled] relates the two. *)

From S2P Require Import Prelude GoStd.
Import Strings.

Open Scope Z_scope.

(** strconv.ParseBool *)
Definition ParseBool (s : string) : option bool :=
  if bool_decide (s ∈ ["1"; "t"; "T"; "true"; "TRUE"; "True"]) then Some true
  else if bool_decide (s ∈ ["0"; "f"; "F"; "false"; "FALSE"; "False"]) then Some false
  else None.

(** A [flag.Value]: of the two kinds the command has, with what setting it changes. *)
Inductive Value (S : Type) :=
  | StringVar (set : string → S → S)
  | BoolVar (set : bool → S → S).
Arguments StringVar {S} set.
Arguments BoolVar {S} set.

Inductive flag_error :=
  | BadSyntax (s : string)
  | Undefined (name : string)
  | InvalidBool (value name : string)
  | NeedsArgument (name : string)
  | ErrHelp.

(** How [parseOne] reads the next argument: not a flag, the terminator, a bad flag, or
    a flag's name with the value after its equals sign. *)
Inductive word :=
  | Operand
  | Terminator
  | Malformed
  | Named (name : string) (value : option string).

(** What follows the dashes. *)
Definition read_name (n : string) : word :=
  match n with
  | EmptyString => Malformed
  | String a t =>
      if bool_decide (a = "-"%char) || bool_decide (a = "="%char) then Malformed
      else
        let '(before, after, found) := Cut t "=" in
        Named (String a before) (if found : bool then Some after else None)
  end.

Definition read_word (s : string) : word :=
  match s with
  | String d (String c t) =>
      if negb (bool_decide (d = "-"%char)) then Operand
      else if bool_decide (c = "-"%char) then
        if bool_decide (t = "") then Terminator else read_name t
      else read_name (String c t)
  | _ => Operand
  end.

Definition no_equals (s : string) : Prop :=
  string_forallb (fun c => negb (bool_decide (c = "="%char))) s = true.

(** One dash or two. *)
Definition dashed (name s : string) : Prop := s = "-" +:+ name ∨ s = "--" +:+ name.

(** A name a flag can be given by. *)
Definition plain (name : string) : Prop :=
  no_equals name ∧ ∃ c t, name = String c t ∧ c ≠ "-"%char.

Lemma Cut_spec s sep before after found :
  Cut s sep = (before, after, found) ↔
  string_forallb (fun c => negb (bool_decide (c = sep))) before = true ∧
  (if found : bool then s = before +:+ String sep after else s = before ∧ after = "").
Proof.
  revert before. induction s as [|c s IH]; intros before; cbn [Cut].
  - split; [by intros [= <- <- <-]|]. destruct found.
    + intros [_ Hs]. by destruct before.
    + by intros [_ [<- ->]].
  - case_bool_decide as Hc.
    + subst c. split.
      * intros [= <- <- <-]. by rewrite nil_app.
      * intros [Hb Hs]. destruct before as [|d before].
        { destruct found; [|by destruct Hs]. rewrite nil_app in Hs. by injection Hs as <-. }
        cbn in Hb. destruct found; [rewrite cons_app in Hs; injection Hs as <- _|destruct Hs as [[= <- _] _]];
          by rewrite bool_decide_eq_true_2 in Hb.
    + destruct (Cut s sep) as [[b a] f] eqn:Hcut. split.
      * intros [= <- -> ->]. destruct (proj1 (IH b) eq_refl) as [Hb Hs]. cbn.
        rewrite bool_decide_eq_false_2 by done. split; [done|]. destruct found; [by rewrite cons_app, Hs|].
        by destruct Hs as [-> ->].
      * intros [Hb Hs]. destruct before as [|d before]; [destruct found; [rewrite nil_app in Hs|]; naive_solver|].
        cbn in Hb. destruct_bools.
        assert (d = c ∧ if found then s = before +:+ String sep after else s = before ∧ after = "") as [-> Hs'].
        { destruct found; [rewrite cons_app in Hs|]; naive_solver. }
        assert (Hx : (b, a, f) = (before, after, found)) by by apply IH. by injection Hx as -> -> ->.
Qed.

(** A name with the value after an equals sign, when there is one. *)
Definition with_value (name : string) (value : option string) : string :=
  match value with Some v => name +:+ "=" +:+ v | None => name end.

Lemma Cut_with_value t before value :
  (∃ after found, Cut t "=" = (before, after, found) ∧ value = (if found : bool then Some after else None)) ↔
  no_equals before ∧ t = with_value before value.
Proof.
  split.
  - intros (after & found & [Hb Hs]%Cut_spec & ->). split; [done|]. destruct found; [done|by destruct Hs].
  - intros [Hb ->]. destruct value as [v|]; [exists v, true|exists "", false]; by rewrite Cut_spec.
Qed.

Lemma with_value_cons c name value :
  with_value (String c name) value = String c (with_value name value).
Proof. destruct value; [apply cons_app|done]. Qed.

Lemma read_name_Named n name value :
  read_name n = Named name value ↔ plain name ∧ n = with_value name value.
Proof.
  split.
  - destruct n as [|a t]; [done|]. cbn. destruct (bool_decide _ || bool_decide _) eqn:Ha; [done|].
    destruct (Cut t "=") as [[before after] found] eqn:Hc. intros [= <- <-].
    apply orb_false_iff in Ha as [H1%bool_decide_eq_false H2%bool_decide_eq_false].
    destruct (proj1 (Cut_with_value t before (if found then Some after else None))) as [Hb Ht];
      [by exists after, found|].
    rewrite with_value_cons, <-Ht. split; [|done]. split; [|by exists a, before].
    unfold no_equals. cbn. by rewrite bool_decide_eq_false_2.
  - intros [[Hne (c & t & -> & Hc)] ->]. rewrite with_value_cons. unfold no_equals in Hne. cbn in Hne |- *.
    destruct_bools. rewrite !bool_decide_eq_false_2 by done. cbn.
    destruct (proj2 (Cut_with_value (with_value t value) t value)) as (after & found & -> & ->); done.
Qed.

Lemma read_word_Named s name value :
  read_word s = Named name value ↔ plain name ∧ dashed (with_value name value) s.
Proof.
  unfold dashed. split.
  - destruct s as [|d [|c t]]; try done. cbn -[read_name]. case_bool_decide; [subst d|done]. cbn -[read_name].
    case_bool_decide; [subst c; case_bool_decide; [done|]|]; intros [Hp Hn]%read_name_Named; subst; auto.
    split; [done|]. left. by rewrite Hn.
  - intros [Hp Hs]. assert (Hn : read_name (with_value name value) = Named name value) by by apply read_name_Named.
    destruct Hp as [_ (c & t & -> & Hc)]. rewrite with_value_cons in *. 
    destruct Hs as [-> | ->]; rewrite !cons_app, nil_app; cbn -[read_name]; [by rewrite (bool_decide_eq_false_2 (c = _))|done].
Qed.

Lemma read_word_Terminator s : read_word s = Terminator ↔ s = "--".
Proof.
  split; [|by intros ->]. destruct s as [|d [|c t]]; try done. cbn -[read_name].
  case_bool_decide; [subst d|done]. cbn -[read_name]. assert (Hn : ∀ n, read_name n ≠ Terminator).
  { intros [|a n]; [done|]. cbn. destruct (_ || _); [done|]. by destruct (Cut n "=") as [[??]?]. }
  case_bool_decide; [subst c; case_bool_decide; [by subst|]|]; by intros ?%Hn.
Qed.

Section flagset.
Context {S : Type} (formal : string → option (Value S)).

(** [FlagSet.Parse], from the values so far; what is left over are the operands. *)
Fixpoint Parse (args : list string) (st : S) : result flag_error (S * list string) :=
  match args with
  | [] => Ok (st, [])
  | s :: args' =>
      match read_word s with
      | Operand => Ok (st, args)
      | Terminator => Ok (st, args')
      | Malformed => Err (BadSyntax s)
      | Named name value =>
          match formal name with
          | None =>
              if bool_decide (name = "help") || bool_decide (name = "h") then Err ErrHelp
              else Err (Undefined name)
          | Some (BoolVar set) =>
              match value with
              | None => Parse args' (set true st)
              | Some v =>
                  match ParseBool v with
                  | Some b => Parse args' (set b st)
                  | None => Err (InvalidBool v name)
                  end
              end
          | Some (StringVar set) =>
              match value, args' with
              | Some v, _ => Parse args' (set v st)
              | None, v :: args'' => Parse args'' (set v st)
              | None, [] => Err (NeedsArgument name)
              end
          end
      end
  end.

(** ** The documented syntax *)

(** The arguments that set one flag, and what they do. *)
Inductive spelled : list string → (S → S) → Prop :=
  | sp_string name set s v :
      formal name = Some (StringVar set) → plain name → dashed (name +:+ "=" +:+ v) s →
      spelled [s] (set v)
  | sp_string_next name set s v :
      formal name = Some (StringVar set) → plain name → dashed name s → spelled [s; v] (set v)
  | sp_bool name set s :
      formal name = Some (BoolVar set) → plain name → dashed name s → spelled [s] (set true)
  | sp_bool_value name set s v b :
      formal name = Some (BoolVar set) → plain name → dashed (name +:+ "=" +:+ v) s →
      ParseBool v = Some b → spelled [s] (set b).

(** Where the flags end: at the end, at an operand, or after a "--". *)
Definition flags_end (tail rest : list string) : Prop :=
  tail = [] ∧ rest = [] ∨
  (∃ s t, tail = s :: t ∧ rest = tail ∧ read_word s = Operand) ∨
  tail = "--" :: rest.

Lemma spelled_Parse group f rest st : spelled group f → Parse (group ++ rest) st = Parse rest (f st).
Proof.
  intros Hsp. destruct Hsp as [name set s v Hf Hp Hd|name set s v Hf Hp Hd|name set s Hf Hp Hd|name set s v b Hf Hp Hd Hb].
  all: [> assert (Hw : read_word s = Named name (Some v)) by by apply read_word_Named
       | assert (Hw : read_word s = Named name None) by by apply read_word_Named
       | assert (Hw : read_word s = Named name None) by by apply read_word_Named
       | assert (Hw : read_word s = Named name (Some v)) by by apply read_word_Named].
  all: cbn; by rewrite Hw, Hf, ?Hb.
Qed.

(** The arguments set the flags one after the other, up to the operands [rest]. *)
Definition well_spelled (args : list string) (st st' : S) (rest : list string) : Prop :=
  ∃ groups fs tail, args = concat groups ++ tail ∧ Forall2 spelled groups fs ∧ flags_end tail rest ∧
    st' = fold_left (fun st f => f st) fs st.

Lemma well_spelled_end tail st rest : flags_end tail rest → well_spelled tail st st rest.
Proof. intros Hend. exists [], [], tail. by split_and!; [|constructor|..]. Qed.

Lemma well_spelled_cons group f args st st' rest :
  spelled group f → well_spelled args (f st) st' rest → well_spelled (group ++ args) st st' rest.
Proof.
  intros Hsp (groups & fs & tail & -> & Hall & Hend & ->). exists (group :: groups), (f :: fs), tail. cbn.
  rewrite app_assoc. split_and!; [done| |done..]. by constructor.
Qed.

Lemma Parse_well_spelled args st st' rest :
  Parse args st = Ok (st', rest) → well_spelled args st st' rest.
Proof.
  remember (length args) as n eqn:Hn. revert args st Hn.
  induction n as [n IH] using lt_wf_ind; intros args st ->.
  destruct args as [|s args]; cbn; [intros [= <- <-]; apply well_spelled_end; by left|].
  assert (Hnext : ∀ group f args', s :: args = group ++ args' → group ≠ [] → spelled group f →
    Parse args' (f st) = Ok (st', rest) → well_spelled (s :: args) st st' rest).
  { intros group f args' Heq Hne Hsp HP. rewrite Heq in *. apply (well_spelled_cons _ f); [done|].
    eapply IH; [|done..]. rewrite length_app. destruct group; [done|cbn; lia]. }
  destruct (read_word s) as [| | |name value] eqn:Hw; [| |done|].
  - intros [= <- <-]. apply well_spelled_end. right. left. by exists s, args.
  - intros [= <- <-]. apply read_word_Terminator in Hw as ->. apply well_spelled_end. by right; right.
  - pose proof Hw as [Hp Hd]%read_word_Named. destruct (formal name) as [[set|set]|] eqn:Hf; [| |by case_match].
    + destruct value as [v|]; [|destruct args as [|v args'']; [done|]].
      * apply (Hnext [s]); [done..|]. by eapply sp_string.
      * apply (Hnext [s; v]); [done..|]. by eapply sp_string_next.
    + destruct value as [v|]; [destruct (ParseBool v) as [b|] eqn:Hb; [|done]|].
      * apply (Hnext [s]); [done..|]. by eapply sp_bool_value.
      * apply (Hnext [s]); [done..|]. by eapply sp_bool.
Qed.

(** Parsing is the documented syntax, read from left to right. *)
Lemma Parse_spelled args st st' rest :
  Parse args st = Ok (st', rest) ↔ well_spelled args st st' rest.
Proof.
  split; [apply Parse_well_spelled|]. intros (groups & fs & tail & -> & Hall & Hend & ->). revert st.
  induction Hall as [|group f groups fs Hsp _ IH]; intros st; cbn.
  - destruct Hend as [[-> ->]|[(s & t & -> & -> & Hw)| ->]]; [done| |done]. cbn. by rewrite Hw.
  - rewrite <-app_assoc, (spelled_Parse _ _ _ _ Hsp). apply IH.
Qed.
End flagset.
