(* ===== verification/Drift.v ===== *)
(** * internal/drift and cmd/zonedns-drift: the drift check

    Two declarations of the workloads' external names, the VirtualServices' hosts
    and the pods' labels, are collected, filtered and compared; the command turns
    the outcome into a report and an exit code. The Kubernetes clients are the
    interface [KubeOps]; Go's unspecified map iteration order is [MapRange]. *)

From Stdlib Require Import Sorted.
From S2P Require Import Prelude GoStd Flags.
Import Strings.

Open Scope Z_scope.

(** [for k := range m]: some order of the keys. *)
Class MapRange := { range_keys : gset string → list string }.
Class MapRangeLaws `{MapRange} : Prop := { range_keys_perm s : range_keys s ≡ₚ elements s }.

(** ** drift.go *)
Record Report := { UnclaimedHosts : list string; UnroutedLabels : list string }.

Definition Report_OK (r : Report) : bool :=
  (length (UnclaimedHosts r) =? 0)%nat && (length (UnroutedLabels r) =? 0)%nat.

Definition toSet (inp : list string) : gset string :=
  fold_left (fun out s => if bool_decide (s = "") then out else {[s]} ∪ out) inp ∅.

(** The loop over one set that keeps what the other lacks. *)
Definition missing_loop (other : gset string) (ks : list string) : list string :=
  fold_left (fun acc h => if bool_decide (h ∈ other) then acc else acc ++ [h]) ks [].

Section compare.
Context `{MapRange}.

Definition Compare (virtualServiceHosts podLabelHosts : list string) : Report :=
  let inVS := toSet virtualServiceHosts in
  let inLabel := toSet podLabelHosts in
  {| UnclaimedHosts := Sort.Strings (missing_loop inLabel (range_keys inVS));
     UnroutedLabels := Sort.Strings (missing_loop inVS (range_keys inLabel)) |}.
End compare.

(** ** filter.go *)
Inductive SkipReason :=
  | NotSkipped | SkipWildcard | SkipGatewayBound | SkipShortName | SkipClusterLocal.

#[global] Instance SkipReason_eq_dec : EqDecision SkipReason.
Proof. solve_decision. Defined.

Definition DefaultClusterDomain : string := "cluster.local".

Definition ShouldSkipHost (host clusterDomain : string) : SkipReason :=
  if HasPrefix host "*" then SkipWildcard
  else if negb (Contains host ".") then SkipShortName
  else if negb (bool_decide (clusterDomain = "")) &&
          HasSuffix host ("." +:+ TrimSuffix clusterDomain ".") then SkipClusterLocal
  else NotSkipped.

Fixpoint gateways_loop (gateways : list string) : SkipReason :=
  match gateways with
  | [] => SkipGatewayBound
  | g :: gs => if bool_decide (g = "mesh") then NotSkipped else gateways_loop gs
  end.

Definition ShouldSkipVirtualService (gateways : list string) : SkipReason :=
  if (length gateways =? 0)%nat then NotSkipped else gateways_loop gateways.

(** ** collect.go *)
Definition HostLabel : string := "zonedns.io/host".

Record GVR := { Group : string; Version : string; Resource : string }.

Definition VirtualServiceGVRs : list GVR :=
  [{| Group := "networking.istio.io"; Version := "v1"; Resource := "virtualservices" |};
   {| Group := "networking.istio.io"; Version := "v1beta1"; Resource := "virtualservices" |}].

(** An [unstructured.Unstructured], with its contents in [Obj]. *)
Record Unstructured (Obj : Type) := { u_Namespace : string; u_Name : string; u_Object : Obj }.
Arguments u_Namespace {Obj}.
Arguments u_Name {Obj}.
Arguments u_Object {Obj}.

(** client-go: listing, and reading a field of an unstructured object. *)
Class KubeOps (Config Typed Dynamic Obj E : Type) := {
  InClusterConfig : result E Config;
  (** the kubeconfig loading rules, with [ExplicitPath] when a path is given *)
  ClientConfig : option string → result E Config;
  kubernetes_NewForConfig : Config → result E Typed;
  dynamic_NewForConfig : Config → result E Dynamic;
  (** Resource(gvr).Namespace(ns).List *)
  List_resource : Dynamic → GVR → string → result E (list (Unstructured Obj));
  IsNotFound : E → bool;
  (** the value, and whether the field was there *)
  NestedStringSlice : Obj → list string → result E (list string * bool);
  (** Pods(ns).List with a label selector: the labels of each pod *)
  List_pods : Typed → string → string → result E (list (gmap string string));
}.

Record Skipped := { sk_Source : string; sk_Host : string; sk_Reason : SkipReason }.

Inductive drift_error (E : Type) :=
  | ErrListing (gvr : GVR) (e : E)
  | ErrNoCRD (last : option E)
  | ErrField (source : string) (fields : list string) (e : E)
  | ErrPods (label : string) (e : E)
  | ErrKubeconfig (e : E)
  | ErrClient (e : E).
Arguments ErrListing {E}.
Arguments ErrNoCRD {E}.
Arguments ErrField {E}.
Arguments ErrPods {E}.
Arguments ErrKubeconfig {E}.
Arguments ErrClient {E}.

Section collect.
Context {Config Typed Dynamic Obj E : Type} `{KubeOps Config Typed Dynamic Obj E}.

Fixpoint list_versions (client : Dynamic) (namespace : string) (gvrs : list GVR) (lastErr : option E)
    : result (drift_error E) (list (Unstructured Obj)) :=
  match gvrs with
  | [] => Err (ErrNoCRD lastErr)
  | gvr :: gvrs' =>
      match List_resource client gvr namespace with
      | Ok items => Ok items
      | Err err =>
          if negb (IsNotFound err) then Err (ErrListing gvr err)
          else list_versions client namespace gvrs' (Some err)
      end
  end.

Definition listVirtualServices (client : Dynamic) (namespace : string)
    : result (drift_error E) (list (Unstructured Obj)) :=
  list_versions client namespace VirtualServiceGVRs None.

Definition source_of (vs : Unstructured Obj) : string := u_Namespace vs +:+ "/" +:+ u_Name vs.

Definition stringSlice (vs : Unstructured Obj) (fields : list string)
    : result (drift_error E) (list string) :=
  match NestedStringSlice (u_Object vs) fields with
  | Err e => Err (ErrField (source_of vs) fields e)
  | Ok (out, found) => if negb found then Ok [] else Ok out
  end.

(** The inner loop over the hosts of a VirtualService that takes part. *)
Definition add_host (clusterDomain source : string) (acc : list string * list Skipped) (h : string)
    : list string * list Skipped :=
  let '(hosts, skipped) := acc in
  let reason := ShouldSkipHost h clusterDomain in
  if negb (bool_decide (reason = NotSkipped))
  then (hosts, skipped ++ [{| sk_Source := source; sk_Host := h; sk_Reason := reason |}])
  else (hosts ++ [h], skipped).

Fixpoint collect_loop (clusterDomain : string) (items : list (Unstructured Obj))
    (hosts : list string) (skipped : list Skipped)
    : result (drift_error E) (list string * list Skipped) :=
  match items with
  | [] => Ok (hosts, skipped)
  | vs :: items' =>
      let source := source_of vs in
      gateways ← stringSlice vs ["spec"; "gateways"];
      vsHosts ← stringSlice vs ["spec"; "hosts"];
      let reason := ShouldSkipVirtualService gateways in
      if negb (bool_decide (reason = NotSkipped))
      then collect_loop clusterDomain items' hosts
             (skipped ++ ((fun h => {| sk_Source := source; sk_Host := h; sk_Reason := reason |}) <$> vsHosts))
      else
        let '(hosts', skipped') := fold_left (add_host clusterDomain source) vsHosts (hosts, skipped) in
        collect_loop clusterDomain items' hosts' skipped'
  end.

Definition CollectVirtualServiceHosts (client : Dynamic) (clusterDomain namespace : string)
    : result (drift_error E) (list string * list Skipped) :=
  items ← listVirtualServices client namespace;
  collect_loop clusterDomain items [] [].

Definition CollectPodHosts (client : Typed) (hostLabel namespace : string)
    : result (drift_error E) (list string) :=
  match List_pods client namespace hostLabel with
  | Err e => Err (ErrPods hostLabel e)
  | Ok pods => Ok ((fun labels => default "" (labels !! hostLabel)) <$> pods)
  end.

(** ** cmd/zonedns-drift *)
Definition exitClean : Z := 0.
Definition exitDrift : Z := 1.
Definition exitFailed : Z := 2.

(** The flags [main] declares, and their defaults. *)
Record flags := {
  f_kubeconfig : string;
  f_clusterDomain : string;
  f_hostLabel : string;
  f_showSkipped : bool;
  f_namespace : string;
}.

Definition default_flags : flags := {|
  f_kubeconfig := ""; f_clusterDomain := DefaultClusterDomain; f_hostLabel := HostLabel;
  f_showSkipped := false; f_namespace := "" |}.

Definition formal (name : string) : option (Value flags) :=
  if bool_decide (name = "kubeconfig") then Some (StringVar (fun v f =>
    {| f_kubeconfig := v; f_clusterDomain := f_clusterDomain f; f_hostLabel := f_hostLabel f;
       f_showSkipped := f_showSkipped f; f_namespace := f_namespace f |}))
  else if bool_decide (name = "cluster-domain") then Some (StringVar (fun v f =>
    {| f_kubeconfig := f_kubeconfig f; f_clusterDomain := v; f_hostLabel := f_hostLabel f;
       f_showSkipped := f_showSkipped f; f_namespace := f_namespace f |}))
  else if bool_decide (name = "host-label") then Some (StringVar (fun v f =>
    {| f_kubeconfig := f_kubeconfig f; f_clusterDomain := f_clusterDomain f; f_hostLabel := v;
       f_showSkipped := f_showSkipped f; f_namespace := f_namespace f |}))
  else if bool_decide (name = "show-skipped") then Some (BoolVar (fun b f =>
    {| f_kubeconfig := f_kubeconfig f; f_clusterDomain := f_clusterDomain f; f_hostLabel := f_hostLabel f;
       f_showSkipped := b; f_namespace := f_namespace f |}))
  else if bool_decide (name = "namespace") then Some (StringVar (fun v f =>
    {| f_kubeconfig := f_kubeconfig f; f_clusterDomain := f_clusterDomain f; f_hostLabel := f_hostLabel f;
       f_showSkipped := f_showSkipped f; f_namespace := v |}))
  else None.

(** A line of the report; the fixed text stands for itself. *)
Inductive line :=
  | LExcluded (n : Z)
  | LSkipped (s : Skipped)
  | LNoDrift
  | LUnclaimed (hostLabel : string) (n : Z)
  | LUnrouted (n : Z)
  | LName (h : string)
  | LUnclaimedNote
  | LUnroutedNote
  | LFinalNote
  | LBlank.

Definition printReport (report : Report) (skipped : list Skipped) (hostLabel : string)
    (showSkipped : bool) : list line * Z :=
  let head :=
    if showSkipped && negb (length skipped =? 0)%nat
    then LExcluded (Z.of_nat (length skipped)) :: (LSkipped <$> skipped) ++ [LBlank] else [] in
  if Report_OK report then (head ++ [LNoDrift], exitClean)
  else
    let unclaimed :=
      if negb (length (UnclaimedHosts report) =? 0)%nat
      then LUnclaimed hostLabel (Z.of_nat (length (UnclaimedHosts report))) ::
           (LName <$> UnclaimedHosts report) ++ [LUnclaimedNote; LBlank] else [] in
    let unrouted :=
      if negb (length (UnroutedLabels report) =? 0)%nat
      then LUnrouted (Z.of_nat (length (UnroutedLabels report))) ::
           (LName <$> UnroutedLabels report) ++ [LUnroutedNote; LBlank] else [] in
    (head ++ unclaimed ++ unrouted ++ [LFinalNote], exitDrift).

Definition loadConfig (kubeconfig : string) : result (drift_error E) Config :=
  let load := map_err ErrKubeconfig
    (ClientConfig (if negb (bool_decide (kubeconfig = "")) then Some kubeconfig else None)) in
  if bool_decide (kubeconfig = "")
  then match InClusterConfig with Ok config => Ok config | Err _ => load end
  else load.

Definition run `{MapRange} (kubeconfig clusterDomain hostLabel namespace : string)
    (showSkipped : bool) : result (drift_error E) (list line * Z) :=
  config ← loadConfig kubeconfig;
  typed ← map_err ErrClient (kubernetes_NewForConfig config);
  dyn ← map_err ErrClient (dynamic_NewForConfig config);
  collected ← CollectVirtualServiceHosts dyn clusterDomain namespace;
  let '(vsHosts, skipped) := collected in
  podHosts ← CollectPodHosts typed hostLabel namespace;
  Ok (printReport (Compare vsHosts podHosts) skipped hostLabel showSkipped).

(** [main], on the arguments after the program's name: the exit code. The flag package
    ends the program by itself, with 0 after printing help and with 2 on an error. *)
Definition main `{MapRange} (args : list string) : Z :=
  match Parse formal args default_flags with
  | Err ErrHelp => 0
  | Err _ => 2
  | Ok (f, _) =>
      match run (f_kubeconfig f) (f_clusterDomain f) (f_hostLabel f) (f_namespace f) (f_showSkipped f) with
      | Err _ => exitFailed
      | Ok (_, code) => code
      end
  end.
End collect.

(** ** Facts *)
Lemma toSet_spec h l : h ∈ toSet l ↔ h ∈ l ∧ h ≠ "".
Proof.
  unfold toSet. assert (Hgen : ∀ s : gset string,
    h ∈ fold_left (fun out s => if bool_decide (s = "") then out else {[s]} ∪ out) l s ↔
    (h ∈ l ∧ h ≠ "") ∨ h ∈ s).
  { induction l as [|x l IH]; intros s; cbn; [set_solver|]. rewrite IH.
    case_bool_decide; set_solver. }
  rewrite Hgen. set_solver.
Qed.

Lemma missing_loop_filter other ks :
  missing_loop other ks = filter (fun h => h ∉ other) ks.
Proof.
  unfold missing_loop. assert (Hgen : ∀ acc,
    fold_left (fun acc h => if bool_decide (h ∈ other) then acc else acc ++ [h]) ks acc =
    acc ++ filter (fun h => h ∉ other) ks).
  { induction ks as [|k ks IH]; intros acc; cbn [fold_left]; [by rewrite app_nil_r|]. rewrite IH.
    rewrite filter_cons. case_bool_decide; case_decide; try done. by rewrite <-app_assoc. }
  by rewrite Hgen.
Qed.

Section facts.
Context `{MapRangeLaws}.

Lemma missing_spec l l' :
  let r := Sort.Strings (missing_loop (toSet l') (range_keys (toSet l))) in
  (∀ h, h ∈ r ↔ h ∈ l ∧ h ≠ "" ∧ h ∉ l') ∧ NoDup r ∧ StronglySorted String.le r.
Proof.
  cbv zeta. rewrite missing_loop_filter. split_and!.
  - intros h. rewrite Sort.Strings_perm, list_elem_of_filter, range_keys_perm, elem_of_elements,
      !toSet_spec. naive_solver.
  - rewrite Sort.Strings_perm. apply NoDup_filter. rewrite range_keys_perm. apply NoDup_elements.
  - apply Sort.Strings_sorted.
Qed.

(** C33: the comparison is the two set differences: [UnclaimedHosts] are exactly the
    non-empty VirtualService hosts no pod declares, [UnroutedLabels] exactly the
    non-empty pod names no collected host matches, each listed once, in increasing
    order, whatever order the maps are ranged over; the report is OK exactly when
    the two sides declare the same names. *)
Theorem Compare_spec vs pods :
  let r := Compare vs pods in
  (∀ h, h ∈ UnclaimedHosts r ↔ h ∈ vs ∧ h ≠ "" ∧ h ∉ pods) ∧
  (∀ h, h ∈ UnroutedLabels r ↔ h ∈ pods ∧ h ≠ "" ∧ h ∉ vs) ∧
  NoDup (UnclaimedHosts r) ∧ NoDup (UnroutedLabels r) ∧
  StronglySorted String.le (UnclaimedHosts r) ∧ StronglySorted String.le (UnroutedLabels r) ∧
  (Report_OK r = true ↔ ∀ h, h ≠ "" → (h ∈ vs ↔ h ∈ pods)).
Proof.
  cbv zeta. destruct (missing_spec vs pods) as (Hu & Hun & Hus).
  destruct (missing_spec pods vs) as (Hl & Hln & Hls).
  split_and!; [exact Hu|exact Hl|exact Hun|exact Hln|exact Hus|exact Hls|].
  unfold Report_OK. rewrite andb_true_iff, !Nat.eqb_eq, !length_zero_iff_nil. split.
  - intros [Hnu Hnl] h Hne. cbn in Hnu, Hnl. rewrite Hnu in Hu. rewrite Hnl in Hl.
    specialize (Hu h). specialize (Hl h). rewrite elem_of_nil in Hu, Hl.
    destruct (decide (h ∈ vs)), (decide (h ∈ pods)); naive_solver.
  - intros Heq. split; apply elem_of_nil_inv; intros h Hh; cbn in Hh.
    + apply Hu in Hh as (? & ? & Hno). by apply Hno, Heq.
    + apply Hl in Hh as (? & ? & Hno). by apply Hno, Heq.
Qed.
End facts.

(** ** Which names are external *)
Definition wildcard (h : string) : Prop := ∃ t, h = "*" +:+ t.

Definition dotted (h : string) : Prop := ∃ a b, h = a +:+ "." +:+ b.

(** [d] is the domain without its trailing dot, if it has one. *)
Definition undotted (dom d : string) : Prop := dom = d +:+ "." ∨ (dom = d ∧ ∀ e, d ≠ e +:+ ".").

(** A name below the cluster's domain. *)
Definition cluster_internal (dom h : string) : Prop :=
  dom ≠ "" ∧ ∃ a d, undotted dom d ∧ h = a +:+ "." +:+ d.

Definition external (dom h : string) : Prop := ¬ wildcard h ∧ dotted h ∧ ¬ cluster_internal dom h.

Lemma undotted_TrimSuffix dom d : undotted dom d ↔ d = TrimSuffix dom ".".
Proof.
  unfold undotted, TrimSuffix. destruct (HasSuffix dom ".") eqn:Hs.
  - pose proof Hs as [r ->]%HasSuffix_spec. pose proof (TrimSuffix_app r ".") as Htr.
    unfold TrimSuffix in Htr. rewrite Hs in Htr. rewrite Htr. split; [|intros ->; by left].
    intros [Heq|[<- Hno]]; [|by destruct (Hno r)].
    by rewrite <-(TrimSuffix_app r "."), Heq, TrimSuffix_app.
  - assert (Hno : ∀ e, dom ≠ e +:+ ".") by (intros e ->; by rewrite HasSuffix_app in Hs).
    split; [intros [Hd|[Hd _]]; [by destruct (Hno d)|done]|]. intros ->. by right.
Qed.

(** What [ShouldSkipHost] decides, in terms of the name alone. *)
Lemma ShouldSkipHost_reason h dom :
  match ShouldSkipHost h dom with
  | NotSkipped => external dom h
  | SkipWildcard => wildcard h
  | SkipShortName => ¬ dotted h
  | SkipClusterLocal => cluster_internal dom h
  | SkipGatewayBound => False
  end.
Proof.
  unfold ShouldSkipHost. destruct (HasPrefix h "*") eqn:Hw; [by apply HasPrefix_spec|].
  destruct (Contains h ".") eqn:Hd; cbn [negb].
  2:{ intros Hdot%Contains_spec. congruence. }
  assert (Hint : cluster_internal dom h ↔
    negb (bool_decide (dom = "")) && HasSuffix h ("." +:+ TrimSuffix dom ".") = true).
  { unfold cluster_internal. rewrite andb_true_iff, negb_true_iff, bool_decide_eq_false, HasSuffix_spec.
    split; intros [Hne Ht]; (split; [done|]).
    - destruct Ht as (a & d & ->%undotted_TrimSuffix & ->). by exists a.
    - destruct Ht as [a ->]. eexists a, _. split; [by apply undotted_TrimSuffix|done]. }
  destruct (_ && _) eqn:Hc; [by apply Hint|]. split_and!.
  - intros Hp%HasPrefix_spec. congruence.
  - by apply Contains_spec.
  - intros Hp%Hint. congruence.
Qed.

Lemma ShouldSkipHost_external h dom : ShouldSkipHost h dom = NotSkipped ↔ external dom h.
Proof.
  pose proof (ShouldSkipHost_reason h dom) as Hr. unfold external in *.
  destruct (ShouldSkipHost h dom); naive_solver.
Qed.

(** ** Collecting *)
Section collect_facts.
Context {Config Typed Dynamic Obj E : Type} `{KubeOps Config Typed Dynamic Obj E}.

(** The names a VirtualService declares, where its fields can be read. *)
Definition declared_hosts (vs : Unstructured Obj) : list string :=
  match stringSlice vs ["spec"; "hosts"] with Ok hs => hs | Err _ => [] end.

(** A VirtualService whose gateways can be read serves the mesh, or only gateways. *)
Definition serves_mesh (vs : Unstructured Obj) : Prop :=
  ∃ gws, stringSlice vs ["spec"; "gateways"] = Ok gws ∧ (gws = [] ∨ "mesh" ∈ gws).

Definition gateways_only (vs : Unstructured Obj) : Prop :=
  ∃ gws, stringSlice vs ["spec"; "gateways"] = Ok gws ∧ gws ≠ [] ∧ "mesh" ∉ gws.

(** A host takes part: a VirtualService serving the mesh declares it, and the name is
    an external FQDN. *)
Definition compared (clusterDomain : string) (vs : Unstructured Obj) (h : string) : Prop :=
  h ∈ declared_hosts vs ∧ external clusterDomain h ∧ serves_mesh vs.

(** Why a host is left out, in terms of the name and of who declares it. *)
Definition explained (clusterDomain : string) (items : list (Unstructured Obj)) (s : Skipped) : Prop :=
  match sk_Reason s with
  | NotSkipped => False
  | SkipWildcard => wildcard (sk_Host s)
  | SkipShortName => ¬ dotted (sk_Host s)
  | SkipClusterLocal => cluster_internal clusterDomain (sk_Host s)
  | SkipGatewayBound => ∃ vs, vs ∈ items ∧ gateways_only vs ∧ sk_Host s ∈ declared_hosts vs
  end.

Lemma ShouldSkipVirtualService_spec gws :
  ShouldSkipVirtualService gws = NotSkipped ↔ gws = [] ∨ "mesh" ∈ gws.
Proof.
  unfold ShouldSkipVirtualService. destruct gws as [|g gws]; cbn [length Nat.eqb]; [naive_solver|].
  assert (Hloop : ∀ gs, gateways_loop gs = NotSkipped ↔ "mesh" ∈ gs).
  { induction gs as [|x gs IH]; cbn; [rewrite elem_of_nil; naive_solver|].
    rewrite elem_of_cons. case_bool_decide; [naive_solver|]. rewrite IH. naive_solver. }
  rewrite Hloop. naive_solver.
Qed.

Lemma gateway_bound gws :
  ¬ (gws = [] ∨ "mesh" ∈ gws) → ShouldSkipVirtualService gws = SkipGatewayBound.
Proof.
  rewrite <-ShouldSkipVirtualService_spec. unfold ShouldSkipVirtualService.
  destruct gws as [|g gws]; cbn [length Nat.eqb]; [done|]. generalize (g :: gws). clear.
  induction l as [|x l IH]; cbn; [done|]. by case_bool_decide.
Qed.

Lemma add_hosts_spec dom src items hs hosts skipped hosts' skipped' :
  fold_left (add_host dom src) hs (hosts, skipped) = (hosts', skipped') →
  hosts' = hosts ++ List.filter (fun h => bool_decide (ShouldSkipHost h dom = NotSkipped)) hs ∧
  hosts' ++ (sk_Host <$> skipped') ≡ₚ (hosts ++ (sk_Host <$> skipped)) ++ hs ∧
  (Forall (explained dom items) skipped → Forall (explained dom items) skipped').
Proof.
  revert hosts skipped. induction hs as [|h hs IH]; intros hosts skipped; cbn.
  { intros [= <- <-]. by rewrite !app_nil_r. }
  case_bool_decide as Hr; cbn; intros Hf; destruct (IH _ _ Hf) as (Hh & Hp & Hs).
  - rewrite <-app_assoc in Hh. cbn in Hh. split_and!; [done| |done].
    rewrite Hp. solve_Permutation.
  - split_and!; [done| |].
    + rewrite Hp, fmap_app. cbn. solve_Permutation.
    + intros Hall. apply Hs, Forall_app. split; [done|]. apply Forall_singleton.
      pose proof (ShouldSkipHost_reason h dom) as Hwhy. unfold explained; cbn.
      by destruct (ShouldSkipHost h dom).
Qed.

Lemma collect_loop_spec dom all items hosts skipped hosts' skipped' :
  items ⊆ all →
  collect_loop dom items hosts skipped = Ok (hosts', skipped') →
  hosts' ++ (sk_Host <$> skipped') ≡ₚ (hosts ++ (sk_Host <$> skipped)) ++ (items ≫= declared_hosts) ∧
  (∀ h, h ∈ hosts' ↔ h ∈ hosts ∨ ∃ vs, vs ∈ items ∧ compared dom vs h) ∧
  (Forall (explained dom all) skipped → Forall (explained dom all) skipped').
Proof.
  revert hosts skipped. induction items as [|vs items IH]; intros hosts skipped Hsub; cbn [collect_loop].
  { intros [= <- <-]. cbn. rewrite app_nil_r. split_and!; [done| |done].
    intros h. split; [by left|]. intros [?|(vs & Hin & _)]; [done|by apply elem_of_nil in Hin]. }
  intros (gws & Hgws & (hs & Hhs & Hrest)%bind_Ok)%bind_Ok.
  assert (Hdecl : declared_hosts vs = hs) by by unfold declared_hosts; rewrite Hhs.
  pose proof (ShouldSkipVirtualService_spec gws) as Hskip.
  assert (Hcons : ∀ P : Unstructured Obj → Prop, (∃ v, v ∈ vs :: items ∧ P v) ↔ P vs ∨ ∃ v, v ∈ items ∧ P v).
  { intros P. setoid_rewrite elem_of_cons. naive_solver. }
  assert (Hsub' : items ⊆ all) by (intros x Hx; apply Hsub; by right).
  rewrite bind_cons, Hdecl.
  case_bool_decide as Hr; cbn [negb] in Hrest.
  - destruct (fold_left _ hs _) as [hosts1 skipped1] eqn:Hf.
    destruct (add_hosts_spec _ _ all _ _ _ _ _ Hf) as (Hh1 & Hp1 & Hs1).
    destruct (IH _ _ Hsub' Hrest) as (Hp & Hh & Hs). split_and!.
    + by rewrite Hp, Hp1, <-app_assoc.
    + intros h. rewrite Hh, Hcons, Hh1, elem_of_app, elem_of_filterb, bool_decide_eq_true, ShouldSkipHost_external.
      unfold compared at 2, serves_mesh at 1. rewrite Hdecl, Hgws. rewrite Hskip in Hr. naive_solver.
    + auto.
  - destruct (IH _ _ Hsub' Hrest) as (Hp & Hh & Hs). split_and!.
    + rewrite Hp, fmap_app, <-list_fmap_compose. cbn. rewrite list_fmap_id, <-!app_assoc. done.
    + intros h. rewrite Hh, Hcons. unfold compared at 2, serves_mesh at 1. rewrite Hgws.
      split; [naive_solver|]. intros [?|[(_ & _ & gws' & [= <-] & Hbad)|?]]; [naive_solver| |naive_solver].
      by apply Hskip in Hbad.
    + intros Hall. apply Hs, Forall_app. split; [done|]. apply Forall_fmap, Forall_forall.
      intros h Hin. unfold explained; cbn. rewrite Hskip in Hr.
      assert (Hg : ShouldSkipVirtualService gws = SkipGatewayBound) by by apply gateway_bound.
      rewrite Hg. exists vs. split_and!; [by apply Hsub; left| |by rewrite Hdecl].
      exists gws. naive_solver.
Qed.

(** C32: nothing escapes the comparison unseen: when the collection succeeds, every
    host of every VirtualService is either among the names compared or listed as
    skipped, as often as it was declared, with a reason that is true of it; a name is
    compared exactly when some VirtualService serving the mesh declares it and it is
    an external FQDN: it has a dot, does not begin with a star, and does not end with
    a dot and the cluster domain (given without a trailing dot or with one), unless
    that domain is empty. *)
Theorem CollectVirtualServiceHosts_complete client dom ns hosts skipped :
  CollectVirtualServiceHosts client dom ns = Ok (hosts, skipped) →
  ∃ items, listVirtualServices client ns = Ok items ∧
    hosts ++ (sk_Host <$> skipped) ≡ₚ items ≫= declared_hosts ∧
    Forall (explained dom items) skipped ∧
    ∀ h, h ∈ hosts ↔ ∃ vs, vs ∈ items ∧ compared dom vs h.
Proof.
  unfold CollectVirtualServiceHosts. intros (items & Hl & Hc)%bind_Ok.
  destruct (collect_loop_spec _ items _ _ _ _ _ ltac:(done) Hc) as (Hp & Hh & Hs). exists items.
  split_and!; [done|done|by apply Hs|]. intros h. rewrite Hh, elem_of_nil. naive_solver.
Qed.

(** What a run of the check on given flags shows of the cluster. *)
Lemma run_exit_code `{!MapRange, !MapRangeLaws} kubeconfig dom label ns show out code :
  run kubeconfig dom label ns show = Ok (out, code) →
  ∃ config typed dyn hosts skipped pods,
    loadConfig kubeconfig = Ok config ∧ kubernetes_NewForConfig config = Ok typed ∧
    dynamic_NewForConfig config = Ok dyn ∧
    CollectVirtualServiceHosts dyn dom ns = Ok (hosts, skipped) ∧
    CollectPodHosts typed label ns = Ok pods ∧
    ((code = exitClean ∧ ∀ h, h ≠ "" → (h ∈ hosts ↔ h ∈ pods)) ∨
     (code = exitDrift ∧ ∃ h, h ≠ "" ∧ ¬ (h ∈ hosts ↔ h ∈ pods))).
Proof.
  unfold run. intros Hrun.
  apply bind_Ok in Hrun as (config & Hc & (typed & Ht%map_err_Ok & (dyn & Hd%map_err_Ok &
    ([hosts skipped] & Hv & (pods & Hp & Hrep)%bind_Ok)%bind_Ok)%bind_Ok)%bind_Ok).
  exists config, typed, dyn, hosts, skipped, pods. split_and!; [done..|].
  destruct (missing_spec hosts pods) as (Hu & _ & _). destruct (missing_spec pods hosts) as (Hl & _ & _).
  unfold printReport, Report_OK, Compare in Hrep. cbn [UnclaimedHosts UnroutedLabels] in Hrep.
  set (us := Sort.Strings _) in *. set (ls := Sort.Strings _) in Hrep, Hl.
  destruct us as [|u us'] eqn:Hus; [destruct ls as [|x ls'] eqn:Hls|]; cbn in Hrep.
  - left. injection Hrep as _ <-. split; [done|]. intros h Hne.
    specialize (Hu h). specialize (Hl h). rewrite elem_of_nil in Hu, Hl.
    destruct (decide (h ∈ hosts)), (decide (h ∈ pods)); naive_solver.
  - right. injection Hrep as _ <-. split; [done|]. exists x.
    destruct (proj1 (Hl x)) as (? & ? & ?); [by left|]. naive_solver.
  - right. injection Hrep as _ <-. split; [done|]. exists u.
    destruct (proj1 (Hu u)) as (? & ? & ?); [by left|]. naive_solver.
Qed.

End collect_facts.

(** ** Witnesses *)
Module DriftWitnesses.

#[export] Instance range_elements : MapRange := {| range_keys := elements |}.

#[export] Instance range_elements_laws : MapRangeLaws.
Proof. by split. Qed.

(** A cluster that serves v1beta1 only: an object is its hosts and gateways. *)
#[export] Instance cluster : KubeOps unit unit unit (list string * list string) string := {|
  InClusterConfig := Err "not in a cluster";
  ClientConfig _ := Ok tt;
  kubernetes_NewForConfig _ := Ok tt;
  dynamic_NewForConfig _ := Ok tt;
  List_resource _ gvr _ :=
    if bool_decide (Version gvr = "v1beta1")
    then Ok [{| u_Namespace := "shop"; u_Name := "api";
                u_Object := (["api.example.org"; "api.shop.svc.cluster.local"], []) |};
             {| u_Namespace := "edge"; u_Name := "in";
                u_Object := (["www.example.org"], ["edge/gw"]) |}]
    else Err "not found";
  IsNotFound e := bool_decide (e = "not found");
  NestedStringSlice o fields :=
    if bool_decide (fields = ["spec"; "hosts"]) then Ok (o.1, true) else Ok (o.2, true);
  List_pods _ _ label := Ok [ {[ label := "api.example.org" ]} ];
|}.

Lemma Compare_spec_witness :
  Report_OK (Compare ["b.example.org"; "a.example.org"] ["a.example.org"; ""; "b.example.org"]) = true.
Proof. apply (Compare_spec ["b.example.org"; "a.example.org"]). set_solver. Defined.

Lemma CollectVirtualServiceHosts_complete_witness :
  ∃ items, listVirtualServices (Config := unit) (Typed := unit) tt "" = Ok items ∧
    ["api.example.org"] ++ ["api.shop.svc.cluster.local"; "www.example.org"] ≡ₚ
    items ≫= declared_hosts.
Proof.
  destruct (CollectVirtualServiceHosts_complete (Config := unit) (Typed := unit) tt
    DefaultClusterDomain "" ["api.example.org"]
    [{| sk_Source := "shop/api"; sk_Host := "api.shop.svc.cluster.local"; sk_Reason := SkipClusterLocal |};
     {| sk_Source := "edge/in"; sk_Host := "www.example.org"; sk_Reason := SkipGatewayBound |}])
    as (items & Hl & Hp & _); [by vm_compute|].
  by exists items.
Defined.

Definition line0 : list string := ["--host-label"; "zonedns.io/host"; "-show-skipped"; "-namespace="; "extra"].

End DriftWitnesses.
