(* ===== verification/Corefile.v ===== *)
(** * Reading a Corefile block

    Both plugins parse their block with the same two loops over a
    [caddy.Controller]: [for c.Next() { for c.NextBlock() { switch c.Val() ... } }].
    The controller is caddy's; [Controller] is what the parsers call of it. The
    loops take as fuel the number of tokens left. [NextBlock] does not load a token
    when the tokens end inside a block that is never closed, yet returns true; the
    parser that splits a Corefile into directives refuses such input before a plugin
    sees it. [ControllerLaws] is about controllers over tokens whose blocks are all
    closed: there a successful [Next] and [NextBlock] load a token, and the loops
    return. *)

From S2P Require Import Prelude.

Class Controller (C : Type) := {
  (** "loads the next token. Returns true if a token was loaded; false otherwise" *)
  c_Next : C → bool * C;
  (** "load the next token as long as it opens a block or is already in a block" *)
  c_NextBlock : C → bool * C;
  (** "loads the next token if it is on the same line" *)
  c_NextArg : C → bool * C;
  (** "gets the text of the current token" *)
  c_Val : C → string;
  (** "loads any more arguments (tokens on the same line) into a slice" *)
  c_RemainingArgs : C → list string * C;
  (** the tokens not loaded yet *)
  c_left : C → nat;
}.

(** [c'] is a later state of [c]: its blocks are closed too, and it has no more left. *)
Definition advances {C : Type} `{Controller C} (closed : C → Prop) (c c' : C) : Prop :=
  closed c' ∧ (c_left c' ≤ c_left c)%nat.

Class ControllerLaws (C : Type) `{Controller C} (closed : C → Prop) : Prop := {
  Next_left c : closed c → advances closed c (c_Next c).2 ∧
    ((c_Next c).1 = true → (c_left (c_Next c).2 < c_left c)%nat);
  NextBlock_left c : closed c → advances closed c (c_NextBlock c).2 ∧
    ((c_NextBlock c).1 = true → (c_left (c_NextBlock c).2 < c_left c)%nat);
  NextArg_left c : closed c → advances closed c (c_NextArg c).2;
  RemainingArgs_left c : closed c → advances closed c (c_RemainingArgs c).2;
}.

Section parser.
Context {C Cfg E : Type} `{Controller C}.

(** The [switch] on a property's name, the current token: the configuration with
    the property, and the controller past its arguments. *)
Variable property : Cfg → C → result E (Cfg * C).

(** [None]: out of fuel. *)
Fixpoint block_loop (fuel : nat) (cfg : Cfg) (c : C) : option (result E (Cfg * C)) :=
  match fuel with
  | O => None
  | S fuel' =>
      match c_NextBlock c with
      | (false, c') => Some (Ok (cfg, c'))
      | (true, c') =>
          match property cfg c' with
          | Err e => Some (Err e)
          | Ok (cfg', c'') => block_loop fuel' cfg' c''
          end
      end
  end.

Fixpoint server_loop (fuel : nat) (cfg : Cfg) (c : C) : option (result E Cfg) :=
  match fuel with
  | O => None
  | S fuel' =>
      match c_Next c with
      | (false, _) => Some (Ok cfg)
      | (true, c') =>
          match block_loop (S (c_left c')) cfg c' with
          | None => None
          | Some (Err e) => Some (Err e)
          | Some (Ok (cfg', c'')) => server_loop fuel' cfg' c''
          end
      end
  end.

Definition parse_loops (cfg : Cfg) (c : C) : option (result E Cfg) :=
  server_loop (S (c_left c)) cfg c.

(** ** Invariants *)
Section invariant.
Variable P : Cfg → Prop.
Hypothesis property_P : ∀ cfg c cfg' c', P cfg → property cfg c = Ok (cfg', c') → P cfg'.

Lemma block_loop_P fuel cfg c cfg' c' :
  P cfg → block_loop fuel cfg c = Some (Ok (cfg', c')) → P cfg'.
Proof.
  revert cfg c. induction fuel as [|fuel IH]; intros cfg c HP; cbn; [done|].
  destruct (c_NextBlock c) as [[] c1]; [|by intros [= <- <-]].
  destruct (property cfg c1) as [[cfg1 c2]|] eqn:Hp; [|done].
  apply IH. by eapply property_P.
Qed.

Lemma parse_loops_P cfg c cfg' : P cfg → parse_loops cfg c = Some (Ok cfg') → P cfg'.
Proof.
  unfold parse_loops. generalize (S (c_left c)) as fuel. intros fuel. revert cfg c.
  induction fuel as [|fuel IH]; intros cfg c HP; cbn [server_loop]; [done|].
  destruct (c_Next c) as [[] c1]; [|by intros [= <-]].
  destruct (block_loop _ cfg c1) as [[[cfg1 c2]|]|] eqn:Hb; try done.
  apply IH. by eapply block_loop_P.
Qed.
End invariant.

(** ** Termination *)
Section termination.
Context (closed : C → Prop) `{!ControllerLaws C closed}.
Hypothesis property_left : ∀ cfg c cfg' c',
  closed c → property cfg c = Ok (cfg', c') → advances closed c c'.

Lemma block_loop_total fuel cfg c :
  closed c → (c_left c < fuel)%nat →
  ∃ r, block_loop fuel cfg c = Some r ∧ ∀ cfg' c', r = Ok (cfg', c') → advances closed c c'.
Proof.
  revert cfg c. induction fuel as [|fuel IH]; intros cfg c Hc Hf; [lia|]. cbn.
  destruct (NextBlock_left c Hc) as [[Hc1 Hle] Hlt]. destruct (c_NextBlock c) as [[] c1]; cbn in *.
  - specialize (Hlt eq_refl). destruct (property cfg c1) as [[cfg1 c2]|e] eqn:Hp; [|by exists (Err e)].
    destruct (property_left _ _ _ _ Hc1 Hp) as [Hc2 ?].
    destruct (IH cfg1 c2 Hc2) as (r & -> & Hr); [lia|].
    exists r. split; [done|]. intros cfg' c' ->. destruct (Hr _ _ eq_refl). split; [done|lia].
  - eexists. split; [done|]. by intros cfg' c' [= <- <-].
Qed.

Lemma parse_loops_total cfg c : closed c → ∃ r, parse_loops cfg c = Some r.
Proof.
  unfold parse_loops. assert (Hgen : ∀ fuel cfg c, closed c → (c_left c < fuel)%nat →
    ∃ r, server_loop fuel cfg c = Some r).
  { clear cfg c. induction fuel as [|fuel IH]; intros cfg c Hc Hf; [lia|]. cbn [server_loop].
    destruct (Next_left c Hc) as [[Hc1 Hle] Hlt].
    destruct (c_Next c) as [[] c1]; cbn [fst snd] in *; [|by eexists]. specialize (Hlt eq_refl).
    destruct (block_loop_total (S (c_left c1)) cfg c1 Hc1) as (r & -> & Hr); [lia|].
    destruct r as [[cfg1 c2]|e]; [|by eexists]. destruct (Hr _ _ eq_refl) as [Hc2 ?].
    apply IH; [done|lia]. }
  intros Hc. apply Hgen; [done|lia].
Qed.
End termination.
End parser.

(** [if !c.NextArg() { return nil, c.ArgErr() }; ... c.Val() ...] *)
Definition with_arg {C Cfg E : Type} `{Controller C} (argErr : E)
    (k : string → result E Cfg) (c : C) : result E (Cfg * C) :=
  match c_NextArg c with
  | (false, _) => Err argErr
  | (true, c') => cfg ← k (c_Val c'); Ok (cfg, c')
  end.

Lemma with_arg_Ok {C Cfg E : Type} `{Controller C} (argErr : E) k (c c' : C) (cfg : Cfg) :
  with_arg argErr k c = Ok (cfg, c') →
  c_NextArg c = (true, c') ∧ k (c_Val c') = Ok cfg.
Proof.
  unfold with_arg. destruct (c_NextArg c) as [[] c1]; [|done].
  intros (cfg1 & Hk & [= <- <-])%bind_Ok. done.
Qed.

(** ** A controller over token lines

    Used by the witnesses: the properties of one block, each a line of tokens; the block
    is closed by the end of the lines. *)
Module CorefileReference.
Record lines := {
  current : list string;     (** the tokens of the line being read, from the current one *)
  rest : list (list string); (** the lines not begun *)
  opened : bool;             (** the block was entered *)
}.

Definition line_controller : Controller lines := {|
  c_Next l :=
    if opened l then (false, l) else (true, {| current := []; rest := rest l; opened := true |});
  c_NextBlock l :=
    match rest l with
    | (t :: ts) :: ls => (true, {| current := t :: ts; rest := ls; opened := true |})
    | _ => (false, l)
    end;
  c_NextArg l :=
    match current l with
    | _ :: t :: ts => (true, {| current := t :: ts; rest := rest l; opened := opened l |})
    | _ => (false, l)
    end;
  c_Val l := match current l with t :: _ => t | [] => "" end;
  c_RemainingArgs l :=
    match current l with
    | t :: ts => (ts, {| current := [t]; rest := rest l; opened := opened l |})
    | [] => ([], l)
    end;
  c_left l := ((if opened l then 0 else 1) + length (rest l))%nat;
|}.

#[export] Existing Instance line_controller.

#[export] Instance line_controller_laws : ControllerLaws lines (fun _ => True).
Proof.
  split; intros [cur rst op] _; unfold advances; cbn.
  - destruct op; cbn; split; (done || lia).
  - destruct rst as [|[|t ts] ls], op; cbn; split_and!; (lia || done).
  - destruct cur as [|? [|]]; cbn; split; (done || lia).
  - destruct cur; cbn; split; (done || lia).
Qed.

Definition block (ls : list (list string)) : lines := {| current := []; rest := ls; opened := false |}.
End CorefileReference.
