(* ===== verification/CentralSetup.v ===== *)
(** * plugin/zonedns/setup.go: central's configuration and wiring

    [Central_parseConfig] reads the Corefile block, [dialSPIRE] connects to SPIRE,
    [Central_setup] puts the plugin together. *)

From S2P Require Import Prelude GoStd GoTime NetIP DnsLib EdnsZone Registry Poller Decision.
From S2P Require Import Identity Central ZoneCache Directives DohUpstream Corefile.
Import Strings Strconv.

Open Scope Z_scope.

Definition defaultPollInterval : Z := 30 * Second.
Definition defaultTTL : Z := 30.
Definition workloadAPIDialTimeout : Z := 10 * Second.

(** The type [config]; [zones] is filled in last. *)
Record config := {
  spireServer : string;
  pollInterval : Z;
  authorizedAgents : list string;
  edns0Code : Z;
  ttl : Z;
  workloadAPI : string;
  spireServerID : string;
  gateways : gmap string Addr;   (** the local variable of parseConfig *)
}.

Inductive parse_error :=
  | ArgErr
  | InvalidPollInterval (v : string) (e : duration_error)
  | PollIntervalNotPositive (v : string)
  | InvalidCode (v : string) (e : num_error)
  | CodeOutOfRange (code : Z)
  | InvalidTTL (v : string) (e : num_error)
  | GatewayArgs (n : Z)
  | GatewayZone (zone : string)
  | GatewayDuplicate (zone : string)
  | GatewayAddress (addr zone : string)
  | UnknownProperty (name : string)
  | SpireServerRequired
  | AgentRequired
  | SpireServerIDRequired.

(** ** Field updates *)
Definition with_spireServer (c : config) (v : string) : config :=
  {| spireServer := v; pollInterval := pollInterval c; authorizedAgents := authorizedAgents c;
     edns0Code := edns0Code c; ttl := ttl c; workloadAPI := workloadAPI c;
     spireServerID := spireServerID c; gateways := gateways c |}.
Definition with_pollInterval (c : config) (v : Z) : config :=
  {| spireServer := spireServer c; pollInterval := v; authorizedAgents := authorizedAgents c;
     edns0Code := edns0Code c; ttl := ttl c; workloadAPI := workloadAPI c;
     spireServerID := spireServerID c; gateways := gateways c |}.
Definition with_agent (c : config) (v : string) : config :=
  {| spireServer := spireServer c; pollInterval := pollInterval c;
     authorizedAgents := authorizedAgents c ++ [v];
     edns0Code := edns0Code c; ttl := ttl c; workloadAPI := workloadAPI c;
     spireServerID := spireServerID c; gateways := gateways c |}.
Definition with_edns0Code (c : config) (v : Z) : config :=
  {| spireServer := spireServer c; pollInterval := pollInterval c;
     authorizedAgents := authorizedAgents c;
     edns0Code := v; ttl := ttl c; workloadAPI := workloadAPI c;
     spireServerID := spireServerID c; gateways := gateways c |}.
Definition with_workloadAPI (c : config) (v : string) : config :=
  {| spireServer := spireServer c; pollInterval := pollInterval c;
     authorizedAgents := authorizedAgents c;
     edns0Code := edns0Code c; ttl := ttl c; workloadAPI := v;
     spireServerID := spireServerID c; gateways := gateways c |}.
Definition with_spireServerID (c : config) (v : string) : config :=
  {| spireServer := spireServer c; pollInterval := pollInterval c;
     authorizedAgents := authorizedAgents c;
     edns0Code := edns0Code c; ttl := ttl c; workloadAPI := workloadAPI c;
     spireServerID := v; gateways := gateways c |}.
Definition with_ttl (c : config) (v : Z) : config :=
  {| spireServer := spireServer c; pollInterval := pollInterval c;
     authorizedAgents := authorizedAgents c;
     edns0Code := edns0Code c; ttl := v; workloadAPI := workloadAPI c;
     spireServerID := spireServerID c; gateways := gateways c |}.
Definition with_gateway (c : config) (zone : string) (a : Addr) : config :=
  {| spireServer := spireServer c; pollInterval := pollInterval c;
     authorizedAgents := authorizedAgents c;
     edns0Code := edns0Code c; ttl := ttl c; workloadAPI := workloadAPI c;
     spireServerID := spireServerID c; gateways := <[zone := a]> (gateways c) |}.

(** [code, err := strconv.ParseUint(v, 10, 16)] and the range check, shared with
    the agent's parser. *)
Definition parse_code {E} (invalid : string → num_error → E) (range : Z → E) (v : string)
    : result E Z :=
  match ParseUint v 16 with
  | Err e => Err (invalid v e)
  | Ok code => if (code <? 65001) || (65534 <? code) then Err (range code) else Ok (wrapu16 code)
  end.

(** ** parseConfig *)
Section parse.
Context {C : Type} `{Controller C}.

Definition poll_interval (cfg : config) (v : string) : result parse_error config :=
  match ParseDuration v with
  | Err e => Err (InvalidPollInterval v e)
  | Ok d => if d <=? 0 then Err (PollIntervalNotPositive v) else Ok (with_pollInterval cfg d)
  end.

Definition gateway (cfg : config) (args : list string) : result parse_error config :=
  match args with
  | [zone; addr] =>
      if negb (Valid zone) then Err (GatewayZone zone)
      else if bool_decide (is_Some (gateways cfg !! zone)) then Err (GatewayDuplicate zone)
      else
        match ParseAddr addr with
        | None => Err (GatewayAddress addr zone)
        | Some a => Ok (with_gateway cfg zone a)
        end
  | _ => Err (GatewayArgs (Z.of_nat (length args)))
  end.

(** The switch on the property's name. *)
Definition central_property (cfg : config) (c : C) : result parse_error (config * C) :=
  let name := c_Val c in
  if bool_decide (name = "spire_server") then with_arg ArgErr (fun v => Ok (with_spireServer cfg v)) c
  else if bool_decide (name = "poll_interval") then with_arg ArgErr (poll_interval cfg) c
  else if bool_decide (name = "authorized_agent") then with_arg ArgErr (fun v => Ok (with_agent cfg v)) c
  else if bool_decide (name = "edns0_code") then
    with_arg ArgErr (fun v =>
      code ← parse_code InvalidCode CodeOutOfRange v; Ok (with_edns0Code cfg code)) c
  else if bool_decide (name = "workload_api") then with_arg ArgErr (fun v => Ok (with_workloadAPI cfg v)) c
  else if bool_decide (name = "spire_server_id") then
    with_arg ArgErr (fun v => Ok (with_spireServerID cfg v)) c
  else if bool_decide (name = "ttl") then
    with_arg ArgErr (fun v => t ← map_err (InvalidTTL v) (ParseUint v 32); Ok (with_ttl cfg (wrapu32 t))) c
  else if bool_decide (name = "gateway") then
    let '(args, c') := c_RemainingArgs c in cfg' ← gateway cfg args; Ok (cfg', c')
  else Err (UnknownProperty name).

Definition default_config : config := {|
  spireServer := ""; pollInterval := defaultPollInterval; authorizedAgents := [];
  edns0Code := DefaultCode; ttl := defaultTTL; workloadAPI := ""; spireServerID := "";
  gateways := ∅ |}.

Definition is_unix (server : string) : bool := HasPrefix server "unix://".

(** The checks after the loops. *)
Definition central_check (cfg : config) : result parse_error (config * Table) :=
  if bool_decide (spireServer cfg = "") then Err SpireServerRequired
  else if (length (authorizedAgents cfg) =? 0)%nat then Err AgentRequired
  else if negb (is_unix (spireServer cfg)) && bool_decide (spireServerID cfg = "")
  then Err SpireServerIDRequired
  else Ok (cfg, New (gateways cfg)).

(** The configuration and its [zones]; [None] would be a parser that does not
    return. *)
Definition Central_parseConfig (c : C) : option (result parse_error (config * Table)) :=
  match parse_loops central_property default_config c with
  | None => None
  | Some (Err e) => Some (Err e)
  | Some (Ok cfg) => Some (central_check cfg)
  end.
End parse.

(** ** dialSPIRE *)
Class GrpcOps (ID Source Creds Conn W : Type) := {
  grpc_FromString : string → result string ID;
  grpc_NewX509Source : string → Z → W → result string Source * W;
  insecure_NewCredentials : Creds;
  (** MTLSClientCredentials(source, source, AuthorizeID(id)) *)
  MTLSClientCredentials : Source → ID → Creds;
  grpc_NewClient : string → Creds → W → result string Conn * W;
  source_Close : Source → W → W;
  conn_Close : Conn → W → option string * W;
}.

Inductive dial_error :=
  | ErrDial (server e : string)
  | ErrWorkloadAPIRequired (server : string)
  | ErrServerID (id e : string)
  | ErrX509Source (addr e : string).

Section dial.
Context {ID Source Creds Conn W : Type} `{GrpcOps ID Source Creds Conn W}.

(** The connection, and the source its cleanup closes, if any. *)
Definition dialSPIRE (cfg : config) (w : W) : result dial_error (Conn * option Source) * W :=
  if is_unix (spireServer cfg) then
    match grpc_NewClient (spireServer cfg) insecure_NewCredentials w with
    | (Err e, w) => (Err (ErrDial (spireServer cfg) e), w)
    | (Ok conn, w) => (Ok (conn, None), w)
    end
  else if bool_decide (workloadAPI cfg = "") then (Err (ErrWorkloadAPIRequired (spireServer cfg)), w)
  else
    match grpc_FromString (spireServerID cfg) with
    | Err e => (Err (ErrServerID (spireServerID cfg) e), w)
    | Ok serverID =>
        match grpc_NewX509Source (workloadAPI cfg) workloadAPIDialTimeout w with
        | (Err e, w) => (Err (ErrX509Source (workloadAPI cfg) e), w)
        | (Ok source, w) =>
            let creds := MTLSClientCredentials source serverID in
            match grpc_NewClient (spireServer cfg) creds w with
            | (Err e, w) => (Err (ErrDial (spireServer cfg) e), source_Close source w)
            | (Ok conn, w) => (Ok (conn, Some source), w)
            end
        end
    end.
End dial.

(** ** warnIfDoT: whether the warning is shown *)
Definition transport_TLS : string := "tls".

Definition warnIfDoT (tr : string) : bool :=
  if negb (bool_decide (tr = transport_TLS)) then false else true.

(** ** setup *)
Inductive setup_error :=
  | SetupOrder (e : order_error)
  | SetupParse (e : parse_error)
  | SetupDial (e : dial_error).

Section setup.
Context {C Handler ID Source Creds Conn W : Type}.
Context `{Controller C, GrpcOps ID Source Creds Conn W}.

(** What [setup] leaves behind: the connection and the source its shutdown hook
    closes, the poller's interval, and the plugin it adds, a function of the next
    handler in the chain. *)
Record central_instance := {
  ci_conn : Conn;
  ci_source : option Source;
  ci_interval : Z;
  ci_plugin : option Handler → ZoneDNS (Handler := Handler);
}.

(** [setup], on the directives list, the server's transport and the shared gauges;
    the boolean is whether the DoT warning was logged. *)
Definition Central_setup (directives : list string) (tr : string) (c : C) (g : Gauges) (w : W)
    : option (result setup_error central_instance * bool * Gauges * W) :=
  match CheckDirectiveOrder directives with
  | Err e => Some (Err (SetupOrder e), false, g, w)
  | Ok _ =>
      let warned := warnIfDoT tr in
      match Central_parseConfig c with
      | None => None
      | Some (Err e) => Some (Err (SetupParse e), warned, g, w)
      | Some (Ok (cfg, zones)) =>
          let store := NewStore in
          let g := reset_gauges g in
          match dialSPIRE cfg w with
          | (Err e, w) => Some (Err (SetupDial e), warned, g, w)
          | (Ok (conn, source), w) =>
              Some (Ok {| ci_conn := conn; ci_source := source; ci_interval := pollInterval cfg;
                          ci_plugin := fun next => {|
                            Next := next;
                            z_Identity := NewConfig (authorizedAgents cfg) (edns0Code cfg);
                            z_Registry := store;
                            z_Zones := zones;
                            z_TTL := ttl cfg |} |}, warned, g, w)
          end
      end
  end.

(** The hook [setup] registers with [OnShutdown]: the poller's context ends, the source
    is closed, then the connection, whose error is returned. *)
Definition Central_OnShutdown (inst : central_instance) (w : W) : option string * W :=
  let w := match ci_source inst with Some source => source_Close source w | None => w end in
  conn_Close (ci_conn inst) w.

(** ** What the parser guarantees *)
Record config_ok (cfg : config) : Prop := {
  ok_interval : 0 < pollInterval cfg < 2 ^ 63;
  ok_code : 65001 ≤ edns0Code cfg ≤ 65534;
  ok_ttl : 0 ≤ ttl cfg < 2 ^ 32;
  ok_gateways zone a : gateways cfg !! zone = Some a → Valid zone = true ∧ Addr_wf a;
}.

Lemma default_config_ok : config_ok default_config.
Proof. split; cbn; try (unfold defaultPollInterval, defaultTTL, DefaultCode, Second; lia). done. Qed.

Lemma parse_code_Ok {E} (invalid : string → num_error → E) range v code :
  parse_code invalid range v = Ok code → 65001 ≤ code ≤ 65534.
Proof.
  unfold parse_code. destruct (ParseUint v 16) as [n|]; [|done].
  destruct (Z.ltb_spec n 65001), (Z.ltb_spec 65534 n); try done. intros [= <-].
  unfold wrapu16. rewrite Z.mod_small by lia. lia.
Qed.

Lemma gateway_Ok cfg args cfg' :
  gateway cfg args = Ok cfg' →
  ∃ zone addr a, args = [zone; addr] ∧ Valid zone = true ∧ ParseAddr addr = Some a ∧
    cfg' = with_gateway cfg zone a.
Proof.
  unfold gateway. destruct args as [|zone [|addr [|]]]; try done.
  destruct (Valid zone) eqn:Hv; [|done]. cbn. case_bool_decide; [done|].
  destruct (ParseAddr addr) as [a|] eqn:Ha; [|done]. intros [= <-]. by exists zone, addr, a.
Qed.

(** Split the switch of a property on the name it matches. *)
Ltac split_property Hp :=
  repeat match type of Hp with
  | (if bool_decide ?P then _ else _) = _ => destruct (bool_decide P)
  end.

Lemma central_property_ok cfg c cfg' c' :
  config_ok cfg → central_property cfg c = Ok (cfg', c') → config_ok cfg'.
Proof.
  intros [Hi Hc Ht Hg] Hp. unfold central_property in Hp. split_property Hp; try done.
  all: try (apply with_arg_Ok in Hp as [_ Hp]; cbn in Hp; try (injection Hp as <-; by split)).
  - unfold poll_interval in Hp. destruct (ParseDuration _) as [d|] eqn:Hd; [|done].
    apply ParseDuration_bounds in Hd. destruct (Z.leb_spec d 0); [done|]. injection Hp as <-.
    split; cbn; try done; lia.
  - apply bind_Ok in Hp as (code & Hcode%parse_code_Ok & [= <-]). by split.
  - apply bind_Ok in Hp as (t & _ & [= <-]). split; cbn; try done. unfold wrapu32.
    apply Z.mod_pos_bound. lia.
  - destruct (c_RemainingArgs c) as [args c1]. apply bind_Ok in Hp as (cfg1 & Hgw & [= <- <-]).
    apply gateway_Ok in Hgw as (zone & addr & a & _ & Hv & Ha & ->). split; cbn; try done.
    intros z' a' [[<- <-]|[_ ?]]%lookup_insert_Some; [|by apply Hg].
    split; [done|by eapply ParseAddr_wf].
Qed.

Lemma central_property_left closed `{!ControllerLaws C closed} cfg c cfg' c' :
  closed c → central_property cfg c = Ok (cfg', c') → advances closed c c'.
Proof.
  intros Hc Hp. unfold central_property in Hp. split_property Hp; try done.
  all: try (apply with_arg_Ok in Hp as [Hn _]; pose proof (NextArg_left c Hc) as Hl;
            by rewrite Hn in Hl).
  pose proof (RemainingArgs_left c Hc) as Hl. destruct (c_RemainingArgs c) as [args c1].
  apply bind_Ok in Hp as (cfg1 & _ & [= <- <-]). done.
Qed.

Lemma Central_parseConfig_ok c cfg zones :
  Central_parseConfig c = Some (Ok (cfg, zones)) →
  config_ok cfg ∧ zones = New (gateways cfg) ∧ authorizedAgents cfg ≠ [] ∧
  spireServer cfg ≠ "" ∧ (is_unix (spireServer cfg) = false → spireServerID cfg ≠ "").
Proof.
  unfold Central_parseConfig.
  destruct (parse_loops _ _ c) as [[cfg0|]|] eqn:Hl; [|done|done]. intros [= Hck].
  apply (parse_loops_P central_property config_ok) in Hl;
    [|intros; by eapply central_property_ok|apply default_config_ok].
  unfold central_check in Hck. case_bool_decide; [done|].
  destruct (authorizedAgents cfg0) eqn:Ha; [done|]. cbn [length Nat.eqb] in Hck.
  destruct (is_unix (spireServer cfg0)) eqn:Hu; cbn [negb andb] in Hck.
  - injection Hck as <- <-. rewrite Ha, Hu. split_and!; done.
  - case_bool_decide; [done|]. injection Hck as <- <-. rewrite Ha, Hu. split_and!; done.
Qed.
End setup.
Arguments central_instance : clear implicits.

(** ** Theorems *)
Section theorems.
Context {C Handler ID Source Creds Conn W : Type}.
Context `{Controller C, GrpcOps ID Source Creds Conn W}.

(** C38: a central that starts is safely configured: its directive precedes [cache],
    its gauges say not ready and no errors, at least one agent is authorized, the
    option code is in the local range, the TTL fits its field, the polling interval
    is positive (so the ticker does not panic), every gateway belongs to a
    well-formed zone and holds an address, and the connection to SPIRE is a local
    socket or authenticated to exactly the configured server ID. *)
Theorem Central_setup_safe directives tr c g w inst warned g' w' next :
  NoDup directives →
  Central_setup (Handler := Handler) directives tr c g w = Some (Ok inst, warned, g', w') →
  ordered_before_cache "zonedns" directives ∧
  registryReady g' = 0 ∧ registryPollErrors g' = 0 ∧
  0 < ci_interval inst < 2 ^ 63 ∧
  (∃ agents code, z_Identity (ci_plugin inst next) = NewConfig agents code ∧ agents ≠ [] ∧
     65001 ≤ code ≤ 65534) ∧
  0 ≤ z_TTL (ci_plugin inst next) < 2 ^ 32 ∧
  Registry.Ready (z_Registry (ci_plugin inst next)) = false ∧
  (∀ zone a, Gateway (z_Zones (ci_plugin inst next)) zone = Some a → Valid zone = true ∧ Addr_wf a) ∧
  ∃ cfg, Central_parseConfig c = Some (Ok (cfg, z_Zones (ci_plugin inst next))) ∧
    spireServer cfg ≠ "" ∧
    match ci_source inst with
    | None => is_unix (spireServer cfg) = true ∧
        ∃ w0, (grpc_NewClient (ID := ID) (Source := Source) (spireServer cfg)
          insecure_NewCredentials w0).1 = Ok (ci_conn inst)
    | Some source => ∃ id, spireServerID cfg ≠ "" ∧
        grpc_FromString (Source := Source) (Creds := Creds) (Conn := Conn) (W := W)
          (spireServerID cfg) = Ok id ∧
        ∃ w0, (grpc_NewClient (spireServer cfg) (MTLSClientCredentials source id) w0).1 = Ok (ci_conn inst)
    end.
Proof.
  intros Hnd. unfold Central_setup.
  destruct (CheckDirectiveOrder directives) as [[]|] eqn:Ho; [|done].
  apply check_order_spec in Ho; [|done..].
  destruct (Central_parseConfig c) as [[[cfg zones]|]|] eqn:Hp; try done.
  destruct (Central_parseConfig_ok _ _ _ Hp) as ([Hi Hc Ht Hg] & -> & Ha & Hs & Hid).
  destruct (dialSPIRE cfg w) as [[[conn source]|] w1] eqn:Hd; [|done]. intros [= <- <- <- <-]. cbn.
  split_and!; try done; try lia.
  - exists (authorizedAgents cfg), (edns0Code cfg). done.
  - intros zone a. unfold Gateway. rewrite New_gw. apply Hg.
  - exists cfg. split; [done|]. split; [done|]. unfold dialSPIRE in Hd.
    destruct (is_unix (spireServer cfg)) eqn:Hu.
    + destruct (grpc_NewClient _ _ w) as [[cn|] w2] eqn:Hn; [|done]. injection Hd as -> <- _.
      split; [done|]. exists w. by rewrite Hn.
    + case_bool_decide; [done|]. destruct (grpc_FromString _) as [id|] eqn:Hf; [|done].
      destruct (grpc_NewX509Source _ _ _) as [[src|] w2]; [|done].
      destruct (grpc_NewClient _ _ w2) as [[cn|] w3] eqn:Hn; [|done]. injection Hd as -> <- _.
      exists id. split; [by apply Hid|]. split; [done|]. exists w2. by rewrite Hn.
Qed.

(** The gauges of a set-up that fails: a wrong directive order or Corefile leaves
    them alone; a SPIRE server that cannot be dialled has already reset them, also
    when an earlier instance, which a failed reload leaves running, is ready. *)
Theorem Central_setup_error_gauges directives tr c g w e warned g' w' :
  Central_setup (Handler := Handler) directives tr c g w = Some (Err e, warned, g', w') →
  g' = match e with SetupDial _ => reset_gauges g | _ => g end.
Proof.
  unfold Central_setup.
  destruct (CheckDirectiveOrder directives) as [[]|]; [|by intros [= <- _ <- _]].
  destruct (Central_parseConfig c) as [[[cfg zones]|]|]; [|by intros [= <- _ <- _]|done].
  destruct (dialSPIRE cfg w) as [[[conn source]|] w1]; [done|]. by intros [= <- _ <- _].
Qed.

(** The same operations, counting the sources and the connections that are open. *)
Definition opened {A} (n : Z) (r : result string A) : Z := match r with Ok _ => n + 1 | Err _ => n end.

#[local] Instance tracked : GrpcOps ID Source Creds Conn (W * (Z * Z)) := {|
  grpc_FromString := grpc_FromString;
  grpc_NewX509Source addr timeout '(w, (sources, conns)) :=
    let '(r, w) := grpc_NewX509Source addr timeout w in (r, (w, (opened sources r, conns)));
  insecure_NewCredentials := insecure_NewCredentials;
  MTLSClientCredentials := MTLSClientCredentials;
  grpc_NewClient server creds '(w, (sources, conns)) :=
    let '(r, w) := grpc_NewClient server creds w in (r, (w, (sources, opened conns r)));
  source_Close source '(w, (sources, conns)) := (source_Close source w, (sources - 1, conns));
  conn_Close conn '(w, (sources, conns)) :=
    let '(e, w) := conn_Close conn w in (e, (w, (sources, conns - 1)));
|}.

Lemma dialSPIRE_tracked cfg w sources conns :
  match dialSPIRE (H := tracked) cfg (w, (sources, conns)) with
  | (Err _, (_, open)) => open = (sources, conns)
  | (Ok (_, source), (_, open)) =>
      open = (sources + (if source is Some _ then 1 else 0), conns + 1)
  end.
Proof.
  unfold dialSPIRE. destruct (is_unix (spireServer cfg)).
  - cbn. destruct (grpc_NewClient _ _ w) as [[conn|e] w']; cbn; by rewrite ?Z.add_0_r.
  - case_bool_decide; [done|]. cbn. destruct (grpc_FromString _) as [id|]; [|done].
    destruct (grpc_NewX509Source _ _ w) as [[source|] w1]; [|done]. cbn.
    destruct (grpc_NewClient _ _ w1) as [[conn|e] w2]; cbn; [done|]. by rewrite Z.add_simpl_r.
Qed.

Lemma OnShutdown_tracked (inst : central_instance Handler Source Conn) w sources conns :
  ∃ e w', Central_OnShutdown (H0 := tracked) inst (w, (sources, conns)) =
    (e, (w', (sources - (if ci_source inst is Some _ then 1 else 0), conns - 1))).
Proof.
  unfold Central_OnShutdown; cbn. destruct (ci_source inst) as [source|]; cbn; rewrite ?Z.sub_0_r;
    destruct (conn_Close _ _) as [e w']; by eexists _, _.
Qed.

(** central leaks nothing: a set-up that fails has closed whatever it opened; one
    that succeeds holds one connection, and one certificate source exactly when SPIRE
    is reached over the network, and its shutdown hook closes exactly these, whatever
    happened in between. *)
Theorem Central_lifecycle_releases directives tr c g w sources conns res warned g' w' open :
  Central_setup (Handler := Handler) (H0 := tracked) directives tr c g (w, (sources, conns)) =
    Some (res, warned, g', (w', open)) →
  match res with
  | Err _ => open = (sources, conns)
  | Ok inst =>
      let n := if ci_source inst is Some _ then 1 else 0 in
      open = (sources + n, conns + 1) ∧
      ∀ w1 sources1 conns1, ∃ e w2,
        Central_OnShutdown (H0 := tracked) inst (w1, (sources1, conns1)) =
          (e, (w2, (sources1 - n, conns1 - 1)))
  end.
Proof.
  unfold Central_setup.
  destruct (CheckDirectiveOrder directives) as [[]|]; [|by intros [= <- _ _ _ <-]].
  destruct (Central_parseConfig c) as [[[cfg zones]|]|]; [|by intros [= <- _ _ _ <-]|done].
  pose proof (dialSPIRE_tracked cfg w sources conns) as Hd.
  destruct (dialSPIRE _ _) as [[[conn source]|e] [w1 open1]]; intros [= <- _ _ _ <-]; [|done].
  split; [done|]. intros w2 sources1 conns1. apply OnShutdown_tracked.
Qed.
End theorems.

(** ** Witnesses *)
Module CentralSetupWitnesses.
Import CorefileReference.

#[export] Instance dialer : GrpcOps string string (option (string * string)) string unit := {|
  grpc_FromString s := if HasPrefix s "spiffe://" then Ok s else Err "scheme is missing";
  grpc_NewX509Source addr _ w := (Ok addr, w);
  insecure_NewCredentials := None;
  MTLSClientCredentials source id := Some (source, id);
  grpc_NewClient server _ w := (Ok server, w);
  source_Close _ w := w;
  conn_Close _ w := (None, w);
|}.

Definition corefile : lines := block
  [["spire_server"; "spire:8081"]; ["spire_server_id"; "spiffe://example.org/spire/server"];
   ["workload_api"; "unix:///run/spire/agent.sock"]; ["poll_interval"; "1m30s"];
   ["authorized_agent"; "spiffe://example.org/agent"]; ["edns0_code"; "65002"]; ["ttl"; "15"];
   ["gateway"; "fab"; "10.0.0.1"]].

Definition gauges0 : Gauges :=
  {| registryNames := 4; registryConflicts := 0; registryReady := 1; registryPollErrors := 3 |}.

Lemma Central_setup_safe_witness :
  ∃ inst g' w', Central_setup (Handler := unit) ["zonedns"; "cache"] "https" corefile gauges0 tt =
      Some (Ok inst, false, g', w') ∧
    (∃ agents code, z_Identity (ci_plugin inst None) = NewConfig agents code ∧ agents ≠ [] ∧
       65001 ≤ code ≤ 65534).
Proof.
  eexists _, _, _. split; [by vm_compute|].
  refine (proj1 (proj2 (proj2 (proj2 (proj2
    (Central_setup_safe ["zonedns"; "cache"] "https" corefile gauges0 tt _ false _ _ None _ _)))))).
  - apply (bool_decide_unpack (NoDup ["zonedns"; "cache"])). by vm_compute.
  - by vm_compute.
Defined.

Lemma Central_lifecycle_releases_witness :
  ∃ inst g' w', Central_setup (Handler := unit) (H0 := tracked) ["zonedns"; "cache"] "https" corefile gauges0
      (tt, (0, 0)) = Some (Ok inst, false, g', (w', (1, 1))) ∧
    ∃ e w2, Central_OnShutdown (H0 := tracked) inst (w', (1, 1)) = (e, (w2, (0, 0))).
Proof.
  eexists _, _, _. split; [by vm_compute|].
  refine (proj2 (Central_lifecycle_releases ["zonedns"; "cache"] "https" corefile gauges0 tt 0 0
    (Ok _) false _ tt (1, 1) _) tt 1 1).
  by vm_compute.
Defined.
End CentralSetupWitnesses.
