(* ===== verification/CentralSystem.v ===== *)
(** * Central as a whole: set-up, polling and queries

    The plugin [setup] builds answers queries from the store its poller fills. Polls
    and queries interleave in any order: a poll touches the store in one atomic
    [Replace], a query reads it once. The specification knows of one thing, the
    directory: the last complete listing SPIRE handed over; [central_refines] shows
    that the running plugin behaves, query for query, as the specification says. *)

From S2P Require Import Prelude GoStd GoUrl NetIP DnsLib EdnsZone Registry Poller Decision.
From S2P Require Import Identity Central ZoneCache Directives DohUpstream Corefile CentralSetup.

Open Scope Z_scope.

(** What can be observed: a poll that listed all entries, one that failed, a query
    with the handler's result and effects. *)
Inductive label :=
  | Listed (all : list Entry)
  | PollFailed
  | Asked (ctx : Context) (w : ResponseWriter) (r : Msg) (res : Z * option string) (t : list event).

Inductive run {S : Type} (step : S → label → S → Prop) : S → list label → S → Prop :=
  | run_nil s : run step s [] s
  | run_cons s l s' ls s'' : step s l s' → run step s' ls s'' → run step s (l :: ls) s''.

Lemma run_snoc {S : Type} (step : S → label → S → Prop) s ls s' l s'' :
  run step s ls s' → step s' l s'' → run step s (ls ++ [l]) s''.
Proof. induction 1; intros Hst; cbn; econstructor; eauto using run_nil. Qed.

Section system.
Context {C Handler ID Source Creds Conn Wd E W : Type}.
Context `{Controller C, GrpcOps ID Source Creds Conn Wd, Strings.Unicode, DnsOps, RequestOps}.
Context `{PluginOps Handler, EntryLister E W}.

#[local] Abbreviation instance := (central_instance Handler Source Conn).
#[local] Abbreviation pstate := (@poller_state W Gauges).

(** ** The running plugin *)

(** The handler, its [Registry] pointing to the poller's store. *)
Definition handler (inst : instance) (next : option Handler) (st : pstate) : ZoneDNS :=
  let z := ci_plugin inst next in
  {| Next := Next z; z_Identity := z_Identity z; z_Registry := p_store st; z_Zones := z_Zones z;
     z_TTL := z_TTL z |}.

Definition poll_label (st : pstate) : label :=
  match poll_loop (Z.to_nat maxPollPages) "" ∅ [] (p_world st) with
  | (Ok all, _) => Listed all
  | (Err _, _) => PollFailed
  end.

Inductive central_step (inst : instance) (next : option Handler) : pstate → label → pstate → Prop :=
  | c_poll st :
      central_step inst next st (poll_label st) (run_iteration (Some onSnapshot) (Some onPollErrors) st)
  | c_query st ctx w r res t :
      ServeDNS (handler inst next st) ctx w r [] = Some (res, t) →
      central_step inst next st (Asked ctx w r res t) st.

(** ** The specification *)
Section spec.
Context (cfg : config) (next : option Handler).

(** The caller is an agent of the configuration and its message declares [src]. *)
Definition speaks_for (ctx : Context) (w : ResponseWriter) (r : Msg) (src : string) : Prop :=
  (∃ leaf rest u, PeerCerts ctx w = Some (leaf :: rest) ∧ URIs leaf = [Some u] ∧
     Scheme u = "spiffe" ∧ URL_String u ∈ authorizedAgents cfg) ∧
  GetZone r (edns0Code cfg) = Some src.

(** The directory puts the name in one zone. *)
Definition located (dir : option (list Entry)) (name zone : string) : Prop :=
  ∃ all, dir = Some all ∧ declared all (normalize name) zone ∧
    ∀ zone', declared all (normalize name) zone' → zone' = zone.

Definition foreign (dir : option (list Entry)) (ctx : Context) (w : ResponseWriter) (r : Msg)
    (dest : string) : Prop :=
  address_query r ∧ ∃ src, speaks_for ctx w r src ∧ located dir (req_Name r) dest ∧ dest ≠ src.

(** The plugin as configured, whatever its registry holds. *)
Definition configured : ZoneDNS := {|
  Next := next; z_Identity := NewConfig (authorizedAgents cfg) (edns0Code cfg);
  z_Registry := NewStore; z_Zones := New (gateways cfg); z_TTL := ttl cfg |}.

Definition promised (dir : option (list Entry)) (ctx : Context) (w : ResponseWriter) (r : Msg)
    (res : Z * option string) (t : list event) : Prop :=
  (∀ dest, foreign dir ctx w r dest →
     delegated t = [] ∧
     match gateways cfg !! dest with
     | Some gw =>
         res = (RcodeSuccess, None) ∧
         ∃ m, written t = [m] ∧ authoritative_reply r m ∧
           (Addr_Zone gw = "" → Answer m = gateway_record configured r gw) ∧
           (Addr_Zone gw ≠ "" → Forall no_address (map Body (Answer m)))
     | None => res = (RcodeServerFailure, None) ∧ written t = []
     end) ∧
  ((¬ ∃ dest, foreign dir ctx w r dest) →
     delegated t = [r] ∧ written t = [] ∧ res = NextOrFailure ZoneDNS_Name next ctx w r).

Inductive spec_step : option (list Entry) → label → option (list Entry) → Prop :=
  | s_listed dir all : spec_step dir (Listed all) (Some all)
  | s_failed dir : spec_step dir PollFailed dir
  | s_query dir ctx w r res t :
      promised dir ctx w r res t → spec_step dir (Asked ctx w r res t) dir.
End spec.

(** ** The simulation *)
Definition same_directory (dir : option (list Entry)) (st : pstate) : Prop :=
  cur (p_store st) = fst ∘ BuildSnapshot <$> dir.

Lemma Store_Lookup_located dir st name zone :
  same_directory dir st → Store_Lookup (p_store st) name = Some zone ↔ located dir name zone.
Proof.
  unfold same_directory, Store_Lookup, located. intros ->. destruct dir as [all|]; [|cbn; naive_solver].
  etrans; [apply (proj2 (BuildSnapshot_tables all))|naive_solver].
Qed.

Lemma poll_same_directory dir st :
  same_directory dir st →
  ∃ dir', (∀ cfg next, spec_step cfg next dir (poll_label st) dir') ∧
    same_directory dir' (run_iteration (Some onSnapshot) (Some onPollErrors) st).
Proof.
  unfold same_directory, run_iteration, PollOnce, poll_label. destruct page_budget as (n & -> & _).
  intros Hd. destruct (poll_loop _ _ _ _ _) as [[all|err] w'].
  - exists (Some all). rewrite (surjective_pairing (BuildSnapshot all)). split; [constructor|done].
  - exists dir. split; [constructor|done].
Qed.

Section laws.
Context `{!DnsLaws, !RequestLaws}.

Lemma crosses_foreign cfg dir st z ctx w r src dest :
  same_directory dir st → z_Identity z = NewConfig (authorizedAgents cfg) (edns0Code cfg) →
  z_Registry z = p_store st →
  crosses (Handler := Handler) z ctx w r src dest ↔
  address_query r ∧ speaks_for cfg ctx w r src ∧ located dir (req_Name r) dest ∧ dest ≠ src.
Proof.
  intros Hd Hid Hreg. unfold crosses. rewrite Hid, Hreg, SourceZone_ReasonOK.
  by rewrite (Store_Lookup_located dir st).
Qed.

(** What a run of the handler shows, whichever zone the query is from. *)
Lemma ServeDNS_promised cfg next dir st z ctx w r res t :
  same_directory dir st → z_Identity z = NewConfig (authorizedAgents cfg) (edns0Code cfg) →
  z_Registry z = p_store st → z_Zones z = New (gateways cfg) → z_TTL z = ttl cfg → Next z = next →
  (∀ zone gw, gateways cfg !! zone = Some gw → Addr_wf gw) →
  ServeDNS z ctx w r [] = Some (res, t) → promised cfg next dir ctx w r res t.
Proof.
  intros Hd Hid Hreg Hz Httl Hnext Hwf Hs. split.
  - intros dest (Hq & src & Hsp & Hloc & Hne).
    assert (Hx : crosses z ctx w r src dest) by by apply (crosses_foreign cfg dir st).
    rewrite (ServeDNS_crosses _ _ _ _ _ _ Hx) in Hs. unfold Gateway in Hs. rewrite Hz, New_gw in Hs.
    destruct (gateways cfg !! dest) as [gw|] eqn:Hg; [|by simplify_eq].
    destruct (answerGateway_reply z w r (Addr_String gw) (counted ReasonOK ActionAnswerGateway) Hq)
      as (m & tail & Hrun & Hdel & Hw & _ & Hrep & Hans). rewrite Hrun in Hs. injection Hs as <- <-.
    unfold delegated, written in *; cbn. rewrite Hdel, Hw. split; [done|]. split; [done|].
    exists m. split_and!; [done..| |]; intros Hzone; rewrite Hans.
    + rewrite gateway_record_eq by (done || by eapply Hwf). unfold gateway_record; cbn. by rewrite Httl.
    + apply zoned_record_empty; [by eapply Hwf|done].
  - intros Hn. destruct (ServeDNS_not_crosses z ctx w r) as (t' & Hs' & Hdel & Hw).
    { intros (src & dest & Hx). apply Hn. exists dest.
      apply (crosses_foreign cfg dir st) in Hx as (Hq & Hsp & Hloc & Hne); [|done..].
      split; [done|]. by exists src. }
    rewrite Hs in Hs'. injection Hs' as -> ->. by rewrite Hnext.
Qed.

(** The parts of the instance [setup] built. *)
Record built (cfg : config) (next : option Handler) (inst : instance) : Prop := {
  b_next : Next (ci_plugin inst next) = next;
  b_identity : z_Identity (ci_plugin inst next) = NewConfig (authorizedAgents cfg) (edns0Code cfg);
  b_zones : z_Zones (ci_plugin inst next) = New (gateways cfg);
  b_ttl : z_TTL (ci_plugin inst next) = ttl cfg;
  b_ok : config_ok cfg;
}.

Lemma Central_setup_built directives tr c g w inst warned g' w' next :
  Central_setup (Handler := Handler) directives tr c g w = Some (Ok inst, warned, g', w') →
  ∃ cfg zones, Central_parseConfig c = Some (Ok (cfg, zones)) ∧ built cfg next inst.
Proof.
  unfold Central_setup. destruct (CheckDirectiveOrder directives) as [[]|]; [|done].
  destruct (Central_parseConfig c) as [[[cfg zones]|]|] eqn:Hp; try done.
  destruct (Central_parseConfig_ok _ _ _ Hp) as (Hok & -> & _).
  destruct (dialSPIRE cfg w) as [[[conn source]|] w1]; [|done]. intros [= <- <- <- <-].
  by exists cfg, (New (gateways cfg)).
Qed.

Lemma central_step_simulates cfg next inst st l st' dir :
  built cfg next inst → same_directory dir st → central_step inst next st l st' →
  ∃ dir', spec_step cfg next dir l dir' ∧ same_directory dir' st'.
Proof.
  intros [Hn Hid Hz Httl Hok] Hd Hst. destruct Hst as [st|st ctx w r res t Hs].
  - destruct (poll_same_directory dir st Hd) as (dir' & Hsp & Hd'). by exists dir'.
  - exists dir. split; [|done]. constructor.
    eapply (ServeDNS_promised cfg next dir st (handler inst next st)); try done.
    intros zone gw Hg. by apply (ok_gateways cfg Hok) in Hg as [_ ?].
Qed.

(** The handler answers every query, in every state. *)
Lemma query_answered inst next st ctx wr r :
  ∃ res t, ServeDNS (handler inst next st) ctx wr r [] = Some (res, t).
Proof.
  destruct (crosses_dec (handler inst next st) ctx wr r) as [(src & dest & Hx)|Hn].
  - pose proof (ServeDNS_crosses _ _ _ _ _ _ Hx) as Hs.
    destruct (Gateway _ dest) as [gw|]; [|by eexists _, _].
    destruct (answerGateway_run (handler inst next st) wr r (Addr_String gw)
      (counted ReasonOK ActionAnswerGateway)) as (m & tail & Hr & _).
    rewrite Hr in Hs. by eexists _, _.
  - destruct (ServeDNS_not_crosses _ _ _ _ Hn) as (t & Hs & _). by eexists _, _.
Qed.

(** central refines its specification: whatever the order of polls and queries,
    the plugin that [setup] built, started on an empty store, answers every query,
    and what it does with each is what the specification does that knows only the
    configuration and the last complete listing SPIRE gave: an address query that an
    authorized agent declares to come from one zone, for a name that listing puts in
    another, is answered with the gateway or refused; every other query is handed on
    unchanged; a failed poll changes nothing. *)
Theorem central_refines directives tr c g w inst warned g' w' next w0 ls st :
  Central_setup (Handler := Handler) directives tr c g w = Some (Ok inst, warned, g', w') →
  run (central_step inst next) (start_state g' w0) ls st →
  (∃ cfg zones dir, Central_parseConfig c = Some (Ok (cfg, zones)) ∧
     run (spec_step cfg next) None ls dir) ∧
  ∀ ctx wr r, ∃ res t, central_step inst next st (Asked ctx wr r res t) st.
Proof.
  intros Hs Hrun. split.
  - destruct (Central_setup_built _ _ _ _ _ _ _ _ _ next Hs) as (cfg & zones & Hp & Hb).
    assert (Hd : same_directory None (start_state g' w0)) by done.
    exists cfg, zones. revert Hd. generalize (None : option (list Entry)) as dir.
    induction Hrun as [s|s l s' ls s'' Hst _ IH]; intros dir Hd; [exists dir; by split; [|constructor]|].
    destruct (central_step_simulates cfg next inst s l s' dir Hb Hd Hst) as (dir' & Hsp & Hd').
    destruct (IH dir' Hd') as (dir2 & _ & Hr). exists dir2. split; [done|]. by econstructor.
  - intros ctx wr r. destruct (query_answered inst next st ctx wr r) as (res & t & Hq).
    exists res, t. by constructor.
Qed.

(** ** Types on the wire *)
Definition bytes (n : nat) (b : list Z) : Prop := length b = n ∧ Forall (fun x => 0 ≤ x < 256) b.

(** An address record as its type demands: class IN, a uint32 TTL, four bytes in an A
    record and sixteen in an AAAA record. *)
Definition typed_record (rr : RR) : Prop :=
  hdr_Class (Hdr rr) = ClassINET ∧ 0 ≤ hdr_Ttl (Hdr rr) < 2 ^ 32 ∧
  ((hdr_Rrtype (Hdr rr) = TypeA ∧ ∃ b, Body rr = RD_A b ∧ bytes 4 b) ∨
   (hdr_Rrtype (Hdr rr) = TypeAAAA ∧ ∃ b, Body rr = RD_AAAA b ∧ bytes 16 b)).

Lemma gateway_record_typed (z : ZoneDNS (Handler := Handler)) r gw rr :
  0 ≤ z_TTL z < 2 ^ 32 → Addr_wf gw → rr ∈ gateway_record z r gw → typed_record rr.
Proof.
  intros Httl Hwf Hin. unfold gateway_record in Hin.
  destruct gw as [|b|b zone]; cbn in Hwf; [by apply elem_of_nil in Hin|..]; destruct Hwf as [Hlen Hb].
  - destruct (QType r =? TypeA); [|by apply elem_of_nil in Hin].
    apply list_elem_of_singleton in Hin as ->. split_and!; try done; try apply Httl. left. split; [done|].
    by exists b.
  - destruct (Is4In6 b), (QType r =? TypeA), (QType r =? TypeAAAA); try by apply elem_of_nil in Hin.
    all: apply list_elem_of_singleton in Hin as ->; (split_and!; [done|apply Httl|apply Httl|]).
    1,2: left; split; [done|]; eexists; split; [done|]; split; [by rewrite length_drop, Hlen|by apply Forall_drop].
    all: right; split; [done|]; by exists b.
Qed.

(** C8: every record central writes is well typed: with gateways that carry no IPv6
    zone, each address record of each answer of the running plugin has class IN, a
    TTL that fits its field, and an address of exactly its type's length. *)
Theorem central_typed directives tr c g w inst warned g' w' next w0 ls st cfg zones ctx wr r res t m rr :
  Central_setup (Handler := Handler) directives tr c g w = Some (Ok inst, warned, g', w') →
  Central_parseConfig c = Some (Ok (cfg, zones)) →
  (∀ zone gw, gateways cfg !! zone = Some gw → Addr_Zone gw = "") →
  run (central_step inst next) (start_state g' w0) ls st →
  ServeDNS (handler inst next st) ctx wr r [] = Some (res, t) →
  m ∈ written t → rr ∈ Answer m → typed_record rr.
Proof.
  intros Hset Hp Hzl _ Hs Hm Hrr.
  destruct (Central_setup_built _ _ _ _ _ _ _ _ _ next Hset) as (cfg' & zones' & Hp' & Hb).
  rewrite Hp in Hp'. injection Hp' as <- <-. destruct Hb as [_ _ Hz Httl Hok].
  destruct (crosses_dec (handler inst next st) ctx wr r) as [(src & dest & Hx)|Hn].
  - pose proof (ServeDNS_crosses _ _ _ _ _ _ Hx) as Hs'. rewrite Hs in Hs'.
    unfold Gateway in Hs'. cbn in Hs'. rewrite Hz, New_gw in Hs'.
    destruct (gateways cfg !! dest) as [gw|] eqn:Hg; [|by simplify_eq; apply elem_of_nil in Hm].
    destruct (answerGateway_reply (handler inst next st) wr r (Addr_String gw)
      (counted ReasonOK ActionAnswerGateway)) as (m' & tail & Hrun & _ & Hw & _ & _ & Hans); [by destruct Hx|].
    rewrite Hrun in Hs'. injection Hs' as -> ->. unfold written in *; cbn in Hm.
    rewrite Hw in Hm. apply list_elem_of_singleton in Hm as ->.
    destruct (ok_gateways cfg Hok dest gw Hg) as [_ Hwf].
    rewrite Hans, gateway_record_eq in Hrr by (done || by eapply Hzl).
    eapply gateway_record_typed; [|done..]. cbn. rewrite Httl. apply Hok.
  - destruct (ServeDNS_not_crosses _ _ _ _ Hn) as (t' & Hs' & _ & Hw). rewrite Hs in Hs'.
    injection Hs' as -> ->. rewrite Hw in Hm. by apply elem_of_nil in Hm.
Qed.
End laws.
End system.

Module CentralSystemWitnesses.
Import CorefileReference DnsLib.Reference IdentityWitnesses CentralWitnesses CentralSetupWitnesses.

Definition corefile1 : lines := block
  [["spire_server"; "spire:8081"]; ["spire_server_id"; "spiffe://example.org/spire/server"];
   ["workload_api"; "unix:///run/spire/agent.sock"];
   ["authorized_agent"; "spiffe://example.org/ns/dns/sa/agent"]; ["gateway"; "fab"; "10.0.0.1"]].

(** A server with one page, down at its first poll. *)
#[export] Instance one_page : EntryLister string Z := {|
  ListEntries _ n := (if n =? 0 then Err "unavailable" else Ok (entries1, ""), n + 1);
|}.

Definition order1 : list string := ["zonedns"; "cache"].
Definition asked1 : Msg := query "API.example.org." TypeA "office".

(** What [setup] leaves behind for it: the instance and the gauges. *)
Definition setup1 : central_instance unit string string * Gauges :=
  match Central_setup (Handler := unit) order1 "https" corefile1 gauges0 tt with
  | Some (Ok inst, _, g, _) => (inst, g)
  | _ =>
      ({| ci_conn := ""; ci_source := None; ci_interval := 0;
          ci_plugin := fun next => central0 AddrZero |}, gauges0)
  end.

Definition polls1 (n : nat) : poller_state :=
  Nat.iter n (run_iteration (Some onSnapshot) (Some onPollErrors)) (start_state setup1.2 0).

Definition served1 : (Z * option string) * list event :=
  default ((0, None), [])
    (ServeDNS (handler setup1.1 None (polls1 2)) agent_ctx plain_writer asked1 []).

Lemma setup1_ok :
  Central_setup (Handler := unit) order1 "https" corefile1 gauges0 tt =
  Some (Ok setup1.1, false, setup1.2, tt).
Proof. by vm_compute. Qed.

Lemma served1_ok :
  ServeDNS (handler setup1.1 None (polls1 2)) agent_ctx plain_writer asked1 [] = Some (served1.1, served1.2).
Proof. by vm_compute. Qed.

(** A failed poll, a good one, a query that crosses zones. *)
Definition labels1 : list label :=
  [PollFailed; Listed entries1; Asked agent_ctx plain_writer asked1 served1.1 served1.2].

Lemma run1 : run (central_step setup1.1 None) (start_state setup1.2 0) labels1 (polls1 2).
Proof.
  apply (run_cons _ _ _ (polls1 1)); [exact (c_poll setup1.1 None (polls1 0))|].
  apply (run_cons _ _ _ (polls1 2)); [exact (c_poll setup1.1 None (polls1 1))|].
  eapply run_cons; [|apply run_nil]. apply c_query, served1_ok.
Qed.

Lemma central_refines_witness :
  ∃ cfg zones dir, Central_parseConfig corefile1 = Some (Ok (cfg, zones)) ∧
    run (spec_step cfg None) None labels1 dir.
Proof.
  exact (proj1 (central_refines order1 "https" corefile1 gauges0 tt setup1.1 false setup1.2 tt None 0
    labels1 (polls1 2) setup1_ok run1)).
Defined.

(** The configuration that [corefile1] describes. *)
Definition parsed1 : config * Table :=
  match Central_parseConfig corefile1 with Some (Ok p) => p | _ => (default_config, New ∅) end.

Lemma central_typed_witness :
  map (fun m => map Body (Answer m)) (written served1.2) = [[RD_A [10; 0; 0; 1]]] ∧
  ∀ m rr, m ∈ written served1.2 → rr ∈ Answer m → typed_record rr.
Proof.
  split; [by vm_compute|]. intros m rr.
  apply (central_typed order1 "https" corefile1 gauges0 tt setup1.1 false setup1.2 tt None 0
    labels1 (polls1 2) parsed1.1 parsed1.2 agent_ctx plain_writer asked1 served1.1 served1.2).
  - exact setup1_ok.
  - by vm_compute.
  - apply (map_Forall_to_list (fun _ gw => Addr_Zone gw = "")). vm_compute. by repeat constructor.
  - exact run1.
  - exact served1_ok.
Defined.
End CentralSystemWitnesses.
