(* ===== verification/CentralProcess.v ===== *)
(** * Central as a process: reloads, pollers and shared gauges

    CoreDNS keeps one process across reloads of its configuration. Each [setup] that
    succeeds adds an instance with its own store, poller and handler; the registry
    gauges are variables of the package, shared by all of them. The steps are those of
    the goroutines: set-up, the start-up and shutdown hooks, the pollers' turns with
    every write to a gauge a step of its own, and the queries. A query reads one thing
    that others write, the store, once, and is one step. *)

From S2P Require Import Prelude GoStd GoUrl NetIP DnsLib EdnsZone Registry Poller Decision.
From S2P Require Import Identity Central ZoneCache Directives DohUpstream Corefile CentralSetup CentralSystem.

Open Scope Z_scope.

(** ** Writes to the gauges *)
Inductive gauge_write :=
  | SetNames (v : Z)
  | SetConflicts (v : Z)
  | SetReady (v : Z)
  | SetPollErrors (v : Z).

Definition apply_write (g : Gauges) (x : gauge_write) : Gauges :=
  match x with
  | SetNames v => {| registryNames := v; registryConflicts := registryConflicts g;
                     registryReady := registryReady g; registryPollErrors := registryPollErrors g |}
  | SetConflicts v => {| registryNames := registryNames g; registryConflicts := v;
                         registryReady := registryReady g; registryPollErrors := registryPollErrors g |}
  | SetReady v => {| registryNames := registryNames g; registryConflicts := registryConflicts g;
                     registryReady := v; registryPollErrors := registryPollErrors g |}
  | SetPollErrors v => {| registryNames := registryNames g; registryConflicts := registryConflicts g;
                          registryReady := registryReady g; registryPollErrors := v |}
  end.

Definition written_to (g : Gauges) (ws : list gauge_write) : Gauges := foldl apply_write g ws.

(** The callbacks, write by write. *)
Definition snapshot_writes (s : Stats) : list gauge_write :=
  [SetNames (Names s); SetConflicts (Conflicts s); SetReady 1].
Definition error_writes (count : Z) : list gauge_write := [SetPollErrors count].

Lemma snapshot_writes_onSnapshot s g : written_to g (snapshot_writes s) = onSnapshot s g.
Proof. done. Qed.
Lemma error_writes_onPollErrors n g : written_to g (error_writes n) = onPollErrors n g.
Proof. done. Qed.

(** Where a poller is in [Run]. *)
Inductive poll_pc :=
  | NotStarted                               (** before the start-up hook *)
  | Polling                                  (** at the call of PollOnce *)
  | Reporting (todo : list gauge_write)      (** in the callbacks; at the select when none is left *)
  | PollerReturned.

Section process.
Context {C Handler ID Source Creds Conn Wd E W : Type}.
Context `{Controller C, !GrpcOps ID Source Creds Conn Wd, Strings.Unicode, !DnsOps, !RequestOps}.
Context `{!PluginOps Handler, !EntryLister E W}.

#[local] Abbreviation instance := (central_instance Handler Source Conn).

(** [cr_world] is what the instance's SPIRE client talks to. *)
Record running := {
  cr_inst : instance;
  cr_next : option Handler;
  cr_store : Store;
  cr_errors : Z;
  cr_world : W;
  cr_pc : poll_pc;
  cr_cancelled : bool;
}.

Record cproc := { cp_gauges : Gauges; cp_dial : Wd; cp_insts : list running }.

Definition cstart (w : Wd) : cproc := {|
  cp_gauges := {| registryNames := 0; registryConflicts := 0; registryReady := 0; registryPollErrors := 0 |};
  cp_dial := w; cp_insts := [] |}.

Definition new_running (inst : instance) (next : option Handler) (w : W) : running := {|
  cr_inst := inst; cr_next := next; cr_store := NewStore; cr_errors := 0; cr_world := w;
  cr_pc := NotStarted; cr_cancelled := false |}.

Definition with_pc (r : running) (p : poll_pc) : running := {|
  cr_inst := cr_inst r; cr_next := cr_next r; cr_store := cr_store r; cr_errors := cr_errors r;
  cr_world := cr_world r; cr_pc := p; cr_cancelled := cr_cancelled r |}.

Definition with_client (r : running) (w : W) (cancelled : bool) : running := {|
  cr_inst := cr_inst r; cr_next := cr_next r; cr_store := cr_store r; cr_errors := cr_errors r;
  cr_world := w; cr_pc := cr_pc r; cr_cancelled := cancelled |}.

(** A turn of [Run] up to its callbacks. *)
Definition poll_turn (r : running) : running :=
  let '(res, store', w') := PollOnce (cr_store r) (cr_world r) in
  let '(errors', ws) :=
    match res with
    | Err _ => (int64_succ (cr_errors r), [])
    | Ok stats => (0, snapshot_writes stats)
    end in
  {| cr_inst := cr_inst r; cr_next := cr_next r; cr_store := store'; cr_errors := errors'; cr_world := w';
     cr_pc := Reporting (ws ++ error_writes errors'); cr_cancelled := cr_cancelled r |}.

(** The instance as CentralSystem sees it. *)
Definition state_of (r : running) (g : Gauges) : @poller_state W Gauges :=
  {| p_store := cr_store r; p_pollErrors := cr_errors r; p_out := g; p_world := cr_world r |}.

Definition pending (r : running) : list gauge_write :=
  match cr_pc r with Reporting ws => ws | _ => [] end.

(** The steps of a turn, uninterrupted, are the turn of Poller. *)
Lemma poll_turn_iteration r g :
  state_of (poll_turn r) (written_to g (pending (poll_turn r))) =
  run_iteration (Some onSnapshot) (Some onPollErrors) (state_of r g).
Proof.
  unfold poll_turn, run_iteration; cbn. by destruct (PollOnce _ _) as [[[stats|err] store'] w'].
Qed.

Lemma poll_turn_keeps r : cr_inst (poll_turn r) = cr_inst r ∧ cr_next (poll_turn r) = cr_next r.
Proof. unfold poll_turn. by destruct (PollOnce _ _) as [[[] ?] ?]. Qed.

(** ** The steps *)
Inductive command :=
  | DoSetup (directives : list string) (tr : string) (c : C) (next : option Handler) (w : W)
  | DoStartup (i : nat)
  | DoPoll (i : nat)
  | DoWrite (i : nat)
  | DoSelect (i : nat) (tick : bool)
  | DoShutdown (i : nat)
  | DoWorld (i : nat) (w : W)   (** the server, or the connection to it, changes *)
  | DoQuery (i : nat) (ctx : Context) (w : ResponseWriter) (r : Msg).

Definition set_running (p : cproc) (i : nat) (r : running) : cproc :=
  {| cp_gauges := cp_gauges p; cp_dial := cp_dial p; cp_insts := <[i := r]> (cp_insts p) |}.

(** One step, and what of it the specification of CentralSystem observes. *)
Definition cexec (p : cproc) (cmd : command) : option (list (nat * label) * cproc) :=
  match cmd with
  | DoSetup directives tr c next w =>
      match Central_setup directives tr c (cp_gauges p) (cp_dial p) with
      | None => None
      | Some (Err _, _, g, wd) => Some ([], {| cp_gauges := g; cp_dial := wd; cp_insts := cp_insts p |})
      | Some (Ok inst, _, g, wd) =>
          Some ([], {| cp_gauges := g; cp_dial := wd; cp_insts := cp_insts p ++ [new_running inst next w] |})
      end
  | DoStartup i =>
      r ← cp_insts p !! i;
      match cr_pc r with NotStarted => Some ([], set_running p i (with_pc r Polling)) | _ => None end
  | DoPoll i =>
      r ← cp_insts p !! i;
      match cr_pc r with
      | Polling => Some ([(i, poll_label (state_of r (cp_gauges p)))], set_running p i (poll_turn r))
      | _ => None
      end
  | DoWrite i =>
      r ← cp_insts p !! i;
      match cr_pc r with
      | Reporting (x :: ws) =>
          Some ([], {| cp_gauges := apply_write (cp_gauges p) x; cp_dial := cp_dial p;
                       cp_insts := <[i := with_pc r (Reporting ws)]> (cp_insts p) |})
      | _ => None
      end
  | DoSelect i tick =>
      r ← cp_insts p !! i;
      match cr_pc r with
      | Reporting [] =>
          if tick then Some ([], set_running p i (with_pc r Polling))
          else if cr_cancelled r then Some ([], set_running p i (with_pc r PollerReturned))
          else None
      | _ => None
      end
  | DoShutdown i =>
      r ← cp_insts p !! i;
      if cr_cancelled r then None
      else
        let '(_, wd) := Central_OnShutdown (cr_inst r) (cp_dial p) in
        Some ([], {| cp_gauges := cp_gauges p; cp_dial := wd;
                     cp_insts := <[i := with_client r (cr_world r) true]> (cp_insts p) |})
  | DoWorld i w =>
      r ← cp_insts p !! i; Some ([], set_running p i (with_client r w (cr_cancelled r)))
  | DoQuery i ctx w m =>
      r ← cp_insts p !! i;
      '(res, t) ← ServeDNS (handler (cr_inst r) (cr_next r) (state_of r (cp_gauges p))) ctx w m [];
      Some ([(i, Asked ctx w m res t)], p)
  end.

Fixpoint cexecs (p : cproc) (cmds : list command) : option (list (nat * label) * cproc) :=
  match cmds with
  | [] => Some ([], p)
  | cmd :: cmds' =>
      '(ls, p1) ← cexec p cmd;
      '(ls', p2) ← cexecs p1 cmds';
      Some (ls ++ ls', p2)
  end.

(** What an instance's own poller and clients see. *)
Definition labels_of (i : nat) (ls : list (nat * label)) : list label :=
  snd <$> filter (fun x => x.1 = i) ls.

Lemma labels_of_app i ls ls' : labels_of i (ls ++ ls') = labels_of i ls ++ labels_of i ls'.
Proof. unfold labels_of. by rewrite filter_app, fmap_app. Qed.

Lemma labels_of_pair i j ls : labels_of i (pair j <$> ls) = if decide (j = i) then ls else [].
Proof.
  unfold labels_of. induction ls as [|l ls IH]; [by case_decide|]. rewrite fmap_cons, filter_cons.
  cbn [fst]. case_decide; [|done]. by rewrite fmap_cons, IH.
Qed.

Lemma labels_of_one i j l : labels_of i [(j, l)] = if decide (j = i) then [l] else [].
Proof. apply (labels_of_pair i j [l]). Qed.

(** An invariant of every step is one of every run. *)
Lemma cexecs_inv (I : list (nat * label) → cproc → Prop) :
  (∀ ls p cmd ls' p', I ls p → cexec p cmd = Some (ls', p') → I (ls ++ ls') p') →
  ∀ cmds ls p ls' p', I ls p → cexecs p cmds = Some (ls', p') → I (ls ++ ls') p'.
Proof.
  intros Hstep cmds. induction cmds as [|cmd cmds IH]; intros ls p ls' p' HI; cbn.
  { intros [= <- <-]. by rewrite app_nil_r. }
  destruct (cexec p cmd) as [[ls1 p1]|] eqn:Hc; [|done]. cbn.
  destruct (cexecs p1 cmds) as [[ls2 p2]|] eqn:Hcs; [|done]. intros [= <- <-].
  rewrite app_assoc. eapply IH; [by eapply Hstep|done].
Qed.

(** ** What a step means to one instance *)
Inductive inst_step (g : Gauges) : option running → list label → running → Prop :=
  | is_new directives tr c g0 wd0 warned g1 wd1 inst next w :
      Central_setup directives tr c g0 wd0 = Some (Ok inst, warned, g1, wd1) →
      inst_step g None [] (new_running inst next w)
  | is_keep r r' :
      cr_inst r' = cr_inst r → cr_next r' = cr_next r → cr_store r' = cr_store r →
      inst_step g (Some r) [] r'
  | is_poll r : inst_step g (Some r) [poll_label (state_of r g)] (poll_turn r)
  | is_query r ctx w m res t :
      ServeDNS (handler (cr_inst r) (cr_next r) (state_of r g)) ctx w m [] = Some (res, t) →
      inst_step g (Some r) [Asked ctx w m res t] r.

(** A step adds an instance or changes one. *)
Lemma cexec_shape p cmd ls p' :
  cexec p cmd = Some (ls, p') →
  (ls = [] ∧ (cp_insts p' = cp_insts p ∨
     ∃ r, inst_step (cp_gauges p) None [] r ∧ cp_insts p' = cp_insts p ++ [r])) ∨
  ∃ j r ls1 r', cp_insts p !! j = Some r ∧ inst_step (cp_gauges p) (Some r) ls1 r' ∧
    ls = pair j <$> ls1 ∧ cp_insts p' = <[j := r']> (cp_insts p).
Proof.
  destruct cmd as [directives tr c next w|j|j|j|j tick|j|j w|j ctx w m]; cbn.
  { destruct (Central_setup _ _ _ _ _) as [[[[[inst|e] warned] g] wd]|] eqn:Hs; [..|done]; intros [= <- <-];
      left; (split; [done|]); [right|by left]. eexists. by split; [eapply is_new|]. }
  all: destruct (cp_insts p !! j) as [r|] eqn:Hj; [|done]; cbn; intros Hc; right; exists j, r.
  1,2,3,4: destruct (cr_pc r) as [| |ws|]; try done.
  2:{ injection Hc as <- <-. eexists [_], _. by split_and!; [|apply is_poll|..]. }
  6:{ destruct (ServeDNS _ _ _ _ _) as [[res t]|] eqn:Hs; [|done]. injection Hc as <- <-.
      eexists [_], _. split_and!; [done|by apply is_query|done|]. by rewrite list_insert_id. }
  all: exists [].
  2,3: destruct ws as [|x ws]; try done.
  3: destruct tick; [|destruct (cr_cancelled r); [|done]].
  5: destruct (cr_cancelled r); [done|]; destruct (Central_OnShutdown _ _).
  all: injection Hc as <- <-; refine (ex_intro _ _ (conj Hj (conj _ (conj eq_refl eq_refl)))); by apply is_keep.
Qed.

Lemma cexec_inst p cmd ls p' i r' :
  cexec p cmd = Some (ls, p') → cp_insts p' !! i = Some r' →
  inst_step (cp_gauges p) (cp_insts p !! i) (labels_of i ls) r'.
Proof.
  intros [(-> & [->|(r & Hr & ->)])|(j & r & ls1 & r1 & Hj & Hst & -> & ->)]%cexec_shape.
  - intros ->. by apply is_keep.
  - intros [Hi|[Hlen Hi]]%lookup_app_Some; [rewrite Hi; by apply is_keep|].
    apply list_lookup_singleton_Some in Hi as [_ <-]. by rewrite lookup_ge_None_2.
  - rewrite labels_of_pair. intros [(-> & <- & _)|[Hne Hi]]%list_lookup_insert_Some.
    + by rewrite Hj, decide_True.
    + rewrite Hi, decide_False by done. by apply is_keep.
Qed.

(** An instance that is not there has seen nothing. *)
Lemma cexec_absent p cmd ls p' i :
  cexec p cmd = Some (ls, p') → cp_insts p' !! i = None → cp_insts p !! i = None ∧ labels_of i ls = [].
Proof.
  intros [(-> & [->|(r & _ & ->)])|(j & r & ls1 & r1 & Hj & _ & -> & ->)]%cexec_shape.
  - done.
  - rewrite !lookup_ge_None, length_app. cbn. by split; [lia|].
  - rewrite labels_of_pair. destruct (decide (j = i)) as [->|Hne].
    + by rewrite list_lookup_insert_eq by (by eapply lookup_lt_Some).
    + by rewrite list_lookup_insert_ne.
Qed.

(** ** Each instance refines its own specification *)
Section laws.
Context `{!DnsLaws, !RequestLaws}.

(** [ls] so far, the instance is in the state the specification has reached. *)
Definition refines (ls : list label) (r : running) : Prop :=
  ∃ c cfg zones dir, Central_parseConfig c = Some (Ok (cfg, zones)) ∧ built cfg (cr_next r) (cr_inst r) ∧
    run (spec_step cfg (cr_next r)) None ls dir ∧ ∀ g, same_directory dir (state_of r g).

Lemma refines_step g o ls0 ls r :
  (∀ r0, o = Some r0 → refines ls0 r0) → (o = None → ls0 = []) → inst_step g o ls r → refines (ls0 ++ ls) r.
Proof.
  intros Ho Hnew Hst.
  destruct Hst as [directives tr c g0 wd0 warned g1 wd1 inst next w Hs|r r' Hi Hn Hst|r|r ctx w m res t Hs].
  { destruct (Central_setup_built _ _ _ _ _ _ _ _ _ next Hs) as (cfg & zones & Hp & Hb).
    exists c, cfg, zones, None. rewrite Hnew by done. split_and!; [done..|apply run_nil|done]. }
  all: destruct (Ho r eq_refl) as (c & cfg & zones & dir & Hp & Hb & Hrun & Hd).
  { exists c, cfg, zones, dir. rewrite app_nil_r, Hi, Hn. split_and!; [done..|].
    intros g'. unfold same_directory, state_of in *; cbn in *. rewrite Hst. apply (Hd g'). }
  - destruct (central_step_simulates cfg (cr_next r) (cr_inst r) (state_of r g) _ _ dir Hb (Hd g) (c_poll _ _ _))
      as (dir' & Hsp & Hd').
    destruct (poll_turn_keeps r) as [Hi Hn]. exists c, cfg, zones, dir'. rewrite Hi, Hn.
    split_and!; [done|done|by eapply run_snoc|]. intros g'. unfold same_directory in *.
    by rewrite <-poll_turn_iteration in Hd'.
  - destruct (central_step_simulates cfg (cr_next r) (cr_inst r) (state_of r g) _ _ dir Hb (Hd g)
      (c_query _ _ _ ctx w m res t Hs)) as (dir' & Hsp & Hd').
    exists c, cfg, zones, dir'. split_and!; [done|done|by eapply run_snoc|done].
Qed.

Lemma cexecs_refines wd cmds ls p i r :
  cexecs (cstart wd) cmds = Some (ls, p) → cp_insts p !! i = Some r → refines (labels_of i ls) r.
Proof.
  intros Hrun Hi.
  pose (I := fun (ls : list (nat * label)) p => ∀ i,
    (cp_insts p !! i = None → labels_of i ls = []) ∧ ∀ r, cp_insts p !! i = Some r → refines (labels_of i ls) r).
  refine (proj2 (cexecs_inv I _ cmds [] (cstart wd) ls p _ Hrun i) r Hi);
    [|intros j; split; [done|]; intros r0; cbn; by rewrite lookup_nil].
  intros ls0 p0 cmd ls' p' HI0 Hc j. split; [|intros r' Hr'].
  - intros Hj. destruct (cexec_absent p0 cmd ls' p' j Hc Hj) as [Hn Hl].
    by rewrite labels_of_app, Hl, (proj1 (HI0 j) Hn).
  - rewrite labels_of_app. eapply refines_step; [apply HI0|apply HI0|by eapply cexec_inst].
Qed.

(** C3: central across reloads: whatever other instances, reloads, failed set-ups and
    shutdowns the process has seen, and however their pollers and its own interleave,
    each instance behaves, query for query, as the specification that knows only its
    own configuration, the one its handler is built from, and the last complete listing
    its own poller got; and every query it is asked is answered at once. *)
Theorem process_refines wd cmds ls p i r :
  cexecs (cstart wd) cmds = Some (ls, p) → cp_insts p !! i = Some r →
  (∃ c cfg zones dir, Central_parseConfig c = Some (Ok (cfg, zones)) ∧ built cfg (cr_next r) (cr_inst r) ∧
     run (spec_step cfg (cr_next r)) None (labels_of i ls) dir) ∧
  ∀ ctx wr m, ∃ res t, cexec p (DoQuery i ctx wr m) = Some ([(i, Asked ctx wr m res t)], p).
Proof.
  intros Hrun Hi. split.
  - destruct (cexecs_refines wd cmds ls p i r Hrun Hi) as (c & cfg & zones & dir & Hp & Hb & Hr & _).
    by exists c, cfg, zones, dir.
  - intros ctx wr m. cbn. rewrite Hi. cbn.
    destruct (query_answered (cr_inst r) (cr_next r) (state_of r (cp_gauges p)) ctx wr m) as (res & t & ->).
    by exists res, t.
Qed.
End laws.

(** ** The gauges *)

(** The last complete listing among these labels. *)
Definition last_listing (acc : option (list Entry)) (ls : list label) : option (list Entry) :=
  foldl (fun acc l => match l with Listed all => Some all | _ => acc end) acc ls.

(** What the gauges should say of an instance that has [all]. *)
Definition gauges_of (all : list Entry) (r : running) : Gauges := {|
  registryNames := Names (BuildSnapshot all).2; registryConflicts := Conflicts (BuildSnapshot all).2;
  registryReady := 1; registryPollErrors := cr_errors r |}.

Definition is_setup (cmd : command) : bool := match cmd with DoSetup _ _ _ _ _ => true | _ => false end.

(** The gauges will be right when the writes under way are done, and so is the store. *)
Definition settling (all : list Entry) (r : running) (g : Gauges) : Prop :=
  written_to g (pending r) = gauges_of all r ∧ cur (cr_store r) = Some (BuildSnapshot all).1.

Lemma poll_turn_settling acc r g :
  (∀ all, acc = Some all → cr_pc r = Polling → settling all r g) → cr_pc r = Polling →
  ∀ all, last_listing acc [poll_label (state_of r g)] = Some all → settling all (poll_turn r) g.
Proof.
  intros Hs Hpc all. unfold poll_label, poll_turn, PollOnce; cbn [state_of p_world].
  destruct page_budget as (n & -> & _). destruct (poll_loop _ _ _ _ _) as [[all'|err] w']; cbn [last_listing foldl].
  - intros [= <-]. by rewrite (surjective_pairing (BuildSnapshot all')).
  - intros ->. destruct (Hs all eq_refl Hpc) as [Hg Hc]. split; [|done].
    unfold pending in Hg. rewrite Hpc in Hg. cbn in Hg. subst g. done.
Qed.

(** Only [i] still polls, and from its next listing on the gauges are its own. *)
Definition alone (i : nat) (acc : option (list Entry)) (p : cproc) : Prop :=
  (∀ j r, j ≠ i → cp_insts p !! j = Some r → cr_pc r = PollerReturned) ∧
  ∀ all r, acc = Some all → cp_insts p !! i = Some r → settling all r (cp_gauges p).

Lemma alone_insert i acc p j r r' g wd :
  alone i acc p → cp_insts p !! j = Some r →
  (j ≠ i → cr_pc r' = PollerReturned ∧ g = cp_gauges p) →
  (j = i → ∀ all, acc = Some all → settling all r (cp_gauges p) → settling all r' g) →
  alone i acc {| cp_gauges := g; cp_dial := wd; cp_insts := <[j := r']> (cp_insts p) |}.
Proof.
  intros [Hret Hset] Hj Hne Heq. split; cbn.
  - intros k rk Hk [(-> & <- & _)|[_ Hi]]%list_lookup_insert_Some; [by apply Hne|by eapply Hret].
  - intros all ri Ha [(-> & <- & _)|[Hji Hi]]%list_lookup_insert_Some; [by apply Heq; [..|by apply Hset]|].
    destruct (Hne Hji) as [_ ->]. by apply Hset.
Qed.

Lemma alone_step i acc p cmd ls p' :
  is_setup cmd = false → alone i acc p → cexec p cmd = Some (ls, p') →
  alone i (last_listing acc (labels_of i ls)) p'.
Proof.
  intros Hns Ha. pose proof (proj1 Ha) as Hret. pose proof (proj2 Ha) as Hset.
  destruct cmd as [directives tr c next w|j|j|j|j tick|j|j w|j ctx w m]; [done|cbn..].
  all: destruct (cp_insts p !! j) as [r|] eqn:Hj; [|done]; cbn; pose proof (fun Hne => Hret j r Hne Hj) as Hrj.
  1,2,3,4: destruct (cr_pc r) as [| |ws|] eqn:Hpc; try done.
  - intros [= <- <-]. eapply alone_insert; [done|done|by intros ?%Hrj|].
    intros -> all Hall. unfold settling, pending; cbn. by rewrite Hpc.
  - intros [= <- <-]. destruct (decide (j = i)) as [->|Hne]; [|by apply Hrj in Hne].
    rewrite labels_of_one, decide_True by done. split; cbn.
    + intros k rk Hk. rewrite list_lookup_insert_ne by done. by apply Hret.
    + intros all rk Hall. rewrite list_lookup_insert_eq by (by eapply lookup_lt_Some). intros [= <-].
      eapply poll_turn_settling; [|done|done]. intros all' Ha' _. by apply Hset.
  - destruct ws as [|x ws]; [done|]. intros [= <- <-]. eapply alone_insert; [done|done|by intros ?%Hrj|].
    intros -> all Hall. unfold settling, pending; cbn. by rewrite Hpc.
  - destruct ws as [|x ws]; [|done]. destruct tick; [|destruct (cr_cancelled r); [|done]];
      (intros [= <- <-]; eapply alone_insert; [done|done|by intros ?%Hrj|]);
      intros -> all Hall; unfold settling, pending; cbn; by rewrite Hpc.
  - destruct (cr_cancelled r); [done|]. destruct (Central_OnShutdown _ _) as [e wd]. intros [= <- <-].
    eapply alone_insert; [done|done|by intros ?%Hrj|done].
  - intros [= <- <-]. eapply alone_insert; [done|done|by intros ?%Hrj|done].
  - destruct (ServeDNS _ _ _ _ _) as [[res t]|]; [|done]. intros [= <- <-].
    rewrite labels_of_one. by case_decide.
Qed.

(** C23: after a reload the registry gauges come right: from any state in which the other
    instances' pollers have returned, as long as there is no further set-up, once the
    remaining poller has got a complete listing and is not in the middle of reporting,
    registry_ready is 1, the numbers of names and conflicts are those of the last
    listing, the error gauge is its own count of failures since, and its store holds
    that listing's snapshot. *)
Theorem gauges_settle i p cmds ls p' r all :
  (∀ j rj, j ≠ i → cp_insts p !! j = Some rj → cr_pc rj = PollerReturned) →
  Forall (fun cmd => is_setup cmd = false) cmds →
  cexecs p cmds = Some (ls, p') → last_listing None (labels_of i ls) = Some all →
  cp_insts p' !! i = Some r → pending r = [] →
  cp_gauges p' = gauges_of all r ∧ cur (cr_store r) = Some (BuildSnapshot all).1.
Proof.
  intros Hret Hns Hrun Hall Hi Hdone.
  assert (Ha : alone i (last_listing None (labels_of i ls)) p').
  { assert (Hal : alone i None p) by done. clear Hall Hi Hret. revert p ls Hal Hrun.
    generalize (None : option (list Entry)).
    induction Hns as [|cmd cmds Hcmd _ IH]; intros acc p ls Ha; cbn; [by intros [= <- <-]|].
    destruct (cexec p cmd) as [[ls1 p1]|] eqn:Hc; [|done]. cbn.
    destruct (cexecs p1 cmds) as [[ls2 p2]|] eqn:Hcs; [|done]. intros [= <- <-].
    rewrite labels_of_app. unfold last_listing. rewrite foldl_app. eapply IH; [by eapply alone_step|done]. }
  destruct (proj2 Ha all r Hall Hi) as [Hg Hc]. rewrite Hdone in Hg. by split.
Qed.

(** ** registry_ready across overlapping instances *)

(** Readiness is only ever written as 1. *)
Definition ready_writes (p : cproc) : Prop :=
  ∀ j r v, cp_insts p !! j = Some r → SetReady v ∈ pending r → v = 1.

Lemma poll_turn_pending r v : SetReady v ∈ pending (poll_turn r) → v = 1.
Proof.
  unfold poll_turn, pending. destruct (PollOnce _ _) as [[[stats|err] store'] w']; cbn;
    unfold snapshot_writes, error_writes; set_solver.
Qed.

(** A step changes the pending writes of one instance: they are those of a turn, or
    some of what they were. *)
Lemma cexec_pending p cmd ls p' j r' :
  cexec p cmd = Some (ls, p') → cp_insts p' !! j = Some r' →
  pending r' = [] ∨ (∃ r, pending r' = pending (poll_turn r)) ∨
  ∃ r, cp_insts p !! j = Some r ∧ pending r' ⊆ pending r.
Proof.
  intros Hc Hj'.
  assert (Hset : ∀ i r r1, cp_insts p !! i = Some r → cp_insts p' = <[i := r1]> (cp_insts p) →
    pending r1 ⊆ pending r → ∃ r, cp_insts p !! j = Some r ∧ pending r' ⊆ pending r).
  { intros i r r1 Hi Hp' Hsub. rewrite Hp' in Hj'.
    apply list_lookup_insert_Some in Hj' as [(-> & <- & _)|[_ Hj']]; [by exists r|by exists r']. }
  destruct cmd as [directives tr c next w|i|i|i|i tick|i|i w|i ctx w m]; cbn in Hc.
  { destruct (Central_setup _ _ _ _ _) as [[[[[inst|e] warned] g] wd]|]; [..|done]; simplify_eq/=.
    - apply lookup_app_Some in Hj' as [Hj'|[_ Hj']]; [right; right; by exists r'|].
      apply list_lookup_singleton_Some in Hj' as [_ <-]. by left.
    - right; right. by exists r'. }
  all: destruct (cp_insts p !! i) as [r|] eqn:Hi; [|done]; cbn in Hc.
  1,2,3,4: destruct (cr_pc r) as [| |ws|] eqn:Hpc; try done.
  - injection Hc as <- <-. right; right. eapply Hset; [done|done|unfold pending; cbn; set_solver].
  - injection Hc as <- <-. cbn in Hj'.
    apply list_lookup_insert_Some in Hj' as [(-> & <- & _)|[_ Hj']]; right; [left; by exists r|right; by exists r'].
  - destruct ws as [|x ws]; [done|]. injection Hc as <- <-. right; right. eapply Hset; [done|done|].
    unfold pending; cbn. rewrite Hpc. set_solver.
  - destruct ws as [|x ws]; [|done]. right; right.
    destruct tick; [|destruct (cr_cancelled r); [|done]]; injection Hc as <- <-; (eapply Hset; [done|done|unfold pending; cbn; set_solver]).
  - destruct (cr_cancelled r); [done|]. destruct (Central_OnShutdown _ _) as [e wd]. injection Hc as <- <-.
    right; right. eapply Hset; [done|done|unfold pending; cbn; set_solver].
  - injection Hc as <- <-. right; right. eapply Hset; [done|done|unfold pending; cbn; set_solver].
  - destruct (ServeDNS _ _ _ _ _) as [[res t]|]; [|done]. injection Hc as <- <-. right; right. by exists r'.
Qed.

Lemma ready_writes_step p cmd ls p' : ready_writes p → cexec p cmd = Some (ls, p') → ready_writes p'.
Proof.
  intros Hr Hc j r' v Hj Hv. destruct (cexec_pending _ _ _ _ _ _ Hc Hj) as [Hp|[[r Hp]|(r & Hj0 & Hsub)]].
  - rewrite Hp in Hv. by apply elem_of_nil in Hv.
  - rewrite Hp in Hv. by eapply poll_turn_pending.
  - eapply Hr; [exact Hj0|]. by apply Hsub.
Qed.

Lemma cexecs_ready_writes wd cmds ls p : cexecs (cstart wd) cmds = Some (ls, p) → ready_writes p.
Proof.
  intros Hrun. refine (cexecs_inv (fun _ => ready_writes) _ cmds [] (cstart wd) ls p _ Hrun).
  - intros ls0 p0 cmd ls' p'. apply ready_writes_step.
  - intros j r v. cbn. by rewrite lookup_nil.
Qed.

(** Apart from set-ups, the gauges change by a pending write. *)
Lemma cexec_gauges p cmd ls p' :
  is_setup cmd = false → cexec p cmd = Some (ls, p') →
  cp_gauges p' = cp_gauges p ∨
  ∃ j r x, cmd = DoWrite j ∧ cp_insts p !! j = Some r ∧ x ∈ pending r ∧
    cp_gauges p' = apply_write (cp_gauges p) x.
Proof.
  destruct cmd as [directives tr c next w|i|i|i|i tick|i|i w|i ctx w m]; [done|intros _; cbn..].
  all: destruct (cp_insts p !! i) as [r|] eqn:Hi; [|done]; cbn.
  3:{ destruct (cr_pc r) as [| |[|x ws]|] eqn:Hpc; try done. intros [= <- <-]. right.
      exists i, r, x. split_and!; [done..| |done]. unfold pending. rewrite Hpc. by left. }
  6:{ destruct (ServeDNS _ _ _ _ _) as [[res t]|]; [|done]. intros [= <- <-]. by left. }
  all: intros Hc; left; repeat (case_match; try done); by simplify_eq/=.
Qed.

Lemma apply_write_ready g x :
  (∀ v, x = SetReady v → v = 1) → registryReady g = 1 → registryReady (apply_write g x) = 1.
Proof. destruct x; cbn; auto. Qed.

Lemma written_to_ready g ws :
  (∀ v, SetReady v ∈ ws → v = 1) → registryReady g = 1 ∨ SetReady 1 ∈ ws →
  registryReady (written_to g ws) = 1.
Proof.
  revert g. induction ws as [|x ws IH]; intros g Hall; cbn.
  { by intros [?|?%elem_of_nil]. }
  intros Hor. apply IH; [intros v Hv; apply Hall; by right|].
  destruct Hor as [Hg|[<-|Hin]%elem_of_cons]; [left|by left|by right].
  apply apply_write_ready; [|done]. intros v ->. apply Hall. by left.
Qed.

(** An instance's pending writes, made one after the other. *)
Lemma report_runs p i r ws :
  cp_insts p !! i = Some r → cr_pc r = Reporting ws →
  ∃ p', cexecs p (replicate (length ws) (DoWrite i)) = Some ([], p') ∧
    cp_gauges p' = written_to (cp_gauges p) ws ∧ length (cp_insts p') = length (cp_insts p) ∧
    (∀ j, j ≠ i → cp_insts p' !! j = cp_insts p !! j) ∧ (ready_writes p → ready_writes p').
Proof.
  revert p r. induction ws as [|x ws IH]; intros p r Hi Hpc; [by exists p|].
  cbn [length replicate cexecs]. assert (Hc : cexec p (DoWrite i) = Some ([],
    {| cp_gauges := apply_write (cp_gauges p) x; cp_dial := cp_dial p;
       cp_insts := <[i := with_pc r (Reporting ws)]> (cp_insts p) |})) by (cbn; rewrite Hi; cbn; by rewrite Hpc).
  rewrite Hc. cbn [mbind option_bind].
  edestruct IH as (p' & -> & Hg & Hlen & Hother & Hrw);
    [cbn; apply list_lookup_insert_eq; by eapply lookup_lt_Some|done|].
  exists p'. cbn [cp_gauges cp_insts] in Hg, Hlen, Hother. split_and!; [done|done|by rewrite Hlen, length_insert| |].
  - intros j Hj. rewrite Hother by done. by apply list_lookup_insert_ne.
  - intros Hr. apply Hrw. by eapply ready_writes_step.
Qed.

(** The instance [k] has no snapshot, as far as it is known from [acc]. *)
Definition unlisted (k : nat) (acc : option (list Entry)) (p : cproc) : Prop :=
  ∃ r, cp_insts p !! k = Some r ∧ (acc = None → Ready (cr_store r) = false).

Lemma inst_step_unlisted g r acc ls r' :
  inst_step g (Some r) ls r' → last_listing acc ls = None →
  acc = None ∧ (Ready (cr_store r) = false → Ready (cr_store r') = false).
Proof.
  intros Hst. inversion Hst as [|? ? Hi Hn Hs|?|? ? ? ? ? ? Hs]; subst; cbn.
  - intros ->. by rewrite Hs.
  - unfold poll_label, poll_turn, PollOnce; cbn [state_of p_world].
    destruct page_budget as (n & -> & _). by destruct (poll_loop _ _ _ _ _) as [[all|err] w'].
  - by intros ->.
Qed.

Lemma unlisted_step k acc p cmd ls p' :
  unlisted k acc p → cexec p cmd = Some (ls, p') → unlisted k (last_listing acc (labels_of k ls)) p'.
Proof.
  intros (r & Hk & Hr) Hc. destruct (cp_insts p' !! k) as [r'|] eqn:Hk'.
  2:{ destruct (cexec_absent _ _ _ _ _ Hc Hk') as [Hn _]. congruence. }
  exists r'. split; [done|]. intros Hl. pose proof (cexec_inst _ _ _ _ _ _ Hc Hk') as Hst. rewrite Hk in Hst.
  destruct (inst_step_unlisted _ _ _ _ _ Hst Hl) as [Ha Hkeep]. auto.
Qed.

(** Without a set-up, a gauge that says 1 says so for good. *)
Lemma cexecs_lying k acc p cmds ls p' :
  Forall (fun cmd => is_setup cmd = false) cmds → cexecs p cmds = Some (ls, p') →
  registryReady (cp_gauges p) = 1 → ready_writes p → unlisted k acc p →
  registryReady (cp_gauges p') = 1 ∧ unlisted k (last_listing acc (labels_of k ls)) p'.
Proof.
  intros Hns. revert acc p ls. induction Hns as [|cmd cmds Hcmd _ IH]; intros acc p ls; cbn; [by intros [= <- <-]|].
  destruct (cexec p cmd) as [[ls1 p1]|] eqn:Hc; [|done]. cbn.
  destruct (cexecs p1 cmds) as [[ls2 p2]|] eqn:Hcs; [|done]. intros [= <- <-] Hone Hrw Hun.
  rewrite labels_of_app. unfold last_listing. rewrite foldl_app. eapply IH; [done| |by eapply ready_writes_step|].
  - destruct (cexec_gauges _ _ _ _ Hcmd Hc) as [->|(j & r & x & _ & Hj & Hx & ->)]; [done|].
    apply apply_write_ready; [|done]. intros v ->. by eapply Hrw.
  - by eapply unlisted_step.
Qed.

(** Neither a set-up nor a write to a gauge. *)
Definition silent (cmd : command) : bool :=
  match cmd with DoSetup _ _ _ _ _ | DoWrite _ => false | _ => true end.

Lemma cexecs_silent p cmds ls p' :
  Forall (fun cmd => silent cmd = true) cmds → cexecs p cmds = Some (ls, p') → cp_gauges p' = cp_gauges p.
Proof.
  intros Hsil. revert p ls. induction Hsil as [|cmd cmds Hcmd _ IH]; intros p ls; cbn; [by intros [= _ <-]|].
  destruct (cexec p cmd) as [[ls1 p1]|] eqn:Hc; [|done]. cbn.
  destruct (cexecs p1 cmds) as [[ls2 p2]|] eqn:Hcs; [|done]. intros [= <- <-]. rewrite (IH _ _ Hcs).
  destruct (cexec_gauges p cmd ls1 p1) as [Hg|(j & r & x & -> & _)]; [by destruct cmd|done|done|done].
Qed.

(** C27: two ways registry_ready lies, from any state the process can be in. A set-up
    that fails to reach SPIRE leaves every instance as it was, those that have a snapshot
    and go on serving included, and the gauge at 0, where it stays until a poller writes
    to it again. And a set-up that succeeds while some instance has polled successfully
    but not yet written its readiness leaves the gauge at 1 once that instance has made
    its writes, and, with no further set-up, for as long as the new instance gets no
    complete listing and so has no snapshot, whatever else happens. *)
Theorem registry_ready_lies wd cmds0 ls0 p directives tr c next w :
  cexecs (cstart wd) cmds0 = Some (ls0, p) →
  let setup := DoSetup directives tr c next w in
  let k := length (cp_insts p) in
  (∀ e warned g wd', Central_setup (Handler := Handler) directives tr c (cp_gauges p) (cp_dial p) =
       Some (Err (SetupDial e), warned, g, wd') →
     ∃ p1, cexec p setup = Some ([], p1) ∧ cp_insts p1 = cp_insts p ∧
       ∀ cmds ls p2, Forall (fun cmd => silent cmd = true) cmds → cexecs p1 cmds = Some (ls, p2) →
         registryReady (cp_gauges p2) = 0) ∧
  (∀ i r inst warned g wd', Central_setup (Handler := Handler) directives tr c (cp_gauges p) (cp_dial p) =
       Some (Ok inst, warned, g, wd') →
     cp_insts p !! i = Some r → SetReady 1 ∈ pending r →
     ∃ p2, cexecs p (setup :: replicate (length (pending r)) (DoWrite i)) = Some ([], p2) ∧
       ∀ cmds ls p3, Forall (fun cmd => is_setup cmd = false) cmds → cexecs p2 cmds = Some (ls, p3) →
         last_listing None (labels_of k ls) = None →
         registryReady (cp_gauges p3) = 1 ∧
         ∃ rk, cp_insts p3 !! k = Some rk ∧ Ready (cr_store rk) = false).
Proof.
  intros Hrun setup k. pose proof (cexecs_ready_writes _ _ _ _ Hrun) as Hrw. split.
  - intros e warned g wd' Hs. cbn. rewrite Hs. eexists. split; [done|]. split; [done|].
    intros cmds ls p2 Hsil ->%cexecs_silent; [|done]. cbn. unfold Central_setup in Hs.
    repeat (case_match; try done). by simplify_eq.
  - intros i r inst warned g wd' Hs Hi Hin. unfold pending in Hin.
    destruct (cr_pc r) as [| |ws|] eqn:Hpc; try by apply elem_of_nil in Hin.
    set (p1 := {| cp_gauges := g; cp_dial := wd'; cp_insts := cp_insts p ++ [new_running inst next w] |}).
    assert (Hc : cexec p setup = Some ([], p1)) by (cbn; by rewrite Hs).
    assert (Hlt : (i < k)%nat) by by eapply lookup_lt_Some.
    destruct (report_runs p1 i r ws) as (p2 & Hrep & Hg & _ & Hother & Hrw2); [by apply lookup_app_l_Some|done|].
    exists p2. unfold pending. rewrite Hpc. cbn [cexecs]. rewrite Hc. cbn [mbind option_bind]. rewrite Hrep.
    split; [done|]. intros cmds ls p3 Hns Hrun3 Hl.
    assert (Hun : unlisted k None p2).
    { exists (new_running inst next w). split; [|done]. rewrite Hother by lia. cbn. apply lookup_last. }
    destruct (cexecs_lying k None p2 cmds ls p3 Hns Hrun3) as [Hone (rk & Hk & Hrk)]; [| |done|].
    + rewrite Hg. apply written_to_ready; [|by right]. intros v Hv. apply (Hrw i r); [done|].
      unfold pending. by rewrite Hpc.
    + apply Hrw2. by eapply ready_writes_step.
    + split; [done|]. exists rk. auto.
Qed.
End process.

(** ** Connections *)
Definition zsum {A} (f : A → Z) (l : list A) : Z := foldr (fun x acc => f x + acc) 0 l.

Lemma zsum_app {A} (f : A → Z) l l' : zsum f (l ++ l') = zsum f l + zsum f l'.
Proof. unfold zsum. induction l as [|x l IH]; [done|]. cbn. rewrite IH. lia. Qed.

Lemma zsum_insert {A} (f : A → Z) l i x y :
  l !! i = Some x → zsum f (<[i := y]> l) = zsum f l - f x + f y.
Proof.
  intros Hi. rewrite insert_take_drop by (by eapply lookup_lt_Some).
  rewrite <-(take_drop_middle l i x Hi) at 3. rewrite !zsum_app. cbn. lia.
Qed.

Section resources.
Context {C Handler ID Source Creds Conn Wd E W : Type}.
Context `{Controller C, !GrpcOps ID Source Creds Conn Wd, Strings.Unicode, !DnsOps, !RequestOps}.
Context `{!PluginOps Handler, !EntryLister E W}.

#[local] Abbreviation running := (CentralProcess.running (Handler := Handler) (Source := Source) (Conn := Conn) (W := W)).

(** What an instance that is not shut down holds. *)
Definition held_sources (r : running) : Z :=
  if cr_cancelled r then 0 else if ci_source (cr_inst r) is Some _ then 1 else 0.
Definition held_conns (r : running) : Z := if cr_cancelled r then 0 else 1.

Definition balanced (p : cproc (Handler := Handler) (Source := Source) (Conn := Conn) (W := W) (Wd := Wd * (Z * Z)))
    : Prop :=
  (cp_dial p).2 = (zsum held_sources (cp_insts p), zsum held_conns (cp_insts p)).

(** A step that leaves the connections alone. *)
Lemma balanced_insert p g j r r' :
  balanced p → cp_insts p !! j = Some r → cr_inst r' = cr_inst r → cr_cancelled r' = cr_cancelled r →
  balanced {| cp_gauges := g; cp_dial := cp_dial p; cp_insts := <[j := r']> (cp_insts p) |}.
Proof.
  unfold balanced; cbn [cp_dial cp_insts]. intros -> Hj Hi Hc. rewrite !(zsum_insert _ _ j r) by done.
  unfold held_sources, held_conns. rewrite Hi, Hc. f_equal; lia.
Qed.

Lemma poll_turn_cancelled (r : running) : cr_cancelled (poll_turn r) = cr_cancelled r.
Proof. unfold poll_turn. by destruct (PollOnce _ _) as [[[] ?] ?]. Qed.

Lemma balanced_step p cmd ls p' :
  balanced p → cexec (GrpcOps0 := tracked) p cmd = Some (ls, p') → balanced p'.
Proof.
  intros Hb. destruct cmd as [directives tr c next w|j|j|j|j tick|j|j w|j ctx w m]; cbn [cexec].
  { destruct (cp_dial p) as [w0 [sources conns]] eqn:Hd.
    destruct (Central_setup _ _ _ _ _) as [[[[res warned] g] [w1 open]]|] eqn:Hs; [|done].
    apply Central_lifecycle_releases in Hs. unfold balanced in Hb. rewrite Hd in Hb. injection Hb as -> ->.
    destruct res as [inst|e]; intros [= <- <-]; unfold balanced; cbn [cp_dial cp_insts snd]; [|done].
    destruct Hs as [-> _]. rewrite !zsum_app. unfold held_sources, held_conns; cbn. f_equal; lia. }
  all: destruct (cp_insts p !! j) as [r|] eqn:Hj; [|done]; cbn [mbind option_bind].
  1,2,3,4: destruct (cr_pc r) as [| |ws|]; try done.
  - intros [= <- <-]. by eapply balanced_insert.
  - intros [= <- <-]. eapply balanced_insert; [done..|apply poll_turn_keeps|apply poll_turn_cancelled].
  - destruct ws; [done|]. intros [= <- <-]. by eapply balanced_insert.
  - destruct ws; [|done]. destruct tick; [|destruct (cr_cancelled r); [|done]]; intros [= <- <-];
      by eapply balanced_insert.
  - destruct (cr_cancelled r) eqn:Hc; [done|]. destruct (cp_dial p) as [w0 [sources conns]] eqn:Hd.
    destruct (OnShutdown_tracked (cr_inst r) w0 sources conns) as (e & w2 & ->). intros [= <- <-].
    unfold balanced in *; cbn [cp_dial cp_insts snd]. rewrite Hd in Hb. injection Hb as -> ->.
    rewrite !(zsum_insert _ _ j r) by done. unfold held_sources, held_conns; cbn. rewrite Hc. f_equal; lia.
  - intros [= <- <-]. by eapply balanced_insert.
  - destruct (ServeDNS _ _ _ _ _) as [[res t]|]; [|done]. by intros [= <- <-].
Qed.

(** C37: the process leaks no connection: after any sequence of reloads, failed set-ups,
    polls, queries and shutdowns, the connections to SPIRE that are open are those of the
    instances not shut down, one each, and the certificate sources those of the ones that
    reach SPIRE over the network. *)
Theorem process_releases w cmds ls p :
  cexecs (GrpcOps0 := tracked) (cstart (w, (0, 0))) cmds = Some (ls, p) →
  (cp_dial p).2 = (zsum held_sources (cp_insts p), zsum held_conns (cp_insts p)).
Proof.
  intros Hrun. refine (cexecs_inv (GrpcOps0 := tracked) (fun _ => balanced) _ cmds [] (cstart (w, (0, 0))) ls p _ Hrun).
  - intros ls0 p0 cmd ls' p'. apply balanced_step.
  - done.
Qed.
End resources.

(** ** Witnesses *)
Module CentralProcessWitnesses.
Import CorefileReference DnsLib.Reference IdentityWitnesses CentralWitnesses CentralSetupWitnesses.
Import CentralSystemWitnesses.

(** The source and the connection are named by their addresses; the server fails its
    calls as long as the state is 0. *)
#[local] Abbreviation proc Wd := (cproc (Handler := unit) (Source := string) (Conn := string) (W := Z) (Wd := Wd)).
#[local] Abbreviation cmd := (command (C := lines) (Handler := unit) (W := Z)).

Definition setup0 (w : Z) : cmd := DoSetup order1 "https" corefile1 None w.

(** Without a workload_api, which the parser does not ask for, the dial fails. *)
Definition no_workload_api : lines := block
  [["spire_server"; "spire:8081"]; ["spire_server_id"; "spiffe://example.org/spire/server"];
   ["authorized_agent"; "spiffe://example.org/ns/dns/sa/agent"]].
Definition setup_fails : cmd := DoSetup order1 "https" no_workload_api None 1.

Definition report (i : nat) : list cmd := [DoWrite i; DoWrite i; DoWrite i; DoWrite i].

Section outcomes.
Context {Wd : Type} `{!GrpcOps string string (option (string * string)) string Wd}.

Definition outcome (w : Wd) (cmds : list cmd) : list (nat * label) * proc Wd :=
  default ([], cstart w) (cexecs (cstart w) cmds).
Definition runs (w : Wd) (cmds : list cmd) : bool :=
  if cexecs (cstart w) cmds is Some _ then true else false.

Lemma outcome_runs w cmds :
  runs w cmds = true → cexecs (cstart w) cmds = Some ((outcome w cmds).1, (outcome w cmds).2).
Proof. unfold runs, outcome. by destruct (cexecs _ _) as [[ls p]|]. Qed.

End outcomes.

(** A first poll that fails, one that succeeds, a query. *)
Definition served : list cmd :=
  [setup0 0; DoStartup 0; DoPoll 0; DoWrite 0; DoSelect 0 true; DoPoll 0] ++ report 0 ++
  [DoQuery 0 agent_ctx plain_writer asked1].

(** A reload during a poll of the earlier instance, which reports after the new one has
    reset the gauges; then the server goes away. *)
Definition overlapping : list cmd :=
  [setup0 1; DoStartup 0; DoPoll 0; setup0 0; DoStartup 1] ++ report 0 ++
  [DoShutdown 0; DoSelect 0 false; DoPoll 1; DoWrite 1].

(** It comes back. *)
Definition back : list cmd := [DoSelect 1 true; DoWorld 1 1; DoPoll 1] ++ report 1.

Definition inst_at (p : proc unit) (i : nat) : running :=
  default (new_running setup1.1 None 0) (cp_insts p !! i).

Lemma overlapping_returned j rj :
  j ≠ 1%nat → cp_insts (outcome tt overlapping).2 !! j = Some rj → cr_pc rj = PollerReturned.
Proof.
  intros Hne Hj. assert (Hpcs : cr_pc <$> cp_insts (outcome tt overlapping).2 = [PollerReturned; Reporting []])
    by by vm_compute.
  apply (list_lookup_fmap_Some_2 cr_pc) in Hj. rewrite Hpcs in Hj. clear Hpcs. destruct j as [|[|j]]; [|done|done].
  by injection Hj as <-.
Qed.

(** One instance has its snapshot; another has polled and is about to report. *)
Definition polled : list cmd := [setup0 1; DoStartup 0; DoPoll 0].

Definition setup_in (c : lines) (p : proc unit) :=
  Central_setup (Handler := unit) order1 "https" c (cp_gauges p) (cp_dial p).

Lemma dial_fails p :
  match setup_in no_workload_api p with Some (Err (SetupDial _), _, _, _) => true | _ => false end = true →
  ∃ e warned g wd, setup_in no_workload_api p = Some (Err (SetupDial e), warned, g, wd).
Proof. destruct (setup_in _ p) as [[[[[|[]] ?] ?] ?]|]; try done. by eexists _, _, _, _. Qed.

Lemma setup_succeeds p :
  match setup_in corefile1 p with Some (Ok _, _, _, _) => true | _ => false end = true →
  ∃ inst warned g wd, setup_in corefile1 p = Some (Ok inst, warned, g, wd).
Proof. destruct (setup_in _ p) as [[[[[|] ?] ?] ?]|]; try done. by eexists _, _, _, _. Qed.

Lemma registry_ready_lies_witness :
  (∃ p1, cexec (outcome tt (polled ++ report 0)).2 setup_fails = Some ([], p1) ∧
     Ready (cr_store (inst_at p1 0)) = true ∧ registryReady (cp_gauges p1) = 0) ∧
  (∃ p2 rk, cexecs (outcome tt polled).2 (setup0 0 :: report 0) = Some ([], p2) ∧
     registryReady (cp_gauges p2) = 1 ∧ cp_insts p2 !! 1%nat = Some rk ∧ Ready (cr_store rk) = false).
Proof.
  split.
  - assert (Hr : Ready (cr_store (inst_at (outcome tt (polled ++ report 0)).2 0)) = true) by by vm_compute.
    assert (Hrun : runs tt (polled ++ report 0) = true) by by vm_compute. apply outcome_runs in Hrun.
    destruct (dial_fails (outcome tt (polled ++ report 0)).2) as (e & warned & g & wd & Hs); [by vm_compute|].
    destruct (registry_ready_lies tt _ _ _ order1 "https" no_workload_api None 1 Hrun) as [Hdown _].
    destruct (Hdown e warned g wd Hs) as (p1 & Hc & Hins & Hz). clear Hdown Hrun Hs.
    exists p1. split; [exact Hc|]. unfold inst_at in *. rewrite Hins. split; [exact Hr|].
    apply (Hz [] [] p1); [constructor|reflexivity].
  - assert (Hrun : runs tt polled = true) by by vm_compute. apply outcome_runs in Hrun.
    destruct (setup_succeeds (outcome tt polled).2) as (inst & warned & g & wd & Hs); [by vm_compute|].
    destruct (registry_ready_lies tt _ _ _ order1 "https" corefile1 None 0 Hrun) as [_ Hup].
    assert (Hi : cp_insts (outcome tt polled).2 !! 0%nat = Some (inst_at (outcome tt polled).2 0)) by by vm_compute.
    assert (Hk : length (cp_insts (outcome tt polled).2) = 1%nat) by by vm_compute.
    assert (Hp : pending (inst_at (outcome tt polled).2 0) =
      snapshot_writes (BuildSnapshot entries1).2 ++ error_writes 0) by by vm_compute.
    specialize (Hup 0%nat _ inst warned g wd Hs Hi). rewrite Hk, Hp in Hup.
    destruct Hup as (p2 & Hc & Hone); [right; right; left|]. clear Hrun Hs Hi Hk Hp.
    destruct (Hone [] [] p2) as [Hg (rk & Hk & Hrk)]; [constructor|reflexivity|reflexivity|].
    exists p2, rk. split; [exact Hc|]. split; [exact Hg|]. split; [exact Hk|exact Hrk].
Defined.

Lemma process_refines_witness :
  cp_insts (outcome tt served).2 !! 0%nat = Some (inst_at (outcome tt served).2 0) ∧
  ∃ c cfg zones dir, Central_parseConfig (C := lines) c = Some (Ok (cfg, zones)) ∧
    built cfg None (cr_inst (inst_at (outcome tt served).2 0)) ∧
    run (spec_step cfg None) None (labels_of 0 (outcome tt served).1) dir.
Proof.
  assert (Hi : cp_insts (outcome tt served).2 !! 0%nat = Some (inst_at (outcome tt served).2 0)) by by vm_compute.
  split; [exact Hi|]. assert (Hn : cr_next (inst_at (outcome tt served).2 0) = None) by by vm_compute.
  rewrite <-Hn. refine (proj1 (process_refines tt served _ _ 0 _ _ Hi)). apply outcome_runs. by vm_compute.
Defined.

(** From the state in which the gauge lies. *)
Lemma gauges_settle_witness :
  registryReady (cp_gauges (outcome tt overlapping).2) = 1 ∧
  cp_gauges (outcome tt (overlapping ++ back)).2 =
    gauges_of entries1 (inst_at (outcome tt (overlapping ++ back)).2 1).
Proof.
  split; [by vm_compute|].
  refine (proj1 (gauges_settle 1 (outcome tt overlapping).2 back
    (default ([], cstart tt) (cexecs (outcome tt overlapping).2 back)).1 _
    (inst_at (outcome tt (overlapping ++ back)).2 1) entries1 _ _ _ _ _ _)).
  - exact overlapping_returned.
  - by repeat constructor.
  - by vm_compute.
  - by vm_compute.
  - by vm_compute.
  - by vm_compute.
Defined.

(** Two instances, one of them shut down, over tracked connections. *)
Lemma process_releases_witness :
  (cp_dial (outcome (GrpcOps0 := tracked) (tt, (0, 0)) overlapping).2).2 =
    (zsum held_sources (cp_insts (outcome (GrpcOps0 := tracked) (tt, (0, 0)) overlapping).2),
     zsum held_conns (cp_insts (outcome (GrpcOps0 := tracked) (tt, (0, 0)) overlapping).2)) ∧
  (cp_dial (outcome (GrpcOps0 := tracked) (tt, (0, 0)) overlapping).2).2 = (1, 1).
Proof.
  split; [|by vm_compute].
  apply (process_releases tt overlapping (outcome (GrpcOps0 := tracked) (tt, (0, 0)) overlapping).1).
  apply (outcome_runs (GrpcOps0 := tracked)). by vm_compute.
Defined.
End CentralProcessWitnesses.
