(* ===== verification/AgentSetup.v ===== *)
(** * plugin/zonedns_agent/setup.go: the agent's configuration and wiring

    [Agent_parseConfig] reads the Corefile block and the NODE_IP variable,
    [Agent_setup] builds the agent and decides on every failure what to release.
    (The readiness gauge's lifecycle is in ReadyGauge.v.) *)

From S2P Require Import Prelude GoStd GoUrl NetIP DnsLib EdnsZone Identity PodZone ZoneCache.
From S2P Require Import Agent Directives DohUpstream Corefile CentralSetup.
Import Strings Strconv.

Open Scope Z_scope.

Inductive mode := modeUnset | modeK8s | modeVM.

#[global] Instance mode_eq_dec : EqDecision mode.
Proof. solve_decision. Defined.

Definition defaultCacheSize : Z := 4096.

Record agent_config := {
  a_mode : mode;
  a_zone : string;
  a_nodeName : string;
  a_zoneLabel : string;
  a_upstreamURL : string;
  a_centralSPIFFEID : string;
  a_workloadAPI : string;
  a_cacheSize : Z;
  a_edns0Code : Z;
  a_nodeIP : Addr;
}.

Inductive agent_error :=
  | A_ArgErr
  | A_NodeIPEnv (v : string)
  | A_UnknownMode (v : string)
  | A_InvalidCacheSize (v : string) (e : num_error)
  | A_CacheSizeNotPositive (n : Z)
  | A_InvalidNodeIP (v : string)
  | A_InvalidCode (v : string) (e : num_error)
  | A_CodeOutOfRange (code : Z)
  | A_UnknownProperty (name : string)
  | A_ModeRequired
  | A_UpstreamRequired
  | A_InvalidUpstream (v : string) (e : url_error)
  | A_UpstreamNotHTTPS (v scheme : string)
  | A_UpstreamPath (v path : string)
  | A_CentralIDRequired
  | A_WorkloadAPIRequired
  | A_ZoneRequired
  | A_InvalidZone (zone : string)
  | A_NodeNameInVM
  | A_NodeNameRequired
  | A_ZoneInK8s.

(** The field a property assigns, the others kept. *)
Definition set_mode (c : agent_config) (v : mode) : agent_config :=
  {| a_mode := v; a_zone := a_zone c; a_nodeName := a_nodeName c; a_zoneLabel := a_zoneLabel c;
     a_upstreamURL := a_upstreamURL c; a_centralSPIFFEID := a_centralSPIFFEID c;
     a_workloadAPI := a_workloadAPI c; a_cacheSize := a_cacheSize c; a_edns0Code := a_edns0Code c;
     a_nodeIP := a_nodeIP c |}.
Definition set_numbers (c : agent_config) (size code : Z) (ip : Addr) : agent_config :=
  {| a_mode := a_mode c; a_zone := a_zone c; a_nodeName := a_nodeName c; a_zoneLabel := a_zoneLabel c;
     a_upstreamURL := a_upstreamURL c; a_centralSPIFFEID := a_centralSPIFFEID c;
     a_workloadAPI := a_workloadAPI c; a_cacheSize := size; a_edns0Code := code; a_nodeIP := ip |}.
Definition set_texts (c : agent_config) (zone node label url id api : string) : agent_config :=
  {| a_mode := a_mode c; a_zone := zone; a_nodeName := node; a_zoneLabel := label;
     a_upstreamURL := url; a_centralSPIFFEID := id; a_workloadAPI := api;
     a_cacheSize := a_cacheSize c; a_edns0Code := a_edns0Code c; a_nodeIP := a_nodeIP c |}.

Section parse.
Context {C : Type} `{Controller C, Unicode, UrlLib}.

Definition parse_mode (cfg : agent_config) (v : string) : result agent_error agent_config :=
  if bool_decide (v = "k8s") then Ok (set_mode cfg modeK8s)
  else if bool_decide (v = "vm") then Ok (set_mode cfg modeVM)
  else Err (A_UnknownMode v).

Definition parse_cache_size (cfg : agent_config) (v : string) : result agent_error agent_config :=
  match Atoi v with
  | Err e => Err (A_InvalidCacheSize v e)
  | Ok n => if n <=? 0 then Err (A_CacheSizeNotPositive n)
            else Ok (set_numbers cfg n (a_edns0Code cfg) (a_nodeIP cfg))
  end.

Definition parse_node_ip (cfg : agent_config) (v : string) : result agent_error agent_config :=
  match ParseAddr v with
  | None => Err (A_InvalidNodeIP v)
  | Some a => Ok (set_numbers cfg (a_cacheSize cfg) (a_edns0Code cfg) a)
  end.

Definition agent_property (cfg : agent_config) (c : C) : result agent_error (agent_config * C) :=
  let name := c_Val c in
  let '(zn, nn, zl, ur, id, wa) := (a_zone cfg, a_nodeName cfg, a_zoneLabel cfg, a_upstreamURL cfg,
    a_centralSPIFFEID cfg, a_workloadAPI cfg) in
  if bool_decide (name = "mode") then with_arg A_ArgErr (parse_mode cfg) c
  else if bool_decide (name = "zone") then with_arg A_ArgErr (fun v => Ok (set_texts cfg v nn zl ur id wa)) c
  else if bool_decide (name = "node_name") then with_arg A_ArgErr (fun v => Ok (set_texts cfg zn v zl ur id wa)) c
  else if bool_decide (name = "zone_label") then with_arg A_ArgErr (fun v => Ok (set_texts cfg zn nn v ur id wa)) c
  else if bool_decide (name = "upstream") then with_arg A_ArgErr (fun v => Ok (set_texts cfg zn nn zl v id wa)) c
  else if bool_decide (name = "central_spiffe_id") then
    with_arg A_ArgErr (fun v => Ok (set_texts cfg zn nn zl ur v wa)) c
  else if bool_decide (name = "workload_api") then
    with_arg A_ArgErr (fun v => Ok (set_texts cfg zn nn zl ur id v)) c
  else if bool_decide (name = "cache_size") then with_arg A_ArgErr (parse_cache_size cfg) c
  else if bool_decide (name = "node_ip") then with_arg A_ArgErr (parse_node_ip cfg) c
  else if bool_decide (name = "edns0_code") then
    with_arg A_ArgErr (fun v =>
      code ← parse_code A_InvalidCode A_CodeOutOfRange v;
      Ok (set_numbers cfg (a_cacheSize cfg) code (a_nodeIP cfg))) c
  else Err (A_UnknownProperty name).

Definition agent_defaults (nodeIP : Addr) : agent_config := {|
  a_mode := modeUnset; a_zone := ""; a_nodeName := ""; a_zoneLabel := "zone"; a_upstreamURL := "";
  a_centralSPIFFEID := ""; a_workloadAPI := ""; a_cacheSize := defaultCacheSize;
  a_edns0Code := DefaultCode; a_nodeIP := nodeIP |}.

(** The checks after the loops. *)
Definition agent_check (cfg : agent_config) : result agent_error agent_config :=
  if bool_decide (a_mode cfg = modeUnset) then Err A_ModeRequired
  else if bool_decide (a_upstreamURL cfg = "") then Err A_UpstreamRequired
  else
    match Parse (a_upstreamURL cfg) with
    | Err e => Err (A_InvalidUpstream (a_upstreamURL cfg) e)
    | Ok u =>
        if negb (bool_decide (Scheme u = "https"))
        then Err (A_UpstreamNotHTTPS (a_upstreamURL cfg) (Scheme u))
        else if negb (bool_decide (TrimSuffix (Path u) "/" = ""))
        then Err (A_UpstreamPath (a_upstreamURL cfg) (Path u))
        else if bool_decide (a_centralSPIFFEID cfg = "") then Err A_CentralIDRequired
        else if bool_decide (a_workloadAPI cfg = "") then Err A_WorkloadAPIRequired
        else
          match a_mode cfg with
          | modeVM =>
              if bool_decide (a_zone cfg = "") then Err A_ZoneRequired
              else if negb (Valid (a_zone cfg)) then Err (A_InvalidZone (a_zone cfg))
              else if negb (bool_decide (a_nodeName cfg = "")) then Err A_NodeNameInVM
              else Ok cfg
          | modeK8s =>
              if bool_decide (a_nodeName cfg = "") then Err A_NodeNameRequired
              else if negb (bool_decide (a_zone cfg = "")) then Err A_ZoneInK8s
              else Ok cfg
          | modeUnset => Ok cfg
          end
    end.

(** [envNodeIP] is [os.Getenv("NODE_IP")]. *)
Definition Agent_parseConfig (envNodeIP : string) (c : C) : option (result agent_error agent_config) :=
  let env := if negb (bool_decide (envNodeIP = ""))
             then match ParseAddr envNodeIP with
                  | None => Err (A_NodeIPEnv envNodeIP)
                  | Some a => Ok a
                  end
             else Ok AddrZero in
  match env with
  | Err e => Some (Err e)
  | Ok nodeIP =>
      match parse_loops agent_property (agent_defaults nodeIP) c with
      | None => None
      | Some (Err e) => Some (Err e)
      | Some (Ok cfg) => Some (agent_check cfg)
      end
  end.
End parse.

(** ** setup *)
Inductive agent_setup_error :=
  | ASetupOrder (e : order_error)
  | ASetupParse (e : agent_error)
  | ASetupCache (e : new_error)
  | ASetupUpstream (e : mtls_error)
  | ASetupInCluster (e : string)
  | ASetupClient (e : string).

(** What [setup] acquires, releases and registers, in order. *)
Inductive setup_effect :=
  | WithCancel        (** ctx, cancel := context.WithCancel *)
  | OpenUpstream      (** newUpstream succeeded *)
  | CancelCtx         (** cancel() *)
  | CleanupUpstream   (** cleanup() *)
  | WireReady         (** wireResolverReadyLifecycle(ctx) *)
  | RegisterStartup   (** c.OnStartup: Run and the readiness guard *)
  | RegisterShutdown  (** c.OnShutdown: cancel and cleanup *)
  | AddPlugin.

#[global] Instance setup_effect_eq_dec : EqDecision setup_effect.
Proof. solve_decision. Defined.

(** client-go's in-cluster configuration and client. *)
Class InClusterOps (RestConfig Client : Type) := {
  rest_InClusterConfig : result string RestConfig;
  rest_NewForConfig : RestConfig → result string Client;
}.

Section setup.
Context {C ID Source Tls W RestConfig KubeClient : Type}.
Context `{Controller C, Unicode, UrlLib, LruOps key entry, SpiffeOps ID Source Tls W}.
Context `{!InClusterOps RestConfig KubeClient}.

(** The plugin's handler: [Agent] with its resolver, cache and upstream. *)
Record agent_instance := {
  ai_resolver : option (StaticResolver + Watcher);   (** [None] is the nil interface *)
  ai_cache : Cache;
  ai_upstream : Client Tls;
  ai_source : Source;   (** what [cleanup] closes *)
  ai_code : Z;
  ai_nodeIP : Addr;
}.

Definition doh_config (cfg : agent_config) : DohConfig := {|
  cfg_URL := a_upstreamURL cfg; cfg_WorkloadAPIAddr := a_workloadAPI cfg;
  cfg_CentralSPIFFEID := a_centralSPIFFEID cfg; cfg_DialTimeout := 0; cfg_Timeout := 0 |}.

(** [cleanup], the function [NewMTLS] returns. *)
Definition cleanup (source : Source) (w : W) : W := X509Source_Close source w.

(** The switch on the mode: the resolver and its registrations, or an error. *)
Definition build_resolver (cfg : agent_config) (source : Source) (w : W)
    : result agent_setup_error (option (StaticResolver + Watcher)) * list setup_effect * W :=
  match a_mode cfg with
  | modeK8s =>
      match rest_InClusterConfig with
      | Err e => (Err (ASetupInCluster e), [CancelCtx; CleanupUpstream], cleanup source w)
      | Ok restCfg =>
          match rest_NewForConfig restCfg with
          | Err e => (Err (ASetupClient e), [CancelCtx; CleanupUpstream], cleanup source w)
          | Ok _ => (Ok (Some (inr (NewWatcher (a_nodeName cfg) (a_zoneLabel cfg)))), [RegisterStartup], w)
          end
      end
  | modeVM => (Ok (Some (inl (NewStaticResolver (a_zone cfg)))), [WireReady], w)
  | modeUnset => (Ok None, [], w)
  end.

Definition Agent_setup (directives : list string) (env : string) (c : C) (w : W)
    : option (result agent_setup_error agent_instance * list setup_effect * W) :=
  match Agent_CheckDirectiveOrder directives with
  | Err e => Some (Err (ASetupOrder e), [], w)
  | Ok _ =>
      match Agent_parseConfig env c with
      | None => None
      | Some (Err e) => Some (Err (ASetupParse e), [], w)
      | Some (Ok cfg) =>
          match NewCache (a_cacheSize cfg) with
          | Err e => Some (Err (ASetupCache e), [], w)
          | Ok cache =>
              match NewMTLS (doh_config cfg) w with
              | (Err e, w) => Some (Err (ASetupUpstream e), [WithCancel; CancelCtx], w)
              | (Ok (up, source), w) =>
                  match build_resolver cfg source w with
                  | (Err e, effects, w) => Some (Err e, [WithCancel; OpenUpstream] ++ effects, w)
                  | (Ok resolver, effects, w) =>
                      Some (Ok {| ai_resolver := resolver; ai_cache := cache; ai_upstream := up;
                                  ai_source := source;
                                  ai_code := a_edns0Code cfg; ai_nodeIP := a_nodeIP cfg |},
                            [WithCancel; OpenUpstream] ++ effects ++ [RegisterShutdown; AddPlugin], w)
                  end
              end
          end
      end
  end.

(** The hook [setup] registers with [OnShutdown], less the cancellation of the context. *)
Definition Agent_OnShutdown (inst : agent_instance) (w : W) : W := cleanup (ai_source inst) w.

(** ** What the parser guarantees *)
Record agent_config_ok (cfg : agent_config) : Prop := {
  aok_size : 0 < a_cacheSize cfg;
  aok_code : 65001 ≤ a_edns0Code cfg ≤ 65534;
  aok_nodeIP : a_nodeIP cfg = AddrZero ∨ Addr_wf (a_nodeIP cfg);
}.

Lemma agent_defaults_ok ip : ip = AddrZero ∨ Addr_wf ip → agent_config_ok (agent_defaults ip).
Proof. intros Hip. split; cbn; [unfold defaultCacheSize|unfold DefaultCode|done]; lia. Qed.

Ltac split_property Hp :=
  repeat match type of Hp with
  | (if bool_decide ?P then _ else _) = _ => destruct (bool_decide P)
  end.

Lemma agent_property_ok cfg c cfg' c' :
  agent_config_ok cfg → agent_property cfg c = Ok (cfg', c') → agent_config_ok cfg'.
Proof.
  intros [Hs Hc Hip] Hp. unfold agent_property in Hp. split_property Hp; try done.
  all: apply with_arg_Ok in Hp as [_ Hp]; cbn in Hp; try (injection Hp as <-; by split).
  - unfold parse_mode in Hp. split_property Hp; try done; injection Hp as <-; by split.
  - unfold parse_cache_size in Hp. destruct (Atoi _) as [n|]; [|done].
    destruct (Z.leb_spec n 0); [done|]. injection Hp as <-. by split.
  - unfold parse_node_ip in Hp. destruct (ParseAddr _) as [a|] eqn:Ha; [|done].
    injection Hp as <-. split; cbn; try done. right. by eapply ParseAddr_wf.
  - apply bind_Ok in Hp as (code & Hcode%parse_code_Ok & [= <-]). by split.
Qed.

Lemma agent_property_left closed `{!ControllerLaws C closed} cfg c cfg' c' :
  closed c → agent_property cfg c = Ok (cfg', c') → advances closed c c'.
Proof.
  intros Hc Hp. unfold agent_property in Hp. split_property Hp; try done.
  all: apply with_arg_Ok in Hp as [Hn _]; pose proof (NextArg_left c Hc) as Hl; by rewrite Hn in Hl.
Qed.

Lemma Agent_parseConfig_ok env c cfg :
  Agent_parseConfig env c = Some (Ok cfg) → agent_config_ok cfg ∧ agent_check cfg = Ok cfg.
Proof.
  unfold Agent_parseConfig.
  destruct (if negb _ then _ else _) as [ip|] eqn:Henv; [|done].
  assert (Hip : ip = AddrZero ∨ Addr_wf ip).
  { destruct (negb _); [|left; congruence]. destruct (ParseAddr env) as [a|] eqn:Ha; [|done].
    injection Henv as <-. right. by eapply ParseAddr_wf. }
  destruct (parse_loops _ _ c) as [[cfg0|]|] eqn:Hl; [|done|done]. intros [= Hck].
  apply (parse_loops_P agent_property agent_config_ok) in Hl;
    [|intros; by eapply agent_property_ok|by apply agent_defaults_ok].
  assert (cfg = cfg0) as ->; [|done].
  unfold agent_check in Hck. repeat (case_match; simplify_eq/=; try done).
Qed.

(** What passing the checks means. *)
Lemma agent_check_Ok cfg :
  agent_check cfg = Ok cfg →
  (∃ u, Parse (a_upstreamURL cfg) = Ok u ∧ Scheme u = "https" ∧ (Path u = "" ∨ Path u = "/")) ∧
  a_centralSPIFFEID cfg ≠ "" ∧ a_workloadAPI cfg ≠ "" ∧
  ((a_mode cfg = modeVM ∧ Valid (a_zone cfg) = true) ∨
   (a_mode cfg = modeK8s ∧ a_nodeName cfg ≠ "" ∧ a_zone cfg = "")).
Proof.
  unfold agent_check. case_bool_decide as Hm; [done|]. case_bool_decide as Hu; [done|].
  destruct (Parse _) as [u|]; [|done].
  case_bool_decide as Hsch; cbn [negb]; [|done]. case_bool_decide as Hpath; cbn [negb]; [|done].
  case_bool_decide as Hid; [done|]. case_bool_decide as Hapi; [done|]. intros Hmode.
  split; [|split; [done|split; [done|]]].
  - exists u. split_and!; [done..|]. unfold TrimSuffix in Hpath.
    destruct (HasSuffix (Path u) "/") eqn:Hs; [|by left].
    apply HasSuffix_spec in Hs as [r Hr]. right. rewrite Hr in *.
    assert (r = "") as ->; [|done]. rewrite length_app_string in Hpath.
    replace (String.length r + String.length "/" - String.length "/")%nat with (String.length r) in Hpath
      by (cbn; lia). by rewrite slice_to_app in Hpath.
  - destruct (a_mode cfg); [done| |].
    + right. case_bool_decide; [done|]. case_bool_decide; [|done]. done.
    + left. case_bool_decide; [done|]. destruct (Valid (a_zone cfg)); done.
Qed.
End setup.
Arguments agent_instance Source Tls {_}.


(** ** Theorems *)
Section theorems.
Context {C ID Source Tls W RestConfig KubeClient : Type}.
Context `{Controller C, Unicode, UrlLib, LruOps key entry, SpiffeOps ID Source Tls W}.
Context `{!InClusterOps RestConfig KubeClient}.

(** The client the agent forwards to: central's URL, the pinned ID, a timeout. *)
Lemma NewMTLS_doh_config cfg w up source w' :
  NewMTLS (doh_config cfg) w = (Ok (up, source), w') →
  ∃ id, FromString (Tls := Tls) (Source := Source) (W := W) (a_centralSPIFFEID cfg) = Ok id ∧
    c_url up = a_upstreamURL cfg ∧ hc_TLS (c_hc up) = MTLSClientConfig source id ∧
    hc_Timeout (c_hc up) = defaultQueryTimeout.
Proof.
  unfold NewMTLS, doh_config; cbn. case_bool_decide; [done|].
  destruct (FromString _) as [id|]; [|done].
  destruct (NewX509Source _ _ _) as [[src|] w1]; [|done]. intros [= <- <- <-]. by exists id.
Qed.

(** The resolver a mode gets. *)
Definition resolver_fits (cfg : agent_config) (r : option (StaticResolver + Watcher)) : Prop :=
  match a_mode cfg with
  | modeVM => r = Some (inl (NewStaticResolver (a_zone cfg))) ∧ Valid (a_zone cfg) = true
  | modeK8s => r = Some (inr (NewWatcher (a_nodeName cfg) (a_zoneLabel cfg)))
  | modeUnset => False
  end.

Lemma build_resolver_fits cfg source w r effects w' :
  agent_check cfg = Ok cfg → build_resolver cfg source w = (Ok r, effects, w') → resolver_fits cfg r.
Proof.
  intros (_ & _ & _ & Hmode)%agent_check_Ok. unfold build_resolver, resolver_fits.
  destruct Hmode as [[-> Hv]|(-> & _ & _)].
  - by intros [= <- <-].
  - destruct rest_InClusterConfig as [rc|]; [|done].
    destruct (rest_NewForConfig rc); [|done]. by intros [= <- <-].
Qed.

(** What [setup] builds, in terms of the configuration. *)
Lemma Agent_setup_built directives env c w inst effects w' :
  Agent_setup (Tls := Tls) directives env c w = Some (Ok inst, effects, w') →
  ∃ cfg, Agent_parseConfig env c = Some (Ok cfg) ∧ agent_config_ok cfg ∧ agent_check cfg = Ok cfg ∧
    NewCache (a_cacheSize cfg) = Ok (ai_cache inst) ∧ ai_code inst = a_edns0Code cfg ∧
    ai_nodeIP inst = a_nodeIP cfg ∧ resolver_fits cfg (ai_resolver inst) ∧
    ∃ w0, NewMTLS (doh_config cfg) w = (Ok (ai_upstream inst, ai_source inst), w0).
Proof.
  unfold Agent_setup. destruct (Agent_CheckDirectiveOrder directives) as [[]|]; [|done].
  destruct (Agent_parseConfig env c) as [[cfg|]|] eqn:Hp; try done.
  destruct (Agent_parseConfig_ok _ _ _ Hp) as [Hok Hck].
  destruct (NewCache (a_cacheSize cfg)) as [cache|] eqn:Hn; [|done].
  destruct (NewMTLS (doh_config cfg) w) as [[[up source]|] w1] eqn:Hm; [|done].
  destruct (build_resolver cfg source w1) as [[[r|] eff] w2] eqn:Hr; [|done]. intros [= <- <- <-]. cbn.
  exists cfg. split_and!; try done; [by eapply build_resolver_fits|]. by exists w1.
Qed.

(** C39: an agent that starts is safely configured: its directive precedes [cache],
    its cache has a positive bound, the option code is in the local range, NODE_IP
    is unset or an address, the upstream is an https URL without a path, whose
    server must present exactly the configured SPIFFE ID within a timeout, and the
    resolver is the one of its mode: in vm mode a zone the wire format carries, in
    k8s mode a watcher that has not read any pod. *)
Theorem Agent_setup_safe directives env c w inst effects w' :
  NoDup directives →
  Agent_setup (Tls := Tls) directives env c w = Some (Ok inst, effects, w') →
  ordered_before_cache "zonedns_agent" directives ∧
  65001 ≤ ai_code inst ≤ 65534 ∧
  (ai_nodeIP inst = AddrZero ∨ Addr_wf (ai_nodeIP inst)) ∧
  ∃ cfg, Agent_parseConfig env c = Some (Ok cfg) ∧
    0 < a_cacheSize cfg ∧ NewCache (a_cacheSize cfg) = Ok (ai_cache inst) ∧
    (∃ u, Parse (c_url (ai_upstream inst)) = Ok u ∧ Scheme u = "https" ∧
      (Path u = "" ∨ Path u = "/")) ∧
    a_centralSPIFFEID cfg ≠ "" ∧
    (∃ id, FromString (Tls := Tls) (Source := Source) (W := W) (a_centralSPIFFEID cfg) = Ok id ∧
      hc_TLS (c_hc (ai_upstream inst)) = MTLSClientConfig (ai_source inst) id) ∧
    hc_Timeout (c_hc (ai_upstream inst)) = defaultQueryTimeout ∧
    resolver_fits cfg (ai_resolver inst).
Proof.
  intros Hnd Hs.
  assert (ordered_before_cache "zonedns_agent" directives) as Ho.
  { unfold Agent_setup in Hs. destruct (Agent_CheckDirectiveOrder directives) as [[]|] eqn:Ho; [|done].
    by apply check_order_spec in Ho. }
  destruct (Agent_setup_built _ _ _ _ _ _ _ Hs)
    as (cfg & Hp & [Hsz Hc Hip] & Hck & Hn & -> & -> & Hfit & w0 & Hm).
  apply NewMTLS_doh_config in Hm as (id & Hid & Hurl & Htls & Ht).
  apply agent_check_Ok in Hck as (Hu & Hcid & _).
  split_and!; try done; [lia..|]. exists cfg. rewrite Hurl. split_and!; try done.
  by exists id.
Qed.

(** The same operations, counting the certificate sources that are open. *)
Definition source_counting : SpiffeOps ID Source Tls (W * Z) := {|
  FromString := FromString (Source := Source) (Tls := Tls) (W := W);
  NewX509Source addr timeout '(w, n) :=
    let '(r, w) := NewX509Source addr timeout w in (r, (w, match r with Ok _ => n + 1 | Err _ => n end));
  MTLSClientConfig := MTLSClientConfig (W := W);
  X509Source_Close source '(w, n) := (X509Source_Close source w, n - 1);
|}.

(** A set-up that fails has closed its source, one that succeeds holds one. *)
Lemma Agent_setup_sources directives env c w n r effects w' n' :
  Agent_setup (H3 := source_counting) directives env c (w, n) = Some (r, effects, (w', n')) →
  n' = match r with Ok _ => n + 1 | Err _ => n end.
Proof.
  unfold Agent_setup. destruct (Agent_CheckDirectiveOrder directives) as [[]|]; [|by intros [= <- _ _ <-]].
  destruct (Agent_parseConfig env c) as [[cfg|]|]; [|by intros [= <- _ _ <-]|done].
  destruct (NewCache _) as [cache|]; [|by intros [= <- _ _ <-]].
  unfold NewMTLS; cbn. case_bool_decide; [by intros [= <- _ _ <-]|].
  destruct (FromString _) as [id|]; [|by intros [= <- _ _ <-]].
  destruct (NewX509Source _ _ w) as [[source|] w1]; [|by intros [= <- _ _ <-]].
  unfold build_resolver, cleanup; cbn. destruct (a_mode cfg); [by intros [= <- _ _ <-]| |by intros [= <- _ _ <-]].
  destruct rest_InClusterConfig as [rc|]; [|by intros [= <- _ _ <-]; rewrite Z.add_simpl_r].
  destruct (rest_NewForConfig rc); by intros [= <- _ _ <-]; rewrite ?Z.add_simpl_r.
Qed.

(** How often an effect happened. *)
Definition times (e : setup_effect) (es : list setup_effect) : nat :=
  length (filter (eq e) es).

(** nothing acquired is leaked by a set-up that fails, and nothing is released
    under one that succeeds: after a failure the context and the upstream are
    released as often as they were acquired and neither the plugin nor a shutdown
    hook is registered; after a success the plugin and the shutdown hook that
    releases both are registered once, and the watcher's start exactly when there
    is one. *)
Theorem Agent_setup_releases directives env c w r effects w' :
  Agent_setup (Tls := Tls) directives env c w = Some (r, effects, w') →
  match r with
  | Err _ =>
      times CancelCtx effects = times WithCancel effects ∧
      times CleanupUpstream effects = times OpenUpstream effects ∧
      (RegisterStartup ∉ effects) ∧ (RegisterShutdown ∉ effects) ∧ (AddPlugin ∉ effects)
  | Ok inst =>
      times WithCancel effects = 1%nat ∧ times OpenUpstream effects = 1%nat ∧
      (CancelCtx ∉ effects) ∧ (CleanupUpstream ∉ effects) ∧
      times RegisterShutdown effects = 1%nat ∧ times AddPlugin effects = 1%nat ∧
      (RegisterStartup ∈ effects ↔ ∃ watcher, ai_resolver inst = Some (inr watcher))
  end.
Proof.
  unfold Agent_setup. destruct (Agent_CheckDirectiveOrder directives) as [[]|];
    [|by intros [= <- <- <-]; split_and!; try set_solver].
  destruct (Agent_parseConfig env c) as [[cfg|]|]; [|by intros [= <- <- <-]; split_and!; try set_solver|done].
  destruct (NewCache _) as [cache|]; [|by intros [= <- <- <-]; split_and!; try set_solver].
  destruct (NewMTLS _ w) as [[[up source]|] w1];
    [|by intros [= <- <- <-]; split_and!; try set_solver].
  unfold build_resolver. destruct (a_mode cfg).
  - intros [= <- <- <-]. split_and!; try done; set_solver.
  - destruct rest_InClusterConfig as [rc|]; [|by intros [= <- <- <-]; split_and!; try set_solver].
    destruct (rest_NewForConfig rc); [|by intros [= <- <- <-]; split_and!; try set_solver].
    intros [= <- <- <-]. split_and!; try done; set_solver.
  - intros [= <- <- <-]. split_and!; try done; set_solver.
Qed.

(** The fuel is enough: both parsers return on every Corefile whose blocks are closed and
    every NODE_IP, with a configuration or an error. *)
Lemma parsers_total closed `{!ControllerLaws C closed} env c :
  closed c → (∃ r, Central_parseConfig c = Some r) ∧ (∃ r, Agent_parseConfig env c = Some r).
Proof.
  intros Hc. split.
  - unfold Central_parseConfig.
    destruct (parse_loops_total central_property closed (central_property_left closed) default_config c Hc)
      as [[] ->]; by eexists.
  - unfold Agent_parseConfig. destruct (if negb _ then _ else _) as [ip|]; [|by eexists].
    destruct (parse_loops_total agent_property closed (agent_property_left closed) (agent_defaults ip) c Hc)
      as [[] ->]; by eexists.
Qed.
End theorems.

(** ** Witnesses *)
Module AgentSetupWitnesses.
Import CorefileReference UrlReference DnsLib.Reference LruReference DohUpstreamWitnesses.

(** Outside a cluster: client-go finds no service account. *)
#[export] Instance no_cluster : InClusterOps unit unit := {|
  rest_InClusterConfig := Err "unable to load in-cluster configuration";
  rest_NewForConfig _ := Ok tt;
|}.

Definition common (upstream : string) : list (list string) :=
  [["upstream"; upstream]; ["central_spiffe_id"; "spiffe://example.org/central"];
   ["workload_api"; "unix:///run/spire/agent.sock"]; ["cache_size"; "512"]].

Definition vm_corefile : lines :=
  block (["mode"; "vm"] :: ["zone"; "fab"] :: common "https://central").
Definition k8s_corefile : lines :=
  block (["mode"; "k8s"] :: ["node_name"; "n1"] :: common "https://central").

Lemma Agent_setup_safe_witness :
  ∃ inst effects w',
    Agent_setup ["zonedns_agent"; "cache"] "10.0.0.7" vm_corefile tt =
      Some (Ok inst, effects, w') ∧
    ∃ cfg, Agent_parseConfig "10.0.0.7" vm_corefile = Some (Ok cfg) ∧
      resolver_fits cfg (ai_resolver inst).
Proof.
  eexists _, _, _. split; [by vm_compute|].
  edestruct (Agent_setup_safe ["zonedns_agent"; "cache"] "10.0.0.7" vm_corefile tt)
    as (_ & _ & _ & cfg & Hp & _ & _ & _ & _ & _ & _ & Hfit).
  - apply (bool_decide_unpack (NoDup ["zonedns_agent"; "cache"])). by vm_compute.
  - by vm_compute.
  - exists cfg. split; [exact Hp|exact Hfit].
Defined.

(** In k8s mode outside a cluster: the upstream was opened and is released. *)
Lemma Agent_setup_releases_witness :
  ∃ e effects w',
    Agent_setup ["zonedns_agent"; "cache"] "" k8s_corefile tt =
      Some (Err e, effects, w') ∧
    times OpenUpstream effects = 1%nat ∧ times CleanupUpstream effects = 1%nat.
Proof.
  eexists _, _, _. split; [by vm_compute|]. split; [by vm_compute|].
  edestruct (Agent_setup_releases ["zonedns_agent"; "cache"] "" k8s_corefile tt
    (Err (ASetupInCluster "unable to load in-cluster configuration"))) as (_ & Hr & _);
    [by vm_compute|exact Hr].
Defined.

Lemma parsers_total_witness :
  (∃ r, Central_parseConfig k8s_corefile = Some r) ∧ (∃ r, Agent_parseConfig "" k8s_corefile = Some r).
Proof. exact (parsers_total (fun _ => True) "" k8s_corefile I). Defined.

(** A trailing slash is accepted, and "https://central/" + "/dns-query" is what the
    DoH client then requests. *)
Lemma trailing_slash_accepted :
  ∃ cfg, Agent_parseConfig "" (block (["mode"; "vm"] :: ["zone"; "fab"] :: common "https://central/"))
    = Some (Ok cfg) ∧ a_upstreamURL cfg = "https://central/".
Proof. eexists. split; by vm_compute. Qed.
End AgentSetupWitnesses.
