(* ===== verification/AgentSystem.v ===== *)
(** * The agent as a whole: the instances of one process

    CoreDNS keeps one process across reloads: each [setup] that succeeds adds an
    instance with its own cache, upstream, resolver and, in k8s mode, watcher; the
    variables of the resolver_ready gauge are shared. The steps of the process are
    those of all its goroutines: set-up, the start-up and shutdown hooks, the
    watchers' [Run] with what their informers deliver, the goroutines that clear the
    gauge, and the queries. [process_isolation] and [process_gauge] put the parts'
    theorems together. *)

From S2P Require Import Prelude GoStd GoUrl NetIP DnsLib EdnsZone Identity PodZone PodWatch ZoneCache.
From S2P Require Import Agent AgentConcurrent Directives ReadyGauge DohUpstream Corefile AgentSetup.
Import Strings.

Open Scope Z_scope.

(** The resolver an instance holds, as an interface value. *)
#[export] Instance sum_resolver : ZoneResolver (StaticResolver + Watcher) := {|
  Zone r ip := match r with inl s => Zone s ip | inr w => Zone w ip end;
|}.

#[local] Abbreviation resolver := (StaticResolver + Watcher)%type.
#[local] Abbreviation gaction := ReadyGauge.action.

Section process.
Context {C ID Source Tls Wd RestConfig KubeClient Request Response W : Type}.
Context `{Controller C, Unicode, UrlLib, !LruOps key entry, !SpiffeOps ID Source Tls Wd}.
Context `{!InClusterOps RestConfig KubeClient, !DnsOps, !RequestOps, !HttpOps Tls Request Response W}.

#[local] Abbreviation world := (AgentConcurrent.world (R := resolver) (W := W)).
#[local] Abbreviation wstep c := (AgentConcurrent.step (R := resolver) (H4 := client_upstream c)).

(** An instance. [ru_run] is the watcher's goroutine, in k8s mode; [ru_log], what it
    has seen so far, [ru_up0], the upstream's state at set-up, and [ru_cfg], what was
    configured, are read by no step. *)
Record running := {
  ru_cfg : agent_config;
  ru_client : Client Tls;
  ru_source : Source;
  ru_up0 : W;
  ru_world : world;
  ru_run : option runner;
  ru_log : list run_label;
  ru_marked : bool;      (** vm mode: wireResolverReadyLifecycle has marked it ready *)
  ru_guard : bool;       (** the goroutine that clears the gauge has been started *)
  ru_cancelled : bool;   (** cancel() was called *)
  ru_stopped : bool;     (** markResolverStopped was called *)
}.

(** [pr_dial] is what set-up and shutdown act on outside the process. *)
Record proc := { pr_vars : gvars; pr_dial : Wd; pr_insts : gmap Z running }.

Definition pstart (w : Wd) : proc := {| pr_vars := vstart; pr_dial := w; pr_insts := ∅ |}.

(** ** What the steps change *)
Definition agent_of (inst : agent_instance Source Tls) (r : resolver) : Agent.Agent :=
  {| Resolver := r; EDNS0Code := ai_code inst; NodeIP := ai_nodeIP inst |}.

Definition new_instance (cfg : agent_config) (inst : agent_instance Source Tls) (r : resolver) (up : W)
    (now : Z) : running := {|
  ru_cfg := cfg; ru_client := ai_upstream inst; ru_source := ai_source inst; ru_up0 := up;
  ru_world := {| w_state := {| as_mem := {| m_heap := []; m_cache := ai_cache inst |};
                               as_up := up; as_trace := [] |};
                 w_now := now; w_agent := agent_of inst r; w_queries := [] |};
  ru_run := match r with inl _ => None | inr w => Some (NewRunner w) end;
  ru_log := []; ru_marked := false; ru_guard := false; ru_cancelled := false; ru_stopped := false |}.

Definition with_world (i : running) (wd : world) : running :=
  {| ru_cfg := ru_cfg i; ru_client := ru_client i; ru_source := ru_source i; ru_up0 := ru_up0 i; ru_world := wd;
     ru_run := ru_run i; ru_log := ru_log i;
     ru_marked := ru_marked i; ru_guard := ru_guard i; ru_cancelled := ru_cancelled i;
     ru_stopped := ru_stopped i |}.

Definition with_flags (i : running) (marked guard stopped : bool) : running :=
  {| ru_cfg := ru_cfg i; ru_client := ru_client i; ru_source := ru_source i; ru_up0 := ru_up0 i;
     ru_world := ru_world i; ru_run := ru_run i;
     ru_log := ru_log i;
     ru_marked := marked; ru_guard := guard; ru_cancelled := ru_cancelled i; ru_stopped := stopped |}.

(** The watcher is shared: what [Run] does to it the handler sees. *)
Definition with_run (i : running) (l : run_label) (st : runner) (cancelled : bool) : running := {|
  ru_cfg := ru_cfg i; ru_client := ru_client i; ru_source := ru_source i; ru_up0 := ru_up0 i;
  ru_world := {| w_state := w_state (ru_world i); w_now := w_now (ru_world i);
                 w_agent := with_resolver (w_agent (ru_world i)) (inr (r_watcher st));
                 w_queries := w_queries (ru_world i) |};
  ru_run := Some st; ru_log := ru_log i ++ [l];
  ru_marked := ru_marked i; ru_guard := ru_guard i; ru_cancelled := cancelled;
  ru_stopped := ru_stopped i |}.

(** The shutdown hook: cancel() ends the context [Run] was given. *)
Definition cancelled (i : running) : running :=
  match ru_run i with
  | Some st =>
      with_run i EndCtx {| r_watcher := r_watcher st; r_pc := r_pc st; r_started := r_started st;
                           r_synced := r_synced st; r_cancelled := true |} true
  | None =>
      {| ru_cfg := ru_cfg i; ru_client := ru_client i; ru_source := ru_source i; ru_up0 := ru_up0 i;
         ru_world := ru_world i; ru_run := None;
         ru_log := ru_log i;
         ru_marked := ru_marked i; ru_guard := ru_guard i; ru_cancelled := true; ru_stopped := ru_stopped i |}
  end.

Definition set_inst (p : proc) (v : gvars) (gen : Z) (i : running) : proc :=
  {| pr_vars := v; pr_dial := pr_dial p; pr_insts := <[gen := i]> (pr_insts p) |}.

Definition with_dial (p : proc) (w : Wd) : proc :=
  {| pr_vars := pr_vars p; pr_dial := w; pr_insts := pr_insts p |}.

(** ** The steps, each with what it means to the gauge *)
Definition start_action (r : resolver) : gaction :=
  match r with inl _ => StartVM | inr _ => StartK8s end.

Definition run_action (gen : Z) (l : run_label) : list gaction :=
  match l with
  | SyncResult true => [CacheSync gen]
  | CallOnReady => [OnReady gen]
  | _ => []
  end.

Inductive pstep : proc → list gaction → proc → Prop :=
  | ps_setup p directives env c cfg inst effects w' r up now :
      Agent_parseConfig env c = Some (Ok cfg) →
      Agent_setup directives env c (pr_dial p) = Some (Ok inst, effects, w') → ai_resolver inst = Some r →
      pstep p [start_action r]
        (set_inst (with_dial p w') (next_generation (pr_vars p)) (resolverGeneration (next_generation (pr_vars p)))
           (new_instance cfg inst r up now))
  | ps_setup_failed p directives env c e effects w' :
      Agent_setup directives env c (pr_dial p) = Some (Err e, effects, w') →
      pstep p [] (with_dial p w')
  | ps_vm_ready p gen i :
      pr_insts p !! gen = Some i → ru_run i = None → ru_marked i = false →
      pstep p [VmReady gen]
        (set_inst p (markResolverReady (pr_vars p) gen) gen (with_flags i true true (ru_stopped i)))
  | ps_startup p gen i st :
      pr_insts p !! gen = Some i → ru_run i = Some st →
      pstep p [] (set_inst p (pr_vars p) gen (with_flags i (ru_marked i) true (ru_stopped i)))
  | ps_run p gen i st l st' v :
      pr_insts p !! gen = Some i → ru_run i = Some st → ru_guard i = true → l ≠ EndCtx →
      run_step (Some (fun v => markResolverReady v gen)) st (pr_vars p) l = Some (st', v) →
      pstep p (run_action gen l) (set_inst p v gen (with_run i l st' (ru_cancelled i)))
  | ps_shutdown p gen i :
      pr_insts p !! gen = Some i → ru_cancelled i = false →
      pstep p [Cancel gen]
        (set_inst (with_dial p (cleanup (ru_source i) (pr_dial p))) (pr_vars p) gen (cancelled i))
  | ps_guard p gen i :
      pr_insts p !! gen = Some i → ru_guard i = true → ru_cancelled i = true → ru_stopped i = false →
      pstep p [ReadyGauge.CtxDone gen]
        (set_inst p (markResolverStopped (pr_vars p) gen) gen (with_flags i (ru_marked i) true true))
  | ps_serve p gen i wd :
      pr_insts p !! gen = Some i → wstep (ru_client i) (ru_world i) wd →
      w_agent wd = w_agent (ru_world i) →
      pstep p [] (set_inst p (pr_vars p) gen (with_world i wd)).

Inductive prun (w : Wd) : list gaction → proc → Prop :=
  | pr_nil : prun w [] (pstart w)
  | pr_snoc as_ p a p' : prun w as_ p → pstep p a p' → prun w (as_ ++ a) p'.

(** ** Schedules, executable *)
Inductive command :=
  | DoVmReady (gen : Z)
  | DoStartup (gen : Z)
  | DoRun (gen : Z) (l : run_label)
  | DoShutdown (gen : Z)
  | DoGuard (gen : Z)
  | DoArrive (gen : Z) (w : ResponseWriter) (rv : Msg)
  | DoQuery (gen : Z) (turn : nat * Z).

Definition arrived (wd : world) (w : ResponseWriter) (rv : Msg) : world :=
  {| w_state := arrive (w_state wd) rv; w_now := w_now wd; w_agent := w_agent wd;
     w_queries := w_queries wd ++ [new_query (w_state wd) w rv] |}.

Definition exec (p : proc) (c : command) : option (list gaction * proc) :=
  match c with
  | DoVmReady gen =>
      i ← pr_insts p !! gen;
      match ru_run i, ru_marked i with
      | None, false => Some ([VmReady gen],
          set_inst p (markResolverReady (pr_vars p) gen) gen (with_flags i true true (ru_stopped i)))
      | _, _ => None
      end
  | DoStartup gen =>
      i ← pr_insts p !! gen;
      match ru_run i with
      | Some _ => Some ([], set_inst p (pr_vars p) gen (with_flags i (ru_marked i) true (ru_stopped i)))
      | None => None
      end
  | DoRun gen l =>
      i ← pr_insts p !! gen;
      match ru_run i, ru_guard i, l with
      | Some _, true, EndCtx => None
      | Some st, true, _ =>
          '(st', v) ← run_step (Some (fun v => markResolverReady v gen)) st (pr_vars p) l;
          Some (run_action gen l, set_inst p v gen (with_run i l st' (ru_cancelled i)))
      | _, _, _ => None
      end
  | DoShutdown gen =>
      i ← pr_insts p !! gen;
      if ru_cancelled i then None
      else Some ([Cancel gen],
        set_inst (with_dial p (cleanup (ru_source i) (pr_dial p))) (pr_vars p) gen (cancelled i))
  | DoGuard gen =>
      i ← pr_insts p !! gen;
      match ru_guard i, ru_cancelled i, ru_stopped i with
      | true, true, false => Some ([ReadyGauge.CtxDone gen],
          set_inst p (markResolverStopped (pr_vars p) gen) gen (with_flags i (ru_marked i) true true))
      | _, _, _ => None
      end
  | DoArrive gen w rv =>
      i ← pr_insts p !! gen; Some ([], set_inst p (pr_vars p) gen (with_world i (arrived (ru_world i) w rv)))
  | DoQuery gen turn =>
      i ← pr_insts p !! gen;
      wd ← take_step (H4 := client_upstream (ru_client i)) (ru_world i) turn;
      Some ([], set_inst p (pr_vars p) gen (with_world i wd))
  end.

Lemma exec_pstep p c a p' : exec p c = Some (a, p') → pstep p a p'.
Proof.
  destruct c as [gen|gen|gen l|gen|gen|gen w rv|gen turn]; cbn;
    (destruct (pr_insts p !! gen) as [i|] eqn:Hi; [|done]); cbn.
  - destruct (ru_run i) eqn:Hr, (ru_marked i) eqn:Hm; try done. intros [= <- <-]. by apply ps_vm_ready.
  - destruct (ru_run i) eqn:Hr; [|done]. intros [= <- <-]. by eapply ps_startup.
  - destruct (ru_run i) as [st|] eqn:Hr; [|done]. destruct (ru_guard i) eqn:Hg; [|done].
    destruct (decide (l = EndCtx)) as [->|Hl]; [done|].
    destruct (run_step _ st (pr_vars p) l) as [[st' v]|] eqn:Hs; [|by destruct l].
    intros Heq. assert (Heq' : Some (run_action gen l, set_inst p v gen (with_run i l st' (ru_cancelled i))) =
      Some (a, p')) by by destruct l. injection Heq' as <- <-. by eapply ps_run.
  - destruct (ru_cancelled i) eqn:Hc; [done|]. intros [= <- <-]. by apply ps_shutdown.
  - destruct (ru_guard i) eqn:Hg, (ru_cancelled i) eqn:Hc, (ru_stopped i) eqn:Hs; try done.
    intros [= <- <-]. by apply ps_guard.
  - intros [= <- <-]. by eapply ps_serve; [|apply st_arrive|].
  - destruct (take_step _ turn) as [wd|] eqn:Ht; [|done]. intros [= <- <-].
    apply take_step_step in Ht as [? ?]. by apply ps_serve.
Qed.

Fixpoint execs (p : proc) (cs : list command) : option (list gaction * proc) :=
  match cs with
  | [] => Some ([], p)
  | c :: cs' => '(a, p1) ← exec p c; '(as_, p2) ← execs p1 cs'; Some (a ++ as_, p2)
  end.

Lemma execs_prun w as_ p cs a p' : prun w as_ p → execs p cs = Some (a, p') → prun w (as_ ++ a) p'.
Proof.
  revert as_ p a. induction cs as [|c cs IH]; intros as_ p a Hrun; cbn.
  { intros [= <- <-]. by rewrite app_nil_r. }
  destruct (exec p c) as [[a1 p1]|] eqn:He; [|done]. cbn.
  destruct (execs p1 cs) as [[a2 p2]|] eqn:Hes; [|done]. intros [= <- <-].
  rewrite app_assoc. eapply IH; [|done]. eapply pr_snoc; [done|]. by eapply exec_pstep.
Qed.

(** The outcome of a schedule that runs through. *)
Definition outcome (p : proc) (cs : list command) : list gaction * proc := default ([], p) (execs p cs).

Definition runs (p : proc) (cs : list command) : bool := if execs p cs is Some _ then true else false.

Lemma outcome_prun w as_ p cs :
  prun w as_ p → runs p cs = true → prun w (as_ ++ (outcome p cs).1) (outcome p cs).2.
Proof.
  intros Hrun Hr. unfold runs, outcome in *. destruct (execs p cs) as [[a p']|] eqn:He; [|done].
  by eapply execs_prun.
Qed.

(** ** The gauge *)

(** Where an instance is, as far as the gauge is concerned. *)
Definition phase_of (i : running) : ReadyGauge.phase :=
  match ru_run i with
  | None => if ru_marked i then Marked else VmStarted
  | Some st =>
      match r_pc st with
      | Created | Waiting | Returned (Some _) => Syncing
      | Notifying => Synced
      | Serving | Returned None => Marked
      end
  end.

Definition abs_inst (i : running) : ReadyGauge.instance :=
  {| i_phase := phase_of i; i_cancelled := ru_cancelled i; i_stopped := ru_stopped i |}.

Definition abs (p : proc) : gstate := {| vars := pr_vars p; instances := abs_inst <$> pr_insts p |}.

Lemma abs_set p v gen i : abs (set_inst p v gen i) = set_instance (abs p) v gen (abs_inst i).
Proof. unfold abs, set_instance; cbn. by rewrite fmap_insert. Qed.

Lemma abs_same p gen i i' :
  pr_insts p !! gen = Some i → abs_inst i' = abs_inst i → abs (set_inst p (pr_vars p) gen i') = abs p.
Proof.
  intros Hi Heq. rewrite abs_set, Heq. unfold set_instance, abs; cbn. f_equal.
  apply insert_id. by rewrite lookup_fmap, Hi.
Qed.

Lemma abs_lookup p gen i :
  pr_insts p !! gen = Some i → instances (abs p) !! gen = Some (abs_inst i).
Proof. intros Hi. cbn. by rewrite lookup_fmap, Hi. Qed.

(** The watcher's steps are the gauge's. *)
Lemma run_step_abs p gen i st l st' v :
  pr_insts p !! gen = Some i → ru_run i = Some st → l ≠ EndCtx →
  run_step (Some (fun v => markResolverReady v gen)) st (pr_vars p) l = Some (st', v) →
  grun (abs p) (run_action gen l) = Some (abs (set_inst p v gen (with_run i l st' (ru_cancelled i)))).
Proof.
  intros Hi Hr Hl Hst. pose proof (abs_lookup p gen i Hi) as Ha.
  assert (Hph : ∀ ph, phase_of i = ph → i_phase (abs_inst i) = ph) by done.
  assert (Hpc : phase_of i = match r_pc st with
      | Created | Waiting | Returned (Some _) => Syncing | Notifying => Synced
      | Serving | Returned None => Marked end) by (unfold phase_of; by rewrite Hr).
  assert (Hstay : v = pr_vars p → phase_of (with_run i l st' (ru_cancelled i)) = phase_of i →
    Some (abs p) = Some (abs (set_inst p v gen (with_run i l st' (ru_cancelled i))))).
  { intros -> Hp. f_equal. symmetry. eapply abs_same; [done|]. unfold abs_inst. by rewrite Hp. }
  unfold run_step in Hst. destruct l as [[e|]|e| |[]| | |]; cbn [run_action grun gstep].
  3:{ destruct (_ && _); [|done]. injection Hst as <- <-. apply Hstay; [done|]. by rewrite Hpc. }
  3:{ destruct (r_started st); [|done]. injection Hst as <- <-. apply Hstay; [done|]. by rewrite Hpc. }
  all: destruct (r_pc st) eqn:Hp; try done; try (destruct (r_synced st); [|done]);
    try (destruct (r_cancelled st); [|done]);
    injection Hst as <- <-; cbn [run_action grun gstep]; rewrite ?Ha; cbn;
    rewrite ?(Hph _ Hpc); try (apply Hstay; [done|by rewrite Hpc]).
  all: rewrite ?bool_decide_eq_true_2, abs_set by done; done.
Qed.

Lemma pstep_abs p a p' : pstep p a p' → grun (abs p) a = Some (abs p').
Proof.
  intros Hst. destruct Hst as [p directives env c cfg inst effects w' r up now _ _ Hr|p directives env c e effects w' _
    |p gen i Hi Hr Hm|p gen i st Hi Hr
    |p gen i st l st' v Hi Hr _ Hl Hst|p gen i Hi _|p gen i Hi _ Hc Hs|p gen i wd Hi _ _].
  - rewrite abs_set. destruct r; done.
  - done.
  - assert (Hp : phase_of i = VmStarted) by (unfold phase_of; by rewrite Hr, Hm).
    assert (Hp' : phase_of (with_flags i true true (ru_stopped i)) = Marked)
      by (unfold phase_of; cbn; by rewrite Hr).
    cbn. rewrite lookup_fmap, Hi. cbn. rewrite bool_decide_eq_true_2 by done. rewrite abs_set. cbn.
    unfold abs_inst. by rewrite Hp'.
  - cbn. f_equal. symmetry. by eapply abs_same.
  - by eapply run_step_abs.
  - cbn. rewrite lookup_fmap, Hi. cbn. rewrite abs_set. unfold cancelled, abs_inst, phase_of.
    by destruct (ru_run i).
  - cbn. rewrite lookup_fmap, Hi. cbn. rewrite Hc, Hs, abs_set. cbn. unfold abs_inst; cbn. by rewrite Hc.
  - cbn. f_equal. symmetry. by eapply abs_same.
Qed.

Lemma grun_app s as_ as' s' : grun s as_ = Some s' → grun s (as_ ++ as') = grun s' as'.
Proof.
  revert s. induction as_ as [|a as_ IH]; intros s; cbn; [by intros [= ->]|].
  destruct (gstep s a); [apply IH|done].
Qed.

Lemma prun_abs w as_ p : prun w as_ p → grun gstart as_ = Some (abs p).
Proof.
  induction 1 as [|as_ p a p' _ IH Hst]; [unfold abs; cbn; by rewrite fmap_empty|].
  rewrite (grun_app _ _ _ _ IH). by apply pstep_abs.
Qed.

(** Reported ready, at some time. *)
Definition reported_ready (i : running) : Prop := phase_of i = Marked.

(** C25: the gauge of the whole process: whatever the instances, their watchers and
    their goroutines do, what happens to the gauge is a run of the state machine of
    its own lifecycle; and when readiness is reported in the order of the set-ups and
    before the instance's own clean-up, and the counter of generations has not wrapped
    around, resolver_ready is 1 exactly while the newest
    instance whose resolver has loaded is not cleaned up. *)
Theorem process_gauge w as_ p :
  prun w as_ p →
  grun gstart as_ = Some (abs p) ∧
  (orderly_run gstart as_ (abs p) →
   (resolverReady (pr_vars p) = 0 ∨ resolverReady (pr_vars p) = 1) ∧
   (resolverReady (pr_vars p) = 1 ↔
    ∃ gen i, pr_insts p !! gen = Some i ∧ reported_ready i ∧ ru_stopped i = false ∧
      ∀ g j, pr_insts p !! g = Some j → reported_ready j → g ≤ gen)).
Proof.
  intros Hrun. split; [by eapply prun_abs|]. intros [Hone Hbit]%orderly_run_inv%gauge_inv_truthful.
  split; [done|]. cbn in Hone. rewrite Hone. unfold newest_ready, up; cbn. split.
  - intros (gen & [_ Hmax] & i & Hi & Hp & Hs). rewrite lookup_fmap in Hi.
    destruct (pr_insts p !! gen) as [i0|] eqn:Hi0; [|done]. injection Hi as <-.
    exists gen, i0. split_and!; try done. intros g j Hj Hrj. apply (Hmax g (abs_inst j)); [|done].
    by rewrite lookup_fmap, Hj.
  - intros (gen & i & Hi & Hp & Hs & Hmax). exists gen. rewrite lookup_fmap, Hi.
    split; [split; [by exists (abs_inst i)|]|by exists (abs_inst i)]. intros g j Hj.
    rewrite lookup_fmap in Hj. destruct (pr_insts p !! g) as [j0|] eqn:Hj0; [|done].
    injection Hj as <-. by apply Hmax.
Qed.

(** ** The queries *)

(** Where a zone comes from: in vm mode it is the configured one; in k8s mode the
    watcher, having done exactly [log] so far, is serving, and the zone is the label of
    a pod of this node that the informer last delivered with the client's address and
    has not deleted. *)
Definition located_at (cfg : agent_config) (log : list run_label) (w : ResponseWriter) (z : string) : Prop :=
  match a_mode cfg with
  | modeVM => z = a_zone cfg
  | _ =>
      ∃ st key pod ip,
        run_labels (G := unit) None (start (a_nodeName cfg) (a_zoneLabel cfg)) tt log = Some (st, tt) ∧
        resolving (r_pc st) ∧ known (log ≫= events_of) !! key = Some pod ∧
        pod_NodeName pod = a_nodeName cfg ∧ pod_HostNetwork pod = false ∧
        pod_Labels pod !! a_zoneLabel cfg = Some z ∧
        ParseAddr (pod_PodIP pod) = Some ip ∧ ParseAddr (rw_RemoteIP w) = Some ip
  end.

(** The resolver an instance has, and how it came about. *)
Definition resolver_ok (cfg : agent_config) (i : running) : Prop :=
  match ru_run i with
  | None => a_mode cfg = modeVM ∧ Valid (a_zone cfg) = true ∧
      Resolver (w_agent (ru_world i)) = inl (NewStaticResolver (a_zone cfg))
  | Some st => a_mode cfg = modeK8s ∧ Resolver (w_agent (ru_world i)) = inr (r_watcher st) ∧
      run_labels (G := unit) None (start (a_nodeName cfg) (a_zoneLabel cfg)) tt (ru_log i) = Some (st, tt)
  end.

Record inst_ok (cfg : agent_config) (i : running) : Prop := {
  io_config : ∃ env (c : C), Agent_parseConfig env c = Some (Ok cfg);
  io_reach : ∃ n, reach (H4 := client_upstream (ru_client i)) n (a_edns0Code cfg) (ru_world i);
  io_resolver : resolver_ok cfg i;
  io_client : ∃ id, FromString (Tls := Tls) (Source := Source) (W := Wd) (a_centralSPIFFEID cfg) = Ok id ∧
    hc_TLS (c_hc (ru_client i)) = MTLSClientConfig (ru_source i) id;
  io_replay : replays (H4 := client_upstream (ru_client i)) (ru_up0 i)
    (exchanges (as_trace (w_state (ru_world i)))) (as_up (w_state (ru_world i)));
}.

Lemma resolver_ok_ResolverOk cfg i : resolver_ok cfg i → ResolverOk (Resolver (w_agent (ru_world i))).
Proof.
  unfold resolver_ok. destruct (ru_run i) as [st|].
  - intros (_ & -> & Hrun). apply run_labels_ok in Hrun. intros ip z Hz. cbn in Hz.
    by apply (runner_ok_zone _ _ _ _ _ _ _ _ _ Hrun) in Hz as (_ & Hv & _).
  - intros (_ & Hv & ->). intros ip z Hz. by apply (static_ok _ Hv ip).
Qed.

(** The zone of a client is one that can be accounted for. *)
Lemma resolver_ok_located cfg i w z :
  resolver_ok cfg i → client_zone (w_agent (ru_world i)) w = Some z → located_at cfg (ru_log i) w z.
Proof.
  unfold client_zone. destruct (ParseAddr (rw_RemoteIP w)) as [src|] eqn:Hsrc; [|done]. cbn.
  destruct (_ && _); [done|]. unfold resolver_ok, located_at. destruct (ru_run i) as [st|].
  - intros (-> & -> & Hrun) Hz. cbn in Hz. pose proof Hrun as Hok%run_labels_ok.
    destruct (runner_ok_zone _ _ _ _ _ _ _ _ _ Hok Hz) as (Hres & _ & key & pod & Hk & Hn & Hh & Hl & Hip).
    by exists st, key, pod, src.
  - intros (-> & _ & ->). cbn. unfold StaticResolver_Zone. case_bool_decide; [done|]. by intros [= <-].
Qed.

(** A step of a query, or its arrival. *)
Lemma inst_ok_serve cfg i wd :
  inst_ok cfg i → wstep (ru_client i) (ru_world i) wd → w_agent wd = w_agent (ru_world i) →
  inst_ok cfg (with_world i wd).
Proof.
  intros [Hc [n Hr] Hres Hcl Hrep] Hst Ha. split; cbn; [done|..|done|].
  - exists n. by eapply re_step.
  - unfold resolver_ok in *; cbn. by rewrite Ha.
  - destruct Hst as [| |wd k q0 now ph st _ _ Hrun]; [done..|]. cbn.
    apply phase_step_faithful in Hrun as (t & -> & Ht). rewrite exchanges_app. by eapply replays_app.
Qed.

(** A step of [Run], the end of its context included. *)
Lemma inst_ok_run cfg i st l st' cancelled :
  inst_ok cfg i → ru_run i = Some st → run_step (G := unit) None st tt l = Some (st', tt) →
  inst_ok cfg (with_run i l st' cancelled).
Proof.
  intros [Hc [n Hr] Hres Hcl Hrep] Hrun Hst.
  assert (Hres' : resolver_ok cfg (with_run i l st' cancelled)).
  { unfold resolver_ok in *; cbn. rewrite Hrun in Hres. destruct Hres as (Hm & _ & Hlog).
    split_and!; [done..|]. by rewrite (run_labels_snoc _ _ _ _ _ _ _ Hlog). }
  split; cbn; [done|exists n|done..].
  eapply re_step; [exact Hr|]. apply st_resolver. apply (resolver_ok_ResolverOk _ _ Hres').
Qed.

Lemma inst_ok_new directives env (c : C) cfg w inst effects w' r up now :
  Agent_parseConfig env c = Some (Ok cfg) →
  Agent_setup directives env c w = Some (Ok inst, effects, w') → ai_resolver inst = Some r →
  inst_ok cfg (new_instance cfg inst r up now).
Proof.
  intros Hcfg (cfg' & Hp & _ & _ & Hn & Hcode & _ & Hfit & w0 & Hm)%Agent_setup_built Hr.
  rewrite Hcfg in Hp. injection Hp as <-. apply NewMTLS_doh_config in Hm as (id & Hid & _ & Htls & _).
  unfold resolver_fits in Hfit. rewrite Hr in Hfit.
  assert (Hres : resolver_ok cfg (new_instance cfg inst r up now)).
  { unfold resolver_ok; cbn. destruct (a_mode cfg); [done|by simplify_eq|]. destruct Hfit as [Hfit ?].
    by simplify_eq. }
  split; cbn; [by exists env, c|exists (a_cacheSize cfg)|done|by exists id|constructor].
  apply re_start; [done|done|]. apply (resolver_ok_ResolverOk _ _ Hres).
Qed.

Lemma pstep_ok p a p' :
  pstep p a p' → map_Forall (fun _ i => inst_ok (ru_cfg i) i) (pr_insts p) →
  map_Forall (fun _ i => inst_ok (ru_cfg i) i) (pr_insts p').
Proof.
  intros Hst Hall.
  assert (Hone : ∀ gen i, inst_ok (ru_cfg i) i →
    map_Forall (fun _ i => inst_ok (ru_cfg i) i) (<[gen := i]> (pr_insts p)))
    by (intros; by apply map_Forall_insert_2).
  assert (Hflags : ∀ gen i m g s, pr_insts p !! gen = Some i → inst_ok (ru_cfg i) (with_flags i m g s)).
  { intros gen i m g s Hi. by destruct (Hall gen i Hi). }
  destruct Hst as [p directives env c cfg inst effects w' r up now Hcfg Hs Hr|p directives env c e effects w' Hs
    |p gen i Hi Hr Hm|p gen i st Hi Hr
    |p gen i st l st' v Hi Hr _ Hl Hst|p gen i Hi _|p gen i Hi _ Hc Hs|p gen i wd Hi Hst Ha];
    cbn [pr_insts set_inst with_dial]; [apply Hone|done|apply Hone..].
  - by eapply inst_ok_new.
  - by apply (Hflags gen i).
  - by apply (Hflags gen i).
  - apply (inst_ok_run (ru_cfg i) i st); [by apply (Hall gen)|done|]. by eapply run_step_forget.
  - pose proof (Hall gen i Hi) as Hok. unfold cancelled.
    destruct (ru_run i) as [st|] eqn:Hr; [by apply (inst_ok_run (ru_cfg i) i st)|].
    destruct Hok as [? ? Hres ? ?]. split; try done. unfold resolver_ok in *; cbn. by rewrite Hr in Hres.
  - by apply (Hflags gen i).
  - apply (inst_ok_serve (ru_cfg i) i); [by apply (Hall gen)|done..].
Qed.

Lemma prun_ok w as_ p : prun w as_ p → map_Forall (fun _ i => inst_ok (ru_cfg i) i) (pr_insts p).
Proof. induction 1 as [|as_ p a p' _ IH Hst]; [apply map_Forall_empty|by eapply pstep_ok]. Qed.

(** The next step of a query of the process, with what its instance guarantees. *)
Lemma prun_query `{!DnsLaws, !LruLaws key entry} w as_ p gen i j q now :
  prun w as_ p → pr_insts p !! gen = Some i → w_queries (ru_world i) !! j = Some q →
  let cfg := ru_cfg i in
  ∃ n cw ph s cw' t, inst_ok cfg i ∧
    phase_step (H4 := client_upstream (ru_client i)) (w_agent (ru_world i)) (q_w q) (q_r q) now (q_phase q)
      (w_state (ru_world i)) = Some (ph, s) ∧
    stepped (H4 := client_upstream (ru_client i)) n (a_edns0Code cfg) (w_state (ru_world i)) cw q
      (moved (w_agent (ru_world i)) q ph) s cw' t ∧
    world_ok (H4 := client_upstream (ru_client i)) n (a_edns0Code cfg)
      {| w_state := s; w_now := now; w_agent := w_agent (ru_world i);
         w_queries := <[j := moved (w_agent (ru_world i)) q ph]> (w_queries (ru_world i)) |} cw'.
Proof.
  intros Hrun Hi Hj cfg. pose proof (prun_ok w as_ p Hrun gen i Hi : inst_ok cfg i) as Hok.
  pose proof (client_upstream_laws (ru_client i)) as Hlaws. destruct (io_reach _ _ Hok) as [n Hr].
  destruct (reach_ok _ _ _ Hr) as [cw Hw].
  destruct (world_ok_query n (a_edns0Code cfg) (ru_world i) cw j q now Hw Hj)
    as (ph & s & cw' & t & Hs & Hsp & Hw').
  by exists n, cw, ph, s, cw', t.
Qed.

(** *** The lookup of a query

    [lookup_at p]: in the state [p] the query has not been looked up and its client is
    in the zone, which can be accounted for there. [looked_up p]: such a state, followed
    at once by the step that looks the query up, lies on the way to [p]. *)
Definition later (p p' : proc) : Prop := ∃ a, pstep p a p'.

Definition lookup_at (p : proc) (gen : Z) (j : nat) (cfg : agent_config) (w : ResponseWriter) (z : string)
    : Prop :=
  ∃ i q, pr_insts p !! gen = Some i ∧ ru_cfg i = cfg ∧ w_queries (ru_world i) !! j = Some q ∧
    q_phase q = Arrived ∧ q_w q = w ∧ client_zone (w_agent (ru_world i)) w = Some z ∧
    located_at cfg (ru_log i) w z.

Definition looked_up (p : proc) (gen : Z) (j : nat) (cfg : agent_config) (w : ResponseWriter) (z : string)
    : Prop :=
  ∃ p0 p1 i1 q1, lookup_at p0 gen j cfg w z ∧ later p0 p1 ∧ pr_insts p1 !! gen = Some i1 ∧
    w_queries (ru_world i1) !! j = Some q1 ∧ q_phase q1 ≠ Arrived ∧ rtc later p1 p.

Lemma looked_up_later p gen j cfg w z p' :
  looked_up p gen j cfg w z → later p p' → looked_up p' gen j cfg w z.
Proof.
  intros (p0 & p1 & i1 & q1 & Hl & Hs & Hi & Hq & Hph & Hr) Hst. exists p0, p1, i1, q1.
  split_and!; try done. by eapply rtc_r.
Qed.

(** Where the queries of a process come from. *)
Lemma wstep_query c (wd wd' : world) j q :
  wstep c wd wd' → w_queries wd' !! j = Some q →
  q_phase q = Arrived ∨ w_queries wd !! j = Some q ∨
  ∃ q0 ph, w_queries wd !! j = Some q0 ∧ ph ≠ Arrived ∧ q = moved (w_agent wd) q0 ph.
Proof.
  intros Hst. destruct Hst as [wd r _|wd w rv|wd k q0 now ph st Hk _ Hrun]; cbn.
  - intros Hj. right. by left.
  - intros [Hj|[_ Hj]]%lookup_app_Some; [right; by left|].
    apply list_lookup_singleton_Some in Hj as [_ <-]. by left.
  - intros [[-> [<- _]]|[_ Hj]]%list_lookup_insert_Some; right; [right|by left].
    exists q0, ph. split_and!; try done. intros ->. by apply phase_step_left in Hrun.
Qed.

Lemma pstep_query p a p' gen i' j q :
  pstep p a p' → pr_insts p' !! gen = Some i' → w_queries (ru_world i') !! j = Some q →
  q_phase q = Arrived ∨
  ∃ i, pr_insts p !! gen = Some i ∧ ru_cfg i' = ru_cfg i ∧
    (w_queries (ru_world i) !! j = Some q ∨
     ∃ q0 ph, w_queries (ru_world i) !! j = Some q0 ∧ ph ≠ Arrived ∧ q = moved (w_agent (ru_world i)) q0 ph).
Proof.
  intros Hst Hi' Hj.
  assert (Hset : ∀ g i1 i2, pr_insts p !! g = Some i1 → pr_insts p' = <[g := i2]> (pr_insts p) →
    ru_cfg i2 = ru_cfg i1 → w_queries (ru_world i2) = w_queries (ru_world i1) →
    ∃ i, pr_insts p !! gen = Some i ∧ ru_cfg i' = ru_cfg i ∧ w_queries (ru_world i) !! j = Some q).
  { intros g i1 i2 Hg Hp' Hc Hq. rewrite Hp' in Hi'.
    apply lookup_insert_Some in Hi' as [[<- <-]|[_ Hi']]; [exists i1; by rewrite <-Hq|by exists i']. }
  assert (Hold : (∃ i, pr_insts p !! gen = Some i ∧ ru_cfg i' = ru_cfg i ∧
      w_queries (ru_world i) !! j = Some q) → q_phase q = Arrived ∨
    ∃ i, pr_insts p !! gen = Some i ∧ ru_cfg i' = ru_cfg i ∧
    (w_queries (ru_world i) !! j = Some q ∨ ∃ q0 ph, w_queries (ru_world i) !! j = Some q0 ∧
       ph ≠ Arrived ∧ q = moved (w_agent (ru_world i)) q0 ph)) by naive_solver.
  destruct Hst as [p directives env c cfg inst effects w' r up now _ _ _|p directives env c e effects w' _
    |p g i Hi _ _|p g i st Hi _|p g i st l st' v Hi _ _ _ _|p g i Hi _|p g i Hi _ _ _|p g i wd Hi Hst _].
  - apply Hold. cbn in Hi'. apply lookup_insert_Some in Hi' as [[_ <-]|[_ Hi']]; [done|by exists i'].
  - apply Hold. by exists i'.
  - by eapply Hold, Hset.
  - by eapply Hold, Hset.
  - by eapply Hold, Hset.
  - eapply Hold, Hset; [done|done|..]; unfold cancelled; by destruct (ru_run i).
  - by eapply Hold, Hset.
  - cbn in Hi'. apply lookup_insert_Some in Hi' as [[-> <-]|[_ Hi']]; [|apply Hold; by exists i'].
    cbn in Hj. destruct (wstep_query _ _ _ _ _ Hst Hj) as [Hq|Hq]; [by left|]. right. by exists i.
Qed.

(** The zone of every query was found by its lookup. *)
Lemma prun_looked_up w as_ p gen i j q z :
  prun w as_ p → pr_insts p !! gen = Some i → w_queries (ru_world i) !! j = Some q →
  q_phase q ≠ Arrived → q_zone q = Some z → looked_up p gen j (ru_cfg i) (q_w q) z.
Proof.
  intros Hrun. revert i q z. induction Hrun as [|as_ p a p' Hrun IH Hst]; intros i q z Hi Hj Hph Hz; [done|].
  assert (Hlater : later p p') by by exists a.
  destruct (pstep_query _ _ _ _ _ _ _ Hst Hi Hj) as [?|(i0 & Hi0 & -> & [Hj0|(q0 & ph & Hj0 & Hne & ->)])];
    [done|by eapply looked_up_later; [eapply IH|]|].
  cbn in *. destruct (decide (q_phase q0 = Arrived)) as [Harr|Harr].
  - rewrite Harr in Hz. exists p, p', i, (moved (w_agent (ru_world i0)) q0 ph).
    split_and!; try done. exists i0, q0. split_and!; try done.
    apply resolver_ok_located; [|done]. apply io_resolver. by apply (prun_ok w as_ p Hrun gen).
  - eapply looked_up_later; [|done]. eapply IH; [done..|]. by destruct (q_phase q0).
Qed.

(** C2: zone isolation for the whole process: in every instance that [setup] ever
    built, whatever reloads, watchers, informers, clean-ups and other queries did
    before, the next step of every query succeeds; what it writes relays an answer
    central gave to a query that declared this client's zone, what it asks declares
    that zone and no other, and that zone can be accounted for in the very state of the
    process in which the client was looked up: this one, when this step is the lookup,
    and otherwise the state right before the step that took the query past it. There it
    is the configured one in vm mode, and in k8s mode the label of a pod of this node,
    known at the client's own address. *)
Theorem process_isolation `{!DnsLaws, !LruLaws key entry} w as_ p gen i j q now :
  prun w as_ p → pr_insts p !! gen = Some i → w_queries (ru_world i) !! j = Some q →
  let cfg := ru_cfg i in
  ∃ env (c : C) ph s t, Agent_parseConfig env c = Some (Ok cfg) ∧
    phase_step (H4 := client_upstream (ru_client i)) (w_agent (ru_world i)) (q_w q) (q_r q) now (q_phase q)
      (w_state (ru_world i)) = Some (ph, s) ∧
    as_trace s = as_trace (w_state (ru_world i)) ++ t ∧
    let zone := q_zone (moved (w_agent (ru_world i)) q ph) in
    (∀ z, zone = Some z →
       if decide (q_phase q = Arrived) then lookup_at p gen j cfg (q_w q) z
       else looked_up p gen j cfg (q_w q) z) ∧
    (∀ m, m ∈ wrote t →
       ∃ av, from_central (a_edns0Code cfg) (as_trace s) (q_rv q) zone av ∧ relays (q_rv q) av m) ∧
    (∀ ov ans, (ov, ans) ∈ exchanges t →
       GetZone ov (a_edns0Code cfg) = zone ∧ Questions ov = Questions (q_rv q)).
Proof.
  intros Hrun Hi Hj cfg.
  destruct (prun_query w as_ p gen i j q now Hrun Hi Hj) as (n & cw & ph & s & cw' & t & Hok & Hs & Hsp & _).
  destruct Hok as [(env & c & Hp) _ Hres _ _].
  exists env, c, ph, s, t. split; [done|]. split; [done|]. split; [apply Hsp|]. cbv zeta. split_and!.
  - intros z Hz. cbn in Hz. case_decide as Hq.
    + rewrite Hq in Hz. exists i, q. split_and!; try done. by apply resolver_ok_located.
    + eapply prun_looked_up; [done..|]. by destruct (q_phase q).
  - apply Hsp.
  - intros ov ans Hin. by destruct (sp_exchanged _ _ _ _ _ _ _ _ _ Hsp _ _ Hin) as (? & ? & _).
Qed.
End process.

(** ** Certificate sources *)
Definition zsum_map {A} (f : A → Z) (m : gmap Z A) : Z := map_fold (fun _ x acc => f x + acc) 0 m.

Lemma zsum_map_fresh {A} (f : A → Z) m k x :
  m !! k = None → zsum_map f (<[k := x]> m) = f x + zsum_map f m.
Proof. intros Hk. unfold zsum_map. rewrite map_fold_insert_L; [done|intros; lia|done]. Qed.

Lemma zsum_map_replace {A} (f : A → Z) m k x y :
  m !! k = Some x → zsum_map f (<[k := y]> m) = zsum_map f m - f x + f y.
Proof.
  intros Hk. rewrite <-(insert_delete_id m k x Hk) at 2. rewrite <-insert_delete_eq.
  rewrite !zsum_map_fresh by apply lookup_delete_eq. lia.
Qed.

Section resources.
Context {C ID Source Tls Wd RestConfig KubeClient Request Response W : Type}.
Context `{Controller C, Unicode, UrlLib, !LruOps key entry, !SpiffeOps ID Source Tls Wd}.
Context `{!InClusterOps RestConfig KubeClient, !DnsOps, !RequestOps, !HttpOps Tls Request Response W}.

#[local] Abbreviation running := (AgentSystem.running (Source := Source) (Tls := Tls) (W := W)).
#[local] Abbreviation proc := (AgentSystem.proc (Source := Source) (Tls := Tls) (Wd := Wd * Z) (W := W)).
#[local] Abbreviation prun := (AgentSystem.prun (SpiffeOps0 := source_counting)).
#[local] Abbreviation pstep := (AgentSystem.pstep (SpiffeOps0 := source_counting)).

(** What an instance that is not shut down holds. *)
Definition held_source (i : running) : Z := if ru_cancelled i then 0 else 1.

(** After [n] actions: the generations in use have been handed out, and the open sources
    are accounted for. *)
Record accounted (n : Z) (p : proc) : Prop := {
  ac_count : 0 ≤ resolverGeneration (pr_vars p) ≤ n;
  ac_keys : map_Forall (fun g _ => g ≤ resolverGeneration (pr_vars p)) (pr_insts p);
  ac_open : (pr_dial p).2 = zsum_map held_source (pr_insts p);
}.

Lemma accounted_replace n n' p v w gen i i' :
  accounted n p → n ≤ n' → pr_insts p !! gen = Some i → resolverGeneration v = resolverGeneration (pr_vars p) →
  w.2 = (pr_dial p).2 - held_source i + held_source i' →
  accounted n' (set_inst (with_dial p w) v gen i').
Proof.
  intros [Hc Hk Ho] Hn Hi Hv Hw. split; cbn; rewrite ?Hv; [lia| |].
  - apply map_Forall_insert_2; [by eapply (Hk gen)|done].
  - rewrite (zsum_map_replace _ _ _ i) by done. rewrite Hw, Ho. done.
Qed.

Lemma run_step_generation (gen : Z) st v l st' v' :
  run_step (Some (fun v => markResolverReady v gen)) st v l = Some (st', v') →
  resolverGeneration v' = resolverGeneration v.
Proof.
  unfold run_step. destruct l as [[e|]|e| |[]| | |]; destruct (r_pc st); try done;
    repeat (case_match; try done); by intros [= <- <-].
Qed.

Lemma accounted_step n p a p' :
  accounted n p → n + Z.of_nat (length a) < 2 ^ 64 → pstep p a p' → accounted (n + Z.of_nat (length a)) p'.
Proof.
  intros Ha Hlt Hst.
  assert (Hkeep : ∀ v gen i i', pr_insts p !! gen = Some i → ru_cancelled i' = ru_cancelled i →
    resolverGeneration v = resolverGeneration (pr_vars p) →
    accounted (n + Z.of_nat (length a)) (set_inst p v gen i')).
  { intros v gen i i' Hi Hc Hv. apply (accounted_replace n _ p v (pr_dial p) gen i i'); [done|lia|done..|].
    unfold held_source. rewrite Hc. lia. }
  destruct Hst as [p directives env c cfg inst effects w' r up now _ Hs _|p directives env c e effects w' Hs
    |p gen i Hi _ _|p gen i st Hi _|p gen i st l st' v Hi _ _ _ Hst|p gen i Hi Hc|p gen i Hi _ _ _|p gen i wd Hi _ _].
  3,4,8: by eapply Hkeep.
  - destruct Ha as [Hc Hk Ho]. destruct (pr_dial p) as [w n0] eqn:Hd, w' as [w1 n1].
    apply Agent_setup_sources in Hs as ->. cbn in Ho, Hlt. cbn [length].
    assert (Hg : resolverGeneration (next_generation (pr_vars p)) = resolverGeneration (pr_vars p) + 1)
      by (cbn; unfold uint64_succ; rewrite Z.mod_small; lia).
    split; cbn [set_inst with_dial pr_vars pr_dial pr_insts snd]; rewrite Hg; [lia| |].
    + apply map_Forall_insert_2; [lia|]. eapply map_Forall_impl; [done|]. cbn. intros. lia.
    + rewrite zsum_map_fresh; [rewrite Ho; cbn; lia|].
      destruct (pr_insts p !! _) as [i|] eqn:Hi; [|done]. apply Hk in Hi. lia.
  - destruct Ha as [Hc Hk Ho]. destruct (pr_dial p) as [w n0] eqn:Hd, w' as [w1 n1].
    apply Agent_setup_sources in Hs as ->. split; cbn in *; [lia|done..].
  - eapply Hkeep; [done..|]. by eapply run_step_generation.
  - eapply accounted_replace; [done|lia|done|done|]. destruct (pr_dial p) as [w n0]. cbn.
    unfold held_source, cancelled. rewrite Hc. destruct (ru_run i); cbn; lia.
  - eapply Hkeep; [done..|]. unfold markResolverStopped. by case_match.
Qed.

(** C40: the agent's process leaks no certificate source: after any run, of fewer than
    2^64 actions, in which configurations are reloaded, set-ups fail, watchers and queries
    run and instances are shut down, the sources that are open are those of the instances
    not shut down, one each. *)
Theorem process_sources w as_ p :
  prun (w, 0) as_ p → Z.of_nat (length as_) < 2 ^ 64 →
  (pr_dial p).2 = zsum_map held_source (pr_insts p).
Proof.
  intros Hrun Hlt. cut (accounted (Z.of_nat (length as_)) p); [by intros []|]. revert Hlt.
  induction Hrun as [|as_ p a p' _ IH Hst]; intros Hlt; [done|].
  rewrite length_app, Nat2Z.inj_add in *. eapply accounted_step; [|done|done]. apply IH. lia.
Qed.
End resources.

(** ** Witnesses *)
Module AgentSystemWitnesses.
Import CorefileReference UrlReference DnsLib.Reference LruReference IdentityWitnesses.
Import DohUpstreamWitnesses AgentWitnesses AgentSetupWitnesses.

(** A service account is there. *)
Definition in_cluster : InClusterOps unit unit :=
  {| rest_InClusterConfig := Ok tt; rest_NewForConfig _ := Ok tt |}.

(** A central that answers every query with one address. *)
#[export] Instance one_address : HttpOps (string * string) Msg Msg unit := {|
  NewRequest _ m := Ok m;
  Do _ req w := (Ok (with_Answer (SetReply zero_Msg req)
       [{| Hdr := {| hdr_Name := "api.example.org."; hdr_Rrtype := TypeA;
                     hdr_Class := ClassINET; hdr_Ttl := 300 |};
           Body := RD_A [10; 0; 0; 1] |}]), w);
  StatusCode _ := StatusOK;
  ResponseToMsg resp w := (Ok resp, w);
  CloseBody _ w := w;
|}.

Definition order0 : list string := ["zonedns_agent"; "cache"].

Definition built0 (corefile : lines) : agent_instance string (string * string) :=
  match Agent_setup (InClusterOps0 := in_cluster) order0 "" corefile tt with
  | Some (Ok inst, _, _) => inst
  | _ => {| ai_resolver := None; ai_cache := {| l := {| entries := []; capacity := 1 |} |};
            ai_upstream := NewWithHTTPClient "" {| hc_TLS := ("", ""); hc_Timeout := 0 |};
            ai_source := "";
            ai_code := 0; ai_nodeIP := AddrZero |}
  end.

Lemma built0_ok :
  ∃ effects, Agent_setup (InClusterOps0 := in_cluster) order0 "" k8s_corefile tt =
    Some (Ok (built0 k8s_corefile), effects, tt).
Proof. eexists. by vm_compute. Qed.

Definition watcher0 : Watcher := NewWatcher "n1" "zone".

Definition cfg0 (corefile : lines) : agent_config :=
  match Agent_parseConfig "" corefile with Some (Ok cfg) => cfg | _ => agent_defaults AddrZero end.

Lemma cfg0_ok : Agent_parseConfig "" k8s_corefile = Some (Ok (cfg0 k8s_corefile)).
Proof. by vm_compute. Qed.

(** One instance in k8s mode. *)
Definition instance0 : running := new_instance (cfg0 k8s_corefile) (built0 k8s_corefile) (inr watcher0) tt 0.
Definition proc0 : proc (W := unit) := set_inst (pstart tt) (next_generation vstart) 1 instance0.

Lemma proc0_run : prun (InClusterOps0 := in_cluster) tt [StartK8s] proc0.
Proof.
  destruct built0_ok as [effects Hs].
  apply (pr_snoc (InClusterOps0 := in_cluster) tt [] (pstart tt) [StartK8s]); [apply pr_nil|].
  eapply (ps_setup (InClusterOps0 := in_cluster) (pstart tt) order0 "" k8s_corefile
    (cfg0 k8s_corefile) (built0 k8s_corefile) effects tt (inr watcher0)); [exact cfg0_ok|exact Hs|by vm_compute].
Qed.

(** The watcher syncs with one pod, and a query from its address is looked up. *)
Definition served0 : list command :=
  [DoStartup 1; DoRun 1 (Begin None);
   DoRun 1 (Deliver (AddFunc (ObjPod (PodZoneWitnesses.pod "a" "fab" "10.0.0.7"))));
   DoRun 1 StoreSynced; DoRun 1 (SyncResult true); DoArrive 1 plain_writer (question ClassINET); DoQuery 1 (0%nat, 1)].

Definition proc1 : proc := (outcome proc0 served0).2.

Lemma proc1_run : prun (InClusterOps0 := in_cluster) tt ([StartK8s] ++ (outcome proc0 served0).1) proc1.
Proof. apply outcome_prun; [apply proc0_run|by vm_compute]. Qed.

Definition inst1 : running := default instance0 (pr_insts proc1 !! 1).

Definition query1 : query :=
  default (new_query start0 plain_writer (question ClassINET)) (w_queries (ru_world inst1) !! 0%nat).

Lemma process_isolation_witness :
  q_zone query1 = Some "fab" ∧
  looked_up (InClusterOps0 := in_cluster) proc1 1 0 (cfg0 k8s_corefile) (q_w query1) "fab".
Proof.
  assert (Hz : q_zone query1 = Some "fab") by by vm_compute. split; [exact Hz|].
  destruct (process_isolation (InClusterOps0 := in_cluster) tt _ proc1 1 inst1 0 query1 2 proc1_run)
    as (env & c & ph & s & t & _ & _ & _ & Hloc & _); [by vm_compute|by vm_compute|].
  assert (Hcfg : ru_cfg inst1 = cfg0 k8s_corefile) by by vm_compute. rewrite Hcfg in Hloc.
  assert (Hp : q_phase query1 ≠ Arrived) by by vm_compute.
  specialize (Hloc "fab"). rewrite decide_False in Hloc by exact Hp.
  apply Hloc. cbn [moved q_zone]. rewrite Hz. by destruct (q_phase query1).
Defined.

(** The watcher has reported. *)
Definition proc2 : proc := (outcome proc0 (served0 ++ [DoRun 1 CallOnReady])).2.

Lemma process_gauge_witness :
  resolverReady (pr_vars proc2) = 1 ∧
  ∃ gen i, pr_insts proc2 !! gen = Some i ∧ reported_ready i ∧ ru_stopped i = false.
Proof.
  assert (Hrun : prun (InClusterOps0 := in_cluster) tt
    ([StartK8s] ++ (outcome proc0 (served0 ++ [DoRun 1 CallOnReady])).1) proc2).
  { apply outcome_prun; [apply proc0_run|by vm_compute]. }
  assert (Hone : resolverReady (pr_vars proc2) = 1) by by vm_compute. split; [exact Hone|].
  destruct (process_gauge (InClusterOps0 := in_cluster) tt _ proc2 Hrun) as [_ Hord].
  destruct Hord as [_ [Hgauge _]].
  - assert (Has : ([StartK8s] ++ (outcome proc0 (served0 ++ [DoRun 1 CallOnReady])).1) =
      ([] ++ [StartK8s]) ++ [CacheSync 1] ++ [OnReady 1]) by by vm_compute.
    rewrite Has, app_assoc. eapply or_snoc; [eapply or_snoc; [eapply or_snoc; [apply or_nil|..]|..]|..];
      try (by vm_compute); cbn.
    split; [|by intros i [= <-]]. refine (bool_decide_unpack (map_Forall (fun g i => i_phase i = Marked → g < 1) _) _).
    by vm_compute.
  - destruct (Hgauge Hone) as (gen & i & Hi & Hr & Hs & _). by exists gen, i.
Defined.

(** A zone is declared while the gauge says 0: between the sync and [OnReady] the
    watcher already resolves, and a query that arrives then declares its zone to
    central although resolver_ready is still 0. *)
Example declares_before_ready :
  ∃ as_ p i ov ans, prun (InClusterOps0 := in_cluster) tt as_ p ∧ resolverReady (pr_vars p) = 0 ∧
    pr_insts p !! 1 = Some i ∧ (ov, ans) ∈ exchanges (as_trace (w_state (ru_world i))) ∧
    GetZone ov (EDNS0Code (w_agent (ru_world i))) = Some "fab".
Proof.
  eexists _, (outcome proc0 (served0 ++ [DoQuery 1 (0%nat, 2); DoQuery 1 (0%nat, 3); DoQuery 1 (0%nat, 4)])).2,
    _, _, _.
  split; [apply outcome_prun; [apply proc0_run|by vm_compute]|].
  split; [by vm_compute|]. split; [by vm_compute|]. split; [cbn; by left|]. by vm_compute.
Qed.

(** Two set-ups over counted sources; the first instance is shut down. *)
#[local] Abbreviation counted_proc := (proc (Source := string) (Tls := string * string) (Wd := unit * Z) (W := unit)).

Definition counted_setup (p : counted_proc) (corefile : lines) : counted_proc :=
  match Agent_setup (H3 := source_counting) (InClusterOps0 := in_cluster) order0 "" corefile (pr_dial p) with
  | Some (Ok inst, _, w') =>
      match ai_resolver inst with
      | Some r =>
          set_inst (with_dial p w') (next_generation (pr_vars p)) (resolverGeneration (next_generation (pr_vars p)))
            (new_instance (cfg0 corefile) inst r tt 0)
      | None => p
      end
  | _ => p
  end.

(** What that is to the gauge, when it succeeds. *)
Definition setup_kind (p : counted_proc) (corefile : lines) : option ReadyGauge.action :=
  match Agent_setup (H3 := source_counting) (InClusterOps0 := in_cluster) order0 "" corefile (pr_dial p) with
  | Some (Ok inst, _, _) =>
      if Agent_parseConfig "" corefile is Some (Ok _) then start_action <$> ai_resolver inst else None
  | _ => None
  end.

Lemma counted_setup_step p corefile a :
  setup_kind p corefile = Some a →
  pstep (SpiffeOps0 := source_counting) (InClusterOps0 := in_cluster) p [a] (counted_setup p corefile).
Proof.
  unfold setup_kind, counted_setup.
  destruct (Agent_setup _ _ _ _) as [[[[inst|e] effects] w']|] eqn:Hs; [|done|done].
  assert (Hcfg : ∀ cfg, Agent_parseConfig "" corefile = Some (Ok cfg) → cfg0 corefile = cfg)
    by (unfold cfg0; by intros cfg ->).
  destruct (Agent_parseConfig "" corefile) as [[cfg|]|] eqn:Hp; [|done|done]. rewrite (Hcfg cfg) by done.
  destruct (ai_resolver inst) as [r|] eqn:Hr; [|done]. intros [= <-].
  by eapply (ps_setup (SpiffeOps0 := source_counting) (InClusterOps0 := in_cluster)).
Qed.

Definition counted0 : counted_proc := counted_setup (counted_setup (pstart (tt, 0)) k8s_corefile) vm_corefile.
Definition counted1 : counted_proc := (outcome (SpiffeOps0 := source_counting) counted0 [DoShutdown 1]).2.

Lemma counted1_run : ∃ as_, length as_ = 3%nat ∧
  prun (SpiffeOps0 := source_counting) (InClusterOps0 := in_cluster) (tt, 0) as_ counted1.
Proof.
  eexists ((([] ++ [StartK8s]) ++ [StartVM]) ++ [Cancel 1]). split; [done|].
  apply (outcome_prun (SpiffeOps0 := source_counting) (InClusterOps0 := in_cluster) _ _ counted0 [DoShutdown 1]);
    [|by vm_compute].
  eapply pr_snoc; [eapply pr_snoc; [apply pr_nil|]|]; apply counted_setup_step; by vm_compute.
Qed.

Lemma process_sources_witness :
  (pr_dial counted1).2 = zsum_map held_source (pr_insts counted1) ∧ (pr_dial counted1).2 = 1.
Proof.
  split; [|by vm_compute]. destruct counted1_run as (as_ & Hlen & Hrun).
  apply (process_sources (InClusterOps0 := in_cluster) tt as_ counted1 Hrun). rewrite Hlen. lia.
Defined.
End AgentSystemWitnesses.
