(* ===== verification/WholeSystem.v ===== *)
(** * The whole system: agents and central

    An agent's process (AgentSystem) and central's (CentralProcess) put together over
    the network between them. [Network] states what mutual TLS, HTTP and CoreDNS's
    server do: who answers under central's SPIFFE ID is central's process, in some state
    it can be in; it got the query as sent, over a connection whose client certificate is
    the agent's; and what comes back is what its plugin chain answered. The states of
    central at different exchanges need not be related: it may poll, reload and restart
    in between. *)

From S2P Require Import Prelude GoStd GoUrl NetIP DnsLib EdnsZone Registry Poller Decision.
From S2P Require Import Identity Central PodZone PodWatch ZoneCache Agent AgentConcurrent Directives.
From S2P Require Import ReadyGauge DohUpstream EndToEnd Corefile CentralSetup CentralSystem CentralProcess.
From S2P Require Import AgentSetup AgentSystem.
Import Strings.

Open Scope Z_scope.

(** What CoreDNS's server sends for a query, given the result and the effects of the
    handler: what it wrote; when nothing was written and nothing handed on, an empty
    reply with the code returned; else whatever the next plugin answers. *)
Definition server_reply (m : Msg) (res : Z * option string) (t : list event) (reply : Msg) : Prop :=
  match written t, delegated t with
  | [a], _ => reply = a
  | [], [] => Rcode reply = res.1 ∧ Answer reply = [] ∧ ∀ q, Questions m = [q] → Questions reply = [q]
  | _, _ => True
  end.

Section whole.
(** The agent's side, then central's. *)
Context {C ID Source Tls Wd RestConfig KubeClient Request Response W : Type}.
Context `{Controller C, Unicode, UrlLib, !LruOps key entry, !SpiffeOps ID Source Tls Wd}.
Context `{!InClusterOps RestConfig KubeClient, !DnsOps, !RequestOps, !HttpOps Tls Request Response W}.
Context {Handler CID CSource Creds Conn CWd E CW : Type}.
Context `{!GrpcOps CID CSource Creds Conn CWd, !PluginOps Handler, !EntryLister E CW}.

(** [central_id] is central's SPIFFE ID, [svid source] the ID of a source's certificate,
    [cw] the state central's process starts in, and [central w] what the process has seen
    and is in the world [w], with the instance that then serves. *)
Class Network (central_id : ID) (svid : Source → string) (cw : CWd)
    (central : W → list (nat * label) * cproc (Handler := Handler) (Source := CSource) (Conn := Conn)
                   (W := CW) (Wd := CWd) * nat) : Prop := {
  net_reach w : ∃ cmds, cexecs (C := C) (cstart cw) cmds = Some (central w).1;
  net_pinned source c m req w resp w1 reply w2 :
    hc_TLS (c_hc c) = MTLSClientConfig (W := Wd) source central_id →
    NewRequest (c_url c) m = Ok req → Do (c_hc c) req w = (Ok resp, w1) → StatusCode resp = StatusOK →
    ResponseToMsg resp w1 = (Ok reply, w2) →
    let '(_, p, k) := central w in
    ∃ r ctx wr res t, cp_insts p !! k = Some r ∧
      ServeDNS (handler (cr_inst r) (cr_next r) (state_of r (cp_gauges p))) ctx wr m [] = Some (res, t) ∧
      peer_id ctx wr = Some (svid source) ∧ server_reply m res t reply;
}.

Section composed.
Context (central_id : ID) (svid : Source → string) (cw : CWd).
Context (central : W → list (nat * label) * cproc (Handler := Handler) (Source := CSource) (Conn := Conn)
                       (W := CW) (Wd := CWd) * nat).
Context `{!Network central_id svid cw central, !DnsLaws, !RequestLaws, !LruLaws key entry}.

(** What a client of zone [src] may be told about a name by a plugin [z] whose directory
    is [dir]: no address but the gateway of the name's zone, if that is another one. *)
Definition routed (z : ZoneDNS (Handler := Handler)) (dir : option (list Entry)) (src : string)
    (rv m : Msg) : Prop :=
  ∀ dest, located dir (req_Name rv) dest → dest ≠ src →
    match Gateway (z_Zones z) dest with
    | Some gw => Rcode m = RcodeSuccess ∧
        (Addr_Zone gw = "" → map Body (Answer m) = map Body (gateway_record z rv gw)) ∧
        (Addr_Zone gw ≠ "" → Forall no_address (map Body (Answer m)))
    | None => Rcode m = RcodeServerFailure ∧ Answer m = []
    end.

(** [m], for a client of zone [src] that asked [rv], is what central's serving instance, as
    it is in the world [w], decides; provided it uses the option code [code] and lets the
    agent with the ID [agent] speak. *)
Definition decided_in (w : W) (code : Z) (agent src : string) (rv m : Msg) : Prop :=
  let '(ls, p, k) := central w in
  ∃ r, cp_insts p !! k = Some r ∧
    let z := handler (cr_inst r) (cr_next r) (state_of r (cp_gauges p)) in
    (Identity.code (z_Identity z) = code → agent ∈ authorized (z_Identity z) →
     routed z (last_listing None (labels_of k ls)) src rv m).

(** The specification's directory is the last listing. *)
Lemma spec_directory cfg (next : option Handler) dir ls dir' :
  run (spec_step cfg next) dir ls dir' → dir' = last_listing dir ls.
Proof.
  induction 1 as [|dir l dir1 ls dir2 Hst _ ->]; [done|]. cbn. by destruct Hst.
Qed.

(** One exchange. *)
Lemma exchange_decided (c : Client Tls) source ov up av src code :
  hc_TLS (c_hc c) = MTLSClientConfig (W := Wd) source central_id →
  (Exchange (Upstream := client_upstream c) ov up).1 = Ok (Some av) → address_query ov →
  GetZone ov code = Some src → decided_in up code (svid source) src ov av.
Proof.
  intros Htls Hex Haddr Hdecl. cbn in Hex.
  destruct (Client_Exchange c ov up) as [[av'|] w'] eqn:Hce; [|done]. cbn in Hex. simplify_eq.
  apply Client_Exchange_spec in Hce as (req & resp & w1 & reply & Hreq & Hdo & Hst & Hm & ->).
  pose proof (net_pinned _ _ _ _ _ _ _ _ _ Htls Hreq Hdo Hst Hm) as Hnet.
  destruct (net_reach up) as [cmds Hrun]. unfold decided_in. destruct (central up) as [[ls p] k].
  destruct Hnet as (r & ctx & wr & res & t & Hk & Hs & Hpeer & Hrep). exists r. split; [done|].
  intros <- Hauth dest Hloc Hne. cbn in Hrun.
  destruct (cexecs_refines cw cmds ls p k r Hrun Hk) as (cc & ccfg & zones & dir & _ & Hb & Hsp & Hd).
  apply spec_directory in Hsp. rewrite <-Hsp in Hloc. destruct Hb as [Hn Hid Hz Httl Hok].
  unfold handler in *. cbn in Hdecl, Hauth |- *. rewrite Hid in Hdecl, Hauth. rewrite Hz.
  apply NewConfig_authorized in Hauth. unfold Gateway. rewrite New_gw.
  destruct (request_question (with_Id ov 0) ov eq_refl) as (Hqt & _ & Hname).
  edestruct (ServeDNS_promised ccfg (cr_next r) dir (state_of r (cp_gauges p))) as [Hfor _]; [..|exact Hs|]; try done.
  { intros zone gw Hg. by apply (ok_gateways ccfg Hok) in Hg as [_ ?]. }
  apply peer_id_spec in Hpeer as (leaf & rest & u & Hcerts & Huri & Hsch & Hu).
  destruct (Hfor dest) as [Hdel Hgw].
  { split; [unfold address_query; by rewrite Hqt|]. exists src. split; [|by rewrite Hname].
    split; [|by rewrite (GetZone_Extra _ ov)]. exists leaf, rest, u. split_and!; try done. by rewrite Hu. }
  unfold server_reply in Hrep. destruct (gateways ccfg !! dest) as [gw|].
  - destruct Hgw as (-> & m' & Hw & Hauthr & Hans & Hempty). rewrite Hw in Hrep. subst m'.
    destruct Hauthr as (_ & _ & _ & Hrc & _). split; [done|]. split; [|by apply Hempty]. intros Hzone. cbn.
    rewrite (Hans Hzone). unfold gateway_record; cbn. rewrite Hqt, Httl.
    destruct gw; repeat case_match; done.
  - destruct Hgw as [-> Hw]. rewrite Hw, Hdel in Hrep. by destruct Hrep as (? & ? & _).
Qed.

(** The answer to one client is as good for another that asks the same. *)
Lemma decided_relayed w code agent src ov rv av m :
  QType ov = QType rv → req_Name ov = req_Name rv → relays rv av m →
  decided_in w code agent src ov av → decided_in w code agent src rv m.
Proof.
  intros Hty Hname (_ & _ & Hrc & _ & Hbody). unfold decided_in. destruct (central w) as [[ls p] k].
  intros (r & Hk & Hr). exists r. split; [done|]. intros Hc Ha dest Hloc Hne.
  specialize (Hr Hc Ha dest). rewrite Hname in Hr. specialize (Hr Hloc Hne).
  destruct (Gateway _ dest) as [gw|]; destruct Hr as [Hrc' Hans]; (split; [congruence|]).
  - destruct Hans as [Hans Hempty]. rewrite Hbody. split; [|done].
    intros Hz. rewrite (Hans Hz). by apply gateway_record_Body.
  - rewrite Hans in Hbody. by apply map_eq_nil in Hbody.
Qed.

(** C1: no client is ever told the address of a name across zones. In every state of
    an agent's process, whatever reloads, watchers, polls, cached answers and other
    queries came before, at either end, take any address query whose client the agent
    has found in zone [src], the agent being configured with central's ID: its next
    step succeeds, and whatever it writes to the client is the answer of one of the
    exchanges this instance has made, to a query that declared [src]. If the instance
    of central that served it, as it was at that exchange, uses the agent's option
    code and authorizes the agent's certificate, then for a name that its last
    complete listing put in another zone the client gets the gateway of that zone and
    nothing else, if one without an IPv6 zone is configured; a reply in which no record
    carries an address, if the gateway is configured with an IPv6 zone; and a failure
    without any record, if the zone has no gateway. *)
Theorem no_direct_answer w as_ p gen i j q now :
  prun w as_ p → pr_insts p !! gen = Some i → w_queries (ru_world i) !! j = Some q →
  address_query (q_rv q) →
  FromString (Tls := Tls) (Source := Source) (W := Wd) (a_centralSPIFFEID (ru_cfg i)) = Ok central_id →
  let code := a_edns0Code (ru_cfg i) in
  ∃ ph s t, phase_step (H4 := client_upstream (ru_client i)) (w_agent (ru_world i)) (q_w q) (q_r q) now (q_phase q)
      (w_state (ru_world i)) = Some (ph, s) ∧
    as_trace s = as_trace (w_state (ru_world i)) ++ t ∧
    ∀ src m, q_zone (moved (w_agent (ru_world i)) q ph) = Some src → m ∈ wrote t →
      ∃ k ov av up, exchanges (as_trace s) !! k = Some (ov, Some av) ∧
        replays (H4 := client_upstream (ru_client i)) (ru_up0 i) (take k (exchanges (as_trace s))) up ∧
        GetZone ov code = Some src ∧ relays (q_rv q) av m ∧
        decided_in up code (svid (ru_source i)) src (q_rv q) m.
Proof.
  intros Hrun Hi Hj Haddr Hcid code.
  destruct (prun_query w as_ p gen i j q now Hrun Hi Hj) as (n & cw0 & ph & s & cw' & t & Hok & Hs & Hsp & _).
  destruct (io_client _ _ Hok) as (id & Hid & Htls). rewrite Hcid in Hid. injection Hid as <-.
  exists ph, s, t. split; [done|]. split; [apply Hsp|].
  intros src m Hsrc Hm. destruct (sp_wrote _ _ _ _ _ _ _ _ _ Hsp m Hm) as (av & Hfc & Hrel).
  rewrite Hsrc in Hfc. cbn in Hfc, Hrel. destruct Hfc as (rv' & ov & Hex & Hdecl & _ & Hqs & Hty & Hnm).
  rewrite !req_Name_lower in Hnm. destruct (request_question ov rv' Hqs) as (Hty' & _ & Hnm').
  apply list_elem_of_lookup in Hex as [k Hk].
  destruct (phase_step_faithful (H4 := client_upstream (ru_client i)) _ _ _ _ _ _ _ _ Hs) as (t' & Ht' & Hrp').
  pose proof (replays_app _ _ _ _ _ (io_replay _ _ Hok) Hrp') as Hrp. rewrite <-exchanges_app, <-Ht' in Hrp.
  destruct (replays_lookup _ _ _ _ _ _ Hrp Hk) as (up & Hup & Hx).
  exists k, ov, av, up. split_and!; [done..|].
  apply (decided_relayed _ _ _ _ ov _ av); [congruence|congruence|done|].
  apply (exchange_decided (ru_client i)); [done|done| |done]. unfold address_query. by rewrite Hty', Hty.
Qed.
End composed.
End whole.

(** ** Witnesses *)
Module WholeSystemWitnesses.
Import CorefileReference UrlReference DnsLib.Reference LruReference IdentityWitnesses CentralWitnesses.
Import CentralSetupWitnesses CentralSystemWitnesses CentralProcessWitnesses.
Import DohUpstreamWitnesses AgentSetupWitnesses.

(** Central before its first good poll, and after. *)
Definition history (w : nat) : list (CentralProcess.command (C := lines) (Handler := unit) (W := Z)) :=
  match w with
  | O => [setup0 0; CentralProcess.DoStartup 0; DoPoll 0; DoWrite 0]
  | S _ => served
  end.

Definition central1 (w : nat) := (CentralProcessWitnesses.outcome tt (history w), 0%nat).
Definition serving (w : nat) := inst_at (central1 w).1.2 0.

Lemma serving_ok w : cp_insts (central1 w).1.2 !! (central1 w).2 = Some (serving w).
Proof. by destruct w; vm_compute. Qed.

Definition plugin (w : nat) : ZoneDNS (Handler := unit) :=
  handler (cr_inst (serving w)) (cr_next (serving w)) (state_of (serving w) (cp_gauges (central1 w).1.2)).

Definition reply_of (w : nat) (m : Msg) : result string Msg :=
  match ServeDNS (plugin w) agent_ctx plain_writer m [] with
  | Some (res, t) =>
      match written t, delegated t with
      | [a], _ => Ok a
      | [], [] => Ok (with_Rcode (SetReply zero_Msg m) res.1)
      | _, _ => Err "handed on"
      end
  | None => Err "panic"
  end.

(** Every exchange finds central one state further. *)
#[export] Instance network1 : HttpOps (string * string) Msg Msg nat := {|
  NewRequest _ m := Ok m;
  Do _ req w := (reply_of w req, S w);
  StatusCode _ := StatusOK;
  ResponseToMsg resp w := (Ok resp, w);
  CloseBody _ w := w;
|}.

Definition agent_id : string := "spiffe://example.org/ns/dns/sa/agent".

#[export] Instance network1_ok :
  Network (C := lines) "spiffe://example.org/central" (fun _ => agent_id) tt central1.
Proof.
  split.
  - intros w. exists (history w). cbn. rewrite (surjective_pairing (CentralProcessWitnesses.outcome _ _)).
    apply outcome_runs. by destruct w; vm_compute.
  - intros source c m req w resp w1 reply w2 _ [= <-] Hdo _ [= <- <-]. cbn in Hdo.
    injection Hdo as Hr <-. unfold reply_of in Hr.
    destruct (ServeDNS (plugin w) agent_ctx plain_writer m []) as [[res t]|] eqn:Hs; [|done].
    pose proof (serving_ok w) as Hk. unfold plugin in Hs. destruct (central1 w) as [[ls p] k]. cbn in Hk, Hs.
    exists (serving w), agent_ctx, plain_writer, res, t. split; [exact Hk|].
    split; [exact Hs|]. split; [by vm_compute|]. unfold server_reply.
    destruct (written t) as [|a [|b l]]; [|by simplify_eq|done]. destruct (delegated t); [|done].
    simplify_eq. split_and!; [done|done|]. intros q Hq. cbn. by rewrite Hq.
Qed.

(** A machine of zone "office". *)
Definition office_corefile : lines :=
  block (["mode"; "vm"] :: ["zone"; "office"] :: common "https://central").

Definition office_instance : agent_instance string (string * string) :=
  match Agent_setup AgentSystemWitnesses.order0 "" office_corefile tt with
  | Some (Ok inst, _, _) => inst
  | _ => AgentSystemWitnesses.built0 vm_corefile
  end.

Definition instance0 : AgentSystem.running :=
  new_instance (AgentSystemWitnesses.cfg0 office_corefile) office_instance (inl (NewStaticResolver "office")) 0%nat 0.
Definition proc0 : proc (W := nat) := set_inst (pstart tt) (next_generation vstart) 1 instance0.

Lemma office_run : prun tt [StartVM] proc0.
Proof.
  apply (pr_snoc tt [] (pstart tt) [StartVM]); [apply pr_nil|].
  assert (Hs : ∃ effects, Agent_setup AgentSystemWitnesses.order0 "" office_corefile tt =
    Some (Ok office_instance, effects, tt)) by (eexists; by vm_compute).
  destruct Hs as [effects Hs].
  eapply (ps_setup (pstart tt) AgentSystemWitnesses.order0 "" office_corefile
    (AgentSystemWitnesses.cfg0 office_corefile) office_instance effects tt (inl (NewStaticResolver "office")));
    [by vm_compute|exact Hs|by vm_compute].
Qed.

(** One client asks while central has no listing yet, and fails; the next one is at its
    last step. *)
Definition steps (j : nat) (n : nat) : list AgentSystem.command := replicate n (DoQuery 1 (j, 1)).
Definition asking : list AgentSystem.command :=
  [DoVmReady 1; DoArrive 1 plain_writer asked1] ++ steps 0 4 ++
  [DoArrive 1 plain_writer asked1] ++ steps 1 5.

Definition proc1 : proc := (AgentSystem.outcome proc0 asking).2.
Definition inst1 : AgentSystem.running := default instance0 (pr_insts proc1 !! 1).
Definition query1 : AgentConcurrent.query :=
  default (new_query (w_state (ru_world inst1)) plain_writer asked1) (w_queries (ru_world inst1) !! 1%nat).

(** What its last step writes. *)
Definition written1 : list Msg :=
  match phase_step (H4 := client_upstream (ru_client inst1)) (w_agent (ru_world inst1)) (q_w query1)
      (q_r query1) 2 (q_phase query1) (w_state (ru_world inst1)) with
  | Some (_, s) => wrote (drop (length (as_trace (w_state (ru_world inst1)))) (as_trace s))
  | None => []
  end.

Lemma no_direct_answer_witness :
  map (fun m => map Body (Answer m)) written1 = [[RD_A [10; 0; 0; 1]]] ∧
  ∀ m, m ∈ written1 → ∃ up, decided_in central1 up DefaultCode agent_id "office" asked1 m.
Proof.
  split; [by vm_compute|]. intros m Hm.
  assert (Hq : w_queries (ru_world inst1) !! 1%nat = Some query1) by by vm_compute.
  assert (Hz : q_zone query1 = Some "office") by by vm_compute.
  assert (Hrv : q_rv query1 = asked1) by by vm_compute.
  assert (Hrank : rank (q_phase query1) = 1%nat) by by vm_compute.
  destruct (no_direct_answer "spiffe://example.org/central" (fun _ => agent_id) tt central1
    tt ([StartVM] ++ (AgentSystem.outcome proc0 asking).1) proc1 1 inst1 1 query1 2)
    as (ph & s & t & Hs & Ht & Hall).
  - apply outcome_prun; [exact office_run|by vm_compute].
  - by vm_compute.
  - exact Hq.
  - rewrite Hrv. left. by vm_compute.
  - by vm_compute.
  - unfold written1 in Hm. rewrite Hs, Ht, drop_app_length in Hm.
    destruct (Hall "office" m) as (k & ov & av & up & _ & _ & _ & _ & Hd).
    + cbn [moved q_zone]. rewrite Hz. by destruct (q_phase query1).
    + exact Hm.
    + assert (Hc : a_edns0Code (ru_cfg inst1) = DefaultCode) by by vm_compute.
      rewrite Hrv, Hc in Hd. exists up. exact Hd.
Defined.
End WholeSystemWitnesses.
